(* ===== verification/_CoqProject ===== *)
-Q . S2P
Prelude.v
GoStrings.v
Radix.v
DnsTypes.v
GoText.v
Zone.v
Geo.v
IpSelect.v
Dnssec.v
Redis.v
Store.v
Request.v
TestHelpers.v
Handler.v
HandlerFacts.v
HandlerRun.v
DataHandler.v
DataHandlerFacts.v
Updater.v
ZoneLoads.v
Lifecycle.v
RateLimit.v
LimiterRuns.v
WorkerPool.v
Upstream.v
SingleFlight.v
Config.v
Resolver.v
TestCase.v
EndToEnd.v
PerfGen.v
PerfBulk.v
PerfEndToEnd.v
QuerySource.v
QueryTool.v
QueryRun.v
Health.v
HealthService.v
HealthMain.v
Sql.v
Database.v
DatabaseFacts.v
DatabaseIndex.v
Api.v
ApiServer.v
Examples.v
ExamplesRedis.v
ExamplesStore.v
ExamplesEndToEnd.v
ExamplesPerf.v
ExamplesTools.v
ExamplesNet.v
ExamplesServer.v
ExamplesApi.v
