(* ===== verification/Prelude.v ===== *)
(** * z42: an authoritative DNS server over redis, with its API

    z42 answers DNS queries from zones kept in redis. Its parts, and the files of
    this development that model them:

    - the resolver: [cmd/resolver/resolver.go] hands a query to
      [internal/handler/handler.go] (request context in [request.go]), which walks
      CNAME chains, finds delegations and wildcards, filters and orders addresses
      ([internal/geotools], [pkg/geoip]), and signs ([internal/dnssec]);
    - the data: record sets and zones ([internal/types]), kept in redis through
      [internal/storage/data_handler.go] and [pkg/hiredis];
    - the rate limiter ([pkg/ratelimit]), the upstream client
      ([internal/upstream]), the health checker ([internal/healthcheck] with
      [internal/storage/stat_handler.go]);
    - the HTTP API over MySQL ([internal/api]);
    - the three programs of [cmd], their configuration and their start and stop;
    - the tools: the load generator and load test of [tools/perf], the query tool of
      [tools/query], and the comparison of answers in [internal/test].

    ** Files

    - [Prelude]: results [res E A] for [(T, error)], the state monad [M S] with
      [try]/[must] for the early returns, 64-bit integers ([wrap64]), invariants of
      stateful code ([keeping]), lists.
    - [GoStrings]: Go strings as byte sequences; the functions of [strings],
      [strconv] and the rune conversions that the source calls. [GoText]: lines,
      fields and the formats of numbers that the tools read and write.
    - [Radix]: the interface [IRadix] of the immutable radix tree, with an
      implementation by association lists that shows its laws can be met.
    - [DnsTypes]: [dns_types.go]; record sets, their conversion to records, TXT
      splitting, RRset grouping.
    - [Zone]: [zone.go]; the tree of reversed names and [FindLocation].
    - [Geo], [IpSelect]: [geoip.go], [geotools.go]; [filter] and [orderIps] of
      [handler.go].
    - [Dnssec]: [dnssec.go]; NSEC bitmaps and [SignResponse].
    - [Redis]: [hiredis.go]; commands and scans over a [Server], the interface
      [RedisOps]/[RedisSpec] for the other parts, and [SubscribeEvent] as a step
      relation (Module [Subscribe]).
    - [Store]: the interface [DataStore]/[Outside] through which the handler sees
      the data handler, the clock and the upstream client; simulation between
      stores ([simulates]) and postconditions ([post]).
    - [Request], [Handler]: [request.go] and [HandleRequest] with its helpers, over
      any [DataStore]. [HandlerFacts] holds what is true whatever the store
      answers, [HandlerRun] what the handler computes over a fixed content.
    - [DataHandler], [DataHandlerFacts]: [data_handler.go] over [RedisOps] and two
      caches; its instance [dh_store] of [DataStore]. [Updater]: the goroutine of
      [NewDataHandler] beside the world, step by step. [ZoneLoads]: the calls of
      [GetZone] for one zone interleaved, with the load they share. [SingleFlight]:
      the same for record sets and upstream queries, whose functions are trees of
      atomic operations. [Lifecycle]: the goroutines that wait on redis, and
      [ShutDown].
    - [RateLimit]: [limiter.go], one call at a time; [LimiterRuns]: its calls
      interleaved, over a cache of pointers and locks. [Upstream]: [upstream.go].
    - [WorkerPool]: [workerpool.go] as a step relation on channels and goroutines.
    - [Config]: the configurations of the programs, [LoadConfig] and [Verify], the
      listeners of [internal/server]. [Resolver]: [cmd/resolver/resolver.go].
    - [TestHelpers], [TestCase], [EndToEnd]: [internal/test/helpers.go] and
      [internal/handler/testcase.go]; answers compared with what is expected, zones
      written from documents, and their way to the answers.
    - [PerfGen], [PerfBulk], [PerfEndToEnd]: [tools/perf], a generated load and the
      test that asks it, over the data handler and the request handler.
    - [QuerySource], [QueryTool], [QueryRun]: [tools/query], where its queries come
      from, what is done with the answers, and its run over the worker pool.
    - [Health]: [stat_handler.go], [healthcheck.go], [types/stats.go].
      [HealthService]: [NewHealthcheck], [Start] and [ShutDown] with the pool and the
      data handler as one step relation. [HealthMain]: [cmd/healthchecker], whose
      loop over the signals is interleaved with the service.
    - [Sql]: the statements, schema ([scripts/schema.sql]) and promises of MySQL.
      [Database], [DatabaseFacts], [DatabaseIndex]: [internal/api/database], what it
      protects, and its tables as an index by name. [Api]: [internal/api/handlers].
      [ApiServer]: [internal/api/server], the middleware, and [cmd/api].
    - [Examples], [ExamplesRedis], [ExamplesStore], [ExamplesEndToEnd],
      [ExamplesPerf], [ExamplesTools], [ExamplesNet], [ExamplesServer],
      [ExamplesApi]: concrete instances of every interface, and each theorem at work
      on them.

    A struct is a Record and a method a Definition with its name (a prefix tells
    two methods of one name apart, as in [db_GetZone]). A handler that mutates its
    context returns the new one. A [for] loop is a Fixpoint over the list it ranges
    over. Logging is left out.

    ** What the theorems show

    - Names: [FindLocation] computes the classification of RFC 4592 on the trees
      that [NewZone] builds.
    - Answers: addresses, NXDOMAIN, empty non-terminals and NODATA are answered as
      stated by [resolve_address], [resolve_nxdomain], [resolve_empty_nonterminal],
      [resolve_nodata]; CNAME chains are followed, circles end
      ([resolve_follows_chain], [resolve_cname_cycle]); the shape of the answer
      section, of referrals and of denials, the response codes and the absence of
      panics hold for every store ([HandlerFacts]).
    - Selection: [orderIps] rotates, weighted selection is proportional, the
      geographic filters keep what they should. Signing adds one signature a set.
    - Storage: the client provides [RedisSpec] over a documented server
      ([hiredis_spec]); in every reachable state of the data handler cached values
      have their types and zones their keys; what is written is read back; and the
      handler over the data handler answers what the content of redis says
      ([server_answers_content]), which connects the two halves.
      From a document to an answer: what [DefaultInitialize] writes is what
      [HandleRequest] answers ([documents_answered]). The updater serves the zones
      that redis lists once it rests ([settled_is_current]), except for changes
      notified during a reload ([update_lost]); a zone that is served was read from
      redis by one load, at most [ZoneCacheTimeout] ago ([zone_is_recent]), but it
      may mix what redis held before and after a change ([torn_zone_stays]).
      A record set that is answered is what redis held while it was read
      ([rrset_answers_held]), which may be before the call began if the call joined
      another's read ([joined_answer_is_old]); every call that has begun can return
      ([call_can_return]). A call of [ShutDown] returns unless a subscription was
      told to stop before it was connected ([shutdown_fate]).
    - Limits: [resolver_rate_bound] bounds what a client can make the resolver do;
      interleaved calls give what serial ones do ([interleaved_is_serial]), except
      that first requests that arrive together are not limited
      ([simultaneous_first_requests]). Upstream: failover order and cache life;
      however queries are interleaved, only configured servers are asked
      ([connections_are_configured]).
    - Health: streaks of verdicts, the filter of addresses, what a walk of
      [Transfer] does to an item ([transfer_ip_spec]); the service loses no job and
      stops ([service_stops]), and is never started by its program
      ([never_started]), which a signal then leaves in its stop for ever
      ([hk_signals]).
    - Jobs: a pool that is not stopped handles every job once and cannot hang
      ([pool_handles_all]); [Stop] always returns ([pool_stop_returns]), without
      waiting for jobs ([stop_loses_job]).
    - Tools: a load that was generated passes its test ([load_test_passes]), with
      names of random letters ([RandomString_letters]); the dump of a redis asks for
      all it holds ([dump_complete]); what is known of two answers when the comparison
      prints nothing ([CompareTool_silent]); what the benchmark calls mean and
      deviation ([bench_mean]); the query tool can come to its end ([can_finish]),
      and reports when all queries have begun ([reported_after_all_begun]), not when
      they have ended ([reported_before_answer]).
    - Programs: the resolver serves what its files say until it is interrupted
      ([main_spec]); what [Verify] checks ([Verify_spec]).
    - API: only requests with a valid token of the owner change tables
      ([api_guards_tables]); signing in needs verification ([signup_verify_login]),
      a token is that of its user until it expires ([login_session]); what was
      created is read back ([posted_is_answered]).

    ** Bounds and fuel

    - [resolve] runs its loop 11 times, as the source's counter does; its end is
      SERVFAIL and part of the behaviour.
    - [findANAME_loop] has the source's bound; [findCAA_loop] has fuel, which
      [findCAA_fuel_enough] shows is never used up.
    - The scans of [Redis] have fuel for the number of pages; [SMembers_ends] shows
      that the pages a server needs are enough, and [None] is an unfinished loop.
    - [random_loop] (in [Database]) skips values by chance and has no bound in the
      source; [None] is a loop that has not ended. [Transfer] runs for ever by
      design; its fuel counts walks.
    - [RandomString] has fuel for the values that are skipped by chance;
      [RandomString_letters] says how much is enough.
    - [depth] of [delete_where] is the longest chain of foreign keys.
    - Runs of goroutines are step relations without a bound; the theorems on them
      speak of all runs, or show that one can go on to the state named.

    ** What is not modelled

    Parameters of the model are the libraries: dns (parsing, signatures, key tags),
    iradix, ristretto, go-cache, redigo, the JSON codec, maxminddb, gin and JWT,
    MySQL, bcrypt, and the network; their assumed behaviour is in the classes named
    [...Laws] and in hypotheses, all instantiated in the Examples. singleflight is
    taken as documented. Left out are floating-point rounding (an abstract arithmetic
    [Float64]), what loggers and progress messages print, the profiling listeners,
    and the constructors of records from text in [internal/test].

    ** Next

    Calls of the whole request handler interleaved with the updater and with each
    other, over the atomic operations of [SingleFlight]. *)
From Stdlib Require Export Ascii.
From stdpp Require Export base tactics option list strings gmap sets fin_maps pretty sorting.

(** ** Results of fallible Go calls

    A Go function returning [(T, error)] is modelled by [res E T]: the error
    alternative carries the error value, the success alternative the result. *)
Inductive res (E A : Type) : Type :=
| Ok (a : A)
| Err (e : E).
Arguments Ok {E A} a.
Arguments Err {E A} e.

#[global] Instance res_eq_dec {E A} `{!EqDecision E, !EqDecision A} : EqDecision (res E A).
Proof. solve_decision. Defined.

(** ** State passing

    Code that reads or writes shared state (redis, caches, the clock) is
    written in the state monad [M S]. *)
Definition M (S A : Type) : Type := S → A * S.

#[global] Instance M_ret {S} : MRet (M S) := λ A a s, (a, s).
#[global] Instance M_bind {S} : MBind (M S) := λ A B f m s, let '(a, s') := m s in f a s'.
#[global] Instance M_fmap {S} : FMap (M S) := λ A B f m s, let '(a, s') := m s in (f a, s').

Definition evalM {S A} (m : M S A) (s : S) : A := (m s).1.
Definition execM {S A} (m : M S A) (s : S) : S := (m s).2.

Declare Scope z42_scope.
Delimit Scope z42_scope with z42.
(** [try x ← m catch f ; k]: run [m]; on an error leave with [f] (the Go
    [if err != nil { ...; return }]), otherwise continue with [k]. *)
Notation "'try' x ← m 'catch' f ; k" :=
  (mbind (λ r, match r with Ok x => k | Err _ => f end) m)
  (at level 10, x name, m at level 100, f at level 100, k at level 200) : z42_scope.
(** [must x ← m ; k]: run [m]; on an error return that error. *)
Notation "'must' x ← m ; k" :=
  (mbind (λ r, match r with Ok x => k | Err e => mret (Err e) end) m)
  (at level 10, x name, m at level 100, k at level 200) : z42_scope.
Open Scope z42_scope.

(** Results are themselves a monad, for pure code that can fail. *)
#[global] Instance res_ret {E} : MRet (res E) := λ A, Ok.
#[global] Instance res_bind {E} : MBind (res E) := λ A B f r,
  match r with Ok a => f a | Err e => Err e end.
#[global] Instance res_fmap {E} : FMap (res E) := λ A B f r,
  match r with Ok a => Ok (f a) | Err e => Err e end.
Definition from_ok {E A} (d : A) (r : res E A) : A := match r with Ok a => a | Err _ => d end.
Definition is_ok {E A} (r : res E A) : bool := match r with Ok _ => true | Err _ => false end.

Fixpoint map_res {E A B} (f : A → res E B) (l : list A) : res E (list B) :=
  match l with
  | [] => Ok []
  | x :: l => y ← f x; ys ← map_res f l; Ok (y :: ys)
  end.

(** ** Machine integers

    Go's [int] and [int64] (time.Duration) are 64-bit two's complement. *)
Definition wrap64 (x : Z) : Z := ((x + 2 ^ 63) `mod` 2 ^ 64 - 2 ^ 63)%Z.
Definition is_int64 (x : Z) : Prop := (- 2 ^ 63 ≤ x < 2 ^ 63)%Z.

Create HintDb z42 discriminated.
Create Rewrite HintDb z42.

Lemma wrap64_id x : is_int64 x → wrap64 x = x.
Proof. unfold is_int64, wrap64. intros. rewrite Z.mod_small; lia. Qed.

Lemma wrap64_range x : is_int64 (wrap64 x).
Proof.
  unfold is_int64, wrap64.
  pose proof (Z.mod_pos_bound (x + 2 ^ 63) (2 ^ 64) ltac:(lia)). lia.
Qed.

#[export] Hint Resolve wrap64_range : z42.
Lemma wrap64_add x y : wrap64 (wrap64 x + y) = wrap64 (x + y).
Proof.
  unfold wrap64. f_equal. replace ((x + 2 ^ 63) `mod` 2 ^ 64 - 2 ^ 63 + y + 2 ^ 63)%Z with ((x + 2 ^ 63) `mod` 2 ^ 64 + y)%Z by lia.
  rewrite Zplus_mod_idemp_l. f_equal. lia.
Qed.

(** ** Running monadic code *)
Lemma run_ret {S A} (a : A) (s : S) : (mret a : M S A) s = (a, s).
Proof. done. Qed.
Lemma run_bind {S A B} (m : M S A) (f : A → M S B) s :
  (m ≫= f) s = f (m s).1 (m s).2.
Proof. unfold mbind, M_bind. by destruct (m s). Qed.
Lemma run_fmap {S A B} (m : M S A) (f : A → B) s :
  (f <$> m) s = (f (m s).1, (m s).2).
Proof. unfold fmap, M_fmap. by destruct (m s). Qed.
#[export] Hint Rewrite @run_ret @run_bind @run_fmap : z42.

(** Run a monadic computation as far as its conditions allow. *)
Ltac run := repeat first
  [ progress autorewrite with z42
  | progress cbn [fst snd] in *
  | progress simplify_eq/= ].
Ltac run_cases := repeat (run; case_match); run.

(** ** Invariants of stateful code

    [keeping I m Q]: from a state in [I], [m] ends in a state in [I] with a result
    in [Q]. *)
Definition keeping {S A} (I : S → Prop) (m : M S A) (Q : A → Prop) : Prop :=
  ∀ s, I s → I (m s).2 ∧ Q (m s).1.

Lemma keeping_ret {S A} (I : S → Prop) (a : A) (Q : A → Prop) : Q a → keeping I (mret a) Q.
Proof. by intros ? s. Qed.
Lemma keeping_bind {S A B} (I : S → Prop) (m : M S A) (f : A → M S B) (P : A → Prop) (Q : B → Prop) :
  keeping I m P → (∀ a, P a → keeping I (f a) Q) → keeping I (m ≫= f) Q.
Proof. intros Hm Hf s Hs. rewrite run_bind. destruct (Hm s Hs). by apply Hf. Qed.
Lemma keeping_fmap {S A B} (I : S → Prop) (m : M S A) (f : A → B) (Q : B → Prop) :
  keeping I m (λ a, Q (f a)) → keeping I (f <$> m) Q.
Proof. intros Hm s Hs. rewrite run_fmap. by apply Hm. Qed.
Lemma keeping_mono {S A} (I : S → Prop) (m : M S A) (P Q : A → Prop) :
  keeping I m P → (∀ a, P a → Q a) → keeping I m Q.
Proof. intros Hm HPQ s Hs. destruct (Hm s Hs). auto. Qed.
(** When nothing is claimed of the result of [m]. *)
Lemma keeping_any {S A B} (I : S → Prop) (m : M S A) (f : A → M S B) (Q : B → Prop) :
  keeping I m (λ _, True) → (∀ a, keeping I (f a) Q) → keeping I (m ≫= f) Q.
Proof. intros Hm Hf. eapply keeping_bind; [done|]. auto. Qed.

(** ** Lists *)
(** The part of [l] after the prefix [p], when [p] is one. *)
Fixpoint after_prefix {A} `{!EqDecision A} (p l : list A) : option (list A) :=
  match p, l with
  | [], _ => Some l
  | x :: p, y :: l => if decide (x = y) then after_prefix p l else None
  | _ :: _, [] => None
  end.

Lemma after_prefix_Some {A} `{!EqDecision A} (p l r : list A) :
  after_prefix p l = Some r ↔ l = p ++ r.
Proof.
  revert l. induction p as [|x p IH]; intros l; simpl; [naive_solver|].
  destruct l as [|y l]; [naive_solver|].
  case_decide; subst; rewrite ?IH; naive_solver.
Qed.

Lemma after_prefix_None {A} `{!EqDecision A} (p l : list A) :
  after_prefix p l = None ↔ ¬ p `prefix_of` l.
Proof.
  rewrite eq_None_not_Some. unfold is_Some, prefix.
  by setoid_rewrite after_prefix_Some.
Qed.

Lemma after_prefix_app {A} `{!EqDecision A} (p r : list A) :
  after_prefix p (p ++ r) = Some r.
Proof. by apply after_prefix_Some. Qed.
#[export] Hint Rewrite @after_prefix_app : z42.

(** A fold that only ever adds: an induction principle for [foldl]. *)
Lemma foldl_ind {A B} (P : list B → A → Prop) (f : A → B → A) (l : list B) a :
  P [] a →
  (∀ l1 x a', l1 ++ [x] `prefix_of` l → P l1 a' → P (l1 ++ [x]) (f a' x)) →
  P l (foldl f a l).
Proof.
  intros H0 Hs. induction l as [|x l IH] using rev_ind; [done|].
  rewrite foldl_app. simpl. apply Hs; [done|].
  apply IH. intros l1 y a' Hp. apply Hs. by apply prefix_app_r.
Qed.


Section filter.
Context {A : Type} (P : A → Prop) `{!∀ x, Decision (P x)}.

Lemma filter_none (l : list A) : (∀ x, x ∈ l → ¬ P x) → filter P l = [].
Proof.
  intros Hl. induction l as [|x l IH]; [done|]. rewrite filter_cons, decide_False by set_solver.
  apply IH. set_solver.
Qed.
Lemma filter_all (l : list A) : (∀ x, x ∈ l → P x) → filter P l = l.
Proof.
  intros Hl. induction l as [|x l IH]; [done|]. rewrite filter_cons, decide_True by set_solver.
  f_equal. apply IH. set_solver.
Qed.
Lemma filter_ext_in (Q : A → Prop) `{!∀ x, Decision (Q x)} (l : list A) :
  (∀ x, x ∈ l → P x ↔ Q x) → filter P l = filter Q l.
Proof.
  intros Hl. induction l as [|x l IH]; [done|]. rewrite !filter_cons, IH by set_solver.
  pose proof (Hl x ltac:(set_solver)). by do 2 case_decide; try naive_solver.
Qed.
End filter.
