(* ===== verification/GoStrings.v ===== *)
(** * The Go strings the program works with

    A Go [string] is a sequence of bytes: a Rocq [string], whose characters are
    the bytes. [[]byte(s)] is [bytes s] and [string(b)] is [str b]. The file
    translates the functions of Go's [strings], [strconv] and rune conversions
    that the source calls, with the lemmas the components share. *)
From S2P Require Import Prelude.

Abbreviation byte := ascii.
Abbreviation bytes := String.list_ascii_of_string.
Abbreviation str := String.string_of_list_ascii.

Definition dot : byte := "."%char.
Definition colon : byte := ":"%char.
Definition empty_str : string := EmptyString.

(** ** Runes: [[]rune(s)] and [string(runes)]

    [runes_of] decodes UTF-8 the way Go does: an invalid or truncated sequence
    yields U+FFFD and consumes one byte. [utf8_of] encodes, with U+FFFD for
    surrogates and values beyond U+10FFFF. *)
Definition rune_error : N := 65533.

Definition byte_in (lo hi : N) (b : byte) : bool :=
  (lo <=? N_of_ascii b)%N && (N_of_ascii b <=? hi)%N.
Definition cont (b : byte) : bool := byte_in 128 191 b.
Definition low6 (b : byte) : N := N.land (N_of_ascii b) 63.

Definition lead2 (b0 : byte) : bool := byte_in 194 223 b0.
Definition lead3 (b0 b1 : byte) : bool :=
  (byte_in 224 224 b0 && byte_in 160 191 b1)
  || ((byte_in 225 236 b0 || byte_in 238 239 b0) && cont b1)
  || (byte_in 237 237 b0 && byte_in 128 159 b1).
Definition lead4 (b0 b1 : byte) : bool :=
  (byte_in 240 240 b0 && byte_in 144 191 b1)
  || (byte_in 241 243 b0 && cont b1)
  || (byte_in 244 244 b0 && byte_in 128 143 b1).

Definition rune2 (b0 b1 : byte) : N :=
  N.lor (N.shiftl (N.land (N_of_ascii b0) 31) 6) (low6 b1).
Definition rune3 (b0 b1 b2 : byte) : N :=
  N.lor (N.shiftl (N.land (N_of_ascii b0) 15) 12) (N.lor (N.shiftl (low6 b1) 6) (low6 b2)).
Definition rune4 (b0 b1 b2 b3 : byte) : N :=
  N.lor (N.shiftl (N.land (N_of_ascii b0) 7) 18)
    (N.lor (N.shiftl (low6 b1) 12) (N.lor (N.shiftl (low6 b2) 6) (low6 b3))).

Fixpoint runes_of (l : list byte) : list N :=
  match l with
  | [] => []
  | b0 :: l1 =>
    if (N_of_ascii b0 <? 128)%N then N_of_ascii b0 :: runes_of l1 else
    match l1 with
    | [] => [rune_error]
    | b1 :: l2 =>
      if lead2 b0 && cont b1 then rune2 b0 b1 :: runes_of l2 else
      match l2 with
      | [] => rune_error :: runes_of l1
      | b2 :: l3 =>
        if lead3 b0 b1 && cont b2 then rune3 b0 b1 b2 :: runes_of l3 else
        match l3 with
        | [] => rune_error :: runes_of l1
        | b3 :: l4 =>
          if lead4 b0 b1 && cont b2 && cont b3 then rune4 b0 b1 b2 b3 :: runes_of l4
          else rune_error :: runes_of l1
        end
      end
    end
  end.

Definition cont_byte (n : N) : byte := ascii_of_N (N.lor 128 (N.land n 63)).

Definition utf8_of_rune (r : N) : list byte :=
  if (r <? 128)%N then [ascii_of_N r]
  else if (r <? 2048)%N then [ascii_of_N (N.lor 192 (N.shiftr r 6)); cont_byte r]
  else
    let r := if ((55296 <=? r) && (r <=? 57343) || (1114111 <? r))%N then rune_error else r in
    if (r <? 65536)%N then
      [ascii_of_N (N.lor 224 (N.shiftr r 12)); cont_byte (N.shiftr r 6); cont_byte r]
    else
      [ascii_of_N (N.lor 240 (N.shiftr r 18)); cont_byte (N.shiftr r 12);
       cont_byte (N.shiftr r 6); cont_byte r].

Definition utf8_of (rs : list N) : list byte := rs ≫= utf8_of_rune.

(** A string of 7-bit bytes: what a domain name in presentation format is. *)
Definition ascii7 (s : string) : Prop := Forall (λ b, (N_of_ascii b < 128)%N) (bytes s).
#[global] Instance ascii7_dec s : Decision (ascii7 s) := _.

(** ** Package strings *)
Definition HasPrefix (s p : string) : bool :=
  match after_prefix (bytes p) (bytes s) with Some _ => true | None => false end.
Definition TrimPrefix (s p : string) : string :=
  match after_prefix (bytes p) (bytes s) with Some r => str r | None => s end.
Definition TrimSuffix (s p : string) : string :=
  match after_prefix (reverse (bytes p)) (reverse (bytes s)) with
  | Some r => str (reverse r)
  | None => s
  end.

(** [strings.Contains] *)
Fixpoint contains_list (sub l : list byte) : bool :=
  match after_prefix sub l with
  | Some _ => true
  | None => match l with [] => false | _ :: l => contains_list sub l end
  end.
Definition Contains (s sub : string) : bool := contains_list (bytes sub) (bytes s).

(** [strings.TrimLeft] and [strings.TrimRight] take a set of characters. *)
Fixpoint drop_in (cut l : list byte) : list byte :=
  match l with
  | [] => []
  | b :: l' => if bool_decide (b ∈ cut) then drop_in cut l' else l
  end.
Definition TrimLeft (s cutset : string) : string := str (drop_in (bytes cutset) (bytes s)).
Definition TrimRight (s cutset : string) : string :=
  str (reverse (drop_in (bytes cutset) (reverse (bytes s)))).

(** Cut at the first occurrence of [c]. *)
Fixpoint cut_at (c : byte) (l : list byte) : option (list byte * list byte) :=
  match l with
  | [] => None
  | b :: l' =>
    if decide (b = c) then Some ([], l')
    else match cut_at c l' with Some (x, y) => Some (b :: x, y) | None => None end
  end.

(** [strings.Split(s, c)] for a one-byte separator. *)
Fixpoint split_on (c : byte) (l : list byte) : list (list byte) :=
  match l with
  | [] => [[]]
  | b :: l' =>
    match split_on c l' with
    | [] => [[b]]
    | x :: xs => if decide (b = c) then [] :: x :: xs else (b :: x) :: xs
    end
  end.
Definition Split (s : string) (c : byte) : list string := str <$> split_on c (bytes s).

(** [strings.SplitAfterN(s, c, 2)]. *)
Definition SplitAfter2 (s : string) (c : byte) : list string :=
  match cut_at c (bytes s) with
  | Some (x, y) => [str (x ++ [c]); str y]
  | None => [s]
  end.

(** [strings.ToLower]: bytewise for 7-bit strings; the Unicode tables used for
    any other string are a parameter. *)
Definition lower_byte (b : byte) : byte :=
  if byte_in 65 90 b then ascii_of_N (N_of_ascii b + 32) else b.
Definition ToLower (unicode_lower : string → string) (s : string) : string :=
  if bool_decide (ascii7 s) then str (lower_byte <$> bytes s) else unicode_lower s.

(** [strconv.Itoa] *)
Definition Itoa (n : Z) : string := pretty n.

(** The number of occurrences of a byte. *)
Definition count_byte (c : byte) (l : list byte) : nat := length (filter (c =.) l).

(** ** Lemmas *)
Lemma str_bytes s : str (bytes s) = s.
Proof. apply String.string_of_list_ascii_of_string. Qed.
Lemma bytes_str l : bytes (str l) = l.
Proof. apply String.list_ascii_of_string_of_list_ascii. Qed.
Lemma bytes_inj s1 s2 : bytes s1 = bytes s2 → s1 = s2.
Proof. intros H. by rewrite <-(str_bytes s1), H, str_bytes. Qed.
Lemma bytes_app s1 s2 : bytes (s1 +:+ s2) = bytes s1 ++ bytes s2.
Proof. induction s1; simpl; by f_equal. Qed.
Lemma bytes_nil s : bytes s = [] ↔ s = EmptyString.
Proof. by destruct s. Qed.
#[export] Hint Rewrite str_bytes bytes_str bytes_app : z42.

#[global] Instance bytes_Inj : Inj (=) (=) (λ s : string, bytes s).
Proof. intros ??. apply bytes_inj. Qed.

Lemma str_app l1 l2 : str (l1 ++ l2) = str l1 +:+ str l2.
Proof. apply bytes_inj. by rewrite bytes_app, !bytes_str. Qed.
Lemma string_app_inj_l s s1 s2 : s +:+ s1 = s +:+ s2 → s1 = s2.
Proof. induction s; simpl; intros; simplify_eq; auto. Qed.
Lemma string_app_inj_r s s1 s2 : s1 +:+ s = s2 +:+ s → s1 = s2.
Proof.
  intros H%(f_equal (λ s, bytes s)). rewrite !bytes_app in H.
  by apply app_inj_2, proj1, bytes_inj in H.
Qed.
Lemma string_app_assoc s1 s2 s3 : (s1 +:+ s2) +:+ s3 = s1 +:+ (s2 +:+ s3).
Proof. apply bytes_inj. by rewrite !bytes_app, app_assoc. Qed.
Lemma string_app_nil_r s : s +:+ EmptyString = s.
Proof. apply bytes_inj. by rewrite bytes_app, app_nil_r. Qed.

Lemma ascii7_app s1 s2 : ascii7 (s1 +:+ s2) ↔ ascii7 s1 ∧ ascii7 s2.
Proof. unfold ascii7. by rewrite bytes_app, Forall_app. Qed.

Lemma TrimPrefix_app p s : TrimPrefix (p +:+ s) p = s.
Proof.
  unfold TrimPrefix. by rewrite bytes_app, after_prefix_app, str_bytes.
Qed.
Lemma TrimSuffix_app s p : TrimSuffix (s +:+ p) p = s.
Proof.
  unfold TrimSuffix. rewrite bytes_app, reverse_app, after_prefix_app.
  by rewrite reverse_involutive, str_bytes.
Qed.
Lemma TrimSuffix_cases s p :
  (s = TrimSuffix s p +:+ p) ∨ (TrimSuffix s p = s ∧ ∀ r, s ≠ r +:+ p).
Proof.
  unfold TrimSuffix. destruct (after_prefix _ _) as [r|] eqn:E.
  - left. apply after_prefix_Some in E. apply bytes_inj.
    rewrite bytes_app, bytes_str, <-(reverse_involutive (bytes s)), E.
    by rewrite reverse_app, reverse_involutive.
  - right. split; [done|]. intros r ->. apply after_prefix_None in E. apply E.
    rewrite bytes_app, reverse_app. by apply prefix_app_r.
Qed.
Lemma ascii7_TrimSuffix s p : ascii7 s → ascii7 (TrimSuffix s p).
Proof.
  intros H. destruct (TrimSuffix_cases s p) as [E|[E _]]; [|by rewrite E].
  rewrite E in H. by apply ascii7_app in H as [? _].
Qed.

Lemma cut_at_Some c l x y :
  cut_at c l = Some (x, y) → l = x ++ c :: y ∧ c ∉ x.
Proof.
  revert x. induction l as [|b l IH]; simpl; intros x H; [done|].
  case_decide; simplify_eq; [split; [done|set_solver]|].
  destruct (cut_at c l) as [[x' y']|]; simplify_eq.
  destruct (IH x' eq_refl) as [-> ?]. split; [done|set_solver].
Qed.
Lemma cut_at_None c l : cut_at c l = None ↔ c ∉ l.
Proof.
  induction l as [|b l IH]; simpl; [split; [set_solver|done]|].
  case_decide; subst; [split; [done|set_solver]|].
  destruct (cut_at c l) as [[x' y']|]; [split; [done|]|set_solver].
  intros Hn. apply not_elem_of_cons in Hn as [_ Hn]. by apply IH in Hn.
Qed.

Lemma split_on_no c l : c ∉ l → split_on c l = [l].
Proof.
  induction l as [|b l IH]; simpl; [done|]. intros [? ?]%not_elem_of_cons.
  rewrite IH by done. by case_decide.
Qed.
Lemma split_on_app c x l : c ∉ x → split_on c (x ++ c :: l) = x :: split_on c l.
Proof.
  assert (∀ l, split_on c l ≠ []) as Hne.
  { intros [|b l']; simpl; [done|]. by destruct (split_on c l'); repeat case_decide. }
  induction x as [|b x IH]; simpl; intros Hc.
  - specialize (Hne l). destruct (split_on c l); [done|]. by case_decide.
  - apply not_elem_of_cons in Hc as [? ?]. rewrite IH by done. by case_decide.
Qed.

Lemma utf8_of_rune_ascii b : (N_of_ascii b < 128)%N → utf8_of_rune (N_of_ascii b) = [b].
Proof.
  intros H. unfold utf8_of_rune. apply N.ltb_lt in H. by rewrite H, ascii_N_embedding.
Qed.
Lemma runes_of_ascii l :
  Forall (λ b, (N_of_ascii b < 128)%N) l → runes_of l = N_of_ascii <$> l.
Proof.
  induction 1 as [|b l Hb _ IH]; [done|]. simpl.
  apply N.ltb_lt in Hb. by rewrite Hb, IH.
Qed.
Lemma utf8_of_ascii l :
  Forall (λ b, (N_of_ascii b < 128)%N) l → utf8_of (N_of_ascii <$> l) = l.
Proof.
  unfold utf8_of. induction 1 as [|b l Hb _ IH]; [done|]. csimpl.
  by rewrite utf8_of_rune_ascii, IH.
Qed.

Lemma count_byte_app c l1 l2 : count_byte c (l1 ++ l2) = count_byte c l1 + count_byte c l2.
Proof. unfold count_byte. by rewrite filter_app, length_app. Qed.
Lemma count_byte_cons c b l :
  count_byte c (b :: l) = (if decide (c = b) then 1 else 0) + count_byte c l.
Proof. unfold count_byte. rewrite filter_cons. by case_decide. Qed.
Lemma count_byte_reverse c l : count_byte c (reverse l) = count_byte c l.
Proof. unfold count_byte. by rewrite (reverse_Permutation l). Qed.
Lemma count_byte_0 c l : count_byte c l = 0 ↔ c ∉ l.
Proof.
  unfold count_byte. induction l as [|b l IH]; [split; [set_solver|done]|].
  rewrite filter_cons. case_decide; simpl; set_solver.
Qed.
