(* ===== verification/Radix.v ===== *)
(** * Immutable radix trees, the interface

    [internal/types/zone.go] and [internal/storage/data_handler.go] index names
    with [github.com/hashicorp/go-immutable-radix], which is not part of the
    repository. [IRadix] lists the operations the source calls and
    [IRadixLaws] their documented behaviour; the components are proved against
    this interface. [AList] is an executable implementation used to evaluate
    the model on concrete zones. *)
From S2P Require Import Prelude GoStrings.

(** [New], [Txn.Insert], [Txn.Get] and [Node.LongestPrefix]; keys are byte
    strings, and [None] is the Go result [ok = false]. *)
Class IRadix (T : Type → Type) := {
  New {V} : T V;
  Insert {V} : T V → list byte → V → T V;
  Get {V} : T V → list byte → option V;
  LongestPrefix {V} : T V → list byte → option (list byte * V);
}.

Class IRadixLaws (T : Type → Type) `{!IRadix T} : Prop := {
  Get_New {V} k : Get (New (V:=V)) k = None;
  Get_Insert {V} (t : T V) k v k' :
    Get (Insert t k v) k' = if decide (k = k') then Some v else Get t k';
  LongestPrefix_Some {V} (t : T V) k p v :
    LongestPrefix t k = Some (p, v) →
    p `prefix_of` k ∧ Get t p = Some v
    ∧ ∀ p', p' `prefix_of` k → is_Some (Get t p') → length p' ≤ length p;
  LongestPrefix_None {V} (t : T V) k :
    LongestPrefix t k = None → ∀ p, p `prefix_of` k → Get t p = None;
}.

(** ** An association-list implementation *)
Module AList.

Definition t (V : Type) : Type := list (list byte * V).

Fixpoint get {V} (l : t V) (k : list byte) : option V :=
  match l with
  | [] => None
  | (k', v) :: l => if decide (k' = k) then Some v else get l k
  end.

(** Try the prefixes of [k] from the longest down. *)
Fixpoint longest {V} (l : t V) (k : list byte) (n : nat) : option (list byte * V) :=
  match get l (take n k) with
  | Some v => Some (take n k, v)
  | None => match n with 0 => None | S n => longest l k n end
  end.

#[global] Instance alist_radix : IRadix t := {
  New V := [];
  Insert V l k v := (k, v) :: l;
  Get V l k := get l k;
  LongestPrefix V l k := longest l k (length k);
}.

Lemma longest_Some {V} (l : t V) k n p v :
  longest l k n = Some (p, v) →
  ∃ m, m ≤ n ∧ p = take m k ∧ get l p = Some v
       ∧ ∀ m', m < m' → m' ≤ n → get l (take m' k) = None.
Proof.
  induction n as [|n IH]; simpl; intros H.
  - destruct (get l _) eqn:E; simplify_eq. exists 0. split_and!; [lia|done|done|lia].
  - destruct (get l (take (S n) k)) eqn:E; simplify_eq.
    + exists (S n). split_and!; [lia|done|done|lia].
    + destruct (IH H) as (m & ? & -> & ? & Hm). exists m. split_and!; [lia|done|done|].
      intros m' ??. destruct (decide (m' = S n)) as [->|]; [done|apply Hm; lia].
Qed.

Lemma longest_None {V} (l : t V) k n :
  longest l k n = None → ∀ m, m ≤ n → get l (take m k) = None.
Proof.
  induction n as [|n IH]; simpl; intros H m ?.
  - destruct (get l _) eqn:E; simplify_eq. by replace m with 0 by lia.
  - destruct (get l (take (S n) k)) eqn:E; simplify_eq.
    destruct (decide (m = S n)) as [->|]; [done|]. apply IH; [done|lia].
Qed.

Lemma prefix_take_length {A} (p k : list A) : p `prefix_of` k → p = take (length p) k.
Proof. intros [r ->]. by rewrite take_app_length. Qed.

#[global] Instance alist_radix_laws : IRadixLaws t.
Proof.
  split; simpl.
  - done.
  - intros V l k v k'. by case_decide.
  - intros V l k p v (m & ? & -> & ? & Hm)%longest_Some.
    split_and!; [apply prefix_take|done|].
    intros p' Hp [w Hw]. pose proof (prefix_length _ _ Hp).
    rewrite length_take. destruct (decide (length p' ≤ m)); [lia|].
    rewrite (prefix_take_length _ _ Hp), Hm in Hw; [done|lia|done].
  - intros V l k H p Hp. rewrite (prefix_take_length _ _ Hp).
    apply (longest_None _ _ _ H). by apply prefix_length.
Qed.

End AList.

(** ** Consequences of the laws *)
Section laws.
Context {T : Type → Type} `{IRadixLaws T} {V : Type}.
Implicit Types t : T V.

Lemma Get_Insert_eq t k v : Get (Insert t k v) k = Some v.
Proof. rewrite Get_Insert. by rewrite decide_True. Qed.
Lemma Get_Insert_ne t k k' v : k ≠ k' → Get (Insert t k v) k' = Get t k'.
Proof. intros. rewrite Get_Insert. by rewrite decide_False. Qed.

(** The longest prefix of [k] that the tree holds is the one [LongestPrefix]
    reports. *)
Lemma LongestPrefix_spec t k p v :
  p `prefix_of` k → Get t p = Some v →
  (∀ p', p' `prefix_of` k → is_Some (Get t p') → length p' ≤ length p) →
  LongestPrefix t k = Some (p, v).
Proof.
  intros Hp Hg Hmax. destruct (LongestPrefix t k) as [[q w]|] eqn:E.
  - destruct (LongestPrefix_Some _ _ _ _ E) as (Hq & Hgq & Hmaxq).
    assert (p = q) as ->; [|congruence].
    pose proof (Hmax _ Hq ltac:(eauto)). pose proof (Hmaxq _ Hp ltac:(eauto)).
    destruct (prefix_weak_total _ _ _ Hp Hq) as [|];
      [apply prefix_length_eq; [done|lia]|symmetry; apply prefix_length_eq; [done|lia]].
  - by rewrite (LongestPrefix_None _ _ E _ Hp) in Hg.
Qed.

Lemma LongestPrefix_None_spec t k :
  (∀ p, p `prefix_of` k → Get t p = None) → LongestPrefix t k = None.
Proof.
  intros Hn. destruct (LongestPrefix t k) as [[q w]|] eqn:E; [|done].
  destruct (LongestPrefix_Some _ _ _ _ E) as (Hq & Hgq & _).
  by rewrite (Hn _ Hq) in Hgq.
Qed.
End laws.
