(* ===== verification/DnsTypes.v ===== *)
(** * Record types: [internal/types/dns_types.go]

    The record sets stored for a location, their conversion to resource
    records ([Value]), emptiness ([Empty]), the splitting of TXT data and the
    grouping of a section into RRsets ([SplitSets]). Resource records are the
    structs of [github.com/miekg/dns] that the source builds, with the fields
    it sets; [dns.Fqdn] is a parameter. *)
From S2P Require Import Prelude GoStrings.
Local Open Scope Z_scope.

(** ** Protocol numbers (RFC 1035, 3596, 4034, 6698, 8659) *)
Module dns.
Definition TypeNone : Z := 0.
Definition TypeA : Z := 1.
Definition TypeNS : Z := 2.
Definition TypeCNAME : Z := 5.
Definition TypeSOA : Z := 6.
Definition TypePTR : Z := 12.
Definition TypeMX : Z := 15.
Definition TypeTXT : Z := 16.
Definition TypeAAAA : Z := 28.
Definition TypeSRV : Z := 33.
Definition TypeOPT : Z := 41.
Definition TypeDS : Z := 43.
Definition TypeRRSIG : Z := 46.
Definition TypeNSEC : Z := 47.
Definition TypeDNSKEY : Z := 48.
Definition TypeTLSA : Z := 52.
Definition TypeCAA : Z := 257.
Definition ClassINET : Z := 1.
Definition ClassNONE : Z := 254.
Definition RcodeSuccess : Z := 0.
Definition RcodeServerFailure : Z := 2.
Definition RcodeNameError : Z := 3.
Definition RcodeRefused : Z := 5.
Definition RcodeNotAuth : Z := 9.
End dns.

(** [types.TypeANAME] *)
Definition TypeANAME : Z := 500.

(** [IpMaskWhite], [IpMaskGrey], [IpMaskBlack] *)
Definition IpMaskWhite : Z := 0.
Definition IpMaskGrey : Z := 1.
Definition IpMaskBlack : Z := 2.

(** ** Resource records *)

(** A [net.IP]: its bytes, [None] for nil. *)
Definition IP : Type := option string.

Record RR_Header := {
  Hdr_Name : string; Hdr_Rrtype : Z; Hdr_Class : Z; Hdr_Ttl : Z;
}.

(** The type-specific fields of the records the source constructs or reads. *)
Inductive RData :=
| RD_A (A : IP)
| RD_AAAA (AAAA : IP)
| RD_CNAME (Target : string)
| RD_TXT (Txt : list string)
| RD_NS (Ns : string)
| RD_MX (Preference : Z) (Mx : string)
| RD_SRV (Priority Weight Port : Z) (Target : string)
| RD_CAA (Flag : Z) (Tag Value : string)
| RD_PTR (Ptr : string)
| RD_TLSA (Usage Selector MatchingType : Z) (Certificate : string)
| RD_DS (KeyTag Algorithm DigestType : Z) (Digest : string)
| RD_SOA (Ns Mbox : string) (Serial Refresh Retry Expire Minttl : Z)
| RD_NSEC (NextDomain : string) (TypeBitMap : list Z)
| RD_DNSKEY (Flags Protocol Algorithm : Z) (PublicKey : string)
| RD_RRSIG (TypeCovered Algorithm Labels OrigTtl Expiration Inception KeyTag : Z)
    (SignerName Signature : string)
| RD_HINFO (Cpu Os : string)
| RD_OPT        (* its data are in the header *)
| RD_nil_RRSIG  (* a nil *dns.RRSIG stored in a dns.RR *)
| RD_other (data : string).

Record RR := { Header : RR_Header; Data : RData }.

#[global] Instance RR_Header_eq_dec : EqDecision RR_Header.
Proof. solve_decision. Defined.
#[global] Instance RData_eq_dec : EqDecision RData.
Proof. solve_decision. Defined.
#[global] Instance RR_eq_dec : EqDecision RR.
Proof. solve_decision. Defined.

Definition rr_name (r : RR) : string := Hdr_Name (Header r).
Definition rr_type (r : RR) : Z := Hdr_Rrtype (Header r).
Definition rr_ttl (r : RR) : Z := Hdr_Ttl (Header r).

(** [dns.RR_Header{Name: n, Rrtype: t, Class: dns.ClassINET, Ttl: ttl}] *)
Definition inet (n : string) (t ttl : Z) : RR_Header :=
  {| Hdr_Name := n; Hdr_Rrtype := t; Hdr_Class := dns.ClassINET; Hdr_Ttl := ttl |}.

(** ** Record sets *)
Record GenericRRSet := { TtlValue : Z }.
Definition Ttl (g : GenericRRSet) : Z := TtlValue g.

Record IP_RR := {
  IP_Weight : Z; IP_Ip : IP; IP_Country : list string; IP_ASN : list Z;
}.
Record IpHealthCheckConfig := {
  HC_Protocol : string; HC_Uri : string; HC_Port : Z; HC_Timeout : Z;
  HC_UpCount : Z; HC_DownCount : Z; HC_Enable : bool;
}.
Record IpFilterConfig := {
  FC_Count : string; FC_Order : string; FC_GeoFilter : string;
}.
Record IP_RRSet := {
  IP_Generic : GenericRRSet; IP_FilterConfig : IpFilterConfig;
  IP_HealthCheckConfig : IpHealthCheckConfig; IP_Data : list IP_RR;
}.
Record CNAME_RRSet := { CNAME_Generic : GenericRRSet; CNAME_Host : string }.
Record TXT_RRSet := { TXT_Generic : GenericRRSet; TXT_Data : list string }.
Record NS_RRSet := { NS_Generic : GenericRRSet; NS_Data : list string }.
Record MX_RR := { MX_Host : string; MX_Preference : Z }.
Record MX_RRSet := { MX_Generic : GenericRRSet; MX_Data : list MX_RR }.
Record SRV_RR := {
  SRV_Target : string; SRV_Priority : Z; SRV_Weight : Z; SRV_Port : Z;
}.
Record SRV_RRSet := { SRV_Generic : GenericRRSet; SRV_Data : list SRV_RR }.
Record CAA_RR := { CAA_Tag : string; CAA_Value : string; CAA_Flag : Z }.
Record CAA_RRSet := { CAA_Generic : GenericRRSet; CAA_Data : list CAA_RR }.
Record PTR_RRSet := { PTR_Generic : GenericRRSet; PTR_Domain : string }.
Record TLSA_RR := {
  TLSA_Usage : Z; TLSA_Selector : Z; TLSA_MatchingType : Z; TLSA_Certificate : string;
}.
Record TLSA_RRSet := { TLSA_Generic : GenericRRSet; TLSA_Data : list TLSA_RR }.
Record DS_RR := {
  DS_KeyTag : Z; DS_Algorithm : Z; DS_DigestType : Z; DS_Digest : string;
}.
Record DS_RRSet := { DS_Generic : GenericRRSet; DS_Data : list DS_RR }.
Record ANAME_RRSet := { ANAME_Generic : GenericRRSet; ANAME_Location : string }.
Record SOA_RRSet := {
  SOA_Ns : string; SOA_MBox : string; SOA_Data : RR; SOA_Ttl : Z; SOA_Refresh : Z;
  SOA_Retry : Z; SOA_Expire : Z; SOA_MinTtl : Z; SOA_Serial : Z;
}.

(** The zero values of the record sets: [&types.IP_RRSet{}] and so on. *)
Definition zero_generic : GenericRRSet := {| TtlValue := 0 |}.
Definition zero_IP_RRSet : IP_RRSet := {|
  IP_Generic := zero_generic;
  IP_FilterConfig := {| FC_Count := empty_str; FC_Order := empty_str; FC_GeoFilter := empty_str |};
  IP_HealthCheckConfig := {|
    HC_Protocol := empty_str; HC_Uri := empty_str; HC_Port := 0; HC_Timeout := 0;
    HC_UpCount := 0; HC_DownCount := 0; HC_Enable := false |};
  IP_Data := [] |}.

(** ** [Empty] *)
Definition nullb {A} (l : list A) : bool := match l with [] => true | _ => false end.
Definition str_empty (s : string) : bool := match s with EmptyString => true | _ => false end.

Definition IP_Empty (r : IP_RRSet) : bool := nullb (IP_Data r).
Definition CNAME_Empty (r : CNAME_RRSet) : bool := str_empty (CNAME_Host r).
Definition TXT_Empty (r : TXT_RRSet) : bool := nullb (TXT_Data r).
Definition NS_Empty (r : NS_RRSet) : bool := nullb (NS_Data r).
Definition MX_Empty (r : MX_RRSet) : bool := nullb (MX_Data r).
Definition SRV_Empty (r : SRV_RRSet) : bool := nullb (SRV_Data r).
Definition CAA_Empty (r : CAA_RRSet) : bool := nullb (CAA_Data r).
Definition PTR_Empty (r : PTR_RRSet) : bool := str_empty (PTR_Domain r).
Definition TLSA_Empty (r : TLSA_RRSet) : bool := nullb (TLSA_Data r).
Definition DS_Empty (r : DS_RRSet) : bool := nullb (DS_Data r).
Definition ANAME_Empty (r : ANAME_RRSet) : bool := str_empty (ANAME_Location r).

(** ** [split255] *)

(** [s[p:i]] and [s[p:]] *)
Definition slice (s : string) (p i : nat) : string := str (take (i - p) (drop p (bytes s))).
Definition slice_from (s : string) (p : nat) : string := str (drop p (bytes s)).

(** The loop; [fuel] bounds the number of chunks. *)
Fixpoint split255_loop (fuel : nat) (s : string) (p i : nat) : list string :=
  match fuel with
  | 0%nat => []
  | S fuel =>
    if decide (i ≤ length (bytes s))%nat
    then slice s p i :: split255_loop fuel s (p + 255) (i + 255)
    else [slice_from s p]
  end.

Definition split255 (s : string) : list string :=
  if decide (length (bytes s) < 255)%nat then [s]
  else split255_loop (S (length (bytes s))) s 0 255.

(** ** [Value]

    The Go loops skip entries with an empty host, target or text. *)
Section value.
Variable Fqdn : string → string.

Definition IP_Value (r : IP_RRSet) (name : string) : list RR := [].
Definition ANAME_Value (r : ANAME_RRSet) (name : string) : list RR := [].

Definition CNAME_Value (r : CNAME_RRSet) (name : string) : list RR :=
  if str_empty (CNAME_Host r) then []
  else [{| Header := inet name dns.TypeCNAME (TtlValue (CNAME_Generic r));
           Data := RD_CNAME (Fqdn (CNAME_Host r)) |}].

Fixpoint TXT_loop (ttl : Z) (name : string) (l : list string) : list RR :=
  match l with
  | [] => []
  | txt :: l =>
    if str_empty txt then TXT_loop ttl name l
    else {| Header := inet name dns.TypeTXT ttl; Data := RD_TXT (split255 txt) |}
         :: TXT_loop ttl name l
  end.
Definition TXT_Value (r : TXT_RRSet) (name : string) : list RR :=
  TXT_loop (TtlValue (TXT_Generic r)) name (TXT_Data r).

Fixpoint NS_loop (ttl : Z) (name : string) (l : list string) : list RR :=
  match l with
  | [] => []
  | host :: l =>
    if str_empty host then NS_loop ttl name l
    else {| Header := inet name dns.TypeNS ttl; Data := RD_NS (Fqdn host) |}
         :: NS_loop ttl name l
  end.
Definition NS_Value (r : NS_RRSet) (name : string) : list RR :=
  NS_loop (TtlValue (NS_Generic r)) name (NS_Data r).

Fixpoint MX_loop (ttl : Z) (name : string) (l : list MX_RR) : list RR :=
  match l with
  | [] => []
  | mx :: l =>
    if str_empty (MX_Host mx) then MX_loop ttl name l
    else {| Header := inet name dns.TypeMX ttl;
            Data := RD_MX (MX_Preference mx) (Fqdn (MX_Host mx)) |}
         :: MX_loop ttl name l
  end.
Definition MX_Value (r : MX_RRSet) (name : string) : list RR :=
  MX_loop (TtlValue (MX_Generic r)) name (MX_Data r).

Fixpoint SRV_loop (ttl : Z) (name : string) (l : list SRV_RR) : list RR :=
  match l with
  | [] => []
  | srv :: l =>
    if str_empty (SRV_Target srv) then SRV_loop ttl name l
    else {| Header := inet name dns.TypeSRV ttl;
            Data := RD_SRV (SRV_Priority srv) (SRV_Weight srv) (SRV_Port srv)
                      (Fqdn (SRV_Target srv)) |}
         :: SRV_loop ttl name l
  end.
Definition SRV_Value (r : SRV_RRSet) (name : string) : list RR :=
  SRV_loop (TtlValue (SRV_Generic r)) name (SRV_Data r).

Definition CAA_rr (name : string) (ttl : Z) (caa : CAA_RR) : RR :=
  {| Header := inet name dns.TypeCAA ttl;
     Data := RD_CAA (CAA_Flag caa) (CAA_Tag caa) (CAA_Value caa) |}.
Definition CAA_Set_Value (r : CAA_RRSet) (name : string) : list RR :=
  CAA_rr name (TtlValue (CAA_Generic r)) <$> CAA_Data r.

Definition PTR_Value (r : PTR_RRSet) (name : string) : list RR :=
  if str_empty (PTR_Domain r) then []
  else [{| Header := inet name dns.TypePTR (TtlValue (PTR_Generic r));
           Data := RD_PTR (Fqdn (PTR_Domain r)) |}].

(** TLSA records are given class NONE, as in the source. *)
Definition TLSA_rr (name : string) (ttl : Z) (tlsa : TLSA_RR) : RR :=
  {| Header := {| Hdr_Name := name; Hdr_Rrtype := dns.TypeTLSA;
                  Hdr_Class := dns.ClassNONE; Hdr_Ttl := ttl |};
     Data := RD_TLSA (TLSA_Usage tlsa) (TLSA_Selector tlsa) (TLSA_MatchingType tlsa)
               (TLSA_Certificate tlsa) |}.
Definition TLSA_Value (r : TLSA_RRSet) (name : string) : list RR :=
  TLSA_rr name (TtlValue (TLSA_Generic r)) <$> TLSA_Data r.

Definition DS_rr (name : string) (ttl : Z) (ds : DS_RR) : RR :=
  {| Header := inet name dns.TypeDS ttl;
     Data := RD_DS (DS_KeyTag ds) (DS_Algorithm ds) (DS_DigestType ds) (DS_Digest ds) |}.
Definition DS_Value (r : DS_RRSet) (name : string) : list RR :=
  DS_rr name (TtlValue (DS_Generic r)) <$> DS_Data r.
End value.

(** ** [SplitSets] *)
Record RRSetKey := { QName : string; QType : Z }.
#[global] Instance RRSetKey_eq_dec : EqDecision RRSetKey.
Proof. solve_decision. Defined.
#[global] Program Instance RRSetKey_countable : Countable RRSetKey :=
  inj_countable' (λ k, (QName k, QType k)) (λ p, {| QName := p.1; QType := p.2 |}) _.
Next Obligation. by intros []. Qed.

Definition key_of (r : RR) : RRSetKey := {| QName := rr_name r; QType := rr_type r |}.

(** Records of type RRSIG and OPT are left out. *)
Definition skipped (r : RR) : bool :=
  (rr_type r =? dns.TypeRRSIG) || (rr_type r =? dns.TypeOPT).

Definition SplitSets_step (m : gmap RRSetKey (list RR)) (r : RR) : gmap RRSetKey (list RR) :=
  if skipped r then m
  else match m !! key_of r with
       | Some s => <[key_of r := s ++ [r]]> m
       | None => <[key_of r := [r]]> m
       end.

(** The nil map that the source returns when there is no set behaves as the
    empty map. *)
Definition SplitSets (rrs : list RR) : gmap RRSetKey (list RR) := foldl SplitSets_step ∅ rrs.

(** The members of the set with key [k]. *)
Definition in_set (k : RRSetKey) (r : RR) : Prop := skipped r = false ∧ key_of r = k.
#[global] Instance in_set_dec k r : Decision (in_set k r) := _.

(** ** Theorems *)
Lemma nullb_true {A} (l : list A) : nullb l = true ↔ l = [].
Proof. by destruct l. Qed.
Lemma str_empty_true s : str_empty s = true ↔ s = EmptyString.
Proof. by destruct s. Qed.

Lemma slice_length s p i : (length (bytes (slice s p i)) ≤ i - p)%nat.
Proof. unfold slice. rewrite bytes_str, length_take. lia. Qed.

Lemma split255_loop_spec fuel s p :
  (length (bytes s) < p + fuel)%nat →
  (split255_loop fuel s p (p + 255)) ≫= (λ c, bytes c) = drop p (bytes s)
  ∧ Forall (λ c, length (bytes c) ≤ 255)%nat (split255_loop fuel s p (p + 255)).
Proof.
  revert p. induction fuel as [|fuel IH]; intros p Hl; csimpl.
  { split; [|done]. by rewrite drop_ge by lia. }
  case_decide as Hc; csimpl.
  - replace (p + 255 + 255)%nat with ((p + 255) + 255)%nat by lia.
    destruct (IH (p + 255)%nat) as [E F]; [lia|]. split.
    + rewrite E. unfold slice. rewrite bytes_str, <-(drop_drop _ 255 p).
      replace (p + 255 - p)%nat with 255%nat by lia. apply take_drop.
    + constructor; [|done]. pose proof (slice_length s p (p + 255)%nat). lia.
  - unfold slice_from. rewrite bytes_str, app_nil_r. split; [done|].
    constructor; [|done]. rewrite bytes_str, length_drop. lia.
Qed.

(** Each set holds exactly the records with its owner name and type, in their
    original order; RRSIG and OPT records are in none. *)
Lemma SplitSets_lookup rrs k :
  SplitSets rrs !! k = match filter (in_set k) rrs with [] => None | s => Some s end.
Proof.
  induction rrs as [|r rrs IH] using rev_ind; [apply lookup_empty|].
  unfold SplitSets in *. rewrite foldl_app, filter_app, filter_cons, filter_nil.
  cbn [foldl]. set (m := foldl _ _ _) in *. unfold SplitSets_step.
  destruct (decide (in_set k r)) as [[Hs Hk]|Hk].
  - rewrite Hs, Hk, IH. destruct (filter _ rrs); by rewrite lookup_insert_eq.
  - rewrite app_nil_r. destruct (skipped r) eqn:Hs; [done|].
    assert (key_of r ≠ k) by (unfold in_set in Hk; naive_solver).
    rewrite <-IH. destruct (m !! key_of r); by rewrite lookup_insert_ne.
Qed.
