(* ===== verification/GoText.v ===== *)
(** * Text forms of values: what the source uses of packages [net] and [fmt]

    [net.IP.String] and [fmt.Sscan] on strings and integers, as the standard library
    defines them; what [fmt.Sprintf] prints for [%d] is [Itoa] of [GoStrings]. *)
From S2P Require Import Prelude GoStrings DnsTypes.
Local Open Scope N_scope.

Definition newline : byte := "010"%char.
Definition dquote : byte := "034"%char.
Definition line_end : string := String newline EmptyString.
Definition quoted (s : string) : string := String dquote s +:+ String dquote EmptyString.

(** ** [net.IP.String] *)
Definition byte_text (b : byte) : string := pretty (N_of_ascii b).
Definition dotted (l : list byte) : string :=
  match l with
  | [a; b; c; d] => byte_text a +:+ "." +:+ byte_text b +:+ "." +:+ byte_text c +:+ "." +:+ byte_text d
  | _ => empty_str
  end.

(** [To4]: the address itself, or what follows the prefix of a mapped address. *)
Definition v4InV6Prefix : list byte := replicate 10 "000"%char ++ ["255"%char; "255"%char].
Definition To4 (l : list byte) : option (list byte) :=
  if decide (length l = 4%nat) then Some l
  else if decide (length l = 16%nat ∧ take 12 l = v4InV6Prefix) then Some (drop 12 l)
  else None.

Definition hex_digit (n : N) : byte := ascii_of_N (if n <? 10 then 48 + n else 87 + n).
Definition hexString (l : list byte) : string :=
  str (l ≫= λ b, [hex_digit (N_of_ascii b / 16); hex_digit (N_of_ascii b mod 16)]).
(** A group of 16 bits in hexadecimal, without leading zeros. *)
Fixpoint strip_zeros (l : list byte) : list byte :=
  match l with
  | [] | [_] => l
  | b :: l' => if decide (b = "048"%char) then strip_zeros l' else l
  end.
Definition group_text (n : N) : string :=
  str (strip_zeros [hex_digit (n / 4096 mod 16); hex_digit (n / 256 mod 16);
                    hex_digit (n / 16 mod 16); hex_digit (n mod 16)]).
Fixpoint groups (l : list byte) : list N :=
  match l with
  | a :: b :: l => N.lor (N.shiftl (N_of_ascii a) 8) (N_of_ascii b) :: groups l
  | _ => []
  end.

(** The first of the longest runs of zero groups: where it starts and its length. *)
Fixpoint zero_run (l : list N) : nat :=
  match l with 0 :: l => S (zero_run l) | _ => 0%nat end.
Fixpoint longest_zeros (i : nat) (best : nat * nat) (l : list N) : nat * nat :=
  match l with
  | [] => best
  | _ :: l' =>
    let r := zero_run l in
    longest_zeros (S i) (if decide (best.2 < r)%nat then (i, r) else best) l'
  end.
Fixpoint joined (sep : string) (l : list string) : string :=
  match l with
  | [] => empty_str
  | [s] => s
  | s :: l => s +:+ sep +:+ joined sep l
  end.
Definition v6_text (l : list byte) : string :=
  let gs := groups l in
  let '(start, len) := longest_zeros 0 (0%nat, 0%nat) gs in
  if decide (len ≤ 1)%nat then joined ":" (group_text <$> gs)
  else joined ":" (group_text <$> take start gs) +:+ "::"
       +:+ joined ":" (group_text <$> drop (start + len) gs).

Definition IP_String (ip : IP) : string :=
  match bytes (default empty_str ip) with
  | [] => "<nil>"
  | l =>
    match To4 l with
    | Some l => dotted l
    | None => if decide (length l = 16%nat) then v6_text l else "?" +:+ hexString l
    end
  end.

Example IP_String_v4 : IP_String (Some (str ["001"; "002"; "003"; "004"]%char)) = "1.2.3.4".
Proof. reflexivity. Qed.
Example IP_String_mapped :
  IP_String (Some (str (v4InV6Prefix ++ ["010"; "000"; "000"; "255"]%char))) = "10.0.0.255".
Proof. reflexivity. Qed.
Example IP_String_v6 :
  IP_String (Some (str ([" "; "001"; "013"; "184"]%char ++ replicate 11 "000"%char ++ ["001"%char]))) = "2001:db8::1".
Proof. reflexivity. Qed.
Example IP_String_any : IP_String (Some (str (replicate 16 "000"%char))) = "::".
Proof. reflexivity. Qed.
Example IP_String_nil : IP_String None = "<nil>".
Proof. reflexivity. Qed.

(** ** [fmt.Sscan] on [*string] and [*int]

    It works on runes. Operands are separated by white space, newlines included; the
    scan stops at the first operand that it cannot read ([None]). *)
Definition isSpace (r : N) : bool :=
  bool_decide (9 ≤ r ≤ 13 ∨ r = 32 ∨ r = 133 ∨ r = 160 ∨ r = 5760 ∨ 8192 ≤ r ≤ 8202 ∨ r = 8232 ∨ r = 8233
    ∨ r = 8239 ∨ r = 8287 ∨ r = 12288).
Fixpoint span (f : N → bool) (l : list N) : list N * list N :=
  match l with
  | r :: l' => if f r then let '(a, b) := span f l' in (r :: a, b) else ([], l)
  | [] => ([], [])
  end.
Definition SkipSpace (l : list N) : list N := (span isSpace l).2.

Definition scan_string (l : list N) : option (string * list N) :=
  match SkipSpace l with
  | [] => None
  | l => let '(tok, l) := span (λ r, negb (isSpace r)) l in Some (str (utf8_of tok), l)
  end.

(** The value of a digit in a base up to 36. *)
Definition digit_value (r : N) : N :=
  if bool_decide (48 ≤ r ≤ 57) then r - 48
  else if bool_decide (97 ≤ r ≤ 122) then r - 87
  else if bool_decide (65 ≤ r ≤ 90) then r - 55 else 99.
Definition underscore : N := 95.
Definition accepted (base r : N) : bool := bool_decide (r = underscore ∨ digit_value r < base).

(** [scanBasePrefix]: the base, whether digits must follow, whether a digit or a prefix
    was read, and the rest. *)
Definition scanBasePrefix (l : list N) : N * bool * bool * list N :=
  match l with
  | 48 :: r :: l' =>
    if bool_decide (r = 98 ∨ r = 66) then (2, true, true, l')
    else if bool_decide (r = 111 ∨ r = 79) then (8, true, true, l')
    else if bool_decide (r = 120 ∨ r = 88) then (16, true, true, l')
    else (8, false, true, r :: l')
  | 48 :: l' => (8, false, true, l')
  | _ => (10, true, false, l)
  end.
(** [underscoreOK]: an underscore stands between digits, or after the prefix. *)
Fixpoint underscoreOK (after_digit : bool) (l : list N) : bool :=
  match l with
  | [] => after_digit
  | r :: l => if decide (r = underscore) then after_digit && underscoreOK false l else underscoreOK true l
  end.
Definition digits_value (base : N) (l : list N) : N :=
  foldl (λ n r, if decide (r = underscore) then n else base * n + digit_value r) 0 l.

(** [scanInt] for 64 bits, with [strconv.ParseInt] in base 0. *)
Definition scan_int (l : list N) : option (Z * list N) :=
  match SkipSpace l with
  | [] => None
  | l =>
    let '(neg, l) := match l with 45 :: l => (true, l) | 43 :: l => (false, l) | l => (false, l) end in
    let '(base, needs_digits, zero_or_prefix, l) := scanBasePrefix l in
    let '(ds, l) := span (accepted base) l in
    if (needs_digits && nullb ds) || negb (underscoreOK zero_or_prefix ds) then None else
    let n := Z.of_N (digits_value base ds) in
    if neg then if (n <=? 2 ^ 63)%Z then Some ((- n)%Z, l) else None
    else if (n <? 2 ^ 63)%Z then Some (n, l) else None
  end.

Definition text (s : string) : list N := runes_of (bytes s).
Example scan_int_plain : scan_int (text " 16 0") = Some (16%Z, text " 0").
Proof. vm_compute. reflexivity. Qed.
Example scan_int_bases :
  (fst <$> scan_int (text "0x1F_f"), fst <$> scan_int (text "-017"), fst <$> scan_int (text "0b101"),
   fst <$> scan_int (text "1__0"), fst <$> scan_int (text "x1"), fst <$> scan_int (text "0x"))
  = (Some 511%Z, Some (-15)%Z, Some 5%Z, None, None, None).
Proof. vm_compute. reflexivity. Qed.
Example scan_int_range :
  (fst <$> scan_int (text "9223372036854775807"), fst <$> scan_int (text "9223372036854775808"),
   fst <$> scan_int (text "-9223372036854775808")) = (Some (2 ^ 63 - 1)%Z, None, Some (- 2 ^ 63)%Z).
Proof. vm_compute. reflexivity. Qed.
Example scan_string_token : scan_string (text "  ab cd") = Some ("ab", text " cd").
Proof. vm_compute. reflexivity. Qed.

(** ** Reading what was printed *)

(** ASCII without white space. *)
Definition word (s : string) : Prop :=
  Forall (λ b, (N_of_ascii b < 128)%N ∧ isSpace (N_of_ascii b) = false) (bytes s).

Lemma word_app s1 s2 : word (s1 +:+ s2) ↔ word s1 ∧ word s2.
Proof. unfold word. by rewrite bytes_app, Forall_app. Qed.
Lemma word_ascii s : word s → ascii7 s.
Proof. intros Hs. eapply Forall_impl; [exact Hs|]. by intros b []. Qed.

Lemma text_app s1 s2 : ascii7 s1 → text (s1 +:+ s2) = text s1 ++ text s2.
Proof.
  unfold text, ascii7. rewrite bytes_app. induction 1 as [|b l Hb _ IH]; [done|]. simpl.
  assert ((N_of_ascii b <? 128) = true)%N as -> by by apply N.ltb_lt. by rewrite IH.
Qed.
Lemma span_app f l1 l2 :
  Forall (λ r, f r = true) l1 → (∀ r, head l2 = Some r → f r = false) → span f (l1 ++ l2) = (l1, l2).
Proof.
  intros Hl H2. induction Hl as [|r l1 Hr _ IH]; simpl; [|by rewrite Hr, IH].
  destruct l2 as [|r l2]; [done|]. simpl. by rewrite H2.
Qed.

(** A word that ends at a space is read back, and what follows is left. *)
Lemma scan_word s rest :
  word s → s ≠ empty_str → (∀ r, head (text rest) = Some r → isSpace r = true) →
  scan_string (text (s +:+ rest)) = Some (s, text rest).
Proof.
  intros Hs Hne Hr. rewrite text_app by by apply word_ascii.
  assert (Ht : text s = N_of_ascii <$> bytes s) by (apply runes_of_ascii, word_ascii; done).
  assert (Hf : Forall (λ r, negb (isSpace r) = true) (text s)).
  { rewrite Ht. apply Forall_fmap. eapply Forall_impl; [exact Hs|]. intros b [_ Hb]. cbn. by rewrite Hb. }
  assert (Hsp : SkipSpace (text s ++ text rest) = text s ++ text rest).
  { destruct (text s) as [|r l] eqn:E; [symmetry in Ht; by apply fmap_nil_inv, bytes_nil in Ht|].
    unfold SkipSpace. simpl. inversion Hf as [|?? Hb _]. apply negb_true_iff in Hb. by rewrite Hb. }
  unfold scan_string. rewrite Hsp.
  assert (∃ r l, text s ++ text rest = r :: l) as (r & l & E).
  { destruct (text s) eqn:E; [symmetry in Ht; by apply fmap_nil_inv, bytes_nil in Ht|]. eexists _, _. reflexivity. }
  rewrite E, <-E. rewrite span_app; [|done|intros r' Hr'; by rewrite (Hr r' Hr')].
  rewrite Ht, utf8_of_ascii by by apply word_ascii. by rewrite str_bytes.
Qed.

(** Spaces before an operand are skipped. *)
Lemma SkipSpace_space l : SkipSpace (32 :: l) = SkipSpace l.
Proof. unfold SkipSpace. simpl. by destruct (span isSpace l). Qed.
Lemma scan_string_space s : scan_string (text (" " +:+ s)) = scan_string (text s).
Proof. unfold scan_string. change (text (" " +:+ s)) with (32 :: text s). by rewrite SkipSpace_space. Qed.

(** What [fmt.Sprintf] prints for [%d], and [bufio.Reader.ReadString] gives back. *)
Definition read_lines (content : string) : list string :=
  (λ l, str (l ++ [newline])) <$> removelast (split_on newline (bytes content)).
Definition one_line (s : string) : Prop := newline ∉ bytes s.

Lemma word_one_line s : word s → one_line s.
Proof. unfold word, one_line. rewrite Forall_forall. intros Hw Hn. by destruct (Hw _ Hn) as [_ ?]. Qed.
Lemma one_line_app s1 s2 : one_line (s1 +:+ s2) ↔ one_line s1 ∧ one_line s2.
Proof. unfold one_line. rewrite bytes_app. set_solver. Qed.
Lemma split_on_nonempty c l : split_on c l ≠ [].
Proof. destruct l; simpl; [done|]. repeat case_match; done. Qed.
Lemma read_lines_cons s content :
  one_line s → read_lines (s +:+ line_end +:+ content) = (s +:+ line_end) :: read_lines content.
Proof.
  intros Hs. unfold read_lines. rewrite !bytes_app. change (bytes line_end) with [newline].
  change ([newline] ++ bytes content) with (newline :: bytes content). rewrite split_on_app by done.
  pose proof (split_on_nonempty newline (bytes content)) as Hne.
  destruct (split_on newline (bytes content)); [done|]. rewrite fmap_cons || cbn [removelast fmap list_fmap].
  f_equal. by rewrite str_app, str_bytes.
Qed.
(** The lines of a file are those that were written, if none has an end within. *)
Lemma read_lines_written (ls : list string) :
  Forall one_line ls → read_lines (foldr (λ l s, l +:+ line_end +:+ s) empty_str ls) = (λ l, l +:+ line_end) <$> ls.
Proof.
  induction 1 as [|l ls Hl _ IH]; [done|]. cbn [foldr fmap list_fmap].
  by rewrite read_lines_cons, IH.
Qed.
