(* ===== verification/Zone.v ===== *)
(** * Zones: [internal/types/zone.go]

    A zone indexes its locations in a radix tree keyed by reversed names:
    [NewZone] inserts every location and, with a nil value, each of its
    ancestors; [FindLocation] classifies a query name by the longest stored
    prefix. [FindSpec] states the same classification on names, without trees
    or reversal (exact name, empty non-terminal, wildcard at the closest
    encloser, closest encloser, nothing), and the theorems show that
    [FindLocation] on a zone built by [NewZone] implements it. *)
From S2P Require Import Prelude GoStrings Radix DnsTypes.

(** ** Data *)
Record ZoneConfig := {
  DomainId : string; SOA : SOA_RRSet; DnsSec : bool; CnameFlattening : bool;
}.

(** [types.ZoneKey]; the private key is opaque data of package crypto. *)
Record ZoneKey := {
  DnsKey : RR; PrivateKey : string; KeyInception : Z; KeyExpiration : Z;
}.

Record Zone (T : Type → Type) := {
  Name : string;
  Config : ZoneConfig;
  LocationsTree : T (option string);
  LocationsList : list string;
  ZSK : option ZoneKey;
  KSK : option ZoneKey;
  DnsKeySig : option RR;
  CacheTimeout : Z;
}.
Arguments Name {T}. Arguments Config {T}. Arguments LocationsTree {T}.
Arguments LocationsList {T}. Arguments ZSK {T}. Arguments KSK {T}.
Arguments DnsKeySig {T}. Arguments CacheTimeout {T}.

Inductive MatchType := ExactMatch | WildCardMatch | EmptyNonterminalMatch | CEMatch | NoMatch.
#[global] Instance MatchType_eq_dec : EqDecision MatchType.
Proof. solve_decision. Defined.

(** ** [ReverseName] *)

(** The loop [for i, j := 0, len(runes)-1; i < j; i, j = i+1, j-1], which
    swaps two elements in place; [fuel] bounds the number of swaps. *)
Fixpoint reverse_loop {A} (fuel : nat) (l : list A) (i j : nat) : list A :=
  match fuel with
  | 0 => l
  | S fuel =>
    if decide (i < j) then
      match l !! i, l !! j with
      | Some x, Some y => reverse_loop fuel (<[j := x]> (<[i := y]> l)) (S i) (j - 1)
      | _, _ => l
      end
    else l
  end.

Definition ReverseName (zone : string) : list byte :=
  let runes := runes_of (bytes (String dot zone)) in
  utf8_of (reverse_loop (length runes) runes 0 (length runes - 1)).

Section Zone.
Context {T : Type → Type} `{!IRadix T}.
(** [dns.Fqdn], and [jsoniter.Unmarshal] of a zone configuration into an
    existing one (for a document that leaves the SOA object in place). *)
Variable Fqdn : string → string.
Variable unmarshal_config : string → ZoneConfig → ZoneConfig.

(** ** [ZoneConfigFromJson]; [now] is [time.Now().Unix()]. *)
Definition default_SOA (zone : string) (now : Z) : SOA_RRSet := {|
  SOA_Ns := "ns1." +:+ zone; SOA_MinTtl := 300; SOA_Refresh := 86400; SOA_Retry := 7200;
  SOA_Expire := 3600; SOA_MBox := "hostmaster." +:+ zone;
  SOA_Serial := now `mod` 2 ^ 32; SOA_Ttl := 300;
  SOA_Data := {| Header := inet empty_str 0 0; Data := RD_other empty_str |} |}%Z.

Definition ZoneConfigFromJson (zone configStr : string) (now : Z) : ZoneConfig :=
  let config := {| DomainId := empty_str; SOA := default_SOA zone now;
                   DnsSec := false; CnameFlattening := false |} in
  let config := if str_empty configStr then config else unmarshal_config configStr config in
  let soa := SOA config in
  let ns := Fqdn (SOA_Ns soa) in
  {| DomainId := DomainId config; DnsSec := DnsSec config;
     CnameFlattening := CnameFlattening config;
     SOA := {|
       SOA_Ns := ns; SOA_MBox := SOA_MBox soa; SOA_Ttl := SOA_Ttl soa;
       SOA_Refresh := SOA_Refresh soa; SOA_Retry := SOA_Retry soa;
       SOA_Expire := SOA_Expire soa; SOA_MinTtl := SOA_MinTtl soa;
       SOA_Serial := SOA_Serial soa;
       SOA_Data := {|
         Header := inet zone dns.TypeSOA (SOA_Ttl soa);
         Data := RD_SOA ns (SOA_MBox soa) (SOA_Serial soa) (SOA_Refresh soa)
                   (SOA_Retry soa) (SOA_Expire soa) (SOA_MinTtl soa) |} |} |}.

(** ** [NewZone] *)
Definition insert_ancestor (rvalue : list byte) (t : T (option string)) (i : nat)
  : T (option string) :=
  if decide (rvalue !! i = Some dot) then
    match Get t (take (S i) rvalue) with
    | Some _ => t
    | None => Insert t (take (S i) rvalue) None
    end
  else t.

Definition insert_ancestors (t : T (option string)) (rvalue : list byte) : T (option string) :=
  foldl (insert_ancestor rvalue) t (seq 0 (length rvalue)).

Definition build_tree (locations : list string) : T (option string) :=
  let rvalues := ReverseName <$> locations in
  let t := foldl insert_ancestors New rvalues in
  foldl (λ t p, Insert t p.1 (Some p.2)) t (zip rvalues locations).

Definition NewZone (zone : string) (locations : list string) (configStr : string) (now : Z)
  : Zone T := {|
  Name := zone;
  Config := ZoneConfigFromJson zone configStr now;
  LocationsTree := build_tree locations;
  LocationsList := locations;
  ZSK := None; KSK := None; DnsKeySig := None; CacheTimeout := 0 |}.

(** ** [FindLocation] *)
Definition star_dot : list byte := bytes "*.".

Definition FindLocation (z : Zone T) (query : string) : string * MatchType :=
  if decide (query = Name z) then ("@", ExactMatch) else
  let query := TrimSuffix query (String dot (Name z)) in
  let rquery := ReverseName query in
  match LongestPrefix (LocationsTree z) rquery with
  | None =>
    match Get (LocationsTree z) star_dot with
    | Some (Some _) => ("*", WildCardMatch)
    | _ => (empty_str, NoMatch)
    end
  | Some (prefix, Some ce) =>
    if decide (prefix = rquery) then (query, ExactMatch)
    else match Get (LocationsTree z) (prefix ++ star_dot) with
         | Some (Some v) => (v, WildCardMatch)
         | _ => (ce, CEMatch)
         end
  | Some (prefix, None) =>
    if decide (prefix = rquery) then (empty_str, EmptyNonterminalMatch)
    else match Get (LocationsTree z) (prefix ++ star_dot) with
         | Some (Some v) => (v, WildCardMatch)
         | _ => (empty_str, NoMatch)
         end
  end.
End Zone.

(** ** Specification on names *)

(** [a] is [q] or an ancestor of [q]: [q] ends with [a] at a label boundary. *)
Definition encloses (a q : string) : Prop := (dot :: bytes a) `suffix_of` (dot :: bytes q).

(** A name exists when it is a location or an ancestor of one (RFC 4592). *)
Definition name_exists (locs : list string) (a : string) : Prop :=
  ∃ l, l ∈ locs ∧ encloses a l.

(** The closest encloser of [q]: its longest existing ancestor. *)
Definition closest_encloser (locs : list string) (q a : string) : Prop :=
  encloses a q ∧ name_exists locs a
  ∧ ∀ b, encloses b q → name_exists locs b → String.length b ≤ String.length a.

Definition wildcard_of (a : string) : string := "*." +:+ a.

Inductive FindSpec (locs : list string) (q : string) : string → MatchType → Prop :=
| Find_exact : q ∈ locs → FindSpec locs q q ExactMatch
| Find_ent : q ∉ locs → name_exists locs q → FindSpec locs q empty_str EmptyNonterminalMatch
| Find_wildcard a :
    closest_encloser locs q a → a ≠ q → wildcard_of a ∈ locs →
    FindSpec locs q (wildcard_of a) WildCardMatch
| Find_ce a :
    closest_encloser locs q a → a ≠ q → wildcard_of a ∉ locs → a ∈ locs →
    FindSpec locs q a CEMatch
| Find_none a :
    closest_encloser locs q a → a ≠ q → wildcard_of a ∉ locs → a ∉ locs →
    FindSpec locs q empty_str NoMatch
| Find_root_wildcard :
    (∀ b, encloses b q → ¬ name_exists locs b) → "*" ∈ locs →
    FindSpec locs q "*" WildCardMatch
| Find_root_none :
    (∀ b, encloses b q → ¬ name_exists locs b) → "*" ∉ locs →
    FindSpec locs q empty_str NoMatch.

(** ** [ReverseName] reverses *)
Lemma reverse_loop_spec {A} fuel (l1 m l2 : list A) :
  length m ≤ fuel →
  reverse_loop fuel (l1 ++ m ++ l2) (length l1) (length l1 + length m - 1)
  = l1 ++ reverse m ++ l2.
Proof.
  revert l1 m l2. induction fuel as [|fuel IH]; intros l1 m l2 Hf; simpl.
  { by destruct m; simpl in *; [|lia]. }
  destruct m as [|x m]; simpl.
  { by case_decide; [lia|]. }
  destruct m as [|y m _] using rev_ind; simpl.
  { by case_decide; [lia|]. }
  simpl in Hf. rewrite length_app in Hf |- *. simpl in *. case_decide; [|lia].
  assert (Hi : (l1 ++ x :: (m ++ [y]) ++ l2) !! length l1 = Some x).
  { by rewrite list_lookup_middle. }
  assert (Hj : (l1 ++ x :: (m ++ [y]) ++ l2) !! (length l1 + S (length m + 1) - 1) = Some y).
  { replace (l1 ++ x :: (m ++ [y]) ++ l2) with ((l1 ++ x :: m) ++ y :: l2)
      by (by rewrite <-!app_assoc).
    rewrite list_lookup_middle; [done|]. rewrite length_app. simpl. lia. }
  rewrite Hi, Hj.
  replace (<[_ := x]> (<[length l1 := y]> (l1 ++ x :: (m ++ [y]) ++ l2)))
    with ((l1 ++ [y]) ++ m ++ (x :: l2)).
  2:{ rewrite (insert_app_r_alt l1 _ (length l1) y), Nat.sub_diag by done. simpl.
      rewrite (insert_app_r_alt l1) by lia.
      replace (length l1 + S (length m + 1) - 1 - length l1) with (S (length m)) by lia.
      simpl. rewrite <-!app_assoc, (insert_app_r_alt m), Nat.sub_diag by done. done. }
  replace (S (length l1)) with (length (l1 ++ [y])) by (rewrite length_app; simpl; lia).
  replace (length l1 + S (length m + 1) - 1 - 1) with (length (l1 ++ [y]) + length m - 1)
    by (rewrite length_app; simpl; lia).
  rewrite IH by lia. rewrite reverse_cons, reverse_app. simpl.
  by rewrite <-!app_assoc.
Qed.

Lemma reverse_loop_reverse {A} (l : list A) :
  reverse_loop (length l) l 0 (length l - 1) = reverse l.
Proof.
  pose proof (reverse_loop_spec (length l) [] l [] ltac:(lia)) as H.
  by rewrite !app_nil_r in H.
Qed.

(** The tree key of an ASCII name. *)
Definition rev_key (a : string) : list byte := reverse (dot :: bytes a).

Lemma ReverseName_ascii a : ascii7 a → ReverseName a = rev_key a.
Proof.
  intros Ha. unfold ReverseName, rev_key. cbn [String.list_ascii_of_string].
  assert (Forall (λ b, (N_of_ascii b < 128)%N) (dot :: bytes a)) as Hd by (constructor; done).
  rewrite (runes_of_ascii _ Hd), reverse_loop_reverse, <-fmap_reverse.
  apply utf8_of_ascii. by apply Forall_reverse.
Qed.

Lemma rev_key_inj a b : rev_key a = rev_key b → a = b.
Proof. unfold rev_key. intros H%(inj reverse). simplify_eq. by apply bytes_inj. Qed.

Lemma rev_key_last a : last (rev_key a) = Some dot.
Proof. unfold rev_key. rewrite reverse_cons. apply last_snoc. Qed.

Lemma rev_key_length a : length (rev_key a) = S (String.length a).
Proof.
  unfold rev_key. rewrite length_reverse. simpl. f_equal.
  induction a; simpl; by f_equal.
Qed.

Lemma encloses_prefix a q : encloses a q ↔ rev_key a `prefix_of` rev_key q.
Proof. unfold encloses, rev_key. by rewrite suffix_prefix_reverse. Qed.

Lemma encloses_refl a : encloses a a.
Proof. by unfold encloses. Qed.
Lemma encloses_antisym a b : encloses a b → encloses b a → a = b.
Proof.
  rewrite !encloses_prefix. intros. apply rev_key_inj. by apply (anti_symm prefix).
Qed.
Lemma encloses_length a q : encloses a q → String.length a ≤ String.length q.
Proof. rewrite encloses_prefix. intros H%prefix_length. rewrite !rev_key_length in H. lia. Qed.

Lemma prefix_rev_key k q :
  k `prefix_of` rev_key q → last k = Some dot → ∃ a, k = rev_key a ∧ encloses a q.
Proof.
  intros Hk Hl. apply last_Some in Hl as [k' ->].
  exists (str (reverse k')). assert (E : rev_key (str (reverse k')) = k' ++ [dot]).
  { unfold rev_key. by rewrite bytes_str, reverse_cons, reverse_involutive. }
  by rewrite encloses_prefix, E.
Qed.

Lemma ascii7_encloses a q : encloses a q → ascii7 q → ascii7 a.
Proof.
  intros [k Hk] Hq. unfold ascii7 in *.
  assert (Forall (λ b, (N_of_ascii b < 128)%N) (dot :: bytes q)) as Hf by (constructor; done).
  rewrite Hk, Forall_app, Forall_cons in Hf. tauto.
Qed.

Lemma rev_key_wildcard a : rev_key (wildcard_of a) = rev_key a ++ star_dot.
Proof.
  unfold rev_key, wildcard_of, star_dot. rewrite bytes_app.
  cbn [String.list_ascii_of_string app]. rewrite !reverse_cons, <-!app_assoc. done.
Qed.
Lemma ascii7_wildcard a : ascii7 a → ascii7 (wildcard_of a).
Proof. intros. apply ascii7_app. split; [|done]. by apply (bool_decide_unpack _). Qed.

Section tree.
Context {T : Type → Type} `{IRadixLaws T}.
Implicit Types t : T (option string).

(** ** The tree built by [NewZone] *)
Definition insert_absent (t : T (option string)) (k : list byte) : T (option string) :=
  match Get t k with Some _ => t | None => Insert t k None end.

Definition dot_prefixes (rvalue : list byte) (idx : list nat) : list (list byte) :=
  idx ≫= λ i, if decide (rvalue !! i = Some dot) then [take (S i) rvalue] else [].

Lemma insert_ancestor_foldl rvalue idx t :
  foldl (insert_ancestor rvalue) t idx = foldl insert_absent t (dot_prefixes rvalue idx).
Proof.
  unfold dot_prefixes. revert t.
  induction idx as [|i idx IH]; intros t; csimpl; [done|]. rewrite IH, foldl_app.
  unfold insert_ancestor. by case_decide.
Qed.

Lemma elem_of_dot_prefixes rvalue k :
  k ∈ dot_prefixes rvalue (seq 0 (length rvalue)) ↔ k `prefix_of` rvalue ∧ last k = Some dot.
Proof.
  unfold dot_prefixes. rewrite list_elem_of_bind. split.
  - intros (i & Hk & _). case_decide as Hd; [|set_solver].
    apply list_elem_of_singleton in Hk as ->. split; [apply prefix_take|].
    by rewrite (take_S_r _ _ _ Hd), last_snoc.
  - intros [Hp [k' ->]%last_Some]. exists (length k').
    assert (rvalue !! length k' = Some dot) as Hd.
    { eapply prefix_lookup_Some; [|done]. by rewrite list_lookup_middle. }
    rewrite decide_True by done. split.
    + apply list_elem_of_singleton. rewrite (take_S_r _ _ _ Hd). f_equal.
      by apply prefix_app_l, AList.prefix_take_length in Hp.
    + apply elem_of_seq. apply lookup_lt_Some in Hd. lia.
Qed.

Lemma foldl_insert_absent ks t k :
  Get (foldl insert_absent t ks) k =
  if decide (k ∈ ks) then Some (default None (Get t k)) else Get t k.
Proof.
  revert t. induction ks as [|k' ks IH]; intros t; simpl; [done|].
  rewrite IH. unfold insert_absent. destruct (decide (k ∈ ks)) as [Hk|Hk].
  - rewrite decide_True by set_solver. f_equal.
    destruct (Get t k') eqn:E; [done|]. rewrite Get_Insert. case_decide; [|done].
    subst. by rewrite E.
  - destruct (decide (k = k')) as [->|Hne].
    + rewrite decide_True by set_solver.
      destruct (Get t k') eqn:E; [by rewrite E|]. by rewrite Get_Insert_eq.
    + rewrite decide_False by set_solver.
      destruct (Get t k'); [done|]. by rewrite Get_Insert_ne.
Qed.

(** After the first loop, the keys are the ancestors of the locations. *)
Lemma ancestors_Get rvalues k :
  (Get (foldl insert_ancestors (New : T (option string)) rvalues) k = Some None
   ∧ ∃ rv, rv ∈ rvalues ∧ k `prefix_of` rv ∧ last k = Some dot)
  ∨ (Get (foldl insert_ancestors (New : T (option string)) rvalues) k = None
     ∧ ∀ rv, rv ∈ rvalues → k `prefix_of` rv → last k ≠ Some dot).
Proof.
  induction rvalues as [|rv rvalues IH] using rev_ind; simpl.
  { right. split; [apply Get_New|set_solver]. }
  rewrite foldl_app. cbn [foldl]. set (t := foldl _ _ rvalues) in *.
  unfold insert_ancestors. rewrite insert_ancestor_foldl, foldl_insert_absent.
  setoid_rewrite elem_of_app. setoid_rewrite list_elem_of_singleton.
  case_decide as Hk; rewrite elem_of_dot_prefixes in Hk.
  - left. split; [|naive_solver]. by destruct IH as [[-> _]|[-> _]].
  - naive_solver.
Qed.

(** The second loop stores the locations under their keys. *)
Lemma locations_Get t (ps : list (list byte * string)) k :
  (∃ loc, (k, loc) ∈ ps ∧ Get (foldl (λ t p, Insert t p.1 (Some p.2)) t ps) k = Some (Some loc))
  ∨ (k ∉ ps.*1 ∧ Get (foldl (λ t p, Insert t p.1 (Some p.2)) t ps) k = Get t k).
Proof.
  induction ps as [|[k' loc] ps IH] using rev_ind; [by right; set_solver|].
  rewrite foldl_app, fmap_app. simpl. rewrite Get_Insert.
  destruct (decide (k' = k)) as [->|Hne]; [left; exists loc; set_solver|].
  destruct IH as [(l & ? & ?)|[? ?]]; [left; exists l; set_solver|right; set_solver].
Qed.

Lemma zip_ReverseName locs k loc :
  (k, loc) ∈ zip (ReverseName <$> locs) locs ↔ loc ∈ locs ∧ k = ReverseName loc.
Proof. induction locs; csimpl; set_solver. Qed.

Lemma zip_ReverseName_fst (locs : list string) :
  (zip (ReverseName <$> locs) locs).*1 = ReverseName <$> locs.
Proof. apply fst_zip. by rewrite length_fmap. Qed.

Section build.
Variable locs : list string.
Hypothesis locs_ascii : Forall ascii7 locs.
Abbreviation t := (build_tree locs : T (option string)).

Lemma loc_ascii l : l ∈ locs → ascii7 l.
Proof. by apply Forall_forall. Qed.

(** The content of the tree, as a function of the (reversed) name. *)
Lemma build_tree_location a : a ∈ locs → Get t (rev_key a) = Some (Some a).
Proof.
  intros Ha. unfold build_tree.
  destruct (locations_Get (foldl insert_ancestors New (ReverseName <$> locs))
              (zip (ReverseName <$> locs) locs) (rev_key a)) as [(l & Hl & ->)|[Hn _]].
  - apply zip_ReverseName in Hl as [Hl Hk].
    rewrite ReverseName_ascii in Hk by by apply loc_ascii.
    by apply rev_key_inj in Hk as ->.
  - destruct Hn. rewrite zip_ReverseName_fst. apply list_elem_of_fmap. exists a.
    by rewrite ReverseName_ascii by by apply loc_ascii.
Qed.

Lemma build_tree_nonlocation a : a ∉ locs →
  (Get t (rev_key a) = Some None ∧ name_exists locs a)
  ∨ (Get t (rev_key a) = None ∧ ¬ name_exists locs a).
Proof.
  intros Ha. unfold build_tree, name_exists.
  destruct (locations_Get (foldl insert_ancestors New (ReverseName <$> locs))
              (zip (ReverseName <$> locs) locs) (rev_key a)) as [(l & Hl & _)|[_ ->]].
  - apply zip_ReverseName in Hl as [Hl Hk].
    rewrite ReverseName_ascii in Hk by by apply loc_ascii.
    by apply rev_key_inj in Hk as ->.
  - setoid_rewrite encloses_prefix.
    destruct (ancestors_Get (ReverseName <$> locs) (rev_key a)) as [[-> Hx]|[-> Hx]].
    + left. split; [done|]. destruct Hx as (rv & Hrv & ? & _).
      apply list_elem_of_fmap in Hrv as (l & -> & Hl). exists l.
      by rewrite <-(ReverseName_ascii l) by by apply loc_ascii.
    + right. split; [done|]. intros (l & Hl & Hp).
      apply (Hx (ReverseName l)); [by apply list_elem_of_fmap_2| |apply rev_key_last].
      by rewrite ReverseName_ascii by by apply loc_ascii.
Qed.

Lemma build_tree_key k v : Get t k = Some v → ∃ a, k = rev_key a ∧ name_exists locs a.
Proof.
  unfold build_tree.
  destruct (locations_Get (foldl insert_ancestors New (ReverseName <$> locs))
              (zip (ReverseName <$> locs) locs) k) as [(l & Hl & _)|[_ ->]].
  - apply zip_ReverseName in Hl as [Hl ->]. exists l.
    rewrite ReverseName_ascii by by apply loc_ascii.
    split; [done|]. exists l. split; [done|apply encloses_refl].
  - destruct (ancestors_Get (ReverseName <$> locs) k) as [[_ Hx]|[-> _]]; [|done].
    destruct Hx as (rv & Hrv & Hp & Hl).
    apply list_elem_of_fmap in Hrv as (l & -> & Hloc).
    rewrite ReverseName_ascii in Hp by by apply loc_ascii.
    destruct (prefix_rev_key _ _ Hp Hl) as (a & -> & ?). exists a.
    split; [done|]. by exists l.
Qed.

Lemma build_tree_exists a : is_Some (Get t (rev_key a)) ↔ name_exists locs a.
Proof.
  split.
  - intros [v Hv]. apply build_tree_key in Hv as (b & ->%rev_key_inj & ?). done.
  - intros Hx. destruct (decide (a ∈ locs)); [by rewrite build_tree_location|].
    destruct (build_tree_nonlocation a) as [[-> _]|[_ ?]]; done.
Qed.

(** [LongestPrefix] on the tree finds the closest encloser. *)
Lemma build_tree_LongestPrefix q :
  match LongestPrefix t (rev_key q) with
  | Some (p, v) => ∃ a, p = rev_key a ∧ closest_encloser locs q a ∧ Get t p = Some v
  | None => ∀ b, encloses b q → ¬ name_exists locs b
  end.
Proof.
  destruct (LongestPrefix t (rev_key q)) as [[p v]|] eqn:E.
  - apply LongestPrefix_Some in E as (Hp & Hg & Hmax).
    destruct (build_tree_key _ _ Hg) as (a & -> & Hx). exists a. split; [done|].
    split; [|done]. split_and!; [by apply encloses_prefix|done|].
    intros b Hb Hxb. apply encloses_prefix in Hb. apply build_tree_exists in Hxb.
    pose proof (Hmax _ Hb Hxb) as Hlen. rewrite !rev_key_length in Hlen. lia.
  - intros b Hb Hx. apply encloses_prefix in Hb. apply build_tree_exists in Hx as [v Hv].
    by rewrite (LongestPrefix_None _ _ E _ Hb) in Hv.
Qed.

Lemma build_tree_wildcard a :
  match Get t (rev_key a ++ star_dot) with
  | Some (Some v) => wildcard_of a ∈ locs ∧ v = wildcard_of a
  | _ => wildcard_of a ∉ locs
  end.
Proof.
  rewrite <-rev_key_wildcard. destruct (decide (wildcard_of a ∈ locs)) as [Hw|Hw].
  - by rewrite build_tree_location.
  - by destruct (build_tree_nonlocation _ Hw) as [[-> _]|[-> _]].
Qed.

Lemma build_tree_star :
  match Get t star_dot with Some (Some _) => "*" ∈ locs | _ => "*" ∉ locs end.
Proof.
  change star_dot with (rev_key "*"). destruct (decide ("*" ∈ locs)) as [Hw|Hw].
  - by rewrite build_tree_location.
  - by destruct (build_tree_nonlocation _ Hw) as [[-> _]|[-> _]].
Qed.
End build.
End tree.

(** ** [FindLocation] implements the specification *)

(** What [NewZone] establishes and the later changes of the key fields keep. *)
Definition well_built {T} `{!IRadix T} (z : Zone T) : Prop :=
  LocationsTree z = build_tree (LocationsList z) ∧ Forall ascii7 (LocationsList z).

Lemma closest_encloser_unique locs q a b :
  closest_encloser locs q a → closest_encloser locs q b → a = b.
Proof.
  intros (Ha & Hxa & Hma) (Hb & Hxb & Hmb).
  pose proof (Hma _ Hb Hxb). pose proof (Hmb _ Ha Hxa).
  rewrite encloses_prefix in Ha, Hb. apply rev_key_inj.
  destruct (prefix_weak_total _ _ _ Ha Hb);
    [|symmetry]; apply prefix_length_eq; rewrite ?rev_key_length; (done || lia).
Qed.

Lemma name_exists_loc locs a : a ∈ locs → name_exists locs a.
Proof. intros. exists a. split; [done|apply encloses_refl]. Qed.

Lemma closest_encloser_self locs q a :
  closest_encloser locs q a → name_exists locs q → a = q.
Proof.
  intros Hc Hx. eapply closest_encloser_unique; [done|].
  split_and!; [apply encloses_refl|done|]. intros b Hb _. by apply encloses_length.
Qed.

Lemma FindSpec_functional locs q l1 m1 l2 m2 :
  FindSpec locs q l1 m1 → FindSpec locs q l2 m2 → l1 = l2 ∧ m1 = m2.
Proof.
  assert (Hroot : ∀ a, closest_encloser locs q a →
            ¬ (∀ b, encloses b q → ¬ name_exists locs b)).
  { intros a (? & ? & _) Hn. by eapply Hn. }
  assert (Hself : name_exists locs q → ¬ (∀ b, encloses b q → ¬ name_exists locs b)).
  { intros Hx Hn. by apply (Hn q (encloses_refl q)). }
  pose proof (name_exists_loc locs q) as Hloc.
  pose proof (closest_encloser_unique locs q) as Huniq.
  pose proof (closest_encloser_self locs q) as Hcs.
  destruct 1; destruct 1;
    repeat match goal with
    | H1 : closest_encloser locs q ?a, H2 : closest_encloser locs q ?b |- _ =>
      first [constr_eq a b; fail 1|pose proof (Huniq _ _ H1 H2); subst b]
    end; naive_solver.
Qed.

Section find.
Context {T : Type → Type} `{IRadixLaws T}.

Lemma FindLocation_sound (z : Zone T) query q :
  well_built z → query ≠ Name z → q = TrimSuffix query (String dot (Name z)) → ascii7 q →
  FindSpec (LocationsList z) q (FindLocation z query).1 (FindLocation z query).2.
Proof.
  intros [Ht Hlocs] Hne Hq Hascii. unfold FindLocation.
  rewrite decide_False, <-Hq, Ht, ReverseName_ascii by done. clear Hq.
  pose proof (build_tree_LongestPrefix _ Hlocs q) as HL.
  destruct (LongestPrefix _ _) as [[p v]|].
  - destruct HL as (a & -> & Hc & Hg).
    destruct (decide (a ∈ LocationsList z)) as [Hl|Hl].
    + rewrite build_tree_location in Hg by done. simplify_eq.
      destruct (decide (rev_key a = rev_key q)) as [->%rev_key_inj|Hqa]; [by constructor|].
      assert (a ≠ q) by congruence.
      pose proof (build_tree_wildcard _ Hlocs a) as Hw.
      destruct (Get _ (_ ++ _)) as [[v|]|];
        [destruct Hw as [? ->]; by econstructor|by apply Find_ce..].
    + destruct (build_tree_nonlocation _ Hlocs _ Hl) as [[E Hx]|[E Hx]]; [|congruence].
      rewrite E in Hg. simplify_eq.
      destruct (decide (rev_key a = rev_key q)) as [->%rev_key_inj|Hqa]; [by constructor|].
      assert (a ≠ q) by congruence.
      pose proof (build_tree_wildcard _ Hlocs a) as Hw.
      destruct (Get _ (_ ++ _)) as [[v|]|];
        [destruct Hw as [? ->]; by econstructor|by eapply Find_none..].
  - pose proof (build_tree_star _ Hlocs) as Hs.
    destruct (Get _ star_dot) as [[?|]|]; by constructor.
Qed.

(** C1. In a zone built by [NewZone] from ASCII locations, [FindLocation]
    computes exactly the classification of [FindSpec] for every name but the
    zone's own: the exact location, an empty non-terminal, the wildcard below
    the closest encloser, the closest encloser itself, or no match. *)
Theorem FindLocation_refines (z : Zone T) query loc m :
  well_built z → query ≠ Name z → ascii7 query →
  FindLocation z query = (loc, m) ↔
  FindSpec (LocationsList z) (TrimSuffix query (String dot (Name z))) loc m.
Proof.
  intros Hz Hne Ha.
  pose proof (FindLocation_sound z query _ Hz Hne eq_refl
                (ascii7_TrimSuffix _ _ Ha)) as Hs.
  split; [intros E; by rewrite E in Hs|]. intros Hf.
  destruct (FindSpec_functional _ _ _ _ _ _ Hs Hf). by destruct (FindLocation z query); simplify_eq/=.
Qed.

Lemma NewZone_well_built Fqdn um zone locs cfg now :
  Forall ascii7 locs → well_built (NewZone (T:=T) Fqdn um zone locs cfg now).
Proof. by split. Qed.

(** Every location of a zone is found, as an exact match, under its fully
    qualified name. *)
Lemma well_built_finds (z : Zone T) l :
  well_built z → l ∈ LocationsList z → FindLocation z (l +:+ String dot (Name z)) = (l, ExactMatch).
Proof.
  intros Hz Hl. assert (l +:+ String dot (Name z) ≠ Name z) as Hne.
  { intros E%(f_equal (λ s, length (bytes s))). rewrite bytes_app, length_app in E.
    simpl in E. lia. }
  assert (E : l = TrimSuffix (l +:+ String dot (Name z)) (String dot (Name z))) by by rewrite TrimSuffix_app.
  pose proof (FindLocation_sound z _ l Hz Hne E (proj1 (Forall_forall _ _) (proj2 Hz) _ Hl)) as Hs.
  destruct (FindSpec_functional _ _ _ _ _ _ Hs (Find_exact _ _ Hl)).
  destruct (FindLocation z _); simplify_eq/=. done.
Qed.

Theorem NewZone_finds_locations Fqdn um zone locs cfg now l :
  Forall ascii7 locs → l ∈ locs →
  FindLocation (NewZone (T:=T) Fqdn um zone locs cfg now) (l +:+ String dot zone)
  = (l, ExactMatch).
Proof.
  intros Hlocs Hl. apply (well_built_finds (NewZone Fqdn um zone locs cfg now)); [|done].
  by apply NewZone_well_built.
Qed.
End find.
