(* ===== verification/Geo.v ===== *)
(** * Geographic filtering: [pkg/geoip/geoip.go], [internal/geotools/geotools.go]

    The GeoIP databases are maxminddb files read by a third-party package: a
    [Reader] is given by its lookup functions. Floating-point numbers and the
    functions of package math are the class [Float64]. A mask has one entry per
    address of the record set it filters: the callers build it with
    [make([]int, len(rrset.Data))]. *)
From S2P Require Import Prelude GoStrings DnsTypes.
Local Open Scope Z_scope.

(** ** Package geoip *)
Class Float64 (F : Type) := {
  f_of_Z : Z → F; f_pi : F;
  f_add : F → F → F; f_sub : F → F → F; f_mul : F → F → F; f_div : F → F → F;
  f_sin : F → F; f_cos : F → F; f_sqrt : F → F; f_atan2 : F → F → F;
  f_ltb : F → F → bool; f_eqb : F → F → bool;
}.

Inductive GeoError := ErrGeoIpDisabled | ErrBadDB | ErrLookup (msg : string).
#[global] Instance GeoError_eq_dec : EqDecision GeoError.
Proof. solve_decision. Defined.

(** What the source reads from a [maxminddb.Reader]: the fields it decodes with
    [Lookup], and [Decode] of a longitude, 0 when it fails. *)
Record Reader (F : Type) := {
  Lookup_country : IP → res GeoError string;
  Lookup_asn : IP → res GeoError Z;
  Lookup_location : IP → res GeoError (F * Z);
  Decode_longitude : Z → F;
}.
Arguments Lookup_country {F}. Arguments Lookup_asn {F}.
Arguments Lookup_location {F}. Arguments Decode_longitude {F}.

Record GeoIp (F : Type) := {
  enable : bool; countryDB : option (Reader F); asnDB : option (Reader F);
}.
Arguments enable {F}. Arguments countryDB {F}. Arguments asnDB {F}.

Record GeoConfig := { GC_Enable : bool; GC_CountryDB : string; GC_ASNDB : string }.

Section geoip.
Context {F : Type} `{Float64 F}.

(** [open] is [maxminddb.Open], which gives a nil reader on an error. *)
Definition NewGeoIp (open : string → option (Reader F)) (config : GeoConfig) : GeoIp F :=
  if GC_Enable config then {|
    enable := true;
    countryDB := if str_empty (GC_CountryDB config) then None else open (GC_CountryDB config);
    asnDB := if str_empty (GC_ASNDB config) then None else open (GC_ASNDB config) |}
  else {| enable := false; countryDB := None; asnDB := None |}.

Definition radians (x : F) : F := f_div (f_mul x f_pi) (f_of_Z 180).

Definition GetDistance (slat slong dlat dlong : F) : F :=
  let two := f_of_Z 2 in
  let deltaLat := radians (f_sub dlat slat) in
  let deltaLong := radians (f_sub dlong slong) in
  let slat := radians slat in
  let dlat := radians dlat in
  let sinLat := f_sin (f_div deltaLat two) in
  let sinLong := f_sin (f_div deltaLong two) in
  let a := f_add (f_mul sinLat sinLat)
             (f_mul (f_mul (f_mul (f_cos slat) (f_cos dlat)) sinLong) sinLong) in
  f_mul two (f_atan2 (f_sqrt a) (f_sqrt (f_sub (f_of_Z 1) a))).

(** Latitude and longitude; on an error the source also returns zeros. *)
Definition GetCoordinates (g : GeoIp F) (ip : IP) : (F * F) * option GeoError :=
  let zero := (f_of_Z 0, f_of_Z 0) in
  if negb (enable g) then (zero, Some ErrGeoIpDisabled) else
  match countryDB g with
  | None => (zero, Some ErrBadDB)
  | Some db =>
    match Lookup_location db ip with
    | Err e => (zero, Some e)
    | Ok (latitude, offset) => ((latitude, Decode_longitude db offset), None)
    end
  end.

Definition GetCountry (g : GeoIp F) (ip : IP) : res GeoError string :=
  if negb (enable g) then Err ErrGeoIpDisabled else
  match countryDB g with None => Err ErrBadDB | Some db => Lookup_country db ip end.

Definition GetASN (g : GeoIp F) (ip : IP) : res GeoError Z :=
  if negb (enable g) then Err ErrGeoIpDisabled else
  match asnDB g with None => Err ErrBadDB | Some db => Lookup_asn db ip end.
End geoip.

(** ** Package geotools

    [GetSameCountry] and [GetSameASN] are the same two loops over an attribute
    of the addresses ([Country], [ASN]) whose zero value ("" or 0) stands for
    "any source". *)
Section same.
Context {K : Type} `{!EqDecision K}.
Variables (zero : K) (attr : IP_RR → list K).

(** First loop: keep the white addresses that list the source's key. *)
Definition same_first (source : K) (x : Z) (ip : IP_RR) : Z :=
  if x =? IpMaskWhite then
    if bool_decide (source ∈ attr ip) then x else IpMaskGrey
  else IpMaskBlack.

(** [passed++] for each of them. *)
Definition same_passed (source : K) (x : Z) (ip : IP_RR) : bool :=
  (x =? IpMaskWhite) && bool_decide (source ∈ attr ip).

(** Second loop, when none passed: fall back to the addresses without
    attribute or with the zero value among their attributes. *)
Definition same_second (x : Z) (ip : IP_RR) : Z :=
  if x =? IpMaskBlack then x
  else match attr ip with
       | [] => IpMaskWhite
       | l => if bool_decide (zero ∈ l) then IpMaskWhite else IpMaskBlack
       end.

Definition same_mask (source : K) (ips : list IP_RR) (mask : list Z) : list Z :=
  let first := if decide (source = zero) then mask else zip_with (same_first source) mask ips in
  let passed := if decide (source = zero) then []
                else List.filter id (zip_with (same_passed source) mask ips) in
  if (0 <? length passed)%nat then first else zip_with same_second first ips.
End same.

Section geotools.
Context {F : Type} `{Float64 F}.

(** The mask, with the error the callers drop. *)
Definition GetSameCountry (g : GeoIp F) (sourceIp : IP) (ips : list IP_RR) (mask : list Z)
  : list Z * option GeoError :=
  match GetCountry g sourceIp with
  | Err e => (mask, Some e)
  | Ok sourceCountry => (same_mask empty_str IP_Country sourceCountry ips mask, None)
  end.

Definition GetSameASN (g : GeoIp F) (sourceIp : IP) (ips : list IP_RR) (mask : list Z)
  : list Z * option GeoError :=
  match GetASN g sourceIp with
  | Err e => (mask, Some e)
  | Ok sourceASN => (same_mask 0 IP_ASN sourceASN ips mask, None)
  end.

(** First loop of [GetMinimumDistance]: the distances of the white addresses,
    in order, and their minimum below [minDistance]. *)
Fixpoint distances (g : GeoIp F) (src : F * F) (mask : list Z) (ips : list IP_RR)
    (minDistance : F) : F * list F :=
  match mask, ips with
  | x :: mask, ip :: ips =>
    if x =? IpMaskWhite then
      let dst := (GetCoordinates g (IP_Ip ip)).1 in
      let d := GetDistance src.1 src.2 dst.1 dst.2 in
      let '(m, ds) := distances g src mask ips (if f_ltb d minDistance then d else minDistance) in
      (m, d :: ds)
    else distances g src mask ips minDistance
  | _, _ => (minDistance, [])
  end.

(** Second loop: [dists[i]] is indexed by the position in the mask and panics
    ([None]) when it is out of range. It returns the mask and [passed]. *)
Fixpoint closest (minDistance : F) (dists : list F) (i : nat) (mask : list Z)
  : option (list Z * nat) :=
  match mask with
  | [] => Some ([], 0%nat)
  | x :: mask =>
    if x =? IpMaskWhite then
      match dists !! i with
      | None => None
      | Some d =>
        match closest minDistance dists (S i) mask with
        | None => None
        | Some (mask, passed) =>
          if f_eqb d minDistance then Some (x :: mask, S passed)
          else Some (IpMaskGrey :: mask, passed)
        end
      end
    else match closest minDistance dists (S i) mask with
         | None => None
         | Some (mask, passed) => Some (IpMaskBlack :: mask, passed)
         end
  end.

Definition grey_to_white (x : Z) : Z := if x =? IpMaskGrey then IpMaskWhite else x.

(** [None] is a run-time panic. *)
Definition GetMinimumDistance (g : GeoIp F) (sourceIp : IP) (ips : list IP_RR) (mask : list Z)
  : option (list Z * option GeoError) :=
  match GetCoordinates g sourceIp with
  | (_, Some e) => Some (mask, Some e)
  | (src, None) =>
    let '(minDistance, dists) := distances g src mask ips (f_of_Z 1000) in
    match closest minDistance dists 0 mask with
    | None => None
    | Some (mask, passed) =>
      Some (if (0 <? passed)%nat then mask else grey_to_white <$> mask, None)
    end
  end.
End geotools.

(** ** Theorems *)
Definition white (x : Z) : Prop := x = IpMaskWhite.
Definition all_white (n : nat) : list Z := replicate n IpMaskWhite.

Section same_facts.
Context {K : Type} `{!EqDecision K}.
Variables (zero : K) (attr : IP_RR → list K).

(** The entries of a filtered mask, when the mask was all white. *)
Definition accepts (source : K) (ips : list IP_RR) (ip : IP_RR) : Prop :=
  if bool_decide (source ≠ zero ∧ Exists (λ ip, source ∈ attr ip) ips)
  then source ∈ attr ip
  else attr ip = [] ∨ zero ∈ attr ip.

Lemma zip_with_all_white {A} (f : Z → IP_RR → A) (ips : list IP_RR) :
  zip_with f (all_white (length ips)) ips = f IpMaskWhite <$> ips.
Proof. unfold all_white. induction ips; simpl; by f_equal. Qed.

Lemma same_mask_length source ips mask :
  length mask = length ips → length (same_mask zero attr source ips mask) = length ips.
Proof.
  intros Hl. unfold same_mask. destruct (decide _); repeat case_match;
    rewrite ?length_zip_with; lia.
Qed.

Lemma same_mask_all_white source ips i ip :
  ips !! i = Some ip →
  ∃ x, same_mask zero attr source ips (all_white (length ips)) !! i = Some x
       ∧ (x = IpMaskWhite ↔ accepts source ips ip).
Proof.
  intros Hi. unfold same_mask, accepts. rewrite !zip_with_all_white.
  set (p := List.filter id _).
  assert (Hp : (0 <? length p)%nat = bool_decide (Exists (λ ip, source ∈ attr ip) ips)).
  { unfold p. clear. induction ips as [|y l IH]; [done|]. simpl.
    unfold same_passed at 1. rewrite Z.eqb_refl. cbn [andb]. unfold id at 1.
    destruct (bool_decide_reflect (source ∈ attr y)) as [Hy|Hy]; simpl.
    - symmetry. apply bool_decide_eq_true. by constructor.
    - etrans; [exact IH|]. apply bool_decide_ext. rewrite Exists_cons. tauto. }
  assert (Hsecond : ∀ y, y ≠ IpMaskBlack →
            same_second zero attr y ip = IpMaskWhite ↔ attr ip = [] ∨ zero ∈ attr ip).
  { clear Hp. intros y Hy. unfold same_second. apply Z.eqb_neq in Hy. rewrite Hy.
    destruct (attr ip); [tauto|]. case_bool_decide; split; [intros _; by right|done|done|by intros [|]]. }
  destruct (decide (source = zero)) as [Hz|Hz].
  - rewrite bool_decide_eq_false_2 by tauto. simpl. rewrite zip_with_all_white.
    exists (same_second zero attr IpMaskWhite ip). rewrite list_lookup_fmap, Hi. split; [done|].
    by apply Hsecond.
  - rewrite Hp. destruct (bool_decide_reflect (Exists (λ ip, source ∈ attr ip) ips)) as [He|He].
    + rewrite bool_decide_eq_true_2 by done. exists (same_first attr source IpMaskWhite ip).
      rewrite list_lookup_fmap, Hi. split; [done|]. unfold same_first. simpl.
      clear Hp. by case_bool_decide.
    + rewrite bool_decide_eq_false_2 by tauto. eexists. rewrite lookup_zip_with, list_lookup_fmap, Hi.
      simpl. split; [done|]. apply Hsecond. unfold same_first. simpl. by case_bool_decide.
Qed.
End same_facts.

Section geo_facts.
Context {F : Type} `{Float64 F}.
Implicit Types g : GeoIp F.

Lemma distances_all_white g src ips m :
  length (distances g src (all_white (length ips)) ips m).2 = length ips.
Proof.
  revert m. induction ips as [|ip ips IH]; intros m; [done|]. simpl.
  match goal with |- context [distances g src _ ips ?m'] => specialize (IH m') end.
  unfold all_white in IH. destruct (distances _ _ _ _ _); simpl in *. by f_equal.
Qed.

Lemma closest_all_white m dists i n :
  (i + n ≤ length dists)%nat →
  ∃ mask passed, closest m dists i (all_white n) = Some (mask, passed) ∧ length mask = n
    ∧ (passed = 0%nat → mask = replicate n IpMaskGrey)
    ∧ (passed ≠ 0%nat → ∃ j d, (j < n)%nat ∧ dists !! (i + j)%nat = Some d ∧ f_eqb d m = true)
    ∧ ∀ j d, dists !! (i + j)%nat = Some d → (j < n)%nat →
        mask !! j = Some (if f_eqb d m then IpMaskWhite else IpMaskGrey).
Proof.
  revert i. induction n as [|n IH]; intros i Hl; simpl.
  { exists [], 0%nat. split_and!; (done || lia). }
  destruct (lookup_lt_is_Some_2 dists i) as [d Hd]; [lia|]. rewrite Hd.
  destruct (IH (S i)) as (mask & passed & E & Hm & H0 & H1 & Hj); [lia|].
  unfold all_white in E. rewrite E.
  assert (Htail : ∀ j x d', dists !! (i + S j)%nat = Some d' → (S j < S n)%nat →
            (x :: mask) !! S j = Some (if f_eqb d' m then IpMaskWhite else IpMaskGrey)).
  { intros j x d' ??. simpl. apply Hj; [|lia]. by replace (S i + j)%nat with (i + S j)%nat by lia. }
  destruct (f_eqb d m) eqn:Ed; eexists _, _; split_and!; try done; simpl; try lia.
  - intros _. exists 0%nat, d. rewrite Nat.add_0_r. split_and!; [lia|done|done].
  - intros [|j] d' Hd' ?; [|by apply Htail]. rewrite Nat.add_0_r in Hd'. simplify_eq/=. by rewrite Ed.
  - intros ->. by rewrite H0.
  - intros (j & d' & ? & ? & ?)%H1. exists (S j), d'.
    replace (i + S j)%nat with (S i + j)%nat by lia. split_and!; [lia|done|done].
  - intros [|j] d' Hd' ?; [|by apply Htail]. rewrite Nat.add_0_r in Hd'. simplify_eq/=. by rewrite Ed.
Qed.

(** On an all-white mask the distances are indexed in range. *)
Lemma GetMinimumDistance_all_white g src ips :
  ∃ mask e, GetMinimumDistance g src ips (all_white (length ips)) = Some (mask, e)
            ∧ length mask = length ips.
Proof.
  unfold GetMinimumDistance. destruct (GetCoordinates g src) as [c [e|]].
  { eexists _, _. split; [done|]. apply length_replicate. }
  pose proof (distances_all_white g c ips (f_of_Z 1000)) as Hd.
  destruct (distances _ _ _ _ _) as [m ds]. simpl in Hd.
  destruct (closest_all_white m ds 0 (length ips)) as (mask & passed & -> & Hl & _); [lia|].
  eexists _, _. split; [done|]. destruct (0 <? passed)%nat; by rewrite ?length_fmap.
Qed.

Definition distance_to (g : GeoIp F) (src : F * F) (ip : IP_RR) : F :=
  let dst := (GetCoordinates g (IP_Ip ip)).1 in
  GetDistance src.1 src.2 dst.1 dst.2.

Definition nearest (g : GeoIp F) (src : F * F) (ips : list IP_RR) : F :=
  foldl (λ m ip, if f_ltb (distance_to g src ip) m then distance_to g src ip else m)
    (f_of_Z 1000) ips.

Lemma distances_values g src ips m :
  distances g src (all_white (length ips)) ips m
  = (foldl (λ m ip, if f_ltb (distance_to g src ip) m then distance_to g src ip else m) m ips,
     distance_to g src <$> ips).
Proof.
  revert m. induction ips as [|ip ips IH]; intros m; [done|]. simpl.
  unfold all_white in IH. rewrite IH. done.
Qed.

Lemma distances_count g src mask ips m :
  length mask = length ips →
  length (distances g src mask ips m).2 = length (filter white mask).
Proof.
  revert ips m. induction mask as [|x mask IH]; intros [|ip ips] m Hl; simplify_eq/=; [done|].
  rewrite filter_cons. unfold white at 1. destruct (Z.eqb_spec x IpMaskWhite).
  - rewrite decide_True by done.
    match goal with |- context [distances g src _ ips ?m'] => specialize (IH ips m' Hl) end.
    destruct (distances _ _ _ _ _). simpl in *. by f_equal.
  - rewrite decide_False by done. by apply IH.
Qed.

Lemma closest_out_of_range m dists i j mask :
  mask !! j = Some IpMaskWhite → (length dists ≤ i + j)%nat → closest m dists i mask = None.
Proof.
  revert i j. induction mask as [|x mask IH]; intros i [|j] Hj Hl; simplify_eq/=.
  - by rewrite lookup_ge_None_2 by lia.
  - rewrite (IH (S i) j Hj) by lia. by destruct (x =? IpMaskWhite), (dists !! i).
Qed.

(** With an all-white mask, [GetSameCountry] leaves white exactly the
    addresses that list the source's country when the source's country is
    known and some address lists it, and otherwise exactly the addresses
    without country or with the empty country. *)
Theorem GetSameCountry_spec g src c ips i ip :
  GetCountry g src = Ok c → ips !! i = Some ip →
  ∃ x, (GetSameCountry g src ips (all_white (length ips))).1 !! i = Some x
       ∧ (x = IpMaskWhite ↔ accepts empty_str IP_Country c ips ip).
Proof. intros Hc Hi. unfold GetSameCountry. rewrite Hc. by apply same_mask_all_white. Qed.

(** With an all-white mask, [GetMinimumDistance] does not panic, and an
    address stays white iff its distance is the nearest one or no address is
    at the nearest distance. *)
Theorem GetMinimumDistance_spec g src c ips :
  GetCoordinates g src = (c, None) →
  ∃ mask, GetMinimumDistance g src ips (all_white (length ips)) = Some (mask, None)
    ∧ length mask = length ips
    ∧ ∀ i ip, ips !! i = Some ip →
        mask !! i = Some IpMaskWhite ↔
        f_eqb (distance_to g c ip) (nearest g c ips) = true
        ∨ ∀ ip', ip' ∈ ips → f_eqb (distance_to g c ip') (nearest g c ips) = false.
Proof.
  intros Hc. unfold GetMinimumDistance. rewrite Hc, distances_values. fold (nearest g c ips).
  set (ds := distance_to g c <$> ips). set (m := nearest g c ips).
  destruct (closest_all_white m ds 0 (length ips)) as (mask & passed & -> & Hl & H0 & H1 & Hj);
    [by unfold ds; rewrite length_fmap|].
  assert (Hv : ∀ i ip, ips !! i = Some ip →
            mask !! i = Some (if f_eqb (distance_to g c ip) m then IpMaskWhite else IpMaskGrey)).
  { intros i ip Hi. apply Hj; [|by eapply lookup_lt_Some].
    unfold ds. rewrite Nat.add_0_l. by rewrite list_lookup_fmap, Hi. }
  eexists. split; [done|]. split; [destruct (0 <? passed)%nat; by rewrite ?length_fmap|].
  intros i ip Hi. destruct passed as [|passed]; simpl.
  - rewrite list_lookup_fmap, (Hv _ _ Hi). simpl.
    assert (Hno : ∀ ip', ip' ∈ ips → f_eqb (distance_to g c ip') m = false).
    { intros ip' [j Hj']%list_elem_of_lookup. specialize (Hv _ _ Hj').
      rewrite H0, lookup_replicate_2 in Hv by (done || by eapply lookup_lt_Some).
      by destruct (f_eqb _ _). }
    rewrite (Hno ip) by (by eapply list_elem_of_lookup_2). split; [by right|done].
  - rewrite (Hv _ _ Hi). destruct (f_eqb (distance_to g c ip) m) eqn:E; [naive_solver|].
    split; [done|]. intros [?|Hno]; [done|].
    destruct H1 as (j & d & Hlt & Hd & Hpass); [done|].
    unfold ds in Hd. rewrite Nat.add_0_l, list_lookup_fmap in Hd.
    destruct (ips !! j) as [ip'|] eqn:Hj'; simplify_eq/=.
    rewrite Hno in Hpass; [done|]. by eapply list_elem_of_lookup_2.
Qed.
End geo_facts.
