(* ===== verification/IpSelect.v ===== *)
(** * Address selection: [filter], [orderIps], [generateA] of
    [internal/handler/handler.go]

    [filter] masks the addresses of a record set by the client's location and
    [orderIps] picks a first address among the white ones (at random by weight,
    round robin, or the first) and returns it alone or with the others in
    rotation. The clock reading [time.Now().Nanosecond()] is an argument. *)
From S2P Require Import Prelude GoStrings DnsTypes Geo.
Local Open Scope Z_scope.

(** The entries [(mask[i], rrset.Data[i])]. *)
Notation entries mask rrset := (zip mask (IP_Data rrset)).

Definition is_white (e : Z * IP_RR) : bool := e.1 =? IpMaskWhite.

(** First loop: [count] and [sum] over the white entries. *)
Fixpoint white_count (l : list (Z * IP_RR)) : nat :=
  match l with
  | [] => 0
  | e :: l => if is_white e then S (white_count l) else white_count l
  end.
Fixpoint white_sum (sum : Z) (l : list (Z * IP_RR)) : Z :=
  match l with
  | [] => sum
  | e :: l => white_sum (if is_white e then wrap64 (sum + IP_Weight e.2) else sum) l
  end.

(** The three ways to choose [index]; [None] is [-1]. *)
Fixpoint pick_weighted (s : Z) (i : nat) (l : list (Z * IP_RR)) : option nat :=
  match l with
  | [] => None
  | e :: l =>
    if is_white e then
      let s := wrap64 (s - IP_Weight e.2) in
      if s <? 0 then Some i else pick_weighted s (S i) l
    else pick_weighted s (S i) l
  end.
Fixpoint pick_rr (r : Z) (i : nat) (l : list (Z * IP_RR)) : option nat :=
  match l with
  | [] => None
  | e :: l =>
    if is_white e then if r =? 0 then Some i else pick_rr (r - 1) (S i) l
    else pick_rr r (S i) l
  end.
Fixpoint pick_first (i : nat) (l : list (Z * IP_RR)) : option nat :=
  match l with
  | [] => None
  | e :: l => if is_white e then Some i else pick_first (S i) l
  end.

Definition white_ips (l : list (Z * IP_RR)) : list IP :=
  (λ e, IP_Ip e.2) <$> List.filter is_white l.

Definition pick_index (rrset : IP_RRSet) (mask : list Z) (ns : Z) : option nat :=
  let l := entries mask rrset in
  let order := FC_Order (IP_FilterConfig rrset) in
  let sum := white_sum 0 l in
  if bool_decide (order = "weighted") && (0 <? sum) then
    pick_weighted (Z.rem ns sum) 0 l
  else if bool_decide (order = "rr") || (bool_decide (order = "weighted") && (sum =? 0)) then
    pick_rr (Z.rem ns (Z.of_nat (white_count l))) 0 l
  else pick_first 0 l.

Definition orderIps (rrset : IP_RRSet) (mask : list Z) (ns : Z) : list IP :=
  let l := entries mask rrset in
  if (white_count l =? 0)%nat then [] else
  match pick_index rrset mask ns with
  | None => []
  | Some index =>
    if bool_decide (FC_Count (IP_FilterConfig rrset) = "single") then
      match l !! index with Some e => [IP_Ip e.2] | None => [] end
    else white_ips (drop index l) ++ white_ips (take index l)
  end.

(** [filter] ([filter_ips] here); [None] is a run-time panic, which
    [filter_ips_total] rules out. *)
Section filter.
Context {F : Type} `{Float64 F}.

Definition filter_mask (g : GeoIp F) (sourceIp : IP) (rrset : IP_RRSet) : option (list Z) :=
  let mask := all_white (length (IP_Data rrset)) in
  let ips := IP_Data rrset in
  let geo := FC_GeoFilter (IP_FilterConfig rrset) in
  if decide (geo = "asn") then Some (GetSameASN g sourceIp ips mask).1
  else if decide (geo = "country") then Some (GetSameCountry g sourceIp ips mask).1
  else if decide (geo = "asn+country") then
    Some (GetSameCountry g sourceIp ips (GetSameASN g sourceIp ips mask).1).1
  else if decide (geo = "location") then fst <$> GetMinimumDistance g sourceIp ips mask
  else Some mask.

Definition filter_ips (g : GeoIp F) (sourceIp : IP) (rrset : IP_RRSet) (ns : Z) : option (list IP) :=
  (λ mask, orderIps rrset mask ns) <$> filter_mask g sourceIp rrset.
End filter.

(** Nil addresses are skipped. *)
Definition generate (mk : IP → RData) (t : Z) (name : string) (ttl : Z) (ips : list IP) : list RR :=
  (λ ip, {| Header := inet name t ttl; Data := mk ip |})
    <$> List.filter (λ ip : IP, match ip with None => false | Some _ => true end) ips.
Definition generateA (name : string) (ttl : Z) (ips : list IP) : list RR :=
  generate RD_A dns.TypeA name ttl ips.
Definition generateAAAA (name : string) (ttl : Z) (ips : list IP) : list RR :=
  generate RD_AAAA dns.TypeAAAA name ttl ips.

(** ** Theorems *)

(** Weights for which the source's sums do not overflow. *)
Definition good_weights (l : list (Z * IP_RR)) : Prop :=
  Forall (λ e, 0 ≤ IP_Weight e.2) l ∧ foldr (λ e s, IP_Weight e.2 + s) 0 l < 2 ^ 63.

Definition total_weight (l : list (Z * IP_RR)) : Z :=
  foldr (λ e s, (if is_white e then IP_Weight e.2 else 0) + s) 0 l.

Lemma good_weights_cons e l :
  good_weights (e :: l) → 0 ≤ IP_Weight e.2 ∧ good_weights l
    ∧ IP_Weight e.2 + foldr (λ e s, IP_Weight e.2 + s) 0 l < 2 ^ 63.
Proof.
  intros [Hf Hs]. apply Forall_cons in Hf as [? ?]. simpl in Hs.
  split_and!; [done| |done]. split; [done|lia].
Qed.

Lemma weights_nonneg l :
  Forall (λ e : Z * IP_RR, 0 ≤ IP_Weight e.2) l → 0 ≤ foldr (λ e s, IP_Weight e.2 + s) 0 l.
Proof. induction 1; simpl; lia. Qed.

Lemma total_weight_bounds l :
  Forall (λ e : Z * IP_RR, 0 ≤ IP_Weight e.2) l →
  0 ≤ total_weight l ≤ foldr (λ e s, IP_Weight e.2 + s) 0 l.
Proof.
  intros Hf. unfold total_weight. induction Hf as [|e l He Hf IH]; simpl; [lia|].
  destruct (is_white e); lia.
Qed.

Lemma white_sum_total l sum :
  good_weights l → 0 ≤ sum → sum + foldr (λ e s, IP_Weight e.2 + s) 0 l < 2 ^ 63 →
  white_sum sum l = sum + total_weight l.
Proof.
  revert sum. induction l as [|e l IH]; intros sum Hg Hs Hb; simpl; [lia|].
  destruct (good_weights_cons _ _ Hg) as (? & Hg' & ?). simpl in Hb.
  pose proof (weights_nonneg l (proj1 Hg')).
  destruct (is_white e); rewrite IH; rewrite ?wrap64_id; unfold is_int64; lia || done.
Qed.

Lemma white_count_ips l : white_count l = length (white_ips l).
Proof. induction l as [|e l IH]; [done|]. simpl. unfold white_ips in *. simpl. by destruct (is_white e); simpl; rewrite IH. Qed.

Lemma white_ips_app l1 l2 : white_ips (l1 ++ l2) = white_ips l1 ++ white_ips l2.
Proof. unfold white_ips. by rewrite List.filter_app, fmap_app. Qed.

(** A successful pick is the position of a white entry. *)
Definition white_at (l : list (Z * IP_RR)) (i : nat) : Prop :=
  ∃ e, l !! i = Some e ∧ is_white e = true.

Lemma white_at_cons e l i : white_at l i → white_at (e :: l) (S i).
Proof. by intros (x & ? & ?); exists x. Qed.

Lemma pick_first_spec i l :
  white_count l ≠ 0%nat → ∃ j, pick_first i l = Some (i + j)%nat ∧ white_at l j.
Proof.
  revert i. induction l as [|e l IH]; intros i; simpl; [done|].
  destruct (is_white e) eqn:He; intros Hc.
  - exists 0%nat. rewrite Nat.add_0_r. split; [done|]. by exists e.
  - destruct (IH (S i) Hc) as (j & -> & Hj). exists (S j).
    split; [f_equal; lia|by apply white_at_cons].
Qed.

Lemma pick_rr_spec i l r :
  0 ≤ r < Z.of_nat (white_count l) → ∃ j, pick_rr r i l = Some (i + j)%nat ∧ white_at l j.
Proof.
  revert i r. induction l as [|e l IH]; intros i r Hr; simpl in *; [lia|].
  destruct (is_white e) eqn:He; [destruct (Z.eqb_spec r 0)|].
  - exists 0%nat. rewrite Nat.add_0_r. split; [done|]. by exists e.
  - destruct (IH (S i) (r - 1)) as (j & -> & Hj); [lia|]. exists (S j).
    split; [f_equal; lia|by apply white_at_cons].
  - destruct (IH (S i) r) as (j & -> & Hj); [lia|]. exists (S j).
    split; [f_equal; lia|by apply white_at_cons].
Qed.

(** The weight of the white entries before position [i]. *)
Definition weight_before (l : list (Z * IP_RR)) (i : nat) : Z := total_weight (take i l).

Lemma pick_weighted_interval l i s k :
  good_weights l → 0 ≤ s < 2 ^ 63 →
  pick_weighted s i l = Some k ↔
  ∃ j e, k = (i + j)%nat ∧ l !! j = Some e ∧ is_white e = true
         ∧ weight_before l j ≤ s < weight_before l j + IP_Weight e.2.
Proof.
  revert i s. induction l as [|e l IH]; intros i s Hg Hs; simpl.
  { split; [done|]. by intros (j & e & _ & ? & _). }
  destruct (good_weights_cons _ _ Hg) as (Hw & Hg' & Hb).
  pose proof (weights_nonneg l (proj1 Hg')).
  assert (Hshift : ∀ s', is_white e = false ∧ s' = s ∨ is_white e = true ∧ s' = s - IP_Weight e.2 →
    (∃ j e0, k = (S i + j)%nat ∧ l !! j = Some e0 ∧ is_white e0 = true
       ∧ weight_before l j ≤ s' < weight_before l j + IP_Weight e0.2) ↔
    (∃ j e0, k = (i + S j)%nat ∧ (e :: l) !! S j = Some e0 ∧ is_white e0 = true
       ∧ weight_before (e :: l) (S j) ≤ s < weight_before (e :: l) (S j) + IP_Weight e0.2)).
  { intros s' Hs'. unfold weight_before, total_weight. simpl.
    split; intros (j & e0 & ? & ? & ? & ?); exists j, e0; split_and!; try (done || lia);
      destruct Hs' as [[Hi ?]|[Hi ?]]; rewrite Hi in *; lia. }
  destruct (is_white e) eqn:He.
  - rewrite wrap64_id by (unfold is_int64; lia).
    destruct (Z.ltb_spec (s - IP_Weight e.2) 0) as [Hlt|Hge].
    + split.
      * intros [= <-]. exists 0%nat, e. unfold weight_before. simpl. split_and!; (done || lia).
      * intros ([|j] & e0 & -> & Hj & _ & Hr & _); [f_equal; lia|].
        unfold weight_before, total_weight in Hr. simpl in Hr. rewrite He in Hr.
        pose proof (total_weight_bounds (take j l) (Forall_take _ j _ (proj1 Hg'))) as Ht.
        unfold total_weight in Ht. lia.
    + rewrite IH, Hshift by (done || lia || by right). split.
      * intros (j & e0 & H'); by exists (S j), e0.
      * intros ([|j] & e0 & -> & Hj & Hw' & Hr); simplify_eq/=.
        { unfold weight_before in Hr. simpl in Hr. lia. }
        by exists j, e0.
  - rewrite IH, Hshift by (done || by left). split.
    + intros (j & e0 & H'); by exists (S j), e0.
    + intros ([|j] & e0 & -> & Hj & Hw' & Hr); simplify_eq/=; [congruence|by exists j, e0].
Qed.

Lemma pick_weighted_total l i s :
  good_weights l → 0 ≤ s < total_weight l → is_Some (pick_weighted s i l).
Proof.
  revert i s. induction l as [|e l IH]; intros i s Hg Hs; simpl in *; [lia|].
  destruct (good_weights_cons _ _ Hg) as (Hw & Hg' & Hb).
  pose proof (total_weight_bounds l (proj1 Hg')).
  destruct (is_white e).
  - rewrite wrap64_id by (unfold is_int64; lia).
    destruct (Z.ltb_spec (s - IP_Weight e.2) 0); [by eexists|]. apply IH; [done|lia].
  - apply IH; [done|lia].
Qed.

Lemma pick_weighted_white l s k :
  good_weights l → 0 ≤ s < 2 ^ 63 → pick_weighted s 0 l = Some k → white_at l k.
Proof.
  intros Hg Hs Hp. apply pick_weighted_interval in Hp as (j & e & -> & ? & ? & _); [|done..].
  by exists e.
Qed.

(** Some white entry is always picked. *)
Lemma pick_index_white rrset mask ns :
  good_weights (entries mask rrset) → 0 ≤ ns →
  white_count (entries mask rrset) ≠ 0%nat →
  ∃ i, pick_index rrset mask ns = Some i ∧ white_at (entries mask rrset) i.
Proof.
  intros Hg Hns Hc. unfold pick_index. set (l := entries mask rrset) in *.
  rewrite white_sum_total, Z.add_0_l by (done || lia || apply Hg).
  destruct (bool_decide (_ = "weighted") && _) eqn:Ew; [|destruct (_ || _)].
  - apply andb_true_iff in Ew as [_ Ht%Z.ltb_lt].
    pose proof (Z.rem_bound_pos ns (total_weight l) Hns Ht).
    pose proof (total_weight_bounds l (proj1 Hg)). destruct Hg as [? Hb].
    destruct (pick_weighted_total l 0 (Z.rem ns (total_weight l))) as [i Hi]; [done..|].
    exists i. split; [done|]. eapply pick_weighted_white; [done| |done]. lia.
  - pose proof (Z.rem_bound_pos ns (Z.of_nat (white_count l)) Hns ltac:(lia)) as Hr.
    by destruct (pick_rr_spec 0 l _ Hr) as (j & -> & ?); exists j.
  - by destruct (pick_first_spec 0 l Hc) as (j & -> & ?); exists j.
Qed.

(** When the weights do not overflow, [orderIps] always finds a first
    address: its result is a rotation of all the white addresses in their
    stored order, or the first address of such a rotation for
    [Count = "single"]; it is empty only without white addresses. *)
Theorem orderIps_rotation rrset mask ns :
  good_weights (entries mask rrset) → 0 ≤ ns →
  let W := white_ips (entries mask rrset) in
  (W = [] ∧ orderIps rrset mask ns = [])
  ∨ ∃ k, (k < length W)%nat
       ∧ orderIps rrset mask ns =
         if bool_decide (FC_Count (IP_FilterConfig rrset) = "single")
         then take 1 (drop k W) else drop k W ++ take k W.
Proof.
  intros Hg Hns W. unfold orderIps. set (l := entries mask rrset) in *.
  pose proof (white_count_ips l) as HW. fold W in HW.
  destruct (Nat.eqb_spec (white_count l) 0) as [E|E].
  { left. split; [|done]. apply length_zero_iff_nil. lia. }
  right. destruct (pick_index_white rrset mask ns Hg Hns E) as (i & -> & e & Hi & He).
  fold l in Hi. exists (length (white_ips (take i l))).
  assert (Hl : W = white_ips (take i l) ++ white_ips (drop i l))
    by (unfold W; by rewrite <-white_ips_app, take_drop).
  assert (Hd : white_ips (drop i l) = IP_Ip e.2 :: white_ips (drop (S i) l)).
  { rewrite (drop_S _ _ _ Hi). unfold white_ips. simpl. by rewrite He. }
  split; [rewrite Hl, Hd, length_app; simpl; lia|].
  rewrite Hl, drop_app_length, take_app_length, Hd, Hi. by case_bool_decide.
Qed.

Lemma filter_interval lo hi n :
  0 ≤ lo ≤ hi → hi ≤ n → length (filter (λ s, lo ≤ s < hi) (seqZ 0 n)) = Z.to_nat (hi - lo).
Proof.
  intros ? ?.
  replace (seqZ 0 n) with (seqZ 0 lo ++ seqZ lo (hi - lo) ++ seqZ hi (n - hi)).
  2:{ replace (seqZ hi (n - hi)) with (seqZ (lo + (hi - lo)) (n - hi)) by (f_equal; lia).
      rewrite <-seqZ_app by lia.
      replace (seqZ lo _) with (seqZ (0 + lo) (hi - lo + (n - hi))) by (f_equal; lia).
      rewrite <-seqZ_app by lia. f_equal; lia. }
  assert (Hno : ∀ a b, (∀ x, a ≤ x < a + b → ¬ (lo ≤ x < hi)) →
            filter (λ s, lo ≤ s < hi) (seqZ a b) = []).
  { intros a b Hx. apply filter_none. intros x ?%elem_of_seqZ. by apply Hx. }
  rewrite !filter_app, (Hno 0 lo), (Hno hi) by lia. simpl. rewrite app_nil_r.
  rewrite filter_all; [by rewrite length_seqZ|]. intros x ?%elem_of_seqZ. lia.
Qed.

Lemma weight_before_le l i e :
  Forall (λ e : Z * IP_RR, 0 ≤ IP_Weight e.2) l → l !! i = Some e → is_white e = true →
  weight_before l i + IP_Weight e.2 ≤ total_weight l.
Proof.
  unfold weight_before. intros Hf. revert i.
  induction Hf as [|x l Hx Hf IH]; intros [|i] Hi He; simplify_eq/=.
  - rewrite He. pose proof (total_weight_bounds l Hf). unfold total_weight in *. lia.
  - specialize (IH i Hi He). unfold total_weight in *. lia.
Qed.

(** C34. Weighted selection is proportional: over any full period of the clock
    reading modulo the total weight, the address at position [i] is chosen as
    first as many times as its weight, and never when it is not white. *)
Theorem weighted_selection_proportional rrset mask i e :
  good_weights (entries mask rrset) →
  FC_Order (IP_FilterConfig rrset) = "weighted" →
  0 < total_weight (entries mask rrset) →
  entries mask rrset !! i = Some e →
  Z.of_nat (length (filter (λ ns, pick_index rrset mask ns = Some i)
                      (seqZ 0 (total_weight (entries mask rrset)))))
  = if is_white e then IP_Weight e.2 else 0.
Proof.
  intros Hg Ho Ht Hi. set (l := entries mask rrset) in *.
  pose proof (total_weight_bounds l (proj1 Hg)) as Hb.
  assert (HB : 0 ≤ weight_before l i).
  { apply total_weight_bounds. apply Forall_take, Hg. }
  pose proof (proj2 Hg) as Hmax.
  assert (Hpick : ∀ ns, ns ∈ seqZ 0 (total_weight l) → pick_index rrset mask ns = Some i ↔
            is_white e = true ∧ weight_before l i ≤ ns < weight_before l i + IP_Weight e.2).
  { intros ns Hns%elem_of_seqZ. unfold pick_index. fold l.
    rewrite white_sum_total, Z.add_0_l by (done || lia).
    rewrite Ho, (proj2 (Z.ltb_lt _ _) Ht). rewrite bool_decide_eq_true_2 by done. cbn [andb].
    rewrite Z.rem_small, pick_weighted_interval by (done || lia). split.
    - intros (j & e' & -> & Hj & ? & ?). simpl in Hi. rewrite Hi in Hj. by simplify_eq.
    - intros [? ?]. by exists i, e. }
  destruct (is_white e) eqn:He.
  - rewrite (filter_ext_in _ (λ s, weight_before l i ≤ s < weight_before l i + IP_Weight e.2)).
    + pose proof (weight_before_le l i e (proj1 Hg) Hi He).
      assert (0 ≤ IP_Weight e.2) by (by eapply (Forall_lookup_1 _ l i e (proj1 Hg) Hi)).
      rewrite filter_interval by lia. lia.
    + intros ns Hns. rewrite Hpick by done. naive_solver.
  - rewrite filter_none; [done|]. intros ns Hns. rewrite Hpick by done. naive_solver.
Qed.

(** ** [filter] *)
Section filter_facts.
Context {F : Type} `{Float64 F}.
Implicit Types g : GeoIp F.

Lemma filter_mask_length g src rrset :
  ∃ mask, filter_mask g src rrset = Some mask ∧ length mask = length (IP_Data rrset).
Proof.
  unfold filter_mask.
  assert (Hw : length (all_white (length (IP_Data rrset))) = length (IP_Data rrset))
    by apply length_replicate.
  assert (HA : ∀ m, length m = length (IP_Data rrset) →
            length (GetSameASN g src (IP_Data rrset) m).1 = length (IP_Data rrset)).
  { intros m Hm. unfold GetSameASN. destruct (GetASN g src); [by apply same_mask_length|done]. }
  assert (HC : ∀ m, length m = length (IP_Data rrset) →
            length (GetSameCountry g src (IP_Data rrset) m).1 = length (IP_Data rrset)).
  { intros m Hm. unfold GetSameCountry. destruct (GetCountry g src); [by apply same_mask_length|done]. }
  destruct (GetMinimumDistance_all_white g src (IP_Data rrset)) as (md & e & E & Hd).
  repeat case_decide; try (eexists; split; [done|]; by auto).
  rewrite E. eexists. by split.
Qed.

Lemma orderIps_subset rrset mask ns ip :
  ip ∈ orderIps rrset mask ns → ip ∈ IP_Ip <$> IP_Data rrset.
Proof.
  assert (Hzip : ∀ e, e ∈ entries mask rrset → IP_Ip e.2 ∈ IP_Ip <$> IP_Data rrset).
  { intros [x y] He. apply list_elem_of_fmap_2. by apply elem_of_zip_r in He. }
  assert (Hw : ∀ l', (∀ e, e ∈ l' → e ∈ entries mask rrset) →
            ip ∈ white_ips l' → ip ∈ IP_Ip <$> IP_Data rrset).
  { intros l' Hl (e & -> & He)%list_elem_of_fmap. apply Hzip, Hl.
    apply list_elem_of_In, List.filter_In in He as [? _]. by apply list_elem_of_In. }
  unfold orderIps. destruct (_ =? _)%nat; [by intros ?%elem_of_nil|].
  destruct (pick_index _ _ _) as [i|]; [|by intros ?%elem_of_nil]. case_bool_decide.
  - destruct (_ !! i) eqn:E; [|by intros ?%elem_of_nil].
    intros ->%list_elem_of_singleton. apply Hzip. by eapply list_elem_of_lookup_2.
  - intros [|]%elem_of_app; (eapply Hw; [|done]); intros e He.
    + by eapply subseteq_drop.
    + by eapply subseteq_take.
Qed.

(** [filter] never panics and only returns addresses of the record set. *)
Theorem filter_ips_total g src rrset ns :
  ∃ ips, filter_ips g src rrset ns = Some ips ∧ ips ⊆ IP_Ip <$> IP_Data rrset.
Proof.
  unfold filter_ips. destruct (filter_mask_length g src rrset) as (mask & -> & _).
  eexists. split; [done|]. intros ip. apply orderIps_subset.
Qed.

(** The addresses [filter] returns. *)
Definition filtered g (src : IP) (rrset : IP_RRSet) (ns : Z) : list IP :=
  default [] (filter_ips g src rrset ns).

Lemma filtered_subset g src rrset ns : filtered g src rrset ns ⊆ IP_Ip <$> IP_Data rrset.
Proof.
  unfold filtered, filter_ips. destruct (filter_mask_length g src rrset) as (mask & -> & _).
  intros ip. apply orderIps_subset.
Qed.
Lemma filtered_empty g src rrset ns : IP_Empty rrset = true → filtered g src rrset ns = [].
Proof.
  intros E%nullb_true. pose proof (filtered_subset g src rrset ns) as Hs. rewrite E in Hs.
  destruct (filtered g src rrset ns) as [|ip l]; [done|]. set_solver.
Qed.

Lemma white_ips_all l : white_ips (zip (all_white (length l)) l) = IP_Ip <$> l.
Proof. unfold white_ips, all_white. induction l; csimpl; by f_equal. Qed.

(** Without geographic filter and without an order, all the addresses come in
    their stored order. *)
Lemma filtered_plain g src rrset ns :
  FC_GeoFilter (IP_FilterConfig rrset) ∉ ["asn"; "country"; "asn+country"; "location"] →
  FC_Order (IP_FilterConfig rrset) ∉ ["weighted"; "rr"] →
  FC_Count (IP_FilterConfig rrset) ≠ "single" →
  filtered g src rrset ns = IP_Ip <$> IP_Data rrset.
Proof.
  intros Hg Ho Hc. unfold filtered, filter_ips, filter_mask.
  rewrite !decide_False by set_solver. simpl. unfold orderIps, pick_index.
  rewrite !(bool_decide_eq_false_2 (FC_Order _ = _)) by set_solver.
  rewrite bool_decide_eq_false_2 by done. simpl.
  rewrite white_count_ips, white_ips_all, length_fmap.
  destruct (IP_Data rrset) as [|x l] eqn:E; [done|]. simpl.
  pose proof (white_ips_all (x :: l)) as Hw. simpl in Hw.
  change (white_ips []) with (@nil IP). by rewrite app_nil_r.
Qed.
End filter_facts.
