(* ===== verification/Dnssec.v ===== *)
(** * DNSSEC: [internal/dnssec/dnssec.go]

    The NSEC type bitmaps and the signing of a response section, RRset by
    RRset. The key tag and the cryptographic signature are operations of
    package dns, given as parameters. *)
From S2P Require Import Prelude GoStrings Radix DnsTypes Zone.
Local Open Scope Z_scope.

Definition NsecBitmapZone : list Z :=
  [dns.TypeA; dns.TypeCNAME; dns.TypePTR; dns.TypeMX; dns.TypeTXT; dns.TypeAAAA; dns.TypeSRV;
   dns.TypeRRSIG; dns.TypeNSEC; dns.TypeTLSA; dns.TypeCAA].
Definition NsecBitmapAppex : list Z :=
  [dns.TypeA; dns.TypeNS; dns.TypeSOA; dns.TypePTR; dns.TypeMX; dns.TypeTXT; dns.TypeAAAA;
   dns.TypeSRV; dns.TypeRRSIG; dns.TypeNSEC; dns.TypeTLSA; dns.TypeCAA].
Definition NsecBitmapSubDelegation : list Z :=
  [dns.TypeNS; dns.TypeDS; dns.TypeRRSIG; dns.TypeNSEC].
Definition NsecBitmapNameError : list Z := [dns.TypeRRSIG; dns.TypeNSEC].

Definition FilterNsecBitmap (qtype : Z) (bitmap : list Z) : list Z :=
  filter (λ t, t ≠ qtype) bitmap.

(** A nil [*dns.RRSIG] held in a [dns.RR]. *)
Definition nil_RRSIG : RR :=
  {| Header := inet empty_str dns.TypeRRSIG 0; Data := RD_nil_RRSIG |}.

Section Dnssec.
Context {T : Type → Type}.
(** The methods [KeyTag] of a DNSKEY and [Sign] of an RRSIG; the latter gives the
    completed record, or [None] on an error. *)
Variable KeyTag : RR → Z.
Variable Sign : RR → string → list RR → option RR.

Definition dnskey_algorithm (k : RR) : Z :=
  match Data k with RD_DNSKEY _ _ a _ => a | _ => 0 end.

(** RSAMD5, RSASHA1, RSASHA1NSEC3SHA1, RSASHA256, RSASHA512, then
    ECDSAP256SHA256 and ECDSAP384SHA384. *)
Definition rsa_algorithms : list Z := [1; 5; 7; 8; 10].
Definition ecdsa_algorithms : list Z := [13; 14].

Definition SignRRSet (rrs : list RR) (name : string) (key : ZoneKey) (ttl : Z) : option RR :=
  let algorithm := dnskey_algorithm (DnsKey key) in
  let rrsig := {|
    Header := inet name dns.TypeRRSIG ttl;
    Data := RD_RRSIG 0 algorithm 0 0 (KeyExpiration key) (KeyInception key)
              (KeyTag (DnsKey key)) (rr_name (DnsKey key)) empty_str |} in
  if bool_decide (algorithm ∈ rsa_algorithms) || bool_decide (algorithm ∈ ecdsa_algorithms)
  then Sign rrsig (PrivateKey key) rrs
  else None.

(** The body of the loop of [SignResponse]; [None] is a panic (a nil key). *)
Definition sign_set (z : Zone T) (qname : string) (set : list RR) : option (list RR) :=
  match set with
  | [] => None
  | r :: _ =>
    let signed :=
      match ZSK z with
      | None => None
      | Some zsk => Some (set ++ [default nil_RRSIG (SignRRSet set (rr_name r) zsk (rr_ttl r))])
      end in
    let t := rr_type r in
    if (t =? dns.TypeRRSIG) || (t =? dns.TypeOPT) then Some set
    else if t =? dns.TypeDNSKEY then Some (set ++ [default nil_RRSIG (DnsKeySig z)])
    else if t =? dns.TypeNS then if decide (qname = Name z) then signed else Some set
    else signed
  end.

(** [map_order] is the order in which the Go runtime iterates over the map,
    which the language leaves unspecified. *)
Variable map_order : gmap RRSetKey (list RR) → list (RRSetKey * list RR).

Definition SignResponse (rrs : list RR) (qname : string) (z : Zone T) : option (list RR) :=
  mjoin <$> mapM (sign_set z qname) (map_order (SplitSets rrs)).*2.
End Dnssec.

(** ** Theorems *)

(** The signature that goes with an RRset: none for a delegation. *)
Definition set_signature {T} KeyTag Sign (z : Zone T) (zsk : ZoneKey) (qname : string)
    (set : RRSetKey * list RR) : list RR :=
  let '(k, s) := set in
  let sig := [default nil_RRSIG (SignRRSet KeyTag Sign s (QName k) zsk
                (from_option rr_ttl 0 (head s)))] in
  if QType k =? dns.TypeDNSKEY then [default nil_RRSIG (DnsKeySig z)]
  else if QType k =? dns.TypeNS then if decide (qname = Name z) then sig else []
  else sig.

Definition members (m : gmap RRSetKey (list RR)) : list RR := mjoin (map_to_list m).*2.

Lemma members_insert_new m k s : m !! k = None → members (<[k := s]> m) ≡ₚ s ++ members m.
Proof. intros Hm. unfold members. by rewrite (map_to_list_insert _ _ _ Hm). Qed.

Lemma members_delete m k s : m !! k = Some s → members m ≡ₚ s ++ members (delete k m).
Proof.
  intros Hm. rewrite <-(insert_delete_id _ _ _ Hm) at 1.
  by rewrite members_insert_new by apply lookup_delete_eq.
Qed.

Lemma SplitSets_members rrs :
  members (SplitSets rrs) ≡ₚ filter (λ r, skipped r = false) rrs.
Proof.
  induction rrs as [|r rrs IH] using rev_ind; [done|].
  unfold SplitSets in *. rewrite foldl_app, filter_app, filter_cons, filter_nil.
  cbn [foldl]. set (m := foldl _ _ _) in *. unfold SplitSets_step.
  destruct (skipped r); simpl; [by rewrite app_nil_r, IH|].
  rewrite <-IH. destruct (m !! key_of r) as [s|] eqn:Hk.
  - rewrite <-insert_delete_eq, members_insert_new by apply lookup_delete_eq.
    rewrite (members_delete _ _ _ Hk), <-!app_assoc. by rewrite (Permutation_app_comm (members _)).
  - rewrite members_insert_new by done. apply Permutation_app_comm.
Qed.


(** Every set of [SplitSets] starts with a record of its key that is neither an
    RRSIG nor an OPT record. *)
Lemma SplitSets_head rrs k s :
  SplitSets rrs !! k = Some s → ∃ r s', s = r :: s' ∧ key_of r = k ∧ skipped r = false.
Proof.
  rewrite SplitSets_lookup. destruct (filter _ rrs) as [|r s'] eqn:E; [done|].
  intros [= <-]. exists r, s'.
  assert (r ∈ filter (in_set k) rrs) as Hr by (rewrite E; set_solver).
  apply list_elem_of_filter in Hr as [[? ?] _]. by split_and!.
Qed.

Section sign.
Context {T : Type → Type} (KeyTag : RR → Z) (Sign : RR → string → list RR → option RR).
Implicit Types z : Zone T.

Lemma sign_set_spec z zsk qname rrs k s :
  ZSK z = Some zsk → SplitSets rrs !! k = Some s →
  sign_set KeyTag Sign z qname s
  = Some (s ++ set_signature KeyTag Sign z zsk qname (k, s)).
Proof.
  intros Hk (r & s' & -> & <- & Hs)%SplitSets_head.
  unfold sign_set, set_signature. rewrite Hk. unfold skipped in Hs. rewrite Hs. simpl.
  destruct (_ =? dns.TypeDNSKEY); [done|].
  destruct (_ =? dns.TypeNS); [|done]. case_decide; [done|]. by rewrite app_nil_r.
Qed.

Lemma mapM_sign_sets z zsk qname rrs (l : list (RRSetKey * list RR)) :
  ZSK z = Some zsk → (∀ k s, (k, s) ∈ l → SplitSets rrs !! k = Some s) →
  mapM (sign_set KeyTag Sign z qname) l.*2
  = Some ((λ p, p.2 ++ set_signature KeyTag Sign z zsk qname p) <$> l).
Proof.
  intros Hk Hl. apply mapM_Some, Forall2_fmap, Forall_Forall2_diag, Forall_forall.
  intros [k s] Hin. eapply sign_set_spec; [done|]. by apply Hl.
Qed.

Lemma join_app_fmap {A B} (f g : A → list B) (l : list A) :
  mjoin ((λ x, f x ++ g x) <$> l) ≡ₚ mjoin (f <$> l) ++ (l ≫= g).
Proof.
  induction l as [|x l IH]; csimpl; [done|].
  rewrite IH, <-!app_assoc. apply Permutation_app_head.
  rewrite !app_assoc. apply Permutation_app_tail, Permutation_app_comm.
Qed.

Lemma SignResponse_sets map_order z zsk qname rrs :
  (∀ m, map_order m ≡ₚ map_to_list m) → ZSK z = Some zsk →
  SignResponse KeyTag Sign map_order rrs qname z
  = Some (mjoin ((λ p, p.2 ++ set_signature KeyTag Sign z zsk qname p)
                   <$> map_order (SplitSets rrs))).
Proof.
  intros Horder Hk. unfold SignResponse.
  by rewrite (mapM_sign_sets z zsk qname rrs) by
    (done || by intros k s; rewrite Horder, elem_of_map_to_list).
Qed.

End sign.
