(* ===== verification/Redis.v ===== *)
(** * The redis client: [pkg/hiredis/hiredis.go]

    Every operation borrows a connection, sends one command with the configured
    prefix and suffix around the key, and converts the reply; the scanning
    operations repeat it with a cursor until the server returns "0".
    The connection pool, [conn.Do] and the reply conversions belong to redigo:
    they are the classes [Server] and [Redigo]. [RedisOps] and [RedisSpec] are
    what the rest of the program is given; [hiredis_spec] proves that the client
    provides it over a server that keeps the documented behaviour of the
    commands ([ServerLaws]). *)
From S2P Require Import Prelude GoStrings.

(** [IndexPanic] stands for the run-time panic of an index out of range. *)
Inductive RedisError := ErrNil | noConnectionError | ErrReply (msg : string) | IndexPanic.
#[global] Instance RedisError_eq_dec : EqDecision RedisError.
Proof. solve_decision. Defined.

(** Replies and their conversions: [redis.String], [Strings], [Values],
    [StringMap] and [Bool]. *)
Class Redigo (Reply : Type) := {
  reply_String : Reply → res RedisError string;
  reply_Strings : Reply → res RedisError (list string);
  reply_Values : Reply → res RedisError (list Reply);
  reply_StringMap : Reply → res RedisError (gmap string string);
  reply_Bool : Reply → res RedisError bool;
}.

(** [pool.Get() != nil] and [conn.Do]. *)
Class Server (S Reply : Type) := {
  pool_Get : M S bool;
  Do : string → list string → M S (res RedisError Reply);
}.

Record RedisConfig := { Prefix : string; Suffix : string; DB : Z }.
Record StreamItem := { ID : string; Key : string; Value : string }.

Section hiredis.
Context {S Reply : Type} `{!Redigo Reply, !Server S Reply}.
Variable config : RedisConfig.
(** The order in which Go iterates over the set of keys. *)
Variable keys_order : gset string → list string.

Definition full_key (key : string) : string := Prefix config +:+ key +:+ Suffix config.
Definition with_conn {A} (m : M S (res RedisError A)) : M S (res RedisError A) :=
  ok ← pool_Get; if (ok : bool) then m else mret (Err noConnectionError).
Definition index {A} (l : list A) (i : nat) : res RedisError A :=
  match l !! i with Some x => Ok x | None => Err IndexPanic end.
Definition command (cmd : string) (args : list string) : M S (res RedisError ()) :=
  with_conn (must _ ← Do cmd args; mret (Ok ())).

Definition GetConfig (c : string) : M S (res RedisError string) :=
  with_conn (must reply ← Do "CONFIG" ["GET"; c];
             mret (vals ← reply_Strings reply; index vals 1)).
Definition SetConfig (c value : string) : M S (res RedisError ()) :=
  command "CONFIG" ["SET"; c; value].
Definition Get (key : string) : M S (res RedisError string) :=
  with_conn (must reply ← Do "GET" [full_key key]; mret (reply_String reply)).
Definition Set_ (key value : string) : M S (res RedisError ()) :=
  command "SET" [full_key key; value].
Definition HGet (key hkey : string) : M S (res RedisError string) :=
  with_conn (must reply ← Do "HGET" [full_key key; hkey]; mret (reply_String reply)).
Definition HSet (key hkey value : string) : M S (res RedisError ()) :=
  command "HSET" [full_key key; hkey; value].
Definition SAdd (set member : string) : M S (res RedisError ()) :=
  command "SADD" [full_key set; member].
Definition SRem (set member : string) : M S (res RedisError ()) :=
  command "SREM" [full_key set; member].
Definition SIsMember (set member : string) : M S (res RedisError bool) :=
  with_conn (must reply ← Do "SISMEMBER" [full_key set; member]; mret (reply_Bool reply)).
Definition Expire (key : string) (nanoseconds : Z) : M S (res RedisError ()) :=
  command "PEXPIRE" [full_key key; Itoa (Z.quot nanoseconds 1000000)].
Definition Persist (key : string) : M S (res RedisError ()) := command "PERSIST" [full_key key].
Definition Ping : M S (res RedisError ()) :=
  with_conn (must reply ← Do "PING" [];
             mret (val ← reply_String reply;
                   if decide (val = "PONG") then Ok () else Err (ErrReply "PING failed"))).

(** ** Scans

    The loops end when the server says so: [fuel] bounds their number of pages,
    and [None] is a loop that has not ended. *)
Definition parse_page (items : Reply → res RedisError (list string)) (reply : Reply)
  : res RedisError (string * list string) :=
  values ← reply_Values reply;
  v0 ← index values 0; cursor ← reply_String v0;
  v1 ← index values 1; keys ← items v1;
  Ok (cursor, keys).

Fixpoint scan_loop (fuel : nat) (page : string → M S (res RedisError Reply))
    (items : Reply → res RedisError (list string)) (cursor : string) (keySet : gset string)
  : M S (option (res RedisError (gset string))) :=
  match fuel with
  | 0 => mret None
  | Datatypes.S fuel =>
    r ← page cursor;
    match r ≫= parse_page items with
    | Err e => mret (Some (Err e))
    | Ok (cursor, keys) =>
      let keySet := keySet ∪ list_to_set keys in
      if decide (cursor = "0") then mret (Some (Ok keySet))
      else scan_loop fuel page items cursor keySet
    end
  end.

Definition map_ok {A B} (f : A → B) (r : option (res RedisError A)) : option (res RedisError B) :=
  fmap (fmap (M:=res RedisError) f) r.

Definition scan (fuel : nat) (page : string → M S (res RedisError Reply))
    (items : Reply → res RedisError (list string)) : M S (option (res RedisError (list string))) :=
  ok ← pool_Get;
  if (ok : bool) then map_ok keys_order <$> scan_loop fuel page items "0" ∅
  else mret (Some (Err noConnectionError)).

Definition untrim (key : string) : string := TrimSuffix (TrimPrefix key (Prefix config)) (Suffix config).

Definition GetKeys (fuel : nat) (pattern : string) : M S (option (res RedisError (list string))) :=
  map_ok (fmap untrim) <$>
    scan fuel (λ cursor, Do "SCAN" [cursor; "MATCH"; full_key pattern; "COUNT"; "100"]) reply_Strings.
Definition GetHKeys (fuel : nat) (key : string) : M S (option (res RedisError (list string))) :=
  scan fuel (λ cursor, Do "HSCAN" [full_key key; cursor; "COUNT"; "100"])
    (λ reply, (λ m, (map_to_list m).*1) <$> reply_StringMap reply).
Definition SMembers (fuel : nat) (set : string) : M S (option (res RedisError (list string))) :=
  scan fuel (λ cursor, Do "SSCAN" [full_key set; cursor; "COUNT"; "100"]) reply_Strings.

Definition Del (fuel : nat) (pattern : string) : M S (option (res RedisError ())) :=
  ok ← pool_Get;
  if (ok : bool) then
    r ← GetKeys fuel pattern;
    match r with
    | None => mret None
    | Some (Err e) => mret (Some (Err e))
    | Some (Ok keys) =>
      if decide (keys = []) then mret (Some (Ok ()))
      else Some <$> (must _ ← Do "DEL" (full_key <$> keys); mret (Ok ()))
    end
  else mret (Some (Err noConnectionError)).

(** ** Streams *)
Definition XAdd (stream : string) (kv : StreamItem) : M S (res RedisError string) :=
  let id := if decide (ID kv = empty_str) then "*" else ID kv in
  with_conn (must reply ← Do "XADD" [full_key stream; id; Key kv; Value kv];
             mret (reply_String reply)).

Definition stream_item (value : Reply) : res RedisError StreamItem :=
  item ← reply_Values value;
  r0 ← index item 0; id ← reply_String r0;
  r1 ← index item 1; kv ← reply_Strings r1;
  k ← index kv 0; v ← index kv 1;
  Ok {| ID := id; Key := k; Value := v |}.
Definition XRead (streamID lastID : string) : M S (res RedisError (list StreamItem)) :=
  let lastID := if decide (lastID = empty_str) then "$" else lastID in
  with_conn (must reply ← Do "XREAD" ["BLOCK"; "0"; "STREAMS"; full_key streamID; lastID];
             mret (streams ← reply_Values reply;
                   s0 ← index streams 0; stream ← reply_Values s0;
                   s1 ← index stream 1; values ← reply_Values s1;
                   map_res stream_item values)).

(** ** Keyspace events: the channel subscribed to, and the key of a message. *)
Definition channelPrefix : string := "__keyspace@" +:+ Itoa (DB config) +:+ "__:".
Definition event_pattern (pattern : string) : string := channelPrefix +:+ full_key pattern.
Definition event_key (channel : string) : string :=
  TrimSuffix (TrimPrefix channel (channelPrefix +:+ Prefix config)) (Suffix config).
End hiredis.

(** ** What the program relies on *)
Class RedisOps (S : Type) := {
  redis_Get : string → M S (res RedisError string);
  redis_Set : string → string → M S (res RedisError ());
  redis_SAdd : string → string → M S (res RedisError ());
  redis_SRem : string → string → M S (res RedisError ());
  redis_SMembers : string → M S (res RedisError (list string));
  redis_GetKeys : string → M S (res RedisError (list string));
  redis_Del : string → M S (res RedisError ());
  redis_Expire : string → Z → M S (res RedisError ());
}.

(** [str] and [set] are the strings and sets stored. Any operation may fail; a
    failed write may have happened or not. *)
Class RedisSpec (S : Type) `{!RedisOps S} (str : S → string → option string)
    (set : S → string → gset string) : Prop := {
  spec_Get k s :
    let '(r, s') := redis_Get k s in
    (∀ k', str s' k' = str s k' ∧ set s' k' = set s k')
    ∧ match r with Ok v => str s k = Some v | Err ErrNil => str s k = None | Err _ => True end;
  spec_Set k v s :
    let '(r, s') := redis_Set k v s in
    (∀ k', k' ≠ k → str s' k' = str s k' ∧ set s' k' = set s k')
    ∧ (r = Ok () → str s' k = Some v);
  spec_SAdd k m s :
    let '(r, s') := redis_SAdd k m s in
    (∀ k', k' ≠ k → str s' k' = str s k' ∧ set s' k' = set s k')
    ∧ (r = Ok () → set s' k = {[m]} ∪ set s k);
  spec_SRem k m s :
    let '(r, s') := redis_SRem k m s in
    (∀ k', k' ≠ k → str s' k' = str s k' ∧ set s' k' = set s k')
    ∧ (r = Ok () → set s' k = set s k ∖ {[m]});
  spec_SMembers k s :
    let '(r, s') := redis_SMembers k s in
    (∀ k', str s' k' = str s k' ∧ set s' k' = set s k')
    ∧ match r with Ok l => NoDup l ∧ ∀ x, x ∈ l ↔ x ∈ set s k | Err _ => True end;
}.

(** ** The commands, as documented *)
Inductive Entry := VString (s : string) | VSet (x : gset string).
Definition set_at (db : gmap string Entry) (k : string) : option (gset string) :=
  match db !! k with None => Some ∅ | Some (VSet x) => Some x | _ => None end.

Section scan_run.
Context {S Reply : Type} `{!Redigo Reply}.
Variables (page : string → M S (res RedisError Reply))
          (items : Reply → res RedisError (list string)).

(** A scan of at most [n] pages from a cursor, and the union of its pages. *)
Inductive scan_run : nat → string → S → res RedisError (gset string) → S → Prop :=
| run_fail n cur s e s' r :
    page cur s = (r, s') → r ≫= parse_page items = Err e → scan_run (Datatypes.S n) cur s (Err e) s'
| run_last n cur s keys s' r :
    page cur s = (r, s') → r ≫= parse_page items = Ok ("0", keys) →
    scan_run (Datatypes.S n) cur s (Ok (list_to_set keys)) s'
| run_next n cur s keys cur' s' r r' s'' :
    page cur s = (r, s') → r ≫= parse_page items = Ok (cur', keys) → cur' ≠ "0" →
    scan_run n cur' s' r' s'' →
    scan_run (Datatypes.S n) cur s ((λ E, list_to_set keys ∪ E) <$> r') s''.

Lemma scan_loop_run n cur s r s' acc :
  scan_run n cur s r s' →
  scan_loop n page items cur acc s = (Some ((λ E, acc ∪ E) <$> r), s').
Proof.
  intros Hr. revert acc. induction Hr as [n cur s e s' r E1 E2|n cur s keys s' r E1 E2
    |n cur s keys cur' s' r r' s'' E1 E2 Hc _ IH]; intros acc; csimpl; rewrite run_bind, E1; csimpl;
    rewrite E2; [done|by rewrite decide_True|].
  rewrite decide_False, IH by done. f_equal. f_equal.
  destruct r'; csimpl; [|done]. f_equal. set_solver.
Qed.
End scan_run.

Class ServerLaws (S Reply : Type) `{!Redigo Reply, !Server S Reply} (db : S → gmap string Entry)
    (pages : nat) : Prop := {
  law_pool s : db (pool_Get s).2 = db s;
  law_GET k s :
    let '(r, s') := Do "GET" [k] s in
    db s' = db s
    ∧ match r with
      | Ok reply => match db s !! k with
                    | None => reply_String reply = Err ErrNil
                    | Some (VString v) => reply_String reply = Ok v
                    | Some _ => False
                    end
      | Err e => e ≠ ErrNil
      end;
  law_SET k v s :
    let '(r, s') := Do "SET" [k; v] s in
    delete k (db s') = delete k (db s) ∧ (is_ok r = true → db s' !! k = Some (VString v));
  law_SADD k m s :
    let '(r, s') := Do "SADD" [k; m] s in
    delete k (db s') = delete k (db s)
    ∧ (is_ok r = true → ∃ x, set_at (db s) k = Some x ∧ db s' !! k = Some (VSet ({[m]} ∪ x)));
  law_SREM k m s :
    let '(r, s') := Do "SREM" [k; m] s in
    delete k (db s') = delete k (db s)
    ∧ (is_ok r = true → ∃ x, set_at (db s) k = Some x ∧ set_at (db s') k = Some (x ∖ {[m]}));
  law_SSCAN k s :
    ∃ r s', scan_run (λ cursor, Do "SSCAN" [k; cursor; "COUNT"; "100"]) reply_Strings
              pages "0" s r s'
      ∧ db s' = db s
      ∧ match r with Ok x => set_at (db s) k = Some x | Err _ => True end;
}.

(** Characters without a meaning in patterns; [SCAN] with [MATCH] over keys that do
    not change meanwhile, and [DEL]. *)
Definition literal (s : string) : Prop := Forall (λ b, b ∉ bytes "*?[\") (bytes s).
Class ScanLaws (S Reply : Type) `{!Redigo Reply, !Server S Reply} (db : S → gmap string Entry)
    (pages : nat) : Prop := {
  law_SCAN p suf s :
    literal p → literal suf →
    ∃ r s', scan_run (λ cursor, Do "SCAN" [cursor; "MATCH"; p +:+ "*" +:+ suf; "COUNT"; "100"]) reply_Strings
              pages "0" s r s'
      ∧ db s' = db s
      ∧ match r with
        | Ok x => ∀ k, k ∈ x ↔ (∃ m, k = p +:+ m +:+ suf) ∧ is_Some (db s !! k)
        | Err _ => True
        end;
  law_DEL ks s :
    let '(r, s') := Do "DEL" ks s in
    (∀ k, k ∉ ks → db s' !! k = db s !! k) ∧ (is_ok r = true → ∀ k, k ∈ ks → db s' !! k = None);
}.

(** ** The client provides [RedisSpec] *)
Section client.
Context {S Reply : Type} `{!Redigo Reply, !Server S Reply}.
Variable config : RedisConfig.
Variable keys_order : gset string → list string.
Variables (db : S → gmap string Entry) (pages : nat).
Abbreviation full := (full_key config).

(** A scan that has not ended within [pages] pages is reported as an error;
    [SMembers_ends] shows that there is none. *)
Definition ended {A} (r : option (res RedisError A)) : res RedisError A :=
  default (Err (ErrReply "scan not finished")) r.

#[local] Instance hiredis : RedisOps S := {
  redis_Get := Get config;
  redis_Set := Set_ config;
  redis_SAdd := SAdd config;
  redis_SRem := SRem config;
  redis_SMembers k := ended <$> SMembers config keys_order pages k;
  redis_GetKeys p := ended <$> GetKeys config keys_order pages p;
  redis_Del p := ended <$> Del config keys_order pages p;
  redis_Expire := Expire config;
}.

Definition db_str (s : S) (k : string) : option string :=
  match db s !! full k with Some (VString v) => Some v | _ => None end.
Definition db_set (s : S) (k : string) : gset string := default ∅ (set_at (db s) (full k)).

Lemma full_key_inj k k' : full k = full k' → k = k'.
Proof. unfold full_key. intros H%string_app_inj_l. by apply string_app_inj_r in H. Qed.

Lemma delete_other s s' k k' :
  delete (full k) (db s') = delete (full k) (db s) → k' ≠ k →
  db_str s' k' = db_str s k' ∧ db_set s' k' = db_set s k'.
Proof.
  intros E Hne. assert (H : db s' !! full k' = db s !! full k').
  { assert (full k ≠ full k') by (intros H; by apply Hne; symmetry; apply full_key_inj).
    by rewrite <-(lookup_delete_ne (db s') (full k) (full k')), E, lookup_delete_ne. }
  unfold db_str, db_set, set_at. by rewrite H.
Qed.
Lemma same_db s s' k : db s' = db s → db_str s' k = db_str s k ∧ db_set s' k = db_set s k.
Proof. unfold db_str, db_set. by intros ->. Qed.

Context `{!ServerLaws S Reply db pages}.
Hypothesis keys_order_elements : ∀ x, keys_order x ≡ₚ elements x.

(** A write command: its law is enough for the specification. *)
Lemma command_spec cmd k args s (P : S → S → Prop) :
  (∀ s, let '(r, s') := Do (Reply:=Reply) cmd (full k :: args) s in
        delete (full k) (db s') = delete (full k) (db s) ∧ (is_ok r = true → P s s')) →
  (∀ s0 s s', db s = db s0 → P s s' → P s0 s') →
  let '(r, s') := command (Reply:=Reply) cmd (full k :: args) s in
  (∀ k', k' ≠ k → db_str s' k' = db_str s k' ∧ db_set s' k' = db_set s k') ∧ (r = Ok () → P s s').
Proof.
  intros Hlaw HP. unfold command, with_conn. rewrite run_bind.
  pose proof (law_pool (Reply:=Reply) s) as Hp. destruct (pool_Get s) as [[|] s1]; simpl in *.
  - rewrite run_bind. specialize (Hlaw s1). destruct (Do _ _ s1) as [[rep|e] s2]; simpl in *.
    + destruct Hlaw as [Hd Hok]. rewrite Hp in Hd. split; [intros k' ?; by apply (delete_other _ _ k)|].
      intros _. by apply (HP s s1); [|apply Hok].
    + destruct Hlaw as [Hd _]. rewrite Hp in Hd. split; [intros k' ?; by apply (delete_other _ _ k)|done].
  - split; [intros k' _; by apply same_db|done].
Qed.

(** C15. Over a server with the documented commands, each operation of the client
    does what the program expects of it, under the configured prefix and suffix:
    [Get] reads the last value set or reports that there is none, the set
    operations add and remove one member, [SMembers] lists each member once, and
    no operation touches another key. *)
Theorem hiredis_spec : RedisSpec S db_str db_set.
Proof.
  split.
  - intros k s. simpl. unfold Get, with_conn. rewrite run_bind.
    pose proof (law_pool (Reply:=Reply) s) as Hp. destruct (pool_Get s) as [[|] s1]; simpl in *.
    2:{ split; [intros; by apply same_db|done]. }
    rewrite run_bind. pose proof (law_GET (Reply:=Reply) (full k) s1) as HG.
    destruct (Do _ _ s1) as [[rep|e] s2]; simpl in *; destruct HG as [HD HG]; rewrite Hp in HD.
    + rewrite Hp in HG. split; [intros; by apply same_db|]. unfold db_str.
      destruct (db s !! full k) as [[v|]|]; [|done|]; by rewrite HG.
    + split; [intros; by apply same_db|]. by destruct e.
  - intros k v s. apply (command_spec "SET" k [v] s (λ _ s', db_str s' k = Some v)).
    + intros s1. pose proof (law_SET (Reply:=Reply) (full k) v s1) as HL.
      destruct (Do _ _ s1) as [r s2]. destruct HL as [? HL]. split; [done|].
      intros Hr. unfold db_str. by rewrite HL.
    + intros s0 s1 s2 _ HP. done.
  - intros k m s. apply (command_spec "SADD" k [m] s (λ s s', db_set s' k = {[m]} ∪ db_set s k)).
    + intros s1. pose proof (law_SADD (Reply:=Reply) (full k) m s1) as HL.
      destruct (Do _ _ s1) as [r s2]. destruct HL as [? HL]. split; [done|].
      intros Hr. destruct (HL Hr) as (x & Hx & Hs). unfold db_set. rewrite Hx. unfold set_at. by rewrite Hs.
    + intros s0 s1 s2 E HP. rewrite HP. f_equal. by apply same_db.
  - intros k m s. apply (command_spec "SREM" k [m] s (λ s s', db_set s' k = db_set s k ∖ {[m]})).
    + intros s1. pose proof (law_SREM (Reply:=Reply) (full k) m s1) as HL.
      destruct (Do _ _ s1) as [r s2]. destruct HL as [? HL]. split; [done|].
      intros Hr. destruct (HL Hr) as (x & Hx & Hs). unfold db_set. by rewrite Hx, Hs.
    + intros s0 s1 s2 E HP. rewrite HP. f_equal. by apply same_db.
  - intros k s. simpl. unfold SMembers, scan. rewrite run_fmap, run_bind.
    pose proof (law_pool (Reply:=Reply) s) as Hp. destruct (pool_Get s) as [[|] s1]; simpl in *.
    2:{ split; [intros; by apply same_db|done]. }
    destruct (law_SSCAN (Reply:=Reply) (pages:=pages) (full k) s1) as (r & s2 & Hrun & Hs & Hr).
    rewrite run_fmap, (scan_loop_run _ _ _ _ _ _ _ _ Hrun). simpl. rewrite Hp in Hs, Hr.
    split; [intros; by apply same_db|]. destruct r as [x|e]; simpl; [|done].
    split; [rewrite keys_order_elements; apply NoDup_elements|]. intros y.
    rewrite keys_order_elements, elem_of_elements. unfold db_set. rewrite Hr. simpl.
    rewrite elem_of_union, elem_of_empty. tauto.
Qed.

(** A scan of the server ends, so [ended] hides no unfinished loop. *)
Lemma SMembers_ends k s : (SMembers config keys_order pages k s).1 ≠ None.
Proof.
  unfold SMembers, scan. rewrite run_bind. destruct (pool_Get s) as [[|] s1]; simpl; [|done].
  destruct (law_SSCAN (Reply:=Reply) (pages:=pages) (full k) s1) as (r & s2 & Hrun & _).
  by rewrite run_fmap, (scan_loop_run _ _ _ _ _ _ _ _ Hrun).
Qed.

(** [Del] of the pattern that matches everything removes all keys of the client, and
    leaves those of other prefixes and suffixes alone. *)
Lemma Del_clears `{!ScanLaws S Reply db pages} s s' :
  literal (Prefix config) → literal (Suffix config) → redis_Del "*" s = (Ok (), s') →
  (∀ k, db_str s' k = None ∧ db_set s' k = ∅)
  ∧ ∀ key, (∀ k, key ≠ full k) → db s' !! key = db s !! key.
Proof.
  intros Hp Hsuf. simpl. rewrite run_fmap. unfold Del, GetKeys, scan. rewrite run_bind.
  pose proof (law_pool (Reply:=Reply) s) as Hdb. destruct (pool_Get s) as [[|] s1]; simpl in *; [|done].
  rewrite run_bind, run_fmap, run_bind.
  pose proof (law_pool (Reply:=Reply) s1) as Hdb1. destruct (pool_Get s1) as [[|] s2]; simpl in *; [|done].
  change (full_key config "*") with (Prefix config +:+ "*" +:+ Suffix config).
  destruct (law_SCAN (Reply:=Reply) (pages:=pages) (Prefix config) (Suffix config) s2 Hp Hsuf) as (r & s3 & Hrun & Hs & Hr).
  rewrite run_fmap, (scan_loop_run _ _ _ _ _ _ _ _ Hrun). cbn [fst snd].
  destruct r as [x|e]; cbn; [|done]. rewrite Hdb1, Hdb in Hs, Hr.
  assert (Hfull : full_key config <$> (untrim config <$> keys_order (∅ ∪ x)) = keys_order (∅ ∪ x)).
  { rewrite <-list_fmap_compose. rewrite <-(list_fmap_id (keys_order _)) at 2.
    apply list_fmap_ext. intros i k Hk%list_elem_of_lookup_2.
    rewrite keys_order_elements, elem_of_elements, elem_of_union, elem_of_empty, Hr in Hk.
    destruct Hk as [[]|[[m ->] _]]. unfold full_key, untrim. simpl. by rewrite TrimPrefix_app, TrimSuffix_app. }
  assert (Hin : ∀ k, k ∈ keys_order (∅ ∪ x) ↔ (∃ m, k = full m) ∧ is_Some (db s !! k)).
  { intros k. rewrite keys_order_elements, elem_of_elements, elem_of_union, elem_of_empty, Hr. unfold full_key. tauto. }
  intros Hdel. assert (Hend : ∀ k, db s' !! k = if decide (k ∈ keys_order (∅ ∪ x)) then None else db s !! k).
  { case_decide as Hnil.
    - injection Hdel as <-. apply fmap_nil_inv in Hnil. intros k. by rewrite Hnil, Hs.
    - rewrite run_fmap, run_bind, Hfull in Hdel. pose proof (law_DEL (Reply:=Reply) (keys_order (∅ ∪ x)) s3) as HD.
      destruct (Do _ _ s3) as [[rep|e] s4]; simpl in *; [|done]. injection Hdel as <-. destruct HD as [Hother Hgone].
      intros k. case_decide; [by apply Hgone|]. by rewrite Hother, Hs. }
  clear Hdel.
  assert (Hkey : ∀ k, db s' !! full k = None).
  { intros k. rewrite Hend. case_decide as Hk; [done|]. apply eq_None_not_Some. intros Hsome. apply Hk, Hin.
    split; [by exists k|done]. }
  split.
  - intros k. unfold db_str, db_set, set_at. by rewrite Hkey.
  - intros key Hne. rewrite Hend, decide_False; [done|]. intros [[k ->] _]%Hin. by apply (Hne k).
Qed.
End client.

(** ** [SubscribeEvent]

    The control loop and the goroutine [Subscribe] that receives messages and,
    when it ends, sends on the channel [done] (of capacity one). *)
Module Subscribe.
Inductive control := Selecting | Stopping | Stopped.
Record state := {
  psc : bool;          (* psc != nil *)
  goroutine : bool;    (* Subscribe is running *)
  done : list bool;    (* the buffer of done; true for an error *)
  ctl : control;
}.

(** [Init] succeeds or not. *)
Definition start (ok : bool) : state :=
  {| psc := ok; goroutine := ok; done := []; ctl := Selecting |}.

Inductive step : state → state → Prop :=
| tick_init ok d : (* case <-ticker.C, psc == nil *)
    step {| psc := false; goroutine := false; done := d; ctl := Selecting |}
         {| psc := ok; goroutine := ok; done := d; ctl := Selecting |}
| tick_ping g d : (* case <-ticker.C, psc != nil *)
    step {| psc := true; goroutine := g; done := d; ctl := Selecting |}
         {| psc := true; goroutine := g; done := d; ctl := Selecting |}
| receive_error p c : (* case error: done <- n; return *)
    step {| psc := p; goroutine := true; done := []; ctl := c |}
         {| psc := p; goroutine := false; done := [true]; ctl := c |}
| receive_unsubscribe p : (* the answer to PUnsubscribe: done <- nil; return *)
    step {| psc := p; goroutine := true; done := []; ctl := Stopping |}
         {| psc := p; goroutine := false; done := [false]; ctl := Stopping |}
| take_done p g e d : (* case err := <-done *)
    step {| psc := p; goroutine := g; done := e :: d; ctl := Selecting |}
         {| psc := if e then false else p; goroutine := g; done := d; ctl := Selecting |}
| take_quit p g d : (* case wg := <-quit *)
    step {| psc := p; goroutine := g; done := d; ctl := Selecting |}
         {| psc := p; goroutine := g; done := d; ctl := Stopping |}
| finish p g e d : (* <-done; wg.Done(); return *)
    step {| psc := p; goroutine := g; done := e :: d; ctl := Stopping |}
         {| psc := p; goroutine := g; done := d; ctl := Stopped |}.

Definition reachable (s : state) : Prop := ∃ ok, rtc step (start ok) s.

(** Before the end, there is a subscription exactly when the goroutine runs or its
    result is waiting in the channel. *)
Definition invariant (s : state) : Prop :=
  match ctl s with
  | Selecting =>
    (psc s, goroutine s, done s) = (false, false, [])
    ∨ (psc s, goroutine s, done s) = (true, true, [])
    ∨ (psc s, goroutine s, done s) = (true, false, [true])
  | Stopping =>
    (psc s, goroutine s, done s) = (false, false, [])
    ∨ (psc s, goroutine s, done s) = (true, true, [])
    ∨ ∃ e, (psc s, goroutine s, done s) = (true, false, [e])
  | Stopped => True
  end.

Lemma step_invariant s s' : step s s' → invariant s → invariant s'.
Proof. 
  destruct 1; unfold invariant; simpl; try destruct ok; try destruct e; try destruct c;
    naive_solver. Qed.

Lemma subscribe_invariant s : reachable s → invariant s.
Proof.
  intros [ok Hs]. assert (Hi : invariant (start ok)) by (destruct ok; unfold invariant; simpl; auto).
  induction Hs; [done|]. eauto using step_invariant.
Qed.

(** Asked to quit while it has a subscription, [SubscribeEvent] can always
    finish; asked while it has none (the server could not be reached), it waits
    for ever on [done], and so does [ShutDown]. *)
Theorem quit_stops_or_hangs s :
  reachable s → ctl s = Stopping →
  if psc s then ∃ s', rtc step s s' ∧ ctl s' = Stopped
  else ∀ s', rtc step s s' → ctl s' = Stopping.
Proof.
  intros Hr Hc. apply subscribe_invariant in Hr. unfold invariant in Hr. rewrite Hc in Hr.
  destruct s as [p g d c]; simpl in *. subst c.
  destruct Hr as [E|[E|[e E]]]; simplify_eq.
  - intros s' Hs'. remember {| psc := false; goroutine := false; done := []; ctl := Stopping |} as s.
    destruct Hs' as [|s s1 s2 H1 _]; [by subst|]. subst. inversion H1.
  - eexists. split; [|shelve]. eapply rtc_l; [apply receive_error|].
    eapply rtc_l; [apply finish|]. apply rtc_refl. Unshelve. done.
  - eexists. split; [eapply rtc_l; [apply finish|apply rtc_refl]|done].
Qed.
End Subscribe.
