(* ===== verification/Store.v ===== *)
(** * What the request handler needs from the rest of the server

    [DataStore] is the part of [storage.DataHandler] that the request handler
    calls, [Outside] the clock and the upstream resolver. Their operations run
    in the state monad over a state [S] that the handler does not look into:
    caches may change and other requests may interfere between two calls.
    [Snapshot] is the executable store whose content never changes; [DataView]
    states that a store answers as a snapshot does. *)
From S2P Require Import Prelude GoStrings Redis Radix DnsTypes Zone.

(** The errors of [internal/storage]; [ECast] is the panic of a failed type
    assertion on a cached record set. *)
Inductive StoreError := ERedis (e : RedisError) | EJson (msg : string) | ECast.

Class DataStore (T : Type → Type) (S : Type) := {
  st_FindZone : string → M S string;
  st_GetZone : string → M S (option (Zone T));
  st_A : string → string → M S (res StoreError IP_RRSet);
  st_AAAA : string → string → M S (res StoreError IP_RRSet);
  st_CNAME : string → string → M S (res StoreError CNAME_RRSet);
  st_TXT : string → string → M S (res StoreError TXT_RRSet);
  st_NS : string → string → M S (res StoreError NS_RRSet);
  st_MX : string → string → M S (res StoreError MX_RRSet);
  st_SRV : string → string → M S (res StoreError SRV_RRSet);
  st_CAA : string → string → M S (res StoreError CAA_RRSet);
  st_PTR : string → string → M S (res StoreError PTR_RRSet);
  st_TLSA : string → string → M S (res StoreError TLSA_RRSet);
  st_DS : string → string → M S (res StoreError DS_RRSet);
  st_ANAME : string → string → M S (res StoreError ANAME_RRSet);
}.

(** [time.Now().Nanosecond()] and [(h.upstream).Query]. *)
Class Outside (S : Type) := {
  Nanosecond : M S Z;
  UpstreamQuery : string → Z → M S (list RR * Z);
}.

(** ** A store that does not change *)
Record Snapshot (T : Type → Type) := {
  sn_FindZone : string → string;
  sn_GetZone : string → option (Zone T);
  sn_A : string → string → res StoreError IP_RRSet;
  sn_AAAA : string → string → res StoreError IP_RRSet;
  sn_CNAME : string → string → res StoreError CNAME_RRSet;
  sn_TXT : string → string → res StoreError TXT_RRSet;
  sn_NS : string → string → res StoreError NS_RRSet;
  sn_MX : string → string → res StoreError MX_RRSet;
  sn_SRV : string → string → res StoreError SRV_RRSet;
  sn_CAA : string → string → res StoreError CAA_RRSet;
  sn_PTR : string → string → res StoreError PTR_RRSet;
  sn_TLSA : string → string → res StoreError TLSA_RRSet;
  sn_DS : string → string → res StoreError DS_RRSet;
  sn_ANAME : string → string → res StoreError ANAME_RRSet;
  sn_Nanosecond : Z;
  sn_Upstream : string → Z → list RR * Z;
}.
Arguments sn_FindZone {T}. Arguments sn_GetZone {T}. Arguments sn_A {T}. Arguments sn_AAAA {T}.
Arguments sn_CNAME {T}. Arguments sn_TXT {T}. Arguments sn_NS {T}. Arguments sn_MX {T}.
Arguments sn_SRV {T}. Arguments sn_CAA {T}. Arguments sn_PTR {T}. Arguments sn_TLSA {T}.
Arguments sn_DS {T}. Arguments sn_ANAME {T}. Arguments sn_Nanosecond {T}.
Arguments sn_Upstream {T}.

Definition gets {S A} (f : S → A) : M S A := λ s, (f s, s).

#[export] Instance snapshot_store {T} : DataStore T (Snapshot T) := {
  st_FindZone q := gets (λ d, sn_FindZone d q);
  st_GetZone q := gets (λ d, sn_GetZone d q);
  st_A z l := gets (λ d, sn_A d z l);
  st_AAAA z l := gets (λ d, sn_AAAA d z l);
  st_CNAME z l := gets (λ d, sn_CNAME d z l);
  st_TXT z l := gets (λ d, sn_TXT d z l);
  st_NS z l := gets (λ d, sn_NS d z l);
  st_MX z l := gets (λ d, sn_MX d z l);
  st_SRV z l := gets (λ d, sn_SRV d z l);
  st_CAA z l := gets (λ d, sn_CAA d z l);
  st_PTR z l := gets (λ d, sn_PTR d z l);
  st_TLSA z l := gets (λ d, sn_TLSA d z l);
  st_DS z l := gets (λ d, sn_DS d z l);
  st_ANAME z l := gets (λ d, sn_ANAME d z l);
}.
#[export] Instance snapshot_outside {T} : Outside (Snapshot T) := {
  Nanosecond := gets sn_Nanosecond;
  UpstreamQuery q t := gets (λ d, sn_Upstream d q t);
}.

(** ** Simulation

    [simulates R m1 m2]: from states related by [R], the computations [m1] and
    [m2] have the same result, and end in related states. *)
Definition simulates {S S' A} (R : S → S' → Prop) (m1 : M S A) (m2 : M S' A) : Prop :=
  ∀ s s', R s s' → (m1 s).1 = (m2 s').1 ∧ R (m1 s).2 (m2 s').2.

Section simulates.
Context {S S' : Type} (R : S → S' → Prop).

Lemma simulates_ret {A} (a : A) : simulates R (mret a) (mret a).
Proof. by intros s. Qed.

Lemma simulates_bind {A B} (m1 : M S A) m2 (f1 : A → M S B) f2 :
  simulates R m1 m2 → (∀ a, simulates R (f1 a) (f2 a)) →
  simulates R (m1 ≫= f1) (m2 ≫= f2).
Proof.
  intros Hm Hf s s' Hs. rewrite !run_bind. destruct (Hm s s' Hs) as [E1 E2].
  rewrite <-E1. by apply Hf.
Qed.

Lemma simulates_fmap {A B} (f : A → B) (m1 : M S A) m2 :
  simulates R m1 m2 → simulates R (f <$> m1) (f <$> m2).
Proof.
  intros Hm s s' Hs. rewrite !run_fmap. destruct (Hm s s' Hs) as [E1 E2]. simpl. by rewrite E1.
Qed.
End simulates.

Create HintDb simulates discriminated.
#[export] Hint Resolve simulates_ret simulates_bind simulates_fmap : simulates.

(** Two stores that answer alike, from states related by [R]. *)
Class StoreSim (T : Type → Type) (S S' : Type) `{!DataStore T S, !DataStore T S'}
    (R : S → S' → Prop) : Prop := {
  sim_FindZone q : simulates R (st_FindZone q) (st_FindZone q);
  sim_A z l : simulates R (st_A z l) (st_A z l);
  sim_AAAA z l : simulates R (st_AAAA z l) (st_AAAA z l);
  sim_CNAME z l : simulates R (st_CNAME z l) (st_CNAME z l);
  sim_TXT z l : simulates R (st_TXT z l) (st_TXT z l);
  sim_NS z l : simulates R (st_NS z l) (st_NS z l);
  sim_MX z l : simulates R (st_MX z l) (st_MX z l);
  sim_SRV z l : simulates R (st_SRV z l) (st_SRV z l);
  sim_CAA z l : simulates R (st_CAA z l) (st_CAA z l);
  sim_PTR z l : simulates R (st_PTR z l) (st_PTR z l);
  sim_TLSA z l : simulates R (st_TLSA z l) (st_TLSA z l);
  sim_DS z l : simulates R (st_DS z l) (st_DS z l);
  sim_ANAME z l : simulates R (st_ANAME z l) (st_ANAME z l);
}.
Class OutsideSim (S S' : Type) `{!Outside S, !Outside S'} (R : S → S' → Prop) : Prop := {
  sim_Nanosecond : simulates R Nanosecond Nanosecond;
  sim_Upstream q t : simulates R (UpstreamQuery q t) (UpstreamQuery q t);
}.
#[export] Hint Extern 1 (simulates _ _ _) => first
  [ apply sim_FindZone | apply sim_A | apply sim_AAAA | apply sim_CNAME | apply sim_TXT
  | apply sim_NS | apply sim_MX | apply sim_SRV | apply sim_CAA | apply sim_PTR
  | apply sim_TLSA | apply sim_DS | apply sim_ANAME | apply sim_Nanosecond
  | apply sim_Upstream ] : simulates.

(** ** A store beside the outside world

    The handler's state is that of the store together with that of the clock and
    the upstream resolver; each operation acts on its own part. *)
Definition on_fst {S O A} (m : M S A) : M (S * O) A := λ s, let '(a, s1) := m s.1 in (a, (s1, s.2)).
Definition on_snd {S O A} (m : M O A) : M (S * O) A := λ s, let '(a, o) := m s.2 in (a, (s.1, o)).

Section beside.
Context {T : Type → Type} {S S' O : Type} `{!DataStore T S, !DataStore T S', !Outside O}.

#[export] Instance beside_store : DataStore T (S * O) := {
  st_FindZone q := on_fst (st_FindZone q);
  st_GetZone q := on_fst (st_GetZone q);
  st_A z l := on_fst (st_A z l);
  st_AAAA z l := on_fst (st_AAAA z l);
  st_CNAME z l := on_fst (st_CNAME z l);
  st_TXT z l := on_fst (st_TXT z l);
  st_NS z l := on_fst (st_NS z l);
  st_MX z l := on_fst (st_MX z l);
  st_SRV z l := on_fst (st_SRV z l);
  st_CAA z l := on_fst (st_CAA z l);
  st_PTR z l := on_fst (st_PTR z l);
  st_TLSA z l := on_fst (st_TLSA z l);
  st_DS z l := on_fst (st_DS z l);
  st_ANAME z l := on_fst (st_ANAME z l);
}.
#[export] Instance beside_outside : Outside (S * O) := {
  Nanosecond := on_snd Nanosecond;
  UpstreamQuery q t := on_snd (UpstreamQuery q t);
}.

End beside.

Section beside_sim.
Context {T : Type → Type} {S S' O : Type} `{!DataStore T S, !DataStore T S', !Outside O}.
Definition beside (R : S → S' → Prop) (s : S * O) (s' : S' * O) : Prop :=
  R s.1 s'.1 ∧ s.2 = s'.2.

Lemma on_fst_simulates {A} R (m1 : M S A) (m2 : M S' A) :
  simulates R m1 m2 → simulates (beside R) (on_fst m1) (on_fst m2).
Proof.
  intros Hm [s o] [s' o'] [Hs Ho]. simpl in *. subst o'. unfold on_fst. simpl.
  destruct (Hm s s' Hs). by destruct (m1 s), (m2 s').
Qed.
Lemma on_snd_simulates {A} (R : S → S' → Prop) (m : M O A) :
  simulates (beside R) (on_snd m) (on_snd m).
Proof.
  intros [s o] [s' o'] [Hs Ho]. simpl in *. subst o'. unfold on_snd. simpl. by destruct (m o).
Qed.
#[export] Instance beside_store_sim R : StoreSim T S S' R → StoreSim T (S * O) (S' * O) (beside R).
Proof. intros []. split; intros; by apply on_fst_simulates. Qed.
#[export] Instance beside_outside_sim R : OutsideSim (S * O) (S' * O) (beside R).
Proof. split; intros; apply on_snd_simulates. Qed.
End beside_sim.

(** ** Postconditions

    [post m P]: every run of [m], whatever the store answers, yields a result
    in [P]. *)
Definition post {S A} (m : M S A) (P : A → Prop) : Prop := ∀ s, P (m s).1.

Section post.
Context {S : Type}.

Lemma post_ret {A} (a : A) (P : A → Prop) : P a → post (mret a : M S A) P.
Proof. by intros ? s. Qed.
Lemma post_bind {A B} (m : M S A) (f : A → M S B) (Q : A → Prop) (P : B → Prop) :
  post m Q → (∀ a, Q a → post (f a) P) → post (m ≫= f) P.
Proof. intros Hm Hf s. rewrite run_bind. by apply Hf, Hm. Qed.
(** Nothing is known of what a store operation returns. *)
Lemma post_op {A B} (m : M S A) (f : A → M S B) (P : B → Prop) :
  (∀ a, post (f a) P) → post (m ≫= f) P.
Proof. intros Hf. apply (post_bind _ _ (λ _, True)); [by intros s|auto]. Qed.
Lemma post_mono {A} (m : M S A) (P Q : A → Prop) :
  post m P → (∀ a, P a → Q a) → post m Q.
Proof. intros Hm HPQ s. by apply HPQ, Hm. Qed.
End post.
