(* ===== verification/Request.v ===== *)
(** * Requests: [internal/handler/request.go], [addNSec] and [applyDnssec]

    The request context carried through the handler, the query name, the client
    address taken from the EDNS client-subnet option, the response message, and
    the two helpers of [handler.go] that add DNSSEC records to a context. *)
From S2P Require Import Prelude GoStrings Radix DnsTypes Zone Dnssec.
Local Open Scope Z_scope.

(** The parts of a [*dns.Msg] query the server reads: the questions (name and
    type) and the options of its OPT record, if it has one. *)
Inductive EDNS0 :=
| EDNS0_SUBNET (Address : IP) (text : string)  (* [text] is its String() *)
| EDNS0_other.

Record Query := { Question : list (string * Z); Opt : option (list EDNS0) }.

Record RequestContext (T : Type → Type) := {
  Req : option Query;
  QType : Z;   (* [request.Request.QType] of package coredns *)
  Do : bool;   (* [request.Request.Do] *)
  Auth : bool;
  Res : Z;
  dnssec : bool;
  Answer : list RR;
  Authority : list RR;
  Additional : list RR;
  DomainUid : string;
  SourceIp : IP;
  SourceSubnet : string;
  SourceCountry : string;
  SourceASN : Z;
  ctx_name : string;
  ctx_zone : option (Zone T);
}.
Arguments Req {T}. Arguments QType {T}. Arguments Do {T}. Arguments Auth {T}.
Arguments Res {T}. Arguments dnssec {T}. Arguments Answer {T}. Arguments Authority {T}.
Arguments Additional {T}. Arguments DomainUid {T}. Arguments SourceIp {T}.
Arguments SourceSubnet {T}. Arguments SourceCountry {T}. Arguments SourceASN {T}.
Arguments ctx_name {T}. Arguments ctx_zone {T}.

(** [dns.Msg], with the fields [Response] sets. *)
Record Msg := {
  Rcode : Z; Authoritative : bool; RecursionAvailable : bool; Compress : bool;
  MsgAnswer : list RR; MsgNs : list RR; MsgExtra : list RR;
}.

Section Request.
Context {T : Type → Type}.
Implicit Types c : RequestContext T.

(** ** Assignments to the fields of a context *)
Definition set_Res (r : Z) c : RequestContext T := {|
  Req := Req c; QType := QType c; Do := Do c; Auth := Auth c; Res := r; dnssec := dnssec c;
  Answer := Answer c; Authority := Authority c; Additional := Additional c;
  DomainUid := DomainUid c; SourceIp := SourceIp c; SourceSubnet := SourceSubnet c;
  SourceCountry := SourceCountry c; SourceASN := SourceASN c; ctx_name := ctx_name c;
  ctx_zone := ctx_zone c |}.
Definition set_sections (an au ad : list RR) c : RequestContext T := {|
  Req := Req c; QType := QType c; Do := Do c; Auth := Auth c; Res := Res c; dnssec := dnssec c;
  Answer := an; Authority := au; Additional := ad;
  DomainUid := DomainUid c; SourceIp := SourceIp c; SourceSubnet := SourceSubnet c;
  SourceCountry := SourceCountry c; SourceASN := SourceASN c; ctx_name := ctx_name c;
  ctx_zone := ctx_zone c |}.
Definition set_Answer l c := set_sections l (Authority c) (Additional c) c.
Definition set_Authority l c := set_sections (Answer c) l (Additional c) c.
Definition append_Answer l c := set_Answer (Answer c ++ l) c.
Definition append_Authority l c := set_Authority (Authority c ++ l) c.
Definition append_Additional l c := set_sections (Answer c) (Authority c) (Additional c ++ l) c.
Definition set_source (country : string) (asn : Z) c : RequestContext T := {|
  Req := Req c; QType := QType c; Do := Do c; Auth := Auth c; Res := Res c; dnssec := dnssec c;
  Answer := Answer c; Authority := Authority c; Additional := Additional c;
  DomainUid := DomainUid c; SourceIp := SourceIp c; SourceSubnet := SourceSubnet c;
  SourceCountry := country; SourceASN := asn; ctx_name := ctx_name c;
  ctx_zone := ctx_zone c |}.
Definition set_name (n : string) c : RequestContext T := {|
  Req := Req c; QType := QType c; Do := Do c; Auth := Auth c; Res := Res c; dnssec := dnssec c;
  Answer := Answer c; Authority := Authority c; Additional := Additional c;
  DomainUid := DomainUid c; SourceIp := SourceIp c; SourceSubnet := SourceSubnet c;
  SourceCountry := SourceCountry c; SourceASN := SourceASN c; ctx_name := n;
  ctx_zone := ctx_zone c |}.
(** [context.zone = z], with [DomainUid] and [dnssec] which the handler sets next. *)
Definition set_zone (z : Zone T) (uid : string) (sec : bool) c : RequestContext T := {|
  Req := Req c; QType := QType c; Do := Do c; Auth := Auth c; Res := Res c; dnssec := sec;
  Answer := Answer c; Authority := Authority c; Additional := Additional c;
  DomainUid := uid; SourceIp := SourceIp c; SourceSubnet := SourceSubnet c;
  SourceCountry := SourceCountry c; SourceASN := SourceASN c; ctx_name := ctx_name c;
  ctx_zone := Some z |}.

(** ** [sourceIp], [sourceSubnet], [NewRequestContext]

    [client] is [net.ParseIP(context.IP())], the transport address. *)
Fixpoint subnet_option (opts : list EDNS0) : option (IP * string) :=
  match opts with
  | [] => None
  | EDNS0_SUBNET a t :: _ => Some (a, t)
  | EDNS0_other :: opts => subnet_option opts
  end.
Definition sourceIp (q : Query) (client : IP) : IP :=
  match Opt q with
  | Some opts => match subnet_option opts with Some (a, _) => a | None => client end
  | None => client
  end.
Definition sourceSubnet (q : Query) : string :=
  match Opt q with
  | Some opts => match subnet_option opts with Some (_, t) => t | None => empty_str end
  | None => empty_str
  end.

Definition NewRequestContext (q : Query) (client : IP) (qtype : Z) (do : bool)
  : RequestContext T := {|
  Req := Some q; QType := qtype; Do := do; Auth := true; Res := dns.RcodeSuccess;
  dnssec := false; Answer := []; Authority := []; Additional := [];
  DomainUid := empty_str; SourceIp := sourceIp q client; SourceSubnet := sourceSubnet q;
  SourceCountry := empty_str; SourceASN := 0; ctx_name := empty_str; ctx_zone := None |}.

(** ** [RawName]: the lower-cased query name, cached in the context. *)
Variable unicode_lower : string → string.

Definition RawName c : string * RequestContext T :=
  if negb (str_empty (ctx_name c)) then (ctx_name c, c)
  else match Req c with
       | None => (".", set_name "." c)
       | Some q =>
         match Question q with
         | [] => (".", set_name "." c)
         | (n, _) :: _ => let n := ToLower unicode_lower n in (n, set_name n c)
         end
       end.
(** The name; the cached copy does not change it ([RawName_cached]). *)
Definition raw_name c : string := (RawName c).1.

(** ** [Response]: the message handed to [SizeAndDo], [Scrub] and the writer *)
Definition Response c : Msg := {|
  Rcode := Res c; Authoritative := Auth c; RecursionAvailable := false; Compress := true;
  MsgAnswer := Answer c; MsgNs := Authority c; MsgExtra := Additional c |}.

(** ** [addNSec] *)
Definition NSEC_rr (name : string) (bitmap : list Z) (minttl : Z) : RR := {|
  Header := inet name dns.TypeNSEC minttl;
  Data := RD_NSEC ("\000." +:+ name) bitmap |}.

Definition addNSec (z : Zone T) (name : string) (qtype : Z) c : RequestContext T :=
  if negb (dnssec c) then c else
  let minttl := SOA_MinTtl (SOA (Config z)) in
  if decide (name = Name z) then
    append_Authority [NSEC_rr name (FilterNsecBitmap qtype NsecBitmapAppex) minttl]
      (set_Res dns.RcodeSuccess c)
  else if Res c =? dns.RcodeNameError then
    append_Authority [NSEC_rr name NsecBitmapNameError minttl] (set_Res dns.RcodeSuccess c)
  else if qtype =? dns.TypeDS then
    append_Authority [NSEC_rr name (FilterNsecBitmap qtype NsecBitmapSubDelegation) minttl] c
  else append_Authority [NSEC_rr name (FilterNsecBitmap qtype NsecBitmapZone) minttl] c.

(** ** [applyDnssec]; [None] is a panic. *)
Variable KeyTag : RR → Z.
Variable Sign : RR → string → list RR → option RR.
Variable map_order : gmap RRSetKey (list RR) → list (RRSetKey * list RR).

Definition applyDnssec (z : Zone T) c : option (RequestContext T) :=
  if negb (dnssec c) then Some c else
  match SignResponse KeyTag Sign map_order (Answer c) (raw_name c) z,
        SignResponse KeyTag Sign map_order (Authority c) (raw_name c) z with
  | Some an, Some au => Some (set_Authority au (set_Answer an c))
  | _, _ => None
  end.

(** ** Lemmas *)
Lemma RawName_cached c : raw_name (RawName c).2 = raw_name c.
Proof.
  unfold raw_name, RawName. destruct (str_empty (ctx_name c)) eqn:E; simpl; [|by rewrite E].
  destruct (Req c) as [[[|[n ?] ?] ?]|] eqn:Hr; simpl; try done.
  rewrite Hr. by destruct (str_empty (ToLower unicode_lower n)).
Qed.
End Request.
