(* ===== verification/TestHelpers.v ===== *)
(** * Comparing a response with what is expected: [internal/test/helpers.go]

    The handler's tests and the comparison of two servers ([tools/query]) sort the
    sections of a response and compare them with a [Case], record by record. The text of
    a record ([String] of package dns) and the order that [sort.Sort] leaves among equal
    records are parameters. Of the messages only what they are about is kept. *)
From Stdlib Require Import String.
From S2P Require Import Prelude GoStrings DnsTypes GoText Radix Zone Request.
Local Open Scope Z_scope.

(** [tc.Error] is never read. *)
Record Case := {
  Desc : string; Qname : string; Qtype : Z; Case_Rcode : Z; Case_Do : bool;
  Case_Answer : list RR; Case_Ns : list RR; Case_Extra : list RR;
}.
Definition Case_Msg (Fqdn : string → string) (c : Case) : Query := {|
  Question := [(Fqdn (Qname c), Qtype c)]; Opt := if Case_Do c then Some [] else None |}.

(** The size and the DO bit of an OPT record are kept in its header (RFC 6891). *)
Definition UDPSize (r : RR) : Z := Hdr_Class (Header r).
Definition opt_Do (r : RR) : bool := Z.testbit (rr_ttl r) 15.

Inductive sect := InAnswer | InNs | InExtra.
Inductive TestError :=
| WrongRcode | WrongLength (s : sect) | WrongField (i : nat) (field : string).
(** The value of type [error], or a panic ([None]). *)
Definition outcome : Type := option (option TestError).
Definition fine : outcome := Some None.

(** One comparison; the first that fails is returned. *)
Definition same {A} `{EqDecision A} (i : nat) (field : string) (x y : A) (next : outcome) : outcome :=
  if decide (x = y) then next else Some (Some (WrongField i field)).

Fixpoint Txt_loop (i : nat) (txt expected : list string) : outcome :=
  match txt, expected with
  | [], _ => fine
  | t :: txt, e :: expected => same i "Txt" t e (Txt_loop i txt expected)
  | _ :: _, [] => None
  end.

(** The switch on the type of the record; an assertion on the expected record that
    fails is a panic. *)
Definition Section_data (i : nat) (a e : RR) : outcome :=
  match Data a, Data e with
  | RD_SRV p w q t, RD_SRV p' w' q' t' =>
    same i "Priority" p p' (same i "Weight" w w' (same i "Port" q q' (same i "Target" t t' fine)))
  | RD_RRSIG c _ l _ _ _ _ n _, RD_RRSIG c' _ l' _ _ _ _ n' _ =>
    same i "TypeCovered" c c' (same i "Labels" l l' (same i "SignerName" n n' fine))
  | RD_NSEC n _, RD_NSEC n' _ => same i "NextDomain" n n' fine
  | RD_A ip, RD_A ip' => same i "Address" (IP_String ip) (IP_String ip') fine
  | RD_AAAA ip, RD_AAAA ip' => same i "Address" (IP_String ip) (IP_String ip') fine
  | RD_TXT txt, RD_TXT txt' => Txt_loop i txt txt'
  | RD_HINFO c o, RD_HINFO c' o' => same i "Cpu" c c' (same i "Os" o o' fine)
  | RD_SOA n _ _ _ _ _ _, RD_SOA n' _ _ _ _ _ _ => same i "SOA nameserver" n n' fine
  | RD_PTR p, RD_PTR p' => same i "PTR ptr" p p' fine
  | RD_CNAME t, RD_CNAME t' => same i "CNAME target" t t' fine
  | RD_MX p m, RD_MX p' m' => same i "MX Mx" m m' (same i "MX Preference" p p' fine)
  | RD_NS n, RD_NS n' => same i "NS nameserver" n n' fine
  | RD_OPT, RD_OPT => same i "OPT UDPSize" (UDPSize a) (UDPSize e) (same i "OPT DO" (opt_Do a) (opt_Do e) fine)
  | RD_CAA f t v, RD_CAA f' t' v' => same i "CAA Value" v v' (same i "CAA Tag" t t' (same i "CAA Flag" f f' fine))
  | RD_TLSA u s m c, RD_TLSA u' s' m' c' =>
    same i "TLSA Usage" u u' (same i "TLSA Selector" s s' (same i "TLSA Matching Type" m m'
      (same i "TLSA Certificate" c c' fine)))
  | (RD_DS _ _ _ _ | RD_DNSKEY _ _ _ _ | RD_other _), _ => fine  (* no case in the switch *)
  | _, _ => None
  end.

Definition is_OPT (r : RR) : bool := match Data r with RD_OPT => true | _ => false end.
(** A record that can be looked at: not a nil pointer. *)
Definition non_nil (r : RR) : bool := match Data r with RD_nil_RRSIG => false | _ => true end.

Definition Section_rr (i : nat) (a e : RR) : outcome :=
  if negb (non_nil a && non_nil e) then None else
  same i "Name" (rr_name a) (rr_name e)
    (if negb (rr_ttl e =? 303) && negb (rr_ttl a =? rr_ttl e) && negb (is_OPT e)
     then Some (Some (WrongField i "TTL"))
     else same i "rr type" (rr_type a) (rr_type e) (Section_data i a e)).

(** [Section]: [rr] against [section] from index [i]. *)
Fixpoint Section_loop (i : nat) (rr section : list RR) : outcome :=
  match rr, section with
  | [], _ => fine
  | a :: rr, e :: section =>
    match Section_rr i a e with
    | Some None => Section_loop (S i) rr section
    | r => r
    end
  | _ :: _, [] => None
  end.
Definition Section (tc : Case) (sec : sect) (rr : list RR) : outcome :=
  Section_loop 0 rr match sec with InAnswer => Case_Answer tc | InNs => Case_Ns tc | InExtra => Case_Extra tc end.

Definition Case_Header (tc : Case) (resp : Msg) : option TestError :=
  if negb (Rcode resp =? Case_Rcode tc) then Some WrongRcode
  else if decide (length (MsgAnswer resp) = length (Case_Answer tc)) then
    if decide (length (MsgNs resp) = length (Case_Ns tc)) then
      if decide (length (MsgExtra resp) = length (Case_Extra tc)) then None
      else Some (WrongLength InExtra)
    else Some (WrongLength InNs)
  else Some (WrongLength InAnswer).

Definition and_then (o next : outcome) : outcome := match o with Some None => next | _ => o end.

(** [CNAMEOrder]: no CNAME after a record of its target. *)
Fixpoint CNAMEOrder_loop (before answer : list RR) : outcome :=
  match answer with
  | [] => fine
  | c :: answer =>
    if negb (rr_type c =? dns.TypeCNAME) then CNAMEOrder_loop (before ++ [c]) answer else
    match before, Data c with
    | [], _ => CNAMEOrder_loop (before ++ [c]) answer
    | _, RD_CNAME target =>
      if existsb (λ a, bool_decide (rr_name a = target)) before then Some (Some (WrongField (length before) "CNAME"))
      else CNAMEOrder_loop (before ++ [c]) answer
    | _, _ => None
    end
  end.
Definition CNAMEOrder (res : Msg) : outcome := CNAMEOrder_loop [] (MsgAnswer res).

(** ** [SortAndCheck] *)

(** [sort.Sort] for the order of [RRSet]. *)
Class Sorter (rr_String : RR → string) (Sort : list RR → list RR) : Prop := {
  law_Sort_perm l : Sort l ≡ₚ l;
  law_Sort_sorted l : StronglySorted (λ a b, String.ltb (rr_String b) (rr_String a) = false) (Sort l);
}.

Section check.
Variable Sort : list RR → list RR.

Definition SortAndCheck (resp : Msg) (tc : Case) : outcome :=
  let answer := Sort (MsgAnswer resp) in
  let ns := Sort (MsgNs resp) in
  let extra := Sort (MsgExtra resp) in
  let resp := {| Rcode := Rcode resp; Authoritative := Authoritative resp;
                 RecursionAvailable := RecursionAvailable resp; Compress := Compress resp;
                 MsgAnswer := answer; MsgNs := ns; MsgExtra := extra |} in
  match Case_Header tc resp with
  | Some err => Some (Some err)
  | None =>
    and_then (Section tc InAnswer answer) (and_then (Section tc InNs ns) (Section tc InExtra extra))
  end.
End check.

(** ** What the comparison accepts *)

(** The fields that are compared, on records of one kind. *)
Definition data_agree (a e : RR) : Prop :=
  match Data a, Data e with
  | RD_SRV p w q t, RD_SRV p' w' q' t' => p = p' ∧ w = w' ∧ q = q' ∧ t = t'
  | RD_RRSIG c _ l _ _ _ _ n _, RD_RRSIG c' _ l' _ _ _ _ n' _ => c = c' ∧ l = l' ∧ n = n'
  | RD_NSEC n _, RD_NSEC n' _ => n = n'
  | RD_A ip, RD_A ip' | RD_AAAA ip, RD_AAAA ip' => IP_String ip = IP_String ip'
  | RD_TXT txt, RD_TXT txt' => txt `prefix_of` txt'
  | RD_HINFO c o, RD_HINFO c' o' => c = c' ∧ o = o'
  | RD_SOA n _ _ _ _ _ _, RD_SOA n' _ _ _ _ _ _ => n = n'
  | RD_PTR x, RD_PTR x' | RD_CNAME x, RD_CNAME x' | RD_NS x, RD_NS x' => x = x'
  | RD_MX p m, RD_MX p' m' => p = p' ∧ m = m'
  | RD_OPT, RD_OPT => UDPSize a = UDPSize e ∧ opt_Do a = opt_Do e
  | RD_CAA f t v, RD_CAA f' t' v' => f = f' ∧ t = t' ∧ v = v'
  | RD_TLSA u s m c, RD_TLSA u' s' m' c' => u = u' ∧ s = s' ∧ m = m' ∧ c = c'
  | (RD_DS _ _ _ _ | RD_DNSKEY _ _ _ _ | RD_other _), _ => True
  | _, _ => False
  end.
(** A TTL of 303 in the expected record stands for any; that of an OPT does not count. *)
Record agrees (a e : RR) : Prop := {
  agrees_non_nil : non_nil a = true ∧ non_nil e = true;
  agrees_name : rr_name a = rr_name e;
  agrees_ttl : rr_ttl e = 303 ∨ rr_ttl a = rr_ttl e ∨ is_OPT e = true;
  agrees_type : rr_type a = rr_type e;
  agrees_data : data_agree a e;
}.

Lemma same_fine {A} `{EqDecision A} i f (x y : A) next : same i f x y next = fine ↔ x = y ∧ next = fine.
Proof. unfold same. case_decide; naive_solver. Qed.
Lemma fine_fine : fine = fine ↔ True.
Proof. done. Qed.
Lemma Txt_loop_fine i txt txt' : Txt_loop i txt txt' = fine ↔ txt `prefix_of` txt'.
Proof.
  revert txt'. induction txt as [|t txt IH]; intros txt'; simpl; [split; [intros _; apply prefix_nil|done]|].
  destruct txt' as [|t' txt'].
  - split; [done|]. by intros ?%prefix_nil_not.
  - rewrite same_fine, IH. split; [intros [-> ?]; by apply prefix_cons|].
    intros Hp. split; [by apply prefix_cons_inv_1 in Hp|by apply prefix_cons_inv_2 in Hp].
Qed.
Lemma Section_data_fine i a e :
  non_nil a = true → non_nil e = true → Section_data i a e = fine ↔ data_agree a e.
Proof.
  unfold Section_data, data_agree, non_nil. intros Ha He.
  destruct (Data a), (Data e); try done; try (by split); rewrite ?Txt_loop_fine, ?same_fine, ?fine_fine; tauto.
Qed.
Lemma Section_rr_fine i a e : Section_rr i a e = fine ↔ agrees a e.
Proof.
  unfold Section_rr. destruct (non_nil a) eqn:Ha, (non_nil e) eqn:He; cbn [andb negb];
    try (split; [done|]; intros [[? ?] _ _ _ _]; congruence).
  rewrite same_fine. pose proof (Section_data_fine i a e Ha He) as Hd.
  assert (Hc : negb (rr_ttl e =? 303) && negb (rr_ttl a =? rr_ttl e) && negb (is_OPT e) = false
               ↔ (rr_ttl e = 303 ∨ rr_ttl a = rr_ttl e ∨ is_OPT e = true)).
  { destruct (Z.eqb_spec (rr_ttl e) 303), (Z.eqb_spec (rr_ttl a) (rr_ttl e)), (is_OPT e); cbn; intuition congruence. }
  destruct (negb _ && _ && _).
  - split; [by intros [_ ?]|]. intros [_ _ Ht _ _]. by apply Hc in Ht.
  - rewrite same_fine, Hd. split; [|by intros []].
    intros (Hn & Ht & Hda). split; try done. by apply Hc.
Qed.
Lemma Section_loop_fine i rr section :
  length rr = length section → Section_loop i rr section = fine ↔ Forall2 agrees rr section.
Proof.
  revert i section. induction rr as [|a rr IH]; intros i [|e section] Hl; try done; simpl in *.
  rewrite Forall2_cons, <-(Section_rr_fine i a e), <-(IH (S i)) by lia.
  destruct (Section_rr i a e) as [[err|]|]; naive_solver.
Qed.

Lemma and_then_fine o next : and_then o next = fine ↔ o = fine ∧ next = fine.
Proof. destruct o as [[err|]|]; simpl; naive_solver. Qed.

Section compared.
Variable rr_String : RR → string.
Variable Sort : list RR → list RR.
Context `{!Sorter rr_String Sort}.
Abbreviation compare := (SortAndCheck Sort).

Lemma Sort_length l : length (Sort l) = length l.
Proof. by rewrite (law_Sort_perm l). Qed.

(** [SortAndCheck] accepts exactly the responses that have the code and, once their
    sections are sorted, agree record by record with those expected, in the order in
    which these are listed. *)
Theorem SortAndCheck_spec resp tc :
  compare resp tc = fine ↔
  Rcode resp = Case_Rcode tc
  ∧ Forall2 agrees (Sort (MsgAnswer resp)) (Case_Answer tc)
  ∧ Forall2 agrees (Sort (MsgNs resp)) (Case_Ns tc)
  ∧ Forall2 agrees (Sort (MsgExtra resp)) (Case_Extra tc).
Proof.
  unfold SortAndCheck, Case_Header. cbn. rewrite !Sort_length.
  destruct (Z.eqb_spec (Rcode resp) (Case_Rcode tc)); cbn [negb]; [|naive_solver].
  assert (Hlen : ∀ l l', Forall2 agrees (Sort l) l' → length l = length l')
    by (intros l l' Hf; by rewrite <-(Sort_length l), (Forall2_length _ _ _ Hf)).
  repeat case_decide; try (split; [done|]; intros (_ & ?%Hlen & ?%Hlen & ?%Hlen); congruence).
  rewrite !and_then_fine. unfold Section. rewrite !Section_loop_fine by by rewrite Sort_length. naive_solver.
Qed.

#[local] Instance not_after_antisym : AntiSymm (=) (λ s t, String.ltb t s = false).
Proof.
  intros s t H1 H2. unfold String.ltb in *. apply String.compare_eq_iff. rewrite String.compare_antisym in H1.
  by destruct (String.compare s t).
Qed.

(** Sections of the same records, whatever their order, are sorted alike when the
    texts tell records apart. *)
Lemma Sort_same l l' :
  l ≡ₚ l' → (∀ a b, a ∈ l → b ∈ l → rr_String a = rr_String b → a = b) → Sort l = Sort l'.
Proof.
  intros Hp Hinj.
  assert (Hs : ∀ l, StronglySorted (λ s t, String.ltb t s = false) (rr_String <$> Sort l)).
  { intros k. pose proof (law_Sort_sorted (Sort:=Sort) k) as Hk. induction Hk as [|a k' _ IH Hall]; csimpl; [constructor|].
    constructor; [done|]. by apply Forall_fmap. }
  assert (Heq : rr_String <$> Sort l = rr_String <$> Sort l').
  { apply (StronglySorted_unique (λ s t, String.ltb t s = false)); [apply Hs..|].
    by rewrite !(law_Sort_perm (Sort:=Sort)), Hp. }
  assert (Hin : Forall (λ a, a ∈ l) (Sort l)) by (apply Forall_forall; intros a; by rewrite law_Sort_perm).
  assert (Hin' : Forall (λ a, a ∈ l) (Sort l')) by (apply Forall_forall; intros a; by rewrite law_Sort_perm, Hp).
  clear -Hinj Heq Hin Hin'. revert Heq Hin'. generalize (Sort l'). induction Hin as [|a k Ha _ IH]; intros [|b k'] E Hk';
    try done. csimpl in E. injection E as Eab Ek. apply Forall_cons in Hk' as [Hb Hk'].
  f_equal; [by apply Hinj|by apply IH].
Qed.

(** A record agrees with itself. *)
Lemma agrees_refl a : non_nil a = true → agrees a a.
Proof.
  intros Ha. split; try done; [by right; left|]. unfold data_agree, non_nil in *. by destruct (Data a).
Qed.

(** Two responses with the same code and the same records in any order: comparing one
    with the other, sorted, finds nothing. *)
Theorem same_answers_pass r1 r2 tc :
  Rcode r1 = Rcode r2 →
  MsgAnswer r1 ≡ₚ MsgAnswer r2 → MsgNs r1 ≡ₚ MsgNs r2 → MsgExtra r1 ≡ₚ MsgExtra r2 →
  (∀ a b, a ∈ MsgAnswer r1 ++ MsgNs r1 ++ MsgExtra r1 → b ∈ MsgAnswer r1 ++ MsgNs r1 ++ MsgExtra r1 →
    rr_String a = rr_String b → a = b) →
  Forall (λ a, non_nil a = true) (MsgAnswer r1 ++ MsgNs r1 ++ MsgExtra r1) →
  Case_Rcode tc = Rcode r1 → Case_Answer tc = Sort (MsgAnswer r1) → Case_Ns tc = Sort (MsgNs r1) →
  Case_Extra tc = Sort (MsgExtra r1) →
  compare r2 tc = fine.
Proof.
  intros Hc Ha Hn He Hinj Hnil Ec Ea En Ee. apply SortAndCheck_spec.
  assert (Hsec : ∀ l1 l2, l1 ≡ₚ l2 → l1 ⊆ MsgAnswer r1 ++ MsgNs r1 ++ MsgExtra r1 → Forall2 agrees (Sort l2) (Sort l1)).
  { intros l1 l2 Hp Hsub. rewrite (Sort_same l1 l2 Hp) by (intros a b ??; apply Hinj; by apply Hsub).
    rewrite Forall_forall in Hnil. assert (Hall : Forall (λ a, non_nil a = true) (Sort l2)).
    { apply Forall_forall. intros a. rewrite law_Sort_perm, <-Hp. intros Hal. by apply Hnil, Hsub. }
    induction Hall; constructor; [by apply agrees_refl|done]. }
  split_and!; [congruence|rewrite Ea|rewrite En|rewrite Ee]; apply Hsec; try done; set_solver.
Qed.
End compared.

(** *** Panics *)

(** The type in the header is that of the record's Go type; [13] is HINFO. *)
Definition data_type (d : RData) : option Z :=
  match d with
  | RD_A _ => Some dns.TypeA | RD_AAAA _ => Some dns.TypeAAAA | RD_CNAME _ => Some dns.TypeCNAME
  | RD_TXT _ => Some dns.TypeTXT | RD_NS _ => Some dns.TypeNS | RD_MX _ _ => Some dns.TypeMX
  | RD_SRV _ _ _ _ => Some dns.TypeSRV | RD_CAA _ _ _ => Some dns.TypeCAA | RD_PTR _ => Some dns.TypePTR
  | RD_TLSA _ _ _ _ => Some dns.TypeTLSA | RD_DS _ _ _ _ => Some dns.TypeDS
  | RD_SOA _ _ _ _ _ _ _ => Some dns.TypeSOA | RD_NSEC _ _ => Some dns.TypeNSEC
  | RD_DNSKEY _ _ _ _ => Some dns.TypeDNSKEY | RD_RRSIG _ _ _ _ _ _ _ _ _ => Some dns.TypeRRSIG
  | RD_HINFO _ _ => Some 13 | RD_OPT => Some dns.TypeOPT
  | RD_nil_RRSIG | RD_other _ => None
  end.
Definition well_typed (r : RR) : Prop :=
  match Data r with
  | RD_nil_RRSIG => False
  | RD_other _ => ∀ d, data_type d ≠ Some (rr_type r)
  | d => data_type d = Some (rr_type r)
  end.
Definition longer_text (a e : RR) : Prop :=
  match Data a, Data e with RD_TXT txt, RD_TXT txt' => (length txt' < length txt)%nat | _, _ => False end.

Lemma same_None {A} `{EqDecision A} i f (x y : A) next : same i f x y next = None → next = None.
Proof. unfold same. by case_decide. Qed.
Lemma Txt_loop_None i txt txt' : Txt_loop i txt txt' = None → (length txt' < length txt)%nat.
Proof.
  revert txt'. induction txt as [|t txt IH]; intros [|t' txt']; simpl; try done; [lia|].
  intros H%same_None%IH. lia.
Qed.
Lemma Section_data_None i a e :
  well_typed a → well_typed e → rr_type a = rr_type e → Section_data i a e = None → longer_text a e.
Proof.
  unfold well_typed, Section_data, longer_text. intros Ha He Ht Hs. rewrite <-Ht in He.
  destruct (Data a) eqn:Ea, (Data e) eqn:Ee; try done;
    try (by rewrite <-Ha in He); try (by specialize (He (Data a)); rewrite Ea in He);
    try (by eapply Txt_loop_None); by repeat apply same_None in Hs.
Qed.
Lemma Section_rr_None i a e :
  well_typed a → well_typed e → Section_rr i a e = None → longer_text a e.
Proof.
  intros Ha He. unfold Section_rr.
  assert (Hn : ∀ r, well_typed r → non_nil r = true) by (intros r; unfold well_typed, non_nil; by destruct (Data r)).
  rewrite (Hn a Ha), (Hn e He). cbn [andb negb]. intros H%same_None. destruct (negb _ && _ && _); [done|].
  unfold same in H. case_decide; [|done]. by eapply Section_data_None.
Qed.
Lemma Section_loop_None i rr section :
  length rr = length section → Forall well_typed rr → Forall well_typed section →
  Section_loop i rr section = None → ∃ a e, a ∈ rr ∧ e ∈ section ∧ longer_text a e.
Proof.
  revert i section. induction rr as [|a rr IH]; intros i [|e section] Hl Ha He; try done. simpl in *.
  apply Forall_cons in Ha as [Ha Hrr], He as [He Hsec].
  destruct (Section_rr i a e) as [[err|]|] eqn:E; [done| |].
  - intros (a' & e' & ? & ? & ?)%IH; [|lia|done|done]. exists a', e'. set_solver.
  - intros _. exists a, e. apply Section_rr_None in E; [|done..]. set_solver.
Qed.

(** Records that are what their headers say make the comparison panic at one place
    only: a text with more parts than the expected one. *)
Theorem SortAndCheck_panics resp tc rr_String Sort `{!Sorter rr_String Sort} :
  Forall well_typed (MsgAnswer resp ++ MsgNs resp ++ MsgExtra resp) →
  Forall well_typed (Case_Answer tc ++ Case_Ns tc ++ Case_Extra tc) →
  SortAndCheck Sort resp tc = None →
  ∃ a e, a ∈ MsgAnswer resp ++ MsgNs resp ++ MsgExtra resp ∧ e ∈ Case_Answer tc ++ Case_Ns tc ++ Case_Extra tc
         ∧ longer_text a e.
Proof.
  rewrite !Forall_app. intros (Ha & Hn & He) (Ha' & Hn' & He'). unfold SortAndCheck, Case_Header. cbn.
  rewrite !(Sort_length rr_String Sort). destruct (negb _); [done|]. repeat case_decide; try done.
  assert (Hsec : ∀ l l', length l = length l' → Forall well_typed l → Forall well_typed l' →
    Section_loop 0 (Sort l) l' = None → ∃ a e, a ∈ l ∧ e ∈ l' ∧ longer_text a e).
  { intros l l' Hl Hf Hf' (a & e & Hin & Hx)%Section_loop_None; [| |by rewrite (law_Sort_perm (rr_String:=rr_String))|done].
    - exists a, e. by rewrite (law_Sort_perm (rr_String:=rr_String)) in Hin.
    - by rewrite (Sort_length rr_String Sort). }
  unfold and_then, Section. intros Hnone.
  assert (∃ l l', l ⊆ MsgAnswer resp ++ MsgNs resp ++ MsgExtra resp ∧ l' ⊆ Case_Answer tc ++ Case_Ns tc ++ Case_Extra tc
    ∧ ∃ a e, a ∈ l ∧ e ∈ l' ∧ longer_text a e) as (l & l' & Hl & Hl' & a & e & ? & ? & ?).
  { destruct (Section_loop 0 (Sort (MsgAnswer resp)) (Case_Answer tc)) as [[?|]|] eqn:E1; [done| |].
    - destruct (Section_loop 0 (Sort (MsgNs resp)) (Case_Ns tc)) as [[?|]|] eqn:E2; [done| |].
      + exists (MsgExtra resp), (Case_Extra tc). split_and!; [set_solver..|]. by apply Hsec.
      + exists (MsgNs resp), (Case_Ns tc). split_and!; [set_solver..|]. by apply Hsec.
    - exists (MsgAnswer resp), (Case_Answer tc). split_and!; [set_solver..|]. by apply Hsec. }
  exists a, e. set_solver.
Qed.

(** *** Blind spots: different records that agree *)

(** Text that is cut short, type bitmaps, digests and keys, and every TTL when the
    expected one is 303. *)
Lemma short_text_agrees h txt rest :
  agrees {| Header := h; Data := RD_TXT txt |} {| Header := h; Data := RD_TXT (txt ++ rest) |}.
Proof. split; try done; [by right; left|]. by apply prefix_app_r. Qed.
Lemma bitmap_agrees h n b b' :
  agrees {| Header := h; Data := RD_NSEC n b |} {| Header := h; Data := RD_NSEC n b' |}.
Proof. split; try done. by right; left. Qed.
Lemma key_agrees h f p a k f' p' a' k' :
  agrees {| Header := h; Data := RD_DNSKEY f p a k |} {| Header := h; Data := RD_DNSKEY f' p' a' k' |}.
Proof. split; try done. by right; left. Qed.
Lemma ttl_303_agrees n t c ttl data :
  non_nil {| Header := inet n t ttl; Data := data |} = true →
  data_agree {| Header := {| Hdr_Name := n; Hdr_Rrtype := t; Hdr_Class := c; Hdr_Ttl := ttl |}; Data := data |}
             {| Header := {| Hdr_Name := n; Hdr_Rrtype := t; Hdr_Class := c; Hdr_Ttl := 303 |}; Data := data |} →
  agrees {| Header := {| Hdr_Name := n; Hdr_Rrtype := t; Hdr_Class := c; Hdr_Ttl := ttl |}; Data := data |}
         {| Header := {| Hdr_Name := n; Hdr_Rrtype := t; Hdr_Class := c; Hdr_Ttl := 303 |}; Data := data |}.
Proof. intros Hn Hd. split; try done. by left. Qed.
