(* ===== verification/Handler.v ===== *)
(** * The request handler: [internal/handler/handler.go]

    [HandleRequest] finds the zone of the query, follows in-zone CNAMEs and
    produces the answer, authority and additional sections. The loop of the
    source, bounded by [loopCount > 10], is [resolve] with 11 units of fuel, one
    per iteration; each [break loop] returns the context. Every read of the
    store goes through the interface of [Store]. *)
From S2P Require Import Prelude GoStrings Radix DnsTypes Zone Geo IpSelect Dnssec Store Request.
Local Open Scope Z_scope.

Section Handler.
Context {T : Type → Type} `{!IRadix T} {S : Type} `{!DataStore T S, !Outside S}.
Context {F : Type} `{!Float64 F}.
Variable unicode_lower : string → string.
Variable Fqdn : string → string.
Variable geoip : GeoIp F.
Implicit Types (c : RequestContext T) (z : Zone T).

Notation raw := (raw_name unicode_lower).

(** [h.filter], with its reading of the clock. *)
Definition h_filter c (rrset : IP_RRSet) : M S (list IP) :=
  ns ← Nanosecond; mret (filtered geoip (SourceIp c) rrset ns).

(** ** Glue: the A and AAAA records of the name servers of a delegation that
    the zone has a location for. Errors are ignored, as in the source. *)
Definition glue_A z c (host location : string) : M S (RequestContext T) :=
  r ← st_A (Name z) location;
  match r with
  | Err _ => mret c
  | Ok glueA =>
    ips ← h_filter c glueA;
    mret (append_Additional (generateA host (Ttl (IP_Generic glueA)) ips) c)
  end.
Definition glue_AAAA z c (host location : string) : M S (RequestContext T) :=
  r ← st_AAAA (Name z) location;
  match r with
  | Err _ => mret c
  | Ok glueAAAA =>
    ips ← h_filter c glueAAAA;
    mret (append_Additional (generateAAAA host (Ttl (IP_Generic glueAAAA)) ips) c)
  end.
Fixpoint add_glue z (hosts : list string) c : M S (RequestContext T) :=
  match hosts with
  | [] => mret c
  | host :: hosts =>
    let '(glueLocation, m) := FindLocation z host in
    if decide (m = NoMatch) then add_glue z hosts c
    else
      c ← glue_A z c host glueLocation;
      c ← glue_AAAA z c host glueLocation;
      add_glue z hosts c
  end.

(** ** [case types.CEMatch]: a delegation above the name, or no such name *)
Definition handle_CEMatch z (zoneName location currentQName : string) c
  : M S (RequestContext T) :=
  try ns ← st_NS (Name z) location catch mret (set_Res dns.RcodeServerFailure c);
  if negb (NS_Empty ns) then
    if nullb (NS_Data ns) then mret (set_Res dns.RcodeServerFailure c) else
    let cutPoint := location +:+ String dot zoneName in
    let c := append_Authority (NS_Value Fqdn ns cutPoint) c in
    try ds ← st_DS (Name z) location catch mret (set_Res dns.RcodeServerFailure c);
    let c := if DS_Empty ds then addNSec z cutPoint dns.TypeDS c else c in
    let c := append_Authority (DS_Value ds cutPoint) c in
    c ← add_glue z (NS_Data ns) c;
    mret (set_Res dns.RcodeSuccess c)
  else
    let c := set_Authority [SOA_Data (SOA (Config z))] c in
    let c := set_Res dns.RcodeNameError c in
    mret (addNSec z currentQName (QType c) c).

(** ** Delegation at the name itself ([if currentQName != context.zone.Name]) *)
Definition handle_delegation z (ns : NS_RRSet) (location currentQName : string) c
  : M S (RequestContext T) :=
  try ds ← st_DS (Name z) location catch mret (set_Res dns.RcodeServerFailure c);
  if negb (DS_Empty ds) && (QType c =? dns.TypeDS) then
    mret (set_Res dns.RcodeSuccess (append_Answer (DS_Value ds currentQName) c))
  else
    let c := if DS_Empty ds then addNSec z currentQName dns.TypeDS c
             else append_Authority (DS_Value ds currentQName) c in
    let c := append_Authority (NS_Value Fqdn ns currentQName) c in
    c ← add_glue z (NS_Data ns) c;
    mret (set_Res dns.RcodeSuccess c).

(** ** [findANAME]: addresses, response code and TTL *)
Definition upstream_ips (qtype : Z) (r : RR) : list IP :=
  match Data r with
  | RD_A ip => if qtype =? dns.TypeA then [ip] else []
  | RD_AAAA ip => if qtype =? dns.TypeA then [] else [ip]
  | _ => []
  end.
Definition aname_fail : list IP * Z * Z := ([], dns.RcodeServerFailure, 0).

Fixpoint findANAME_loop (fuel : nat) z c (currentQName : string) (qtype : Z)
  : M S (list IP * Z * Z) :=
  match fuel with
  | O => mret aname_fail
  | Datatypes.S fuel =>
    zoneName ← st_FindZone currentQName;
    if bool_decide (zoneName = empty_str) || bool_decide (zoneName ≠ Name z) then
      '(answers, rcode) ← UpstreamQuery currentQName qtype;
      if rcode =? dns.RcodeSuccess then
        mret (answers ≫= upstream_ips qtype, rcode, from_option rr_ttl 0 (head answers))
      else mret aname_fail
    else
      let '(location, m) := FindLocation z currentQName in
      if decide (m = NoMatch) then mret aname_fail else
      try cname ← st_CNAME (Name z) location catch mret aname_fail;
      if negb (CNAME_Empty cname) then findANAME_loop fuel z c (CNAME_Host cname) qtype
      else
        let next :=
          try aname ← st_ANAME (Name z) location catch mret aname_fail;
          if negb (ANAME_Empty aname) then findANAME_loop fuel z c (ANAME_Location aname) qtype
          else mret ([], dns.RcodeSuccess, 0) in
        if qtype =? dns.TypeA then
          try a ← st_A (Name z) location catch mret aname_fail;
          if negb (IP_Empty a) then
            ips ← h_filter c a; mret (ips, dns.RcodeSuccess, TtlValue (IP_Generic a))
          else next
        else if qtype =? dns.TypeAAAA then
          try aaaa ← st_AAAA (Name z) location catch mret aname_fail;
          if negb (IP_Empty aaaa) then
            ips ← h_filter c aaaa; mret (ips, dns.RcodeSuccess, TtlValue (IP_Generic aaaa))
          else next
        else next
  end.
Definition findANAME z c (aname : string) (qtype : Z) : M S (list IP * Z * Z) :=
  findANAME_loop 11 z c aname qtype.

(** ** [findCAA]: the CAA set of the closest ancestor that has one

    The loop drops a label per iteration; [fuel] bounds its iterations and
    [findCAA_fuel_enough] shows that the bound used is never reached. *)
Fixpoint findCAA_loop (fuel : nat) z (currentLocation : string) : M S (option CAA_RRSet) :=
  match fuel with
  | O => mret None
  | Datatypes.S fuel =>
    match SplitAfter2 currentLocation dot with
    | [_; rest] =>
      let '(location, m) := FindLocation z rest in
      if bool_decide (m ≠ ExactMatch) && bool_decide (m ≠ WildCardMatch) then
        findCAA_loop fuel z rest
      else
        r ← st_CAA (Name z) location;
        match r with
        | Err _ => findCAA_loop fuel z rest
        | Ok caa => if negb (CAA_Empty caa) then mret (Some caa)
                    else findCAA_loop fuel z location
        end
    | _ => mret None
    end
  end.
Definition caa_fuel (location : string) : nat :=
  Datatypes.S (count_byte dot (bytes location)).
Definition findCAA z (query : string) : M S (option CAA_RRSet) :=
  let '(currentLocation, _) := FindLocation z query in
  r ← st_CAA (Name z) currentLocation;
  let climb :=
    found ← findCAA_loop (caa_fuel currentLocation) z currentLocation;
    match found with
    | Some caa => mret (Some caa)
    | None =>
      apex ← st_CAA (Name z) "@";
      mret (match apex with Ok caa => Some caa | Err _ => None end)
    end in
  match r with
  | Ok caa => if negb (CAA_Empty caa) then mret (Some caa) else climb
  | Err _ => climb
  end.

(** ** [switch context.QType()]

    [Break c] is a [break loop] with context [c]; [Answered c answer] the context
    and the [answer] with which the code goes on after the switch; [Panic] the
    nil pointer dereference of a zone that has DNSSEC on but no keys. *)
Inductive outcome :=
| Break (c : RequestContext T)
| Answered (c : RequestContext T) (answer : list RR)
| Panic.
Definition server_failure c : M S outcome := mret (Break (set_Res dns.RcodeServerFailure c)).


Definition answer_A z c (location currentQName : string) : M S outcome :=
  try a ← st_A (Name z) location catch server_failure c;
  try aname ← st_ANAME (Name z) location catch server_failure c;
  if IP_Empty a && negb (ANAME_Empty aname) then
    '(ips, rcode, ttl) ← findANAME z c (ANAME_Location aname) dns.TypeA;
    mret (Answered (set_Res rcode c) (generateA currentQName ttl ips))
  else
    ips ← h_filter c a;
    mret (Answered c (generateA currentQName (Ttl (IP_Generic a)) ips)).

Definition answer_AAAA z c (location currentQName : string) : M S outcome :=
  try aaaa ← st_AAAA (Name z) location catch server_failure c;
  try aname ← st_ANAME (Name z) location catch server_failure c;
  if IP_Empty aaaa && negb (ANAME_Empty aname) then
    '(ips, rcode, ttl) ← findANAME z c (ANAME_Location aname) dns.TypeAAAA;
    mret (Answered (set_Res rcode c) (generateAAAA currentQName ttl ips))
  else
    ips ← h_filter c aaaa;
    mret (Answered c (generateAAAA currentQName (Ttl (IP_Generic aaaa)) ips)).

(** The cases that read one record set and return its [Value]. *)
Definition answer_set {R} (read : M S (res StoreError R)) (value : R → list RR) c : M S outcome :=
  try r ← read catch server_failure c; mret (Answered c (value r)).

Definition answer_for z c (location q : string) : M S outcome :=
  let t := QType c in
  if t =? dns.TypeA then answer_A z c location q
  else if t =? dns.TypeAAAA then answer_AAAA z c location q
  else if t =? dns.TypeCNAME then
    answer_set (st_CNAME (Name z) location) (λ r, CNAME_Value Fqdn r q) c
  else if t =? dns.TypeTXT then answer_set (st_TXT (Name z) location) (λ r, TXT_Value r q) c
  else if t =? dns.TypeNS then answer_set (st_NS (Name z) location) (λ r, NS_Value Fqdn r q) c
  else if t =? dns.TypeMX then answer_set (st_MX (Name z) location) (λ r, MX_Value Fqdn r q) c
  else if t =? dns.TypeSRV then answer_set (st_SRV (Name z) location) (λ r, SRV_Value Fqdn r q) c
  else if t =? dns.TypeCAA then
    caa ← findCAA z q;
    mret (Answered c (match caa with Some caa => CAA_Set_Value caa q | None => [] end))
  else if t =? dns.TypePTR then answer_set (st_PTR (Name z) location) (λ r, PTR_Value Fqdn r q) c
  else if t =? dns.TypeTLSA then answer_set (st_TLSA (Name z) location) (λ r, TLSA_Value r q) c
  else if t =? dns.TypeSOA then mret (Answered c [SOA_Data (SOA (Config z))])
  else if t =? dns.TypeDNSKEY then
    mret (if DnsSec (Config z)
          then match ZSK z, KSK z with
               | Some zsk, Some ksk => Answered c [DnsKey zsk; DnsKey ksk]
               | _, _ => Panic
               end
          else Answered c [])
  else if t =? dns.TypeDS then mret (Answered c [])
  else mret (Break (set_Res dns.RcodeSuccess
                      (set_Authority [SOA_Data (SOA (Config z))] (set_Answer [] c)))).

(** After the switch. *)
Definition finish z (q : string) (r : outcome) : option (RequestContext T) :=
  match r with
  | Break c => Some c
  | Answered c answer =>
    let c := append_Answer answer c in
    Some (if nullb answer then
            let c := addNSec z q (QType c) c in
            if Res c =? dns.RcodeSuccess then append_Authority [SOA_Data (SOA (Config z))] c else c
          else c)
  | Panic => None
  end.

Definition final_answer z (cnameFlattening : bool) (location currentQName : string) c
  : M S (option (RequestContext T)) :=
  let q := if cnameFlattening then raw c else currentQName in
  r ← answer_for z c location q; mret (finish z q r).

(** ** The loop; [None] is a panic. *)
Fixpoint resolve_loop (fuel : nat) z (zoneName : string) (cnameFlattening : bool)
    (currentQName : string) c : M S (option (RequestContext T)) :=
  match fuel with
  | O => mret (Some (set_Res dns.RcodeServerFailure (set_Answer [] c)))
  | Datatypes.S fuel =>
    found ← st_FindZone currentQName;
    if decide (found ≠ zoneName) then
      let c := set_Res dns.RcodeSuccess c in
      mret (Some (if nullb (Answer c) then addNSec z (raw c) (QType c) c else c))
    else
      let '(location, m) := FindLocation z currentQName in
      match m with
      | NoMatch =>
        let c := set_Authority [SOA_Data (SOA (Config z))] c in
        mret (Some (addNSec z currentQName dns.TypeNone (set_Res dns.RcodeNameError c)))
      | EmptyNonterminalMatch =>
        let c := set_Authority [SOA_Data (SOA (Config z))] c in
        mret (Some (addNSec z currentQName dns.TypeNone (set_Res dns.RcodeSuccess c)))
      | CEMatch => Some <$> handle_CEMatch z zoneName location currentQName c
      | WildCardMatch | ExactMatch =>
        try cname ← st_CNAME (Name z) location catch mret (Some (set_Res dns.RcodeServerFailure c));
        if negb (CNAME_Empty cname) && negb (QType c =? dns.TypeCNAME) then
          if negb cnameFlattening then
            resolve_loop fuel z zoneName cnameFlattening (Fqdn (CNAME_Host cname))
              (append_Answer (CNAME_Value Fqdn cname currentQName) c)
          else
            target ← st_FindZone (CNAME_Host cname);
            if decide (target ≠ zoneName) then
              mret (Some (set_Res dns.RcodeSuccess
                            (append_Answer (CNAME_Value Fqdn cname (raw c)) c)))
            else resolve_loop fuel z zoneName cnameFlattening (Fqdn (CNAME_Host cname)) c
        else if decide (currentQName ≠ Name z) then
          try ns ← st_NS (Name z) location catch mret (Some (set_Res dns.RcodeServerFailure c));
          if negb (NS_Empty ns) then Some <$> handle_delegation z ns location currentQName c
          else final_answer z cnameFlattening location currentQName c
        else final_answer z cnameFlattening location currentQName c
      end
  end.

(** [loopCount] runs from 0 to 10. *)
Definition resolve z (zoneName : string) (cnameFlattening : bool) (q : string) c
  : M S (option (RequestContext T)) := resolve_loop 11 z zoneName cnameFlattening q c.

(** ** [HandleRequest] *)
Variable LogSourceLocation : bool.
Variable KeyTag : RR → Z.
Variable Sign : RR → string → list RR → option RR.
Variable map_order : gmap RRSetKey (list RR) → list (RRSetKey * list RR).

Definition locate_source c : RequestContext T :=
  if LogSourceLocation then
    set_source (match GetCountry geoip (SourceIp c) with Ok s => s | Err _ => empty_str end)
      (match GetASN geoip (SourceIp c) with Ok n => n | Err _ => 0 end) c
  else c.

(** The context that [response] logs and sends; [None] is a panic. *)
Definition HandleRequest c : M S (option (RequestContext T)) :=
  let c := locate_source c in
  zoneName ← st_FindZone (raw c);
  if decide (zoneName = empty_str) then mret (Some (set_Res dns.RcodeNotAuth c)) else
  oz ← st_GetZone zoneName;
  match oz with
  | None => mret (Some (set_Res dns.RcodeServerFailure c))
  | Some z =>
    let sec := Do c && Auth c && DnsSec (Config z) in
    let c := set_zone z (DomainId (Config z)) sec c in
    let cnameFlattening := sec || CnameFlattening (Config z) in
    oc ← resolve z zoneName cnameFlattening (raw c) c;
    mret (oc ≫= applyDnssec unicode_lower KeyTag Sign map_order z)
  end.

(** ** [handleRequest] of [cmd/resolver/resolver.go] *)
Definition handleRequest (can_handle : bool) c : M S (option Msg) :=
  if can_handle then r ← HandleRequest c; mret (Response <$> r)
  else mret (Some (Response (set_Res dns.RcodeRefused c))).
End Handler.
