(* ===== verification/HandlerFacts.v ===== *)
(** * What every answer of the handler satisfies

    Nothing is assumed of the store here: the record sets, the zone found and
    the errors of each read are arbitrary, may differ between two reads and may
    depend on a state that changes in between. The theorems state what the
    handler guarantees all the same: the response codes it can end with, the
    shape of the answer section (a CNAME chain followed by records of its last
    name), the content of a referral, and the denial of existence of a signed
    zone. *)
From S2P Require Import Prelude GoStrings Radix DnsTypes Zone Geo IpSelect Dnssec Store Request Handler.
Local Open Scope Z_scope.

(** ** Postconditions, step by step *)
Create HintDb post discriminated.

Lemma post_fmap {S A B} (m : M S A) (f : A → B) (P : B → Prop) :
  post m (λ a, P (f a)) → post (f <$> m) P.
Proof. intros Hm s. rewrite run_fmap. apply Hm. Qed.

Ltac post_step :=
  match goal with
  | |- post (mret _) _ => apply post_ret
  | |- post (_ <$> _) _ => apply post_fmap
  | |- post (match ?x with _ => _ end) _ => destruct x eqn:?
  | |- post (let _ := _ in _) _ => cbv zeta
  | |- post (_ ≫= _) _ => apply post_op; intros ?
  end.
Ltac posts := repeat post_step.

(** ** The contexts the handler builds *)
Section context.
Context {T : Type → Type}.
Implicit Types c : RequestContext T.

Lemma append_Answer_nil c : append_Answer [] c = c.
Proof. destruct c. unfold append_Answer, set_Answer, set_sections. simpl. by rewrite app_nil_r. Qed.
Lemma append_Additional_nil c : append_Additional [] c = c.
Proof. destruct c. unfold append_Additional, set_sections. simpl. by rewrite app_nil_r. Qed.
Lemma append_Additional_app l1 l2 c :
  append_Additional l2 (append_Additional l1 c) = append_Additional (l1 ++ l2) c.
Proof. unfold append_Additional, set_sections. simpl. by rewrite <-app_assoc. Qed.

(** [addNSec] only touches the response code and the authority section. *)
Lemma addNSec_cases (z : Zone T) name qtype c :
  (dnssec c = false ∧ addNSec z name qtype c = c)
  ∨ (dnssec c = true ∧ ∃ bitmap,
      addNSec z name qtype c
      = append_Authority [NSEC_rr name bitmap (SOA_MinTtl (SOA (Config z)))]
          (set_Res (if decide (name = Name z) then dns.RcodeSuccess
                    else if Res c =? dns.RcodeNameError then dns.RcodeSuccess else Res c) c)
      ∧ (bitmap = NsecBitmapNameError ∨ ∃ b, bitmap = FilterNsecBitmap qtype b)).
Proof.
  unfold addNSec. destruct (dnssec c) eqn:Hd; simpl; [right|left; done]. split; [done|].
  assert (Hc : set_Res (Res c) c = c) by by destruct c.
  repeat case_match; eexists; split; rewrite ?Hc; eauto.
Qed.

Lemma addNSec_Answer (z : Zone T) name qtype c : Answer (addNSec z name qtype c) = Answer c.
Proof. destruct (addNSec_cases z name qtype c) as [[_ ->]|(_ & b & -> & _)]; done. Qed.
Lemma addNSec_Additional (z : Zone T) name qtype c :
  Additional (addNSec z name qtype c) = Additional c.
Proof. destruct (addNSec_cases z name qtype c) as [[_ ->]|(_ & b & -> & _)]; done. Qed.
Lemma addNSec_dnssec (z : Zone T) name qtype c : dnssec (addNSec z name qtype c) = dnssec c.
Proof. destruct (addNSec_cases z name qtype c) as [[_ ->]|(_ & b & -> & _)]; done. Qed.
Lemma addNSec_QType (z : Zone T) name qtype c :
  Request.QType (addNSec z name qtype c) = Request.QType c.
Proof. destruct (addNSec_cases z name qtype c) as [[_ ->]|(_ & b & -> & _)]; done. Qed.

(** Response codes of [resolve]: with DNSSEC a missing name is answered with an
    NSEC record and no error. *)
Definition rcode_ok c : Prop :=
  Res c = dns.RcodeSuccess ∨ Res c = dns.RcodeServerFailure
  ∨ Res c = dns.RcodeNameError ∧ dnssec c = false.

Lemma rcode_ok_success c : Res c = dns.RcodeSuccess → rcode_ok c.
Proof. by left. Qed.
Lemma rcode_ok_servfail c : Res c = dns.RcodeServerFailure → rcode_ok c.
Proof. by right; left. Qed.
Lemma addNSec_rcode (z : Zone T) name qtype c :
  Res c = dns.RcodeNameError ∨ rcode_ok c → rcode_ok (addNSec z name qtype c).
Proof.
  intros Hc.
  destruct (addNSec_cases z name qtype c) as [[Hd ->]|(Hd & b & -> & _)].
  - destruct Hc as [Hc|]; [|done]. right; right. done.
  - unfold rcode_ok in *. simpl. case_decide; [by left|].
    destruct (Z.eqb_spec (Res c) dns.RcodeNameError); [by left|]. naive_solver.
Qed.
End context.
#[export] Hint Rewrite @addNSec_Answer @addNSec_Additional @addNSec_dnssec @addNSec_QType : z42.
#[export] Hint Resolve rcode_ok_success rcode_ok_servfail addNSec_rcode : post.

Section facts.
Context {T : Type → Type} `{!IRadix T} {S : Type} `{!DataStore T S, !Outside S}.
Context {F : Type} `{!Float64 F}.
Variable unicode_lower : string → string.
Variable Fqdn : string → string.
Variable geoip : GeoIp F.
Implicit Types (c : RequestContext T) (z : Zone T).
Abbreviation raw := (raw_name unicode_lower).

(** ** Generated records *)
Lemma generate_owner mk t name ttl ips :
  Forall (λ r, rr_name r = name ∧ rr_type r = t) (generate mk t name ttl ips).
Proof. unfold generate. by apply Forall_fmap, Forall_true. Qed.

(** [r] is an address record of one of the given hosts. *)
Definition glue_record (hosts : list string) (r : RR) : Prop :=
  rr_name r ∈ hosts ∧ (rr_type r = dns.TypeA ∨ rr_type r = dns.TypeAAAA).

(** ** Glue *)
Definition adds_glue (hosts : list string) c c' : Prop :=
  ∃ l, c' = append_Additional l c ∧ Forall (glue_record hosts) l.

Lemma adds_glue_refl hosts c : adds_glue hosts c c.
Proof. exists []. by rewrite append_Additional_nil. Qed.
Lemma adds_glue_trans hosts c1 c2 c3 :
  adds_glue hosts c1 c2 → adds_glue hosts c2 c3 → adds_glue hosts c1 c3.
Proof.
  intros (l1 & -> & ?) (l2 & -> & ?). exists (l1 ++ l2).
  rewrite append_Additional_app, Forall_app. done.
Qed.
Lemma adds_glue_generate mk t hosts host ttl ips c :
  host ∈ hosts → t = dns.TypeA ∨ t = dns.TypeAAAA →
  adds_glue hosts c (append_Additional (generate mk t host ttl ips) c).
Proof.
  intros Hh Ht. eexists. split; [done|].
  eapply Forall_impl; [apply generate_owner|]. intros r [E1 E2].
  unfold glue_record. by rewrite E1, E2.
Qed.
Hint Resolve adds_glue_refl : post.

Lemma glue_A_post z c hosts host l :
  host ∈ hosts → post (S:=S) (glue_A geoip z c host l) (adds_glue hosts c).
Proof.
  intros Hh. unfold glue_A. posts; [|by auto with post].
  apply adds_glue_generate; auto.
Qed.
Lemma glue_AAAA_post z c hosts host l :
  host ∈ hosts → post (S:=S) (glue_AAAA geoip z c host l) (adds_glue hosts c).
Proof.
  intros Hh. unfold glue_AAAA. posts; [|by auto with post].
  apply adds_glue_generate; auto.
Qed.

Lemma add_glue_post z hosts0 hosts c :
  hosts ⊆ hosts0 → post (S:=S) (add_glue geoip z hosts c) (adds_glue hosts0 c).
Proof.
  revert c. induction hosts as [|h hosts IH]; intros c Hsub; simpl; [posts; auto with post|].
  destruct (FindLocation z h) as [l m]. case_decide; [apply IH; set_solver|].
  eapply post_bind; [apply (glue_A_post z c hosts0); set_solver|]. intros c1 H1.
  eapply post_bind; [apply (glue_AAAA_post z c1 hosts0); set_solver|]. intros c2 H2.
  eapply post_mono; [apply IH; set_solver|]. intros c3 H3.
  by eapply adds_glue_trans; [|eapply adds_glue_trans].
Qed.

(** What [add_glue] keeps, as the callers use it. *)
Lemma add_glue_bind z hosts c (P : RequestContext T → Prop) :
  (∀ l, Forall (glue_record hosts) l → P (set_Res dns.RcodeSuccess (append_Additional l c))) →
  post (S:=S) (c ← add_glue geoip z hosts c; mret (set_Res dns.RcodeSuccess c)) P.
Proof.
  intros HP. eapply post_bind; [by apply (add_glue_post z hosts)|].
  intros c' (l & -> & Hl). posts. by apply HP.
Qed.

(** ** Upstream addresses and ANAME targets *)
Definition aname_rcode (r : list IP * Z * Z) : Prop :=
  r.1.2 = dns.RcodeSuccess ∨ r.1.2 = dns.RcodeServerFailure.

Lemma findANAME_post fuel z c q t :
  post (S:=S) (findANAME_loop geoip fuel z c q t) aname_rcode.
Proof.
  revert q. induction fuel as [|fuel IH]; intros q; csimpl; [posts; by right|].
  posts; try apply IH; try (by right); left; simpl in *; try done.
  by apply Z.eqb_eq.
Qed.

(** ** Response codes *)
Definition ok_outcome (o : outcome (T:=T)) : Prop :=
  match o with Break c | Answered c _ => rcode_ok c | Panic => True end.
Definition ok_result (oc : option (RequestContext T)) : Prop := ∀ c, oc = Some c → rcode_ok c.

Lemma rcode_ok_set r c :
  r = dns.RcodeSuccess ∨ r = dns.RcodeServerFailure → rcode_ok (set_Res r c).
Proof. unfold rcode_ok. simpl. naive_solver. Qed.
Hint Resolve rcode_ok_set : post.

Lemma findANAME_bind {B} z c q t (f : list IP * Z * Z → M S B) (P : B → Prop) :
  (∀ ips r ttl, r = dns.RcodeSuccess ∨ r = dns.RcodeServerFailure → post (f (ips, r, ttl)) P) →
  post (findANAME geoip z c q t ≫= f) P.
Proof.
  intros Hf. eapply post_bind; [apply findANAME_post|]. intros [[ips r] ttl] Hr. by apply Hf.
Qed.

Ltac handler_posts := repeat first
  [ apply findANAME_bind; intros ? ? ? ?
  | apply add_glue_bind; intros ? ?
  | post_step ].

Lemma answer_for_rcode z c l q :
  Res c = dns.RcodeSuccess → post (S:=S) (answer_for Fqdn geoip z c l q) ok_outcome.
Proof.
  intros Hc. unfold answer_for, answer_A, answer_AAAA, answer_set, server_failure.
  handler_posts; repeat case_match; simpl; auto with post.
Qed.

Lemma finish_rcode z q o : ok_outcome o → ok_result (finish z q o).
Proof.
  intros Ho c. destruct o as [c'|c' [|r a]|]; simpl; intros; simplify_eq; try done.
  assert (rcode_ok (addNSec z q (QType (append_Answer [] c')) (append_Answer [] c')))
    by (apply addNSec_rcode; by right).
  by case_match.
Qed.

Lemma finish_nodata z q c :
  Res c = dns.RcodeSuccess →
  finish z q (Answered c [])
  = Some (append_Authority [SOA_Data (SOA (Config z))] (addNSec z q (QType c) c)).
Proof.
  intros Hr. unfold finish. rewrite append_Answer_nil. cbn [nullb].
  assert (Res (addNSec z q (QType c) c) = dns.RcodeSuccess) as ->; [|done].
  destruct (addNSec_cases z q (QType c) c) as [[_ ->]|(_ & b & -> & _)]; [done|].
  simpl. rewrite Hr. by case_decide.
Qed.

Lemma ok_Some c : rcode_ok c → ok_result (Some c).
Proof. intros Hc c' [= <-]. done. Qed.
Hint Resolve ok_Some : post.

Lemma final_answer_rcode z fl l q c :
  Res c = dns.RcodeSuccess →
  post (S:=S) (final_answer unicode_lower Fqdn geoip z fl l q c) ok_result.
Proof.
  intros Hc. unfold final_answer.
  eapply post_bind; [by apply answer_for_rcode|]. intros o Ho. handler_posts. by apply finish_rcode.
Qed.

Lemma handle_CEMatch_rcode z zn l q c :
  post (S:=S) (handle_CEMatch Fqdn geoip z zn l q c) rcode_ok.
Proof. unfold handle_CEMatch. handler_posts; auto with post. Qed.

Lemma handle_delegation_rcode z ns l q c :
  post (S:=S) (handle_delegation Fqdn geoip z ns l q c) rcode_ok.
Proof. unfold handle_delegation. handler_posts; auto with post. Qed.

Lemma resolve_loop_rcode fuel z zn fl q c :
  Res c = dns.RcodeSuccess →
  post (S:=S) (resolve_loop unicode_lower Fqdn geoip fuel z zn fl q c) ok_result.
Proof.
  revert q c. induction fuel as [|fuel IH]; intros q c Hc; csimpl; [handler_posts; auto with post|].
  handler_posts; eauto using post_mono, handle_CEMatch_rcode, handle_delegation_rcode,
    final_answer_rcode, ok_Some with post.
  all: try (apply IH; done). apply ok_Some. case_match; auto with post.
Qed.

Lemma applyDnssec_Some KeyTag Sign mo z c c' :
  applyDnssec unicode_lower KeyTag Sign mo z c = Some c' →
  Res c' = Res c ∧ dnssec c' = dnssec c ∧ Additional c' = Additional c.
Proof. unfold applyDnssec. intros. repeat case_match; by simplify_eq. Qed.

Lemma HandleRequest_rcodes log KeyTag Sign mo c :
  Res c = dns.RcodeSuccess →
  post (S:=S) (HandleRequest unicode_lower Fqdn geoip log KeyTag Sign mo c)
    (λ oc, ∀ c', oc = Some c' → Res c' = dns.RcodeNotAuth ∨ rcode_ok c').
Proof.
  intros Hc. unfold HandleRequest.
  apply post_op. intros zn. post_step; [posts; intros c' [= <-]; by left|].
  apply post_op. intros [z|]; [|posts; intros c' [= <-]; right; auto with post].
  eapply post_bind; [by apply resolve_loop_rcode; unfold locate_source; destruct log|].
  intros oc Hoc. posts. intros c' Hc'. right.
  apply bind_Some in Hc' as (c2 & -> & (ER & ED & _)%applyDnssec_Some).
  pose proof (Hoc _ eq_refl) as H2. unfold rcode_ok in *. by rewrite ER, ED.
Qed.

(** Whatever the store answers, a request ends with NOTAUTH, NOERROR,
    SERVFAIL or NXDOMAIN, and a request answered with DNSSEC never ends with
    NXDOMAIN: a missing name is denied by an NSEC record instead. *)
Theorem HandleRequest_rcode log KeyTag Sign mo c :
  Res c = dns.RcodeSuccess →
  post (S:=S) (HandleRequest unicode_lower Fqdn geoip log KeyTag Sign mo c)
    (λ oc, ∀ c', oc = Some c' → Res c' = dns.RcodeNotAuth ∨ rcode_ok c').
Proof. apply HandleRequest_rcodes. Qed.

(** ** The answer section *)

(** A chain of CNAME records: each is owned by the target of the one before. *)
Inductive cname_chain : string → list RR → string → Prop :=
| chain_nil q : cname_chain q [] q
| chain_cons q ttl target rrs last :
    cname_chain target rrs last →
    cname_chain q ({| Header := inet q dns.TypeCNAME ttl; Data := RD_CNAME target |} :: rrs) last.

(** A record of the name [q], or one of the zone's own SOA and DNSKEY records. *)
Definition owned z (q : string) (r : RR) : Prop :=
  rr_name r = q ∨ r = SOA_Data (SOA (Config z))
  ∨ ∃ k, (ZSK z = Some k ∨ KSK z = Some k) ∧ r = DnsKey k.
Definition at_name (q : string) (r : RR) : Prop := rr_name r = q.

Lemma CNAME_Value_owner r q : Forall (at_name q) (CNAME_Value Fqdn r q).
Proof. unfold CNAME_Value. by case_match; repeat constructor. Qed.
Lemma PTR_Value_owner r q : Forall (at_name q) (PTR_Value Fqdn r q).
Proof. unfold PTR_Value. by case_match; repeat constructor. Qed.
Lemma TXT_Value_owner r q : Forall (at_name q) (TXT_Value r q).
Proof. unfold TXT_Value. induction (TXT_Data r); simpl; [done|]. by case_match; try constructor. Qed.
Lemma NS_Value_owner r q : Forall (at_name q) (NS_Value Fqdn r q).
Proof. unfold NS_Value. induction (NS_Data r); simpl; [done|]. by case_match; try constructor. Qed.
Lemma MX_Value_owner r q : Forall (at_name q) (MX_Value Fqdn r q).
Proof. unfold MX_Value. induction (MX_Data r); simpl; [done|]. by case_match; try constructor. Qed.
Lemma SRV_Value_owner r q : Forall (at_name q) (SRV_Value Fqdn r q).
Proof. unfold SRV_Value. induction (SRV_Data r); simpl; [done|]. by case_match; try constructor. Qed.
Lemma CAA_Value_owner r q : Forall (at_name q) (CAA_Set_Value r q).
Proof. by apply Forall_fmap, Forall_true. Qed.
Lemma TLSA_Value_owner r q : Forall (at_name q) (TLSA_Value r q).
Proof. by apply Forall_fmap, Forall_true. Qed.
Lemma DS_Value_owner r q : Forall (at_name q) (DS_Value r q).
Proof. by apply Forall_fmap, Forall_true. Qed.
Lemma generate_at_name mk t name ttl ips : Forall (at_name name) (generate mk t name ttl ips).
Proof. by apply Forall_fmap, Forall_true. Qed.
Lemma generateA_at_name name ttl ips : Forall (at_name name) (generateA name ttl ips).
Proof. apply generate_at_name. Qed.
Lemma generateAAAA_at_name name ttl ips : Forall (at_name name) (generateAAAA name ttl ips).
Proof. apply generate_at_name. Qed.
Lemma at_name_owned z q l : Forall (at_name q) l → Forall (owned z q) l.
Proof. intros Hl. eapply Forall_impl; [exact Hl|]. by left. Qed.
Hint Resolve CNAME_Value_owner PTR_Value_owner TXT_Value_owner NS_Value_owner MX_Value_owner
  SRV_Value_owner CAA_Value_owner TLSA_Value_owner DS_Value_owner generateA_at_name
  generateAAAA_at_name at_name_owned Forall_nil_2 : post.

Definition outcome_answer z q c (o : outcome (T:=T)) : Prop :=
  match o with
  | Break c' => Answer c' = Answer c ∨ Answer c' = []
  | Answered c' answer => Answer c' = Answer c ∧ Forall (owned z q) answer
  | Panic => True
  end.

Lemma answer_for_answer z c l q :
  post (S:=S) (answer_for Fqdn geoip z c l q) (outcome_answer z q c).
Proof.
  unfold answer_for, answer_A, answer_AAAA, answer_set, server_failure.
  handler_posts; repeat case_match; simpl; split_and?; auto with post.
  - constructor; [|done]. right; by left.
  - repeat apply Forall_cons_2; [..|done]; right; right; eauto.
Qed.

Definition extends_answer (P : list RR → Prop) c c' : Prop :=
  Answer c' = [] ∨ ∃ l, Answer c' = Answer c ++ l ∧ P l.

Lemma extends_nil (P : list RR → Prop) c c' :
  Answer c' = Answer c → P [] → extends_answer P c c'.
Proof. intros H HP. right. exists []. by rewrite app_nil_r. Qed.

Lemma finish_answer z q c o c' :
  outcome_answer z q c o → finish z q o = Some c' →
  extends_answer (Forall (owned z q)) c c'.
Proof.
  destruct o as [c1|c1 a|]; simpl; intros Ho ?; simplify_eq; [|destruct Ho as [E Ha]].
  - destruct Ho; [by apply extends_nil|by left].
  - right. exists a. split; [|done].
    destruct a; simpl; [|by rewrite E].
    case_match; simpl; autorewrite with z42; simpl; by rewrite E.
Qed.

Lemma final_answer_answer z fl l q c :
  post (S:=S) (final_answer unicode_lower Fqdn geoip z fl l q c)
    (λ oc, ∀ c', oc = Some c' →
       extends_answer (Forall (owned z (if fl then raw c else q))) c c').
Proof.
  unfold final_answer. eapply post_bind; [apply answer_for_answer|].
  intros o Ho. posts. intros c' Hc'. by eapply finish_answer.
Qed.

Lemma handle_CEMatch_answer z zn l q c :
  post (S:=S) (handle_CEMatch Fqdn geoip z zn l q c) (λ c', Answer c' = Answer c).
Proof.
  unfold handle_CEMatch. handler_posts; simpl; repeat case_match; simpl; by autorewrite with z42.
Qed.

Lemma handle_delegation_answer z ns l q c :
  post (S:=S) (handle_delegation Fqdn geoip z ns l q c) (λ c',
    Answer c' = Answer c
    ∨ QType c = dns.TypeDS ∧ ∃ l, Answer c' = Answer c ++ l ∧ Forall (at_name q) l).
Proof.
  unfold handle_delegation. handler_posts; simpl; repeat case_match; simpl;
    autorewrite with z42; auto with post.
  right. apply andb_true_iff in Heqb as [_ Hq%Z.eqb_eq]. eauto with post.
Qed.

Lemma CNAME_Value_chain cname q rrs last :
  CNAME_Empty cname = false → cname_chain (Fqdn (CNAME_Host cname)) rrs last →
  cname_chain q (CNAME_Value Fqdn cname q ++ rrs) last.
Proof. unfold CNAME_Empty, CNAME_Value. intros ->. apply chain_cons. Qed.

(** What a resolution from the name [q] adds to the answer. *)
Definition chain_answer z (q : string) (rrs : list RR) : Prop :=
  ∃ chain last final, rrs = chain ++ final ∧ cname_chain q chain last
    ∧ Forall (owned z last) final.

Lemma chain_answer_owned z q rrs : Forall (owned z q) rrs → chain_answer z q rrs.
Proof. intros H. exists [], q, rrs. split_and!; [done|constructor|done]. Qed.
Lemma chain_answer_nil z q : chain_answer z q [].
Proof. apply chain_answer_owned. constructor. Qed.
Lemma chain_answer_cname z q cname rrs :
  CNAME_Empty cname = false → chain_answer z (Fqdn (CNAME_Host cname)) rrs →
  chain_answer z q (CNAME_Value Fqdn cname q ++ rrs).
Proof.
  intros He (ch & last & final & -> & Hc & Hf).
  exists (CNAME_Value Fqdn cname q ++ ch), last, final.
  split_and!; [by rewrite app_assoc|by apply CNAME_Value_chain|done].
Qed.
Hint Resolve chain_answer_owned chain_answer_nil : post.

Lemma extends_mono (P Q : list RR → Prop) c c' :
  (∀ l, P l → Q l) → extends_answer P c c' → extends_answer Q c c'.
Proof. unfold extends_answer. naive_solver. Qed.

Definition ends_with (P : RequestContext T → Prop) (oc : option (RequestContext T)) : Prop :=
  ∀ c', oc = Some c' → P c'.

(** The parts of the loop that do not loop, in a form that fits both modes. *)
Lemma handle_CEMatch_extends (P : list RR → Prop) z zn l q c :
  P [] → post (S:=S) (handle_CEMatch Fqdn geoip z zn l q c)
           (λ c', ends_with (extends_answer P c) (Some c')).
Proof.
  intros HP. eapply post_mono; [apply handle_CEMatch_answer|]. intros c1 Hc1 c' [= <-].
  by apply extends_nil.
Qed.
Lemma handle_delegation_extends (P : list RR → Prop) z ns l q c :
  P [] → (QType c = dns.TypeDS → ∀ l, Forall (at_name q) l → P l) →
  post (S:=S) (handle_delegation Fqdn geoip z ns l q c)
    (λ c', ends_with (extends_answer P c) (Some c')).
Proof.
  intros H0 HP. eapply post_mono; [apply handle_delegation_answer|]. intros c1 Hc1 c' [= <-].
  destruct Hc1 as [?|(? & a & E & Ha)]; [by apply extends_nil|].
  right. exists a. split; [done|]. by apply HP.
Qed.
Lemma addNSec_extends (P : list RR → Prop) z name t c c1 :
  P [] → Answer c1 = Answer c → ends_with (extends_answer P c) (Some (addNSec z name t c1)).
Proof. intros HP E c' [= <-]. apply extends_nil; [|done]. by autorewrite with z42. Qed.
Lemma same_extends (P : list RR → Prop) c c1 :
  P [] → Answer c1 = Answer c → ends_with (extends_answer P c) (Some c1).
Proof. intros HP E c' [= <-]. by apply extends_nil. Qed.
Lemma out_of_zone_extends (P : list RR → Prop) z c :
  P [] →
  ends_with (extends_answer P c)
    (Some (if nullb (Answer c) then addNSec z (raw (set_Res dns.RcodeSuccess c)) (QType c)
                                      (set_Res dns.RcodeSuccess c)
           else set_Res dns.RcodeSuccess c)).
Proof. intros HP. case_match; [by apply addNSec_extends|by apply same_extends]. Qed.
Lemma no_answer_extends (P : list RR → Prop) c c1 :
  Answer c1 = [] → ends_with (extends_answer P c) (Some c1).
Proof. intros E c' [= <-]. by left. Qed.
Hint Resolve handle_CEMatch_extends handle_delegation_extends addNSec_extends same_extends
  out_of_zone_extends : post.

Lemma resolve_loop_chain fuel z zn q c :
  post (S:=S) (resolve_loop unicode_lower Fqdn geoip fuel z zn false q c)
    (ends_with (extends_answer (chain_answer z q) c)).
Proof.
  revert q c. induction fuel as [|fuel IH]; intros q c; csimpl.
  { posts. by apply no_answer_extends. }
  assert (Hf : ∀ l, post (S:=S) (final_answer unicode_lower Fqdn geoip z false l q c)
            (ends_with (extends_answer (chain_answer z q) c))).
  { intros l. eapply post_mono; [apply final_answer_answer|]. intros oc Hoc c' Hc'.
    eapply extends_mono; [apply chain_answer_owned|]. by apply Hoc. }
  assert (Hr : ∀ cname, CNAME_Empty cname = false →
    post (S:=S) (resolve_loop unicode_lower Fqdn geoip fuel z zn false
                   (Fqdn (CNAME_Host cname)) (append_Answer (CNAME_Value Fqdn cname q) c))
      (ends_with (extends_answer (chain_answer z q) c))).
  { intros cname He. eapply post_mono; [apply IH|]. intros oc Hoc c' Hc'.
    destruct (Hoc _ Hc') as [?|(l & E & Hl)]; [by left|right].
    eexists. split; [rewrite E; simpl; by rewrite <-app_assoc|]. by apply chain_answer_cname. }
  posts; auto with post; apply Hr; by destruct (CNAME_Empty _).
Qed.

(** C11. Without CNAME flattening, the answer to [q] is a chain of CNAME
    records that starts at [q], followed by records of the last name of the
    chain (or the zone's SOA or DNSKEY records); in particular an answer never
    has a record that the chain does not lead to. *)
Theorem resolve_answer_chain z zn q c :
  Answer c = [] →
  post (S:=S) (resolve unicode_lower Fqdn geoip z zn false q c)
    (ends_with (λ c', chain_answer z q (Answer c'))).
Proof.
  intros Hc. eapply post_mono; [apply resolve_loop_chain|]. intros oc Hoc c' Hc'.
  destruct (Hoc _ Hc') as [->|(l & -> & Hl)]; [apply chain_answer_nil|by rewrite Hc].
Qed.

Lemma resolve_loop_flat fuel z zn q c :
  QType c ≠ dns.TypeDS →
  post (S:=S) (resolve_loop unicode_lower Fqdn geoip fuel z zn true q c)
    (ends_with (extends_answer (Forall (owned z (raw c))) c)).
Proof.
  intros Hq. revert q. induction fuel as [|fuel IH]; intros q; csimpl.
  { posts. by apply no_answer_extends. }
  posts; auto with post; try apply (final_answer_answer z true);
    try (intros c' [= <-]; right; eexists; split; [done|auto with post]).
  all: by apply handle_delegation_extends; auto with post.
Qed.

(** With CNAME flattening (always on for a signed answer), every record of the
    answer to a query that is not for DS is owned by the name of the query,
    or is the zone's SOA or DNSKEY. *)
Theorem resolve_answer_flat z zn q c :
  Answer c = [] → QType c ≠ dns.TypeDS →
  post (S:=S) (resolve unicode_lower Fqdn geoip z zn true q c)
    (ends_with (λ c', Forall (owned z (raw c)) (Answer c'))).
Proof.
  intros Hc Hq. eapply post_mono; [by apply resolve_loop_flat|]. intros oc Hoc c' Hc'.
  destruct (Hoc _ Hc') as [->|(l & -> & Hl)]; [constructor|by rewrite Hc].
Qed.

(** ** The frame: only the response fields change *)
Definition framed c c' : Prop :=
  c' = set_Res (Res c') (set_sections (Answer c') (Authority c') (Additional c') c).

Lemma framed_refl c : framed c c.
Proof. by destruct c. Qed.
Lemma framed_trans c1 c2 c3 : framed c1 c2 → framed c2 c3 → framed c1 c3.
Proof. unfold framed. intros E1 E2. rewrite E2 at 1. by rewrite E1. Qed.
Lemma framed_set_Res r c c' : framed c c' → framed c (set_Res r c').
Proof. unfold framed. intros E. by rewrite E. Qed.
Lemma framed_set_sections an au ad c c' : framed c c' → framed c (set_sections an au ad c').
Proof. unfold framed. intros E. by rewrite E. Qed.
Lemma framed_addNSec z name t c c' : framed c c' → framed c (addNSec z name t c').
Proof.
  intros. destruct (addNSec_cases z name t c') as [[_ ->]|(_ & b & -> & _)]; [done|].
  by apply framed_set_sections, framed_set_Res.
Qed.
Lemma framed_append_Answer l c c' : framed c c' → framed c (append_Answer l c').
Proof. apply framed_set_sections. Qed.
Lemma framed_append_Authority l c c' : framed c c' → framed c (append_Authority l c').
Proof. apply framed_set_sections. Qed.
Lemma framed_append_Additional l c c' : framed c c' → framed c (append_Additional l c').
Proof. apply framed_set_sections. Qed.
Lemma framed_set_Answer l c c' : framed c c' → framed c (set_Answer l c').
Proof. apply framed_set_sections. Qed.
Lemma framed_set_Authority l c c' : framed c c' → framed c (set_Authority l c').
Proof. apply framed_set_sections. Qed.
Hint Resolve framed_refl framed_set_Res framed_set_sections framed_addNSec framed_append_Answer
  framed_append_Authority framed_append_Additional framed_set_Answer framed_set_Authority : post.
Lemma framed_dnssec c c' : framed c c' → dnssec c' = dnssec c.
Proof. unfold framed. intros E. by rewrite E. Qed.

Lemma handle_CEMatch_frame z zn l q c :
  post (S:=S) (handle_CEMatch Fqdn geoip z zn l q c) (framed c).
Proof. unfold handle_CEMatch. handler_posts; repeat case_match; auto 10 with post. Qed.
Lemma handle_delegation_frame z ns l q c :
  post (S:=S) (handle_delegation Fqdn geoip z ns l q c) (framed c).
Proof. unfold handle_delegation. handler_posts; repeat case_match; auto 10 with post. Qed.

(** The zones of [GetZone] have their keys when DNSSEC is on. *)
Definition keys_loaded z : Prop :=
  DnsSec (Config z) = true → is_Some (ZSK z) ∧ is_Some (KSK z).

Definition framed_outcome z c (o : outcome (T:=T)) : Prop :=
  match o with
  | Break c' | Answered c' _ => framed c c'
  | Panic => ¬ keys_loaded z
  end.
Definition framed_result z c (oc : option (RequestContext T)) : Prop :=
  match oc with Some c' => framed c c' | None => ¬ keys_loaded z end.

Lemma answer_for_frame z c l q :
  post (S:=S) (answer_for Fqdn geoip z c l q) (framed_outcome z c).
Proof.
  unfold answer_for, answer_A, answer_AAAA, answer_set, server_failure.
  handler_posts; repeat case_match; simpl; auto with post; intros Hk.
  all: destruct Hk as [[? ?] [? ?]]; congruence.
Qed.
Lemma final_answer_frame z fl l q c :
  post (S:=S) (final_answer unicode_lower Fqdn geoip z fl l q c) (framed_result z c).
Proof.
  unfold final_answer. eapply post_bind; [apply answer_for_frame|].
  intros [c'|c' a|] Ho; posts; simpl in *; repeat case_match; auto with post.
Qed.

Lemma resolve_loop_frame fuel z zn fl q c :
  post (S:=S) (resolve_loop unicode_lower Fqdn geoip fuel z zn fl q c) (framed_result z c).
Proof.
  revert q c. induction fuel as [|fuel IH]; intros q c; csimpl; [posts; simpl; auto with post|].
  assert (Ht : ∀ q c2, framed c c2 → post (S:=S)
            (resolve_loop unicode_lower Fqdn geoip fuel z zn fl q c2) (framed_result z c)).
  { intros q2 c2 H2. eapply post_mono; [apply IH|]. intros [c3|]; simpl; [|done].
    by apply framed_trans. }
  posts; try apply final_answer_frame; try apply handle_CEMatch_frame;
    try apply handle_delegation_frame; try (apply Ht); simpl; repeat case_match;
    auto 10 with post.
Qed.

Lemma applyDnssec_total KeyTag Sign mo z c :
  (∀ m, mo m ≡ₚ map_to_list m) → (dnssec c = true → is_Some (ZSK z)) →
  is_Some (applyDnssec unicode_lower KeyTag Sign mo z c).
Proof.
  intros Hmo Hk. unfold applyDnssec. destruct (dnssec c); [|done].
  destruct Hk as [zsk Hk]; [done|]. by rewrite !(SignResponse_sets _ _ _ _ zsk).
Qed.


(** ** Referrals *)

(** The response [c'] refers the query [c] to the name servers [ns] of the child
    zone [q]; [sec] are its DS records or the NSEC that denies them. *)
Definition referral (ns : NS_RRSet) (q : string) c c' : Prop :=
  ∃ sec glue,
    Res c' = dns.RcodeSuccess ∧ Answer c' = Answer c
    ∧ Authority c' ≡ₚ Authority c ++ sec ++ NS_Value Fqdn ns q
    ∧ Additional c' = Additional c ++ glue
    ∧ Forall (λ r, rr_name r = q ∧ (rr_type r = dns.TypeDS ∨ rr_type r = dns.TypeNSEC)) sec
    ∧ (dnssec c = true → sec ≠ [])
    ∧ Forall (glue_record (NS_Data ns)) glue.

Lemma DS_Value_type ds q :
  Forall (λ r, rr_name r = q ∧ (rr_type r = dns.TypeDS ∨ rr_type r = dns.TypeNSEC)) (DS_Value ds q).
Proof. apply Forall_fmap, Forall_true. intros d. by split; [|left]. Qed.
Lemma DS_Value_nonempty ds q : DS_Empty ds = false → DS_Value ds q ≠ [].
Proof. unfold DS_Empty, DS_Value. by destruct (DS_Data ds). Qed.
Lemma DS_Value_empty ds q : DS_Empty ds = true → DS_Value ds q = [].
Proof. unfold DS_Empty, DS_Value. by destruct (DS_Data ds). Qed.

(** The authority records that [addNSec] adds for a missing DS set. *)
Lemma addNSec_DS z q c :
  ∃ sec, Authority (addNSec z q dns.TypeDS c) = Authority c ++ sec
    ∧ Forall (λ r, rr_name r = q ∧ (rr_type r = dns.TypeDS ∨ rr_type r = dns.TypeNSEC)) sec
    ∧ (dnssec c = true → sec ≠ []).
Proof.
  destruct (addNSec_cases z q dns.TypeDS c) as [[Hd ->]|(Hd & b & -> & _)].
  - exists []. rewrite app_nil_r, Hd. by split_and!.
  - eexists. split; [done|]. split; [|done]. apply Forall_cons_2; [|done]. by split; [|right].
Qed.


(** A name below a delegation point gets the same referral, for the closest
    enclosing location; when that location is no delegation the name does not
    exist, and a failing read is SERVFAIL. *)
Theorem handle_CEMatch_referral z zn l q c :
  post (S:=S) (handle_CEMatch Fqdn geoip z zn l q c) (λ c',
    Res c' = dns.RcodeServerFailure
    ∨ (∃ ns, NS_Empty ns = false ∧ referral ns (l +:+ String dot zn) c c')
    ∨ c' = addNSec z q (QType c) (set_Res dns.RcodeNameError
             (set_Authority [SOA_Data (SOA (Config z))] c))).
Proof.
  unfold handle_CEMatch. set (cut := l +:+ String dot zn).
  handler_posts; try (by left); [right; left|by right; right].
  exists a0. split; [by destruct (NS_Empty a0)|].
  destruct (DS_Empty a2) eqn:He.
  - destruct (addNSec_DS z cut (append_Authority (NS_Value Fqdn a0 cut) c)) as (sec & E & Hs & Hn).
    exists sec. eexists. split_and!; try done; simpl; autorewrite with z42; try done.
    rewrite E, DS_Value_empty, app_nil_r by done. simpl. rewrite <-app_assoc.
    by apply Permutation_app_head, Permutation_app_comm.
  - exists (DS_Value a2 cut). eexists. split_and!; try done; [|apply DS_Value_type|].
    + simpl. rewrite <-app_assoc. by apply Permutation_app_head, Permutation_app_comm.
    + by intros _; apply DS_Value_nonempty.
Qed.

(** ** Denial of existence *)

(** The query types the handler has an answer for. *)
Definition supported_types : list Z :=
  [dns.TypeA; dns.TypeAAAA; dns.TypeCNAME; dns.TypeTXT; dns.TypeNS; dns.TypeMX; dns.TypeSRV;
   dns.TypeCAA; dns.TypePTR; dns.TypeTLSA; dns.TypeSOA; dns.TypeDNSKEY; dns.TypeDS].

Definition denied z (name : string) (t : Z) c : Prop :=
  ∃ bitmap, NSEC_rr name bitmap (SOA_MinTtl (SOA (Config z))) ∈ Authority c ∧ t ∉ bitmap.

Lemma addNSec_denied z name t c :
  dnssec c = true → Res c ≠ dns.RcodeNameError → denied z name t (addNSec z name t c).
Proof.
  intros Hd Hr. unfold addNSec, denied. rewrite Hd, (proj2 (Z.eqb_neq _ _) Hr). simpl.
  repeat case_match; eexists; (split; [apply elem_of_app; right; by constructor|]);
    unfold FilterNsecBitmap; rewrite list_elem_of_filter; naive_solver.
Qed.

Definition answered_or_failed c (o : outcome (T:=T)) : Prop :=
  match o with
  | Break c' => Res c' = dns.RcodeServerFailure
  | Answered c' a => framed c c' ∧ Answer c' = Answer c ∧ Res c' ≠ dns.RcodeNameError
  | Panic => True
  end.
Lemma answer_for_supported z c l q :
  Res c = dns.RcodeSuccess → QType c ∈ supported_types →
  post (S:=S) (answer_for Fqdn geoip z c l q) (answered_or_failed c).
Proof.
  intros Hc Hs. unfold answer_for, answer_A, answer_AAAA, answer_set, server_failure.
  handler_posts; repeat case_match; simpl; split_and?; auto with post; try by rewrite Hc.
  - destruct H as [-> | ->]; done.
  - destruct H as [-> | ->]; done.
  - unfold supported_types in Hs. rewrite !elem_of_cons in Hs.
    repeat match goal with H : (_ =? _) = false |- _ => apply Z.eqb_neq in H end.
    by destruct Hs as [|[|[|[|[|[|[|[|[|[|[|[|[|?%not_elem_of_nil]]]]]]]]]]]]].
Qed.

End facts.
