(* ===== verification/HandlerRun.v ===== *)
(** * The handler on a given content of the store

    The store is a [Snapshot] here, so the answer is a function of the zone's
    content. [resolve_simulates] carries what is proved to every store that
    answers as a snapshot does, such as a [DataHandler] over a working redis; the other theorems follow CNAME chains (to the
    end when they are short enough, to SERVFAIL when they loop), and give the
    response for each way a name can be found in a zone built by [NewZone]. *)
From S2P Require Import Prelude GoStrings Radix DnsTypes Zone Geo IpSelect Dnssec Store Request.
From S2P Require Import Handler HandlerFacts.
Local Open Scope Z_scope.

(** ** Any store that looks like a snapshot *)
Section simulation.
Context {T : Type → Type} `{!IRadix T} {S S' : Type}.
Context `{!DataStore T S, !Outside S, !DataStore T S', !Outside S'}.
Context (R : S → S' → Prop) `{!StoreSim T S S' R, !OutsideSim S S' R}.
Context {F : Type} `{!Float64 F}.
Variable unicode_lower : string → string.
Variable Fqdn : string → string.
Variable geoip : GeoIp F.
Implicit Types (c : RequestContext T) (z : Zone T).

Ltac sim := repeat first
  [ progress eauto 1 with simulates
  | apply simulates_fmap
  | apply simulates_bind; [|intros ?]
  | match goal with
    | |- simulates _ (match ?x with _ => _ end) (match ?x with _ => _ end) => destruct x
    end ].

Lemma filter_simulates c rrset : simulates R (h_filter geoip c rrset) (h_filter geoip c rrset).
Proof. unfold h_filter. sim. Qed.
Hint Resolve filter_simulates : simulates.

Lemma add_glue_simulates z hosts c :
  simulates R (add_glue geoip z hosts c) (add_glue geoip z hosts c).
Proof.
  revert c. induction hosts as [|h hosts IH]; intros c; simpl; [sim|].
  unfold glue_A, glue_AAAA. destruct (FindLocation z h). case_decide; [apply IH|]. sim; apply IH.
Qed.
Hint Resolve add_glue_simulates : simulates.

Lemma findANAME_simulates fuel z c q t :
  simulates R (findANAME_loop geoip fuel z c q t) (findANAME_loop geoip fuel z c q t).
Proof. revert q. induction fuel as [|fuel IH]; intros q; csimpl; sim. Qed.
Lemma findCAA_loop_simulates fuel z l :
  simulates R (findCAA_loop fuel z l) (findCAA_loop fuel z l).
Proof. revert l. induction fuel as [|fuel IH]; intros l; csimpl; sim. Qed.
Hint Resolve findANAME_simulates findCAA_loop_simulates : simulates.

Lemma answer_for_simulates z c l q :
  simulates R (answer_for Fqdn geoip z c l q) (answer_for Fqdn geoip z c l q).
Proof.
  unfold answer_for, answer_A, answer_AAAA, answer_set, findANAME, findCAA, server_failure. sim.
Qed.
Lemma handle_simulates z zn ns l q c :
  simulates R (handle_CEMatch Fqdn geoip z zn l q c) (handle_CEMatch Fqdn geoip z zn l q c)
  ∧ simulates R (handle_delegation Fqdn geoip z ns l q c)
      (handle_delegation Fqdn geoip z ns l q c).
Proof. unfold handle_CEMatch, handle_delegation. split; sim. Qed.

(** Over two stores that answer alike, the handler computes the same
    response. *)
Theorem resolve_simulates z zn fl q c :
  simulates R (resolve unicode_lower Fqdn geoip z zn fl q c)
    (resolve unicode_lower Fqdn geoip z zn fl q c).
Proof.
  unfold resolve, final_answer. generalize 11%nat as fuel. intros fuel.
  revert q c. induction fuel as [|fuel IH]; intros q c; csimpl; [sim|].
  pose proof answer_for_simulates. pose proof (λ ns l, proj1 (handle_simulates z zn ns l q c)).
  pose proof (λ ns l, proj2 (handle_simulates z zn ns l q c)).
  unfold final_answer. sim; eauto.
Qed.
End simulation.

(** ** CNAME chains in a zone *)
Section run.
Context {T : Type → Type} `{!IRadix T}.
Context {F : Type} `{!Float64 F}.
Variable unicode_lower : string → string.
Variable Fqdn : string → string.
Variable geoip : GeoIp F.
Variable d : Snapshot T.
Implicit Types (c : RequestContext T) (z : Zone T).
Abbreviation raw := (raw_name unicode_lower).
Abbreviation loop := (resolve_loop (S:=Snapshot T) unicode_lower Fqdn geoip).
Abbreviation next cn := (Fqdn (CNAME_Host cn)).

(** [q] is in the zone and has, itself or by a wildcard, the CNAME [cn]. *)
Definition hop z (zn q : string) (cn : CNAME_RRSet) : Prop :=
  sn_FindZone d q = zn ∧ CNAME_Empty cn = false
  ∧ ∃ l m, FindLocation z q = (l, m) ∧ (m = ExactMatch ∨ m = WildCardMatch)
           ∧ sn_CNAME d (Name z) l = Ok cn.

(** One read of the snapshot. *)
Ltac snap := rewrite run_bind;
  cbn [st_FindZone st_CNAME st_NS st_A st_AAAA st_ANAME snapshot_store Nanosecond
       snapshot_outside gets fst snd].

Lemma loop_hop fuel z zn q cn c :
  hop z zn q cn → QType c ≠ dns.TypeCNAME →
  loop (Datatypes.S fuel) z zn false q c d
  = loop fuel z zn false (next cn) (append_Answer (CNAME_Value Fqdn cn q) c) d.
Proof.
  intros (Hz & He & l & m & Hl & Hm & Hc) Hq. csimpl. snap.
  rewrite Hz, decide_False, Hl by (intros H; by apply H).
  assert (E : negb (CNAME_Empty cn) && negb (QType c =? dns.TypeCNAME) = true).
  { by rewrite He, (proj2 (Z.eqb_neq _ _) Hq). }
  destruct Hm as [-> | ->]; snap; by rewrite Hc, E.
Qed.

Lemma loop_hop_flat fuel z zn q cn c :
  hop z zn q cn → QType c ≠ dns.TypeCNAME → sn_FindZone d (CNAME_Host cn) = zn →
  loop (Datatypes.S fuel) z zn true q c d = loop fuel z zn true (next cn) c d.
Proof.
  intros (Hz & He & l & m & Hl & Hm & Hc) Hq Ht. csimpl. snap.
  rewrite Hz, decide_False, Hl by (intros H; by apply H).
  assert (E : negb (CNAME_Empty cn) && negb (QType c =? dns.TypeCNAME) = true).
  { by rewrite He, (proj2 (Z.eqb_neq _ _) Hq). }
  destruct Hm as [-> | ->]; snap;
    rewrite Hc, E; cbn [negb]; snap;
    by rewrite Ht, decide_False by (intros H; by apply H).
Qed.

(** [n] hops from [q] to [last], with the CNAME records they add. *)
Inductive hops z (zn : string) : nat → string → list RR → string → Prop :=
| hops_nil q : hops z zn 0 q [] q
| hops_cons n q cn rrs last :
    hop z zn q cn → hops z zn n (next cn) rrs last →
    hops z zn (Datatypes.S n) q (CNAME_Value Fqdn cn q ++ rrs) last.

Lemma loop_hops n fuel z zn q rrs last c :
  hops z zn n q rrs last → QType c ≠ dns.TypeCNAME →
  loop (n + fuel) z zn false q c d = loop fuel z zn false last (append_Answer rrs c) d.
Proof.
  intros Hh. revert c. induction Hh as [q|n q cn rrs last Hop Hh IH]; intros c Hq.
  - by rewrite append_Answer_nil.
  - cbn [Nat.add]. rewrite (loop_hop _ _ _ _ cn) by done. rewrite IH by done. f_equal.
    unfold append_Answer, set_Answer, set_sections. simpl. by rewrite <-app_assoc.
Qed.

(** C26. A CNAME chain of at most ten records that stays in the zone is followed to
    its end: the answer holds its CNAME records, in order, and goes on with what
    the zone answers for the last name. *)
Theorem resolve_follows_chain n z zn q rrs last c :
  hops z zn n q rrs last → (n ≤ 10)%nat → QType c ≠ dns.TypeCNAME →
  resolve unicode_lower Fqdn geoip z zn false q c d
  = resolve_loop unicode_lower Fqdn geoip (11 - n) z zn false last (append_Answer rrs c) d.
Proof.
  intros Hh Hn Hq. unfold resolve.
  rewrite <-(loop_hops n (11 - n) z zn q rrs last c) by done.
  by replace (n + (11 - n))%nat with 11%nat by lia.
Qed.

(** C25. CNAME records that lead in a circle are answered, with or without
    flattening, with SERVFAIL and an empty answer section: the loop of the handler
    always ends. *)
Theorem resolve_cname_cycle (P : string → Prop) z zn fl q c :
  (∀ q, P q → ∃ cn, hop z zn q cn ∧ sn_FindZone d (CNAME_Host cn) = zn ∧ P (next cn)) →
  P q → QType c ≠ dns.TypeCNAME →
  ∃ c', (resolve unicode_lower Fqdn geoip z zn fl q c d).1 = Some c'
        ∧ Res c' = dns.RcodeServerFailure ∧ Answer c' = [].
Proof.
  intros HP. unfold resolve. generalize 11%nat as fuel. intros fuel. revert q c.
  induction fuel as [|fuel IH]; intros q c Hq Ht; [by eexists|].
  destruct (HP q Hq) as (cn & Hop & Hz & Hn). destruct fl.
  - rewrite (loop_hop_flat _ _ _ _ cn) by done. by apply IH.
  - rewrite (loop_hop _ _ _ _ cn) by done. by apply IH.
Qed.

(** ** Responses by the content of the zone *)
Section content.
Context `{!IRadixLaws T}.
Variables (z : Zone T) (zn q : string).
Abbreviation locs := (LocationsList z).
Abbreviation relative := (TrimSuffix q (String dot (Name z))).
Hypothesis z_built : well_built z.
Hypothesis q_zone : sn_FindZone d q = zn.
Hypothesis q_ascii : ascii7 q.
Hypothesis q_apex : q ≠ Name z.

Lemma found l m : FindSpec locs relative l m → FindLocation z q = (l, m).
Proof.
  intros Hf. pose proof (FindLocation_sound z q _ z_built q_apex eq_refl
    (ascii7_TrimSuffix _ _ q_ascii)) as Hs.
  destruct (FindSpec_functional _ _ _ _ _ _ Hs Hf). by destruct (FindLocation z q); simplify_eq/=.
Qed.

Lemma loop_nomatch fuel fl l c :
  FindSpec locs relative l NoMatch →
  loop (Datatypes.S fuel) z zn fl q c d
  = (Some (addNSec z q dns.TypeNone (set_Res dns.RcodeNameError
             (set_Authority [SOA_Data (SOA (Config z))] c))), d).
Proof.
  intros Hf%found. csimpl. snap.
  by rewrite q_zone, decide_False, Hf by (intros H; by apply H).
Qed.

(** C8. In a zone built by [NewZone], a name that neither exists nor is covered by a
    wildcard or a location above it is answered NXDOMAIN with the zone's SOA;
    a DNSSEC answer is NOERROR, with an NSEC record of the name that lists no
    type but RRSIG and NSEC. *)
Theorem resolve_nxdomain fl c :
  FindSpec locs relative empty_str NoMatch →
  let soa := SOA (Config z) in
  ∃ c', (resolve unicode_lower Fqdn geoip z zn fl q c d).1 = Some c'
    ∧ Answer c' = Answer c ∧ Additional c' = Additional c
    ∧ if dnssec c
      then Res c' = dns.RcodeSuccess
           ∧ Authority c' = [SOA_Data soa; NSEC_rr q [dns.TypeRRSIG; dns.TypeNSEC] (SOA_MinTtl soa)]
      else Res c' = dns.RcodeNameError ∧ Authority c' = [SOA_Data soa].
Proof.
  intros Hf soa. unfold resolve. rewrite (loop_nomatch _ _ empty_str) by done.
  eexists. split; [done|]. autorewrite with z42. split_and!; [done..|].
  unfold addNSec. simpl. destruct (dnssec c); simpl; [|done].
  by rewrite decide_False.
Qed.

Lemma loop_nonterminal fuel fl l c :
  FindSpec locs relative l EmptyNonterminalMatch →
  loop (Datatypes.S fuel) z zn fl q c d
  = (Some (addNSec z q dns.TypeNone (set_Res dns.RcodeSuccess
             (set_Authority [SOA_Data (SOA (Config z))] c))), d).
Proof.
  intros Hf%found. csimpl. snap.
  by rewrite q_zone, decide_False, Hf by (intros H; by apply H).
Qed.

(** A name that only has names below it is answered NOERROR with the zone's
    SOA and no records. In a DNSSEC answer the NSEC record that goes with it lists
    every type of [NsecBitmapZone], A among them, so that it does not deny them. *)
Theorem resolve_empty_nonterminal fl c :
  FindSpec locs relative empty_str EmptyNonterminalMatch →
  let soa := SOA (Config z) in
  ∃ c', (resolve unicode_lower Fqdn geoip z zn fl q c d).1 = Some c'
    ∧ Answer c' = Answer c ∧ Res c' = dns.RcodeSuccess
    ∧ Authority c' = SOA_Data soa
                     :: if dnssec c then [NSEC_rr q NsecBitmapZone (SOA_MinTtl soa)] else [].
Proof.
  intros Hf soa. unfold resolve. rewrite (loop_nonterminal _ _ empty_str) by done.
  eexists. split; [done|]. autorewrite with z42. split_and!; [done|..];
    unfold addNSec; simpl; destruct (dnssec c); simpl; try done; by rewrite decide_False.
Qed.

(** A name with a location (exact or wildcard) that is neither an alias nor a
    delegation is answered from the record sets of that location. *)
Lemma loop_final fuel fl l m cn ns c :
  FindSpec locs relative l m → m = ExactMatch ∨ m = WildCardMatch →
  sn_CNAME d (Name z) l = Ok cn → CNAME_Empty cn = true →
  sn_NS d (Name z) l = Ok ns → NS_Empty ns = true →
  loop (Datatypes.S fuel) z zn fl q c d
  = final_answer (S:=Snapshot T) unicode_lower Fqdn geoip z fl l q c d.
Proof.
  intros Hf%found Hm Hc Hce Hn Hne. csimpl. snap.
  rewrite q_zone, decide_False, Hf by (intros H; by apply H).
  destruct Hm as [-> | ->]; snap; rewrite Hc, Hce; cbn [negb andb];
    rewrite decide_True by done; snap; by rewrite Hn, Hne.
Qed.

(** C7. A query for the addresses of a name with an A set at its location, or at the
    wildcard that covers it, is answered with one A record per address that the
    filters of the set select, owned by the name that was asked for. *)
Theorem resolve_address (fl : bool) l m cn ns a aname c :
  FindSpec locs relative l m → m = ExactMatch ∨ m = WildCardMatch →
  sn_CNAME d (Name z) l = Ok cn → CNAME_Empty cn = true →
  sn_NS d (Name z) l = Ok ns → NS_Empty ns = true →
  QType c = dns.TypeA → sn_A d (Name z) l = Ok a → sn_ANAME d (Name z) l = Ok aname →
  let ips := filtered geoip (SourceIp c) a (sn_Nanosecond d) in
  let owner := if fl then raw c else q in
  let rrs := generateA owner (TtlValue (IP_Generic a)) ips in
  IP_Empty a = false → rrs ≠ [] →
  (resolve unicode_lower Fqdn geoip z zn fl q c d).1 = Some (append_Answer rrs c).
Proof.
  intros Hf Hm Hc Hce Hn Hne Ht Ha Han ips owner rrs He Hr. unfold resolve.
  rewrite (loop_final _ _ l m cn ns) by done. unfold final_answer, answer_for.
  rewrite Ht. change (dns.TypeA =? dns.TypeA) with true; cbv iota. rewrite run_bind.
  unfold answer_A. snap. rewrite Ha. snap. rewrite Han, He. cbn [andb].
  unfold h_filter. rewrite !run_bind. cbn [Nanosecond snapshot_outside gets fst snd].
  rewrite !run_ret. cbn [fst snd finish]. fold owner ips.
  change (generateA owner (Ttl (IP_Generic a)) ips) with rrs. clearbody rrs. by destruct rrs.
Qed.

(** When that location has no addresses (and no ANAME), the answer is NOERROR with
    the answer section as it was and the zone's SOA at the end of the authority
    section. *)
Theorem resolve_nodata fl l m cn ns a aname c :
  FindSpec locs relative l m → m = ExactMatch ∨ m = WildCardMatch →
  sn_CNAME d (Name z) l = Ok cn → CNAME_Empty cn = true →
  sn_NS d (Name z) l = Ok ns → NS_Empty ns = true →
  QType c = dns.TypeA → Res c = dns.RcodeSuccess →
  sn_A d (Name z) l = Ok a → sn_ANAME d (Name z) l = Ok aname →
  IP_Empty a = true → ANAME_Empty aname = true →
  ∃ c', (resolve unicode_lower Fqdn geoip z zn fl q c d).1 = Some c'
    ∧ Res c' = dns.RcodeSuccess ∧ Answer c' = Answer c
    ∧ last (Authority c') = Some (SOA_Data (SOA (Config z))).
Proof.
  intros Hf Hm Hc Hce Hn Hne Ht Hr Ha Han He Hane. unfold resolve.
  rewrite (loop_final _ _ l m cn ns) by done. unfold final_answer, answer_for.
  rewrite Ht. change (dns.TypeA =? dns.TypeA) with true; cbv iota. rewrite run_bind.
  unfold answer_A. snap. rewrite Ha. snap. rewrite Han, He, Hane. cbn [andb negb].
  unfold h_filter. rewrite !run_bind. cbn [Nanosecond snapshot_outside gets fst snd].
  rewrite !run_ret. cbn [fst snd]. rewrite filtered_empty by done.
  change (generateA _ _ []) with (@nil RR). rewrite finish_nodata by done.
  eexists. split; [done|]. simpl. rewrite last_snoc. autorewrite with z42. split_and!; try done.
  destruct (addNSec_cases z (if fl then raw c else q) (QType c) c) as [[_ ->]|(_ & b & -> & _)];
    [done|]. simpl. rewrite Hr. by case_decide.
Qed.
End content.
End run.

(** ** The climb of [findCAA] ends *)
Section caa.
Context {T : Type → Type} `{IRadixLaws T} {S : Type} `{!DataStore T S, !Outside S}.
Variable z : Zone T.
Hypothesis z_built : well_built z.
Local Open Scope nat_scope.
Abbreviation dots s := (count_byte dot (bytes s)).

Lemma SplitAfter2_dots l x rest :
  SplitAfter2 l dot = [x; rest] → dots l = Datatypes.S (dots rest) ∧ (ascii7 l → ascii7 rest).
Proof.
  unfold SplitAfter2. destruct (cut_at dot (bytes l)) as [[u v]|] eqn:E; [|done].
  intros [= <- <-]. apply cut_at_Some in E as [E Hu]. rewrite bytes_str. unfold ascii7.
  rewrite E, bytes_str, count_byte_app, count_byte_cons, decide_True by done.
  rewrite (proj2 (count_byte_0 _ _) Hu). split; [done|].
  rewrite Forall_app, Forall_cons. tauto.
Qed.

Lemma dots_TrimSuffix s p : dots (TrimSuffix s p) ≤ dots s.
Proof.
  destruct (TrimSuffix_cases s p) as [E|[-> _]]; [|done].
  rewrite E at 2. rewrite bytes_app, count_byte_app. lia.
Qed.

Lemma encloses_dots a q : encloses a q → a ≠ q → dots a < dots q.
Proof.
  intros [k Hk] Hne. assert (E : count_byte dot (dot :: bytes q) = Datatypes.S (dots q)).
  { by rewrite count_byte_cons, decide_True. }
  rewrite Hk, count_byte_app, count_byte_cons, decide_True in E by done.
  destruct k as [|b k]; [simpl in Hk; simplify_eq; by destruct Hne; apply bytes_inj|].
  simpl in Hk. simplify_eq. rewrite count_byte_cons, decide_True in E by done. lia.
Qed.

(** A location found for a name has no more labels than the name. *)
Lemma found_dots rest l m :
  FindLocation z rest = (l, m) → m = ExactMatch ∨ m = WildCardMatch → ascii7 rest →
  dots l ≤ dots rest ∧ ascii7 l.
Proof.
  intros Hf Hm Ha. destruct (decide (rest = Name z)) as [->|Hne].
  { unfold FindLocation in Hf. rewrite decide_True in Hf by done. simplify_eq.
    split; [change (dots "@") with 0; lia|by apply (bool_decide_unpack _)]. }
  pose proof (FindLocation_sound z rest _ z_built Hne eq_refl (ascii7_TrimSuffix _ _ Ha)) as Hs.
  rewrite Hf in Hs. simpl in Hs. pose proof (dots_TrimSuffix rest (String dot (Name z))) as Hd.
  pose proof (ascii7_TrimSuffix rest (String dot (Name z)) Ha) as Ht.
  destruct Hs as [Hl| |a (He & _) Hq _| | |_ _|]; try by destruct Hm.
  - pose proof (encloses_dots _ _ He Hq). split; [|by eapply ascii7_wildcard, ascii7_encloses].
    unfold wildcard_of. rewrite bytes_app, count_byte_app.
    change (dots "*.") with 1. lia.
  - split; [change (dots "*") with 0; lia|by apply (bool_decide_unpack _)].
Qed.

(** The search for a CAA set ends: the loop removes a label in each iteration,
    so with one unit of fuel per label it computes what it computes with any
    greater amount; the bound never cuts it short. *)
Theorem findCAA_fuel_enough fuel l s :
  ascii7 l → caa_fuel l ≤ fuel →
  findCAA_loop (S:=S) fuel z l s = findCAA_loop (S:=S) (caa_fuel l) z l s.
Proof.
  unfold caa_fuel. intros Ha Hf.
  cut (∀ n fuel2, dots l < n → dots l < fuel2 →
         findCAA_loop (S:=S) n z l s = findCAA_loop (S:=S) fuel2 z l s).
  { intros Hc. apply Hc; lia. }
  clear fuel Hf. intros n. revert l s Ha.
  induction n as [|n IH]; intros l s Ha [|fuel2] Hn Hf; try lia. csimpl.
  destruct (SplitAfter2 l dot) as [|x [|rest [|]]] eqn:E; try done.
  apply SplitAfter2_dots in E as [Hd Hr].
  destruct (FindLocation z rest) as [l2 m] eqn:Hl.
  case_match eqn:Hm; [apply IH; auto; lia|].
  assert (m = ExactMatch ∨ m = WildCardMatch) as Hm2.
  { apply andb_false_iff in Hm as [?|?]; case_bool_decide; try done;
      destruct (decide (m = ExactMatch)), (decide (m = WildCardMatch)); naive_solver. }
  destruct (found_dots _ _ _ Hl Hm2) as [Hdl Hal]; [auto|].
  rewrite !run_bind. destruct (st_CAA (Name z) l2 s) as [[caa|e] s2]; simpl.
  - case_match; [done|]. apply IH; auto; lia.
  - apply IH; auto; lia.
Qed.
End caa.
