(* ===== verification/DataHandler.v ===== *)
(** * The data handler: [internal/storage/data_handler.go]

    Zones and record sets live in redis, under keys built from the zone, the
    label and the type; the data handler keeps the tree of zone names, a cache
    of zones and a cache of record sets. Its state is [DH]; redis, the two
    caches (ristretto) and the clock are the classes [RedisOps], [Cache] and
    [Clock], the JSON documents the classes [Json] and [JsonDocs]. Concurrent
    calls for one key, which the source merges with singleflight, are one call
    here; [ZoneLoads] and [SingleFlight] take the concurrent calls apart. *)
From S2P Require Import Prelude GoStrings Redis Radix DnsTypes Zone Dnssec Store.
Local Open Scope Z_scope.

(** ** What the data handler is built on *)

(** A ristretto cache; it may drop any entry at any time. *)
Class Cache (C V : Type) := {
  cache_Get : string → C → option V * C;
  cache_Set : string → V → C → C;
  cache_Del : string → C → C;
}.
(** [time.Now().Unix()] *)
Class Clock (CK : Type) := { clock_Unix : CK → Z * CK }.

(** [jsoniter.Marshal], and [jsoniter.Unmarshal] into a zero value. *)
Class Json (R : Type) := { Marshal : R → res string string; Unmarshal : string → res string R }.

(** ** Record sets as the values of one cache

    The cache holds interface values: [inject] puts a set in an interface,
    [project] is the type assertion. *)
Inductive AnyRRSet :=
| V_IP (r : IP_RRSet) | V_CNAME (r : CNAME_RRSet) | V_TXT (r : TXT_RRSet) | V_NS (r : NS_RRSet)
| V_MX (r : MX_RRSet) | V_SRV (r : SRV_RRSet) | V_CAA (r : CAA_RRSet) | V_PTR (r : PTR_RRSet)
| V_TLSA (r : TLSA_RRSet) | V_DS (r : DS_RRSet) | V_ANAME (r : ANAME_RRSet).

Class RRSetKind (R : Type) := {
  inject : R → AnyRRSet;
  project : AnyRRSet → option R;
  zero : R;
  set_ttl : (Z → Z) → R → R;
  project_inject r : project (inject r) = Some r;
}.
Definition map_ttl (f : Z → Z) (g : GenericRRSet) : GenericRRSet := {| TtlValue := f (TtlValue g) |}.

#[export] Instance IP_kind : RRSetKind IP_RRSet := {
  inject := V_IP; project v := match v with V_IP r => Some r | _ => None end;
  zero := zero_IP_RRSet;
  set_ttl f r := {| IP_Generic := map_ttl f (IP_Generic r); IP_FilterConfig := IP_FilterConfig r;
                    IP_HealthCheckConfig := IP_HealthCheckConfig r; IP_Data := IP_Data r |};
  project_inject r := eq_refl }.
#[export] Instance CNAME_kind : RRSetKind CNAME_RRSet := {
  inject := V_CNAME; project v := match v with V_CNAME r => Some r | _ => None end;
  zero := {| CNAME_Generic := zero_generic; CNAME_Host := empty_str |};
  set_ttl f r := {| CNAME_Generic := map_ttl f (CNAME_Generic r); CNAME_Host := CNAME_Host r |};
  project_inject r := eq_refl }.
#[export] Instance TXT_kind : RRSetKind TXT_RRSet := {
  inject := V_TXT; project v := match v with V_TXT r => Some r | _ => None end;
  zero := {| TXT_Generic := zero_generic; TXT_Data := [] |};
  set_ttl f r := {| TXT_Generic := map_ttl f (TXT_Generic r); TXT_Data := TXT_Data r |};
  project_inject r := eq_refl }.
#[export] Instance NS_kind : RRSetKind NS_RRSet := {
  inject := V_NS; project v := match v with V_NS r => Some r | _ => None end;
  zero := {| NS_Generic := zero_generic; NS_Data := [] |};
  set_ttl f r := {| NS_Generic := map_ttl f (NS_Generic r); NS_Data := NS_Data r |};
  project_inject r := eq_refl }.
#[export] Instance MX_kind : RRSetKind MX_RRSet := {
  inject := V_MX; project v := match v with V_MX r => Some r | _ => None end;
  zero := {| MX_Generic := zero_generic; MX_Data := [] |};
  set_ttl f r := {| MX_Generic := map_ttl f (MX_Generic r); MX_Data := MX_Data r |};
  project_inject r := eq_refl }.
#[export] Instance SRV_kind : RRSetKind SRV_RRSet := {
  inject := V_SRV; project v := match v with V_SRV r => Some r | _ => None end;
  zero := {| SRV_Generic := zero_generic; SRV_Data := [] |};
  set_ttl f r := {| SRV_Generic := map_ttl f (SRV_Generic r); SRV_Data := SRV_Data r |};
  project_inject r := eq_refl }.
#[export] Instance CAA_kind : RRSetKind CAA_RRSet := {
  inject := V_CAA; project v := match v with V_CAA r => Some r | _ => None end;
  zero := {| CAA_Generic := zero_generic; CAA_Data := [] |};
  set_ttl f r := {| CAA_Generic := map_ttl f (CAA_Generic r); CAA_Data := CAA_Data r |};
  project_inject r := eq_refl }.
#[export] Instance PTR_kind : RRSetKind PTR_RRSet := {
  inject := V_PTR; project v := match v with V_PTR r => Some r | _ => None end;
  zero := {| PTR_Generic := zero_generic; PTR_Domain := empty_str |};
  set_ttl f r := {| PTR_Generic := map_ttl f (PTR_Generic r); PTR_Domain := PTR_Domain r |};
  project_inject r := eq_refl }.
#[export] Instance TLSA_kind : RRSetKind TLSA_RRSet := {
  inject := V_TLSA; project v := match v with V_TLSA r => Some r | _ => None end;
  zero := {| TLSA_Generic := zero_generic; TLSA_Data := [] |};
  set_ttl f r := {| TLSA_Generic := map_ttl f (TLSA_Generic r); TLSA_Data := TLSA_Data r |};
  project_inject r := eq_refl }.
#[export] Instance DS_kind : RRSetKind DS_RRSet := {
  inject := V_DS; project v := match v with V_DS r => Some r | _ => None end;
  zero := {| DS_Generic := zero_generic; DS_Data := [] |};
  set_ttl f r := {| DS_Generic := map_ttl f (DS_Generic r); DS_Data := DS_Data r |};
  project_inject r := eq_refl }.
#[export] Instance ANAME_kind : RRSetKind ANAME_RRSet := {
  inject := V_ANAME; project v := match v with V_ANAME r => Some r | _ => None end;
  zero := {| ANAME_Generic := zero_generic; ANAME_Location := empty_str |};
  set_ttl f r := {| ANAME_Generic := map_ttl f (ANAME_Generic r); ANAME_Location := ANAME_Location r |};
  project_inject r := eq_refl }.

(** [locationEntry] *)
Record locationEntry := {
  le_A : option IP_RRSet; le_AAAA : option IP_RRSet; le_CNAME : option CNAME_RRSet;
  le_TXT : option TXT_RRSet; le_NS : option NS_RRSet; le_MX : option MX_RRSet;
  le_SRV : option SRV_RRSet; le_CAA : option CAA_RRSet; le_PTR : option PTR_RRSet;
  le_TLSA : option TLSA_RRSet; le_DS : option DS_RRSet; le_ANAME : option ANAME_RRSet;
}.

(** The JSON documents the data handler reads and writes. *)
Class JsonDocs := {
  json_IP :: Json IP_RRSet; json_CNAME :: Json CNAME_RRSet; json_TXT :: Json TXT_RRSet;
  json_NS :: Json NS_RRSet; json_MX :: Json MX_RRSet; json_SRV :: Json SRV_RRSet;
  json_CAA :: Json CAA_RRSet; json_PTR :: Json PTR_RRSet; json_TLSA :: Json TLSA_RRSet;
  json_DS :: Json DS_RRSet; json_ANAME :: Json ANAME_RRSet;
  json_config :: Json ZoneConfig; json_location :: Json locationEntry;
}.

(** ** Keys *)
Definition keyPrefix : string := "z42:zones:".
Definition zonesKey : string := "z42:zones".

Section keys.
Variable TypeToString : Z → string.  (* dns.TypeToString *)

Definition customTypeToString (rtype : Z) : option string :=
  if rtype =? TypeANAME then Some "ANAME" else None.
Definition type_string (rtype : Z) : string :=
  match customTypeToString rtype with Some s => s | None => TypeToString rtype end.

Definition zoneLocationsKey (zone : string) : string := keyPrefix +:+ zone +:+ ":labels".
Definition zoneConfigKey (zone : string) : string := keyPrefix +:+ zone +:+ ":config".
Definition zoneLocationRRSetKey (zone label : string) (rtype : Z) : string :=
  keyPrefix +:+ zone +:+ ":labels:" +:+ label +:+ ":" +:+ type_string rtype.
Definition zonePubKey (zone keyType : string) : string :=
  keyPrefix +:+ zone +:+ ":" +:+ keyType +:+ ":pub".
Definition zonePrivKey (zone keyType : string) : string :=
  keyPrefix +:+ zone +:+ ":" +:+ keyType +:+ ":priv".

Definition splitDbKey (key : string) : list string := Split (TrimPrefix key keyPrefix) colon.
Definition isRRSetEntry (parts : list string) : bool :=
  match parts with
  | [_; labels; _; _] => bool_decide (labels = "labels")
  | _ => false
  end.
End keys.

Definition fixTTL (ttl min max : Z) : Z :=
  let ttl := if ttl <? min then min else ttl in
  if ttl >? max then max else ttl.

Record DataHandlerConfig := {
  ZoneCacheTimeout : Z; ZoneReload : Z; RecordCacheTimeout : Z; MinTTL : Z; MaxTTL : Z;
}.

(** ** The handler *)
Record DH (T : Type → Type) (RS RC ZC CK : Type) := {
  dh_redis : RS;
  dh_zones : T string;
  dh_recordCache : RC;
  dh_zoneCache : ZC;
  dh_clock : CK;
}.
Arguments dh_redis {T RS RC ZC CK}. Arguments dh_zones {T RS RC ZC CK}.
Arguments dh_recordCache {T RS RC ZC CK}. Arguments dh_zoneCache {T RS RC ZC CK}.
Arguments dh_clock {T RS RC ZC CK}.

Section DataHandler.
Context {T : Type → Type} `{!IRadix T} {RS RC ZC CK : Type}.
Context `{!RedisOps RS, !Cache RC AnyRRSet, !Cache ZC (Zone T), !Clock CK, !JsonDocs}.
Variable config : DataHandlerConfig.
Variable TypeToString : Z → string.
Variable Fqdn : string → string.
Variable unmarshal_config : string → ZoneConfig → ZoneConfig.
(** [dns.NewRR], [NewPrivateKey] of a DNSKEY, and the signing primitives. *)
Variable NewRR : string → res string (option RR).
Variable NewPrivateKey : RR → string → res string string.
Variable KeyTag : RR → Z.
Variable Sign : RR → string → list RR → option RR.
Abbreviation DHS := (DH T RS RC ZC CK).
Abbreviation rrset_key := (zoneLocationRRSetKey TypeToString).

(** *** Access to the parts of the state *)
Definition redis {A} (m : M RS A) : M DHS A := λ s,
  let '(a, r) := m (dh_redis s) in
  (a, {| dh_redis := r; dh_zones := dh_zones s; dh_recordCache := dh_recordCache s;
         dh_zoneCache := dh_zoneCache s; dh_clock := dh_clock s |}).
Definition on_recordCache {A} (f : RC → A * RC) : M DHS A := λ s,
  let '(a, c) := f (dh_recordCache s) in
  (a, {| dh_redis := dh_redis s; dh_zones := dh_zones s; dh_recordCache := c;
         dh_zoneCache := dh_zoneCache s; dh_clock := dh_clock s |}).
Definition on_zoneCache {A} (f : ZC → A * ZC) : M DHS A := λ s,
  let '(a, c) := f (dh_zoneCache s) in
  (a, {| dh_redis := dh_redis s; dh_zones := dh_zones s; dh_recordCache := dh_recordCache s;
         dh_zoneCache := c; dh_clock := dh_clock s |}).
Definition set_zones (t : T string) : M DHS () := λ s,
  ((), {| dh_redis := dh_redis s; dh_zones := t; dh_recordCache := dh_recordCache s;
          dh_zoneCache := dh_zoneCache s; dh_clock := dh_clock s |}).
Definition Now : M DHS Z := λ s,
  let '(a, c) := clock_Unix (dh_clock s) in
  (a, {| dh_redis := dh_redis s; dh_zones := dh_zones s; dh_recordCache := dh_recordCache s;
         dh_zoneCache := dh_zoneCache s; dh_clock := c |}).
Definition recordCache_Get key : M DHS (option AnyRRSet) := on_recordCache (cache_Get key).
Definition recordCache_Set key (v : AnyRRSet) : M DHS () :=
  on_recordCache (λ c, ((), cache_Set key v c)).
Definition recordCache_Del key : M DHS () := on_recordCache (λ c, ((), cache_Del (V:=AnyRRSet) key c)).
Definition zoneCache_Get key : M DHS (option (Zone T)) := on_zoneCache (cache_Get key).
Definition zoneCache_Set key (z : Zone T) : M DHS () := on_zoneCache (λ c, ((), cache_Set key z c)).
Definition zoneCache_Del key : M DHS () := on_zoneCache (λ c, ((), cache_Del (V:=Zone T) key c)).

(** *** The tree of zones *)
Definition zone_tree (zones : list string) : T string :=
  foldl (λ t zone, Insert t (ReverseName zone) zone) New zones.
Definition LoadZones : M DHS () :=
  r ← redis (redis_SMembers zonesKey);
  match r with
  | Err _ => mret ()
  | Ok zones => set_zones (zone_tree zones)
  end.
Definition EnableZone (zone : string) : M DHS (res RedisError ()) :=
  must _ ← redis (redis_SAdd (zoneLocationsKey zone) "@");
  redis (redis_SAdd zonesKey zone).
Definition DisableZone (zone : string) : M DHS (res RedisError ()) :=
  redis (redis_SRem zonesKey zone).
Definition FindZone (qname : string) : M DHS string := λ s,
  (match LongestPrefix (dh_zones s) (ReverseName qname) with
   | Some (_, zname) => zname
   | None => empty_str
   end, s).

(** *** Zones *)
Definition SetZoneKey (zone keyType pub priv : string) : M DHS (res RedisError ()) :=
  must _ ← redis (redis_Set (zonePubKey zone keyType) pub);
  redis (redis_Set (zonePrivKey zone keyType) priv).

(** [strings.Replace(s, `\n`, newline, -1)] *)
Fixpoint unescape (l : list byte) : list byte :=
  match l with
  | "\"%char :: ("n"%char :: l) => "010"%char :: unescape l
  | b :: l => b :: unescape l
  | [] => []
  end.

(** The value read by [s, _ := redis.Get(key)]. *)
Definition redis_value (key : string) : M DHS string :=
  r ← redis (redis_Get key); mret (from_ok empty_str r).

(** The outer [None] is a panic: the record read is not a DNSKEY. *)
Definition loadKey (zone keyType : string) : M DHS (option (option ZoneKey)) :=
  pubStr ← redis_value (zonePubKey zone keyType);
  if str_empty pubStr then mret (Some None) else
  privStr ← redis_value (zonePrivKey zone keyType);
  if str_empty privStr then mret (Some None) else
  let privStr := str (unescape (bytes privStr)) in
  match NewRR pubStr with
  | Err _ => mret (Some None)
  | Ok (Some rr) =>
    match Data rr with
    | RD_DNSKEY _ _ _ _ =>
      match NewPrivateKey rr privStr with
      | Err _ => mret (Some None)
      | Ok pk =>
        now ← Now;
        mret (Some (Some {| DnsKey := rr; PrivateKey := pk;
                            KeyInception := (now - 3 * 3600) `mod` 2 ^ 32;
                            KeyExpiration := (now + 8 * 24 * 3600) `mod` 2 ^ 32 |}))
      end
    | _ => mret None
    end
  | Ok None => mret None
  end.

Definition set_keys (z : Zone T) (dnssec : bool) (zsk ksk : option ZoneKey) (sig : option RR)
  : Zone T := {|
  Name := Name z;
  Config := {| DomainId := DomainId (Config z); SOA := SOA (Config z); DnsSec := dnssec;
               CnameFlattening := CnameFlattening (Config z) |};
  LocationsTree := LocationsTree z; LocationsList := LocationsList z;
  ZSK := zsk; KSK := ksk; DnsKeySig := sig; CacheTimeout := CacheTimeout z |}.
Definition set_timeout (t : Z) (z : Zone T) : Zone T := {|
  Name := Name z; Config := Config z; LocationsTree := LocationsTree z;
  LocationsList := LocationsList z; ZSK := ZSK z; KSK := KSK z; DnsKeySig := DnsKeySig z;
  CacheTimeout := t |}.
(** [key.DnsKey.Flags = flags] and [key.DnsKey.Hdr.Ttl = ttl] *)
Definition key_with (flags ttl : Z) (k : ZoneKey) : ZoneKey := {|
  DnsKey := {| Header := {| Hdr_Name := rr_name (DnsKey k); Hdr_Rrtype := rr_type (DnsKey k);
                            Hdr_Class := Hdr_Class (Header (DnsKey k)); Hdr_Ttl := ttl |};
               Data := match Data (DnsKey k) with
                       | RD_DNSKEY _ p a key => RD_DNSKEY flags p a key
                       | d => d
                       end |};
  PrivateKey := PrivateKey k; KeyInception := KeyInception k; KeyExpiration := KeyExpiration k |}.

Definition loadZoneKeys (z : Zone T) : M DHS (option (Zone T)) :=
  if negb (DnsSec (Config z)) then mret (Some z) else
  ozsk ← loadKey (Name z) "zsk";
  match ozsk with
  | None => mret None
  | Some None => mret (Some (set_keys z false None (KSK z) (DnsKeySig z)))
  | Some (Some zsk) =>
    oksk ← loadKey (Name z) "ksk";
    match oksk with
    | None => mret None
    | Some None => mret (Some (set_keys z false (Some zsk) None (DnsKeySig z)))
    | Some (Some ksk) =>
      let ksk := key_with 257 (rr_ttl (DnsKey ksk)) ksk in
      let zsk := key_with 256 (rr_ttl (DnsKey ksk)) zsk in
      match SignRRSet KeyTag Sign [DnsKey zsk; DnsKey ksk] (Name z) ksk (rr_ttl (DnsKey ksk)) with
      | Some sig => mret (Some (set_keys z true (Some zsk) (Some ksk) (Some sig)))
      | None => mret (Some (set_keys z false (Some zsk) (Some ksk) (DnsKeySig z)))
      end
    end
  end.

(** The function given to [zoneInflight.Do]: [Some None] is its error. *)
Definition load_zone (zone : string) : M DHS (option (option (Zone T))) :=
  r ← redis (redis_SMembers (zoneLocationsKey zone));
  match r with
  | Err _ => mret (Some None)
  | Ok locations =>
    configStr ← redis_value (zoneConfigKey zone);
    serial ← Now;
    oz ← loadZoneKeys (NewZone Fqdn unmarshal_config zone locations configStr serial);
    match oz with
    | None => mret None
    | Some z =>
      now ← Now;
      let z := set_timeout (now + ZoneCacheTimeout config) z in
      _ ← zoneCache_Set zone z;
      mret (Some (Some z))
    end
  end.

(** The outer [None] is a panic, the inner one the nil zone. *)
Definition GetZone (zone : string) : M DHS (option (option (Zone T))) :=
  cachedZone ← zoneCache_Get zone;
  fresh ← match cachedZone with
          | Some z => now ← Now; mret (now <=? CacheTimeout z)
          | None => mret false
          end;
  if fresh : bool then mret (Some cachedZone) else
  answer ← load_zone zone;
  mret match answer with
       | None => None
       | Some (Some z) => Some (Some z)
       | Some None => Some cachedZone
       end.

Definition GetZoneConfig (zone : string) : M DHS (option (res string ZoneConfig)) :=
  oz ← GetZone zone;
  mret match oz with
       | None => None
       | Some None => Some (Err "cannot get zone")
       | Some (Some z) => Some (Ok (Config z))
       end.
Definition GetZones : M DHS (list string) :=
  r ← redis (redis_SMembers zonesKey); mret (from_ok [] r).
Definition GetZoneLocations (zone : string) : M DHS (option (list string)) :=
  oz ← GetZone zone;
  mret match oz with
       | None => None
       | Some None => Some []
       | Some (Some z) => Some (LocationsList z)
       end.
Definition EnableLocation (zone location : string) : M DHS (res RedisError ()) :=
  redis (redis_SAdd (zoneLocationsKey zone) location).
Definition DisableLocation (zone location : string) : M DHS (res RedisError ()) :=
  redis (redis_SRem (zoneLocationsKey zone) location).
Definition redis_err {A} (r : res RedisError A) : res StoreError A :=
  match r with Ok a => Ok a | Err e => Err (ERedis e) end.
Definition SetZoneConfigFromJson (zone json : string) : M DHS (res StoreError ()) :=
  r ← redis (redis_Set (zoneConfigKey zone) json); mret (redis_err r).
Definition SetZoneConfig (zone : string) (c : ZoneConfig) : M DHS (res StoreError ()) :=
  match Marshal c with
  | Err e => mret (Err (EJson e))
  | Ok json => SetZoneConfigFromJson zone json
  end.
Definition Clear : M DHS (res RedisError ()) := redis (redis_Del "*").

(** *** Record sets *)
Definition store_result {R} `{!RRSetKind R} key (r : R) : M DHS (res StoreError AnyRRSet) :=
  _ ← recordCache_Set key (inject r); mret (Ok (inject r)).

(** The function given to [recordInflight.Do]. *)
Definition read_rrset R `{!RRSetKind R, !Json R} (key : string) : M DHS (res StoreError AnyRRSet) :=
  val ← redis (redis_Get key);
  match val with
  | Err ErrNil => store_result key (zero : R)
  | Err e => mret (Err (ERedis e))
  | Ok v =>
    if str_empty v then store_result key (zero : R) else
    match Unmarshal v with
    | Err e => mret (Err (EJson e))
    | Ok r => store_result key (r : R)
    end
  end.

Definition getRRSet R `{!RRSetKind R, !Json R} (zone label : string) (rtype : Z)
  : M DHS (res StoreError AnyRRSet) :=
  let key := rrset_key zone label rtype in
  cachedRRSet ← recordCache_Get key;
  hit ← match cachedRRSet with
        | Some r => now ← Now; mret (if now <=? RecordCacheTimeout config then Some r else None)
        | None => mret None
        end;
  match (hit : option AnyRRSet) with
  | Some r => mret (Ok r)
  | None => read_rrset R key
  end.

(** [A], [AAAA], ..., [ANAME]: the set, asserted to be of its type. *)
Definition typed {R} `{!RRSetKind R} (r : res StoreError AnyRRSet) : res StoreError R :=
  match r with
  | Err e => Err e
  | Ok v => match project v with Some r => Ok r | None => Err ECast end
  end.
Definition get_typed R `{!RRSetKind R, !Json R} (rtype : Z) (zone label : string)
  : M DHS (res StoreError R) := typed <$> getRRSet R zone label rtype.
Definition dh_A := get_typed IP_RRSet dns.TypeA.
Definition dh_AAAA := get_typed IP_RRSet dns.TypeAAAA.
Definition dh_CNAME := get_typed CNAME_RRSet dns.TypeCNAME.
Definition dh_TXT := get_typed TXT_RRSet dns.TypeTXT.
Definition dh_NS := get_typed NS_RRSet dns.TypeNS.
Definition dh_MX := get_typed MX_RRSet dns.TypeMX.
Definition dh_SRV := get_typed SRV_RRSet dns.TypeSRV.
Definition dh_CAA := get_typed CAA_RRSet dns.TypeCAA.
Definition dh_PTR := get_typed PTR_RRSet dns.TypePTR.
Definition dh_TLSA := get_typed TLSA_RRSet dns.TypeTLSA.
Definition dh_DS := get_typed DS_RRSet dns.TypeDS.
Definition dh_ANAME := get_typed ANAME_RRSet TypeANAME.

Definition SetRRSetFromJson (zone label : string) (rtype : Z) (value : string)
  : M DHS (res StoreError ()) :=
  r ← redis (redis_Set (rrset_key zone label rtype) value); mret (redis_err r).
Definition SetRRSet {R} `{!Json R} (zone label : string) (rtype : Z) (rrset : R)
  : M DHS (res StoreError ()) :=
  match Marshal rrset with
  | Err e => mret (Err (EJson e))
  | Ok json => SetRRSetFromJson zone label rtype json
  end.

(** One field of the location: its TTL is clamped and it is stored; an error is
    logged only. *)
Definition set_entry {R} `{!RRSetKind R, !Json R} (zone location : string) (rtype : Z)
    (entry : option R) : M DHS () :=
  match entry with
  | None => mret ()
  | Some r =>
    _ ← SetRRSet zone location rtype
          (set_ttl (λ ttl, fixTTL ttl (MinTTL config) (MaxTTL config)) r);
    mret ()
  end.
Definition SetLocationFromJson (zone location value : string) : M DHS (res StoreError ()) :=
  match Unmarshal value with
  | Err e => mret (Err (EJson e))
  | Ok entry =>
    r ← EnableLocation zone location;
    match r with
    | Err e => mret (Err (ERedis e))
    | Ok _ =>
      _ ← set_entry zone location dns.TypeA (le_A entry);
      _ ← set_entry zone location dns.TypeAAAA (le_AAAA entry);
      _ ← set_entry zone location dns.TypeCNAME (le_CNAME entry);
      _ ← set_entry zone location dns.TypeTXT (le_TXT entry);
      _ ← set_entry zone location dns.TypeNS (le_NS entry);
      _ ← set_entry zone location dns.TypeMX (le_MX entry);
      _ ← set_entry zone location dns.TypeSRV (le_SRV entry);
      _ ← set_entry zone location dns.TypeCAA (le_CAA entry);
      _ ← set_entry zone location dns.TypePTR (le_PTR entry);
      _ ← set_entry zone location dns.TypeTLSA (le_TLSA entry);
      _ ← set_entry zone location dns.TypeDS (le_DS entry);
      _ ← set_entry zone location TypeANAME (le_ANAME entry);
      mret (Ok ())
    end
  end.

(** *** The updater goroutine of [NewDataHandler]

    [modified] is its local variable; the events are messages of the two
    subscriptions and the ticks of the two timers. *)
Inductive event := ZonesChanged | ZoneKeyEvent (channel : string) | ReloadTick | ForceReloadTick.

Definition on_event (modified : bool) (e : event) : M DHS bool :=
  match e with
  | ZonesChanged => mret true
  | ZoneKeyEvent keyStr =>
    let keyParts := splitDbKey keyStr in
    _ ← (if isRRSetEntry keyParts then recordCache_Del keyStr
         else match keyParts with
              | [] => mret ()
              | zone :: _ => zoneCache_Del zone
              end);
    mret modified
  | ReloadTick => if modified then _ ← LoadZones; mret false else mret modified
  | ForceReloadTick => mret true
  end.

(** ** The store the request handler sees

    A panic of [GetZone], which the handler would not survive, is the nil zone
    here; [GetZone_no_panic] gives the condition under which there is none. *)
#[export] Instance dh_store : DataStore T DHS := {
  st_FindZone := FindZone;
  st_GetZone zone := default None <$> GetZone zone;
  st_A := dh_A; st_AAAA := dh_AAAA; st_CNAME := dh_CNAME; st_TXT := dh_TXT; st_NS := dh_NS;
  st_MX := dh_MX; st_SRV := dh_SRV; st_CAA := dh_CAA; st_PTR := dh_PTR; st_TLSA := dh_TLSA;
  st_DS := dh_DS; st_ANAME := dh_ANAME;
}.
End DataHandler.
