(* ===== verification/DataHandlerFacts.v ===== *)
(** * Properties of the data handler

    The keys, the invariant of the two caches over every reachable state of the
    handler, what [GetZone] and the record-set readers return, and the theorem
    that connects the data handler to the request handler: over a working redis
    whose record cache is not used, the server answers what its redis content
    says. *)
From S2P Require Import Prelude GoStrings Redis Radix DnsTypes Zone Geo IpSelect Dnssec Store.
From S2P Require Import Request Handler HandlerFacts HandlerRun DataHandler.
Local Open Scope Z_scope.

(** ** What is assumed of the caches and the clock *)

(** A cache returns what was last set and may drop entries: [contents] is an
    upper bound of what it holds. *)
Class CacheLaws (C V : Type) `{!Cache C V} (contents : C → gmap string V) : Prop := {
  law_cache_Get k c :
    contents (cache_Get (V:=V) k c).2 ⊆ contents c
    ∧ ∀ v, (cache_Get k c).1 = Some v → contents c !! k = Some v;
  law_cache_Set k v c : contents (cache_Set k v c) ⊆ <[k := v]> (contents c);
  law_cache_Del k c : contents (cache_Del (V:=V) k c) ⊆ delete k (contents c);
}.
(** Time does not go back. *)
Class ClockLaws (CK : Type) `{!Clock CK} (time : CK → Z) : Prop := {
  law_clock c : time c ≤ (clock_Unix c).1 ≤ time (clock_Unix c).2;
}.

(** ** Keys *)
Definition no_colon (s : string) : Prop := colon ∉ bytes s.

Lemma Split_colon x rest : no_colon x → Split (x +:+ ":" +:+ rest) colon = x :: Split rest colon.
Proof.
  intros Hx. unfold Split. rewrite !bytes_app. cbn [String.list_ascii_of_string app].
  rewrite split_on_app by done. simpl. by rewrite str_bytes.
Qed.
Lemma Split_single x : no_colon x → Split x colon = [x].
Proof. intros Hx. unfold Split. rewrite split_on_no by done. simpl. by rewrite str_bytes. Qed.

Lemma splitDbKey_prefix s : splitDbKey (keyPrefix +:+ s) = Split s colon.
Proof. unfold splitDbKey. by rewrite TrimPrefix_app. Qed.

Section keys.
Variable TypeToString : Z → string.
Abbreviation rrset_key := (zoneLocationRRSetKey TypeToString).
Abbreviation type_str := (type_string TypeToString).

(** The events of the keyspace are taken apart as the keys were put together:
    the key of a record set is recognised, with its zone, label and type, and the
    keys of a zone's configuration, locations and DNSSEC keys are not taken for
    record sets and give the zone, as long as no part contains a colon. *)
Theorem splitDbKey_spec zone label rtype keyType :
  no_colon zone → no_colon label → no_colon (type_str rtype) → no_colon keyType →
  splitDbKey (rrset_key zone label rtype) = [zone; "labels"; label; type_str rtype]
  ∧ isRRSetEntry (splitDbKey (rrset_key zone label rtype)) = true
  ∧ Forall (λ k, isRRSetEntry (splitDbKey k) = false ∧ head (splitDbKey k) = Some zone)
      [zoneConfigKey zone; zoneLocationsKey zone; zonePubKey zone keyType;
       zonePrivKey zone keyType].
Proof.
  intros Hz Hl Ht Hk.
  assert (E : splitDbKey (rrset_key zone label rtype) = [zone; "labels"; label; type_str rtype]).
  { unfold zoneLocationRRSetKey. rewrite splitDbKey_prefix.
    change (":labels:" +:+ label +:+ ":" +:+ type_str rtype)
      with (":" +:+ "labels" +:+ ":" +:+ label +:+ ":" +:+ type_str rtype).
    by rewrite !Split_colon, Split_single by (done || by apply (bool_decide_unpack _)). }
  rewrite E. split_and!; [done|by apply bool_decide_eq_true|].
  unfold zoneConfigKey, zoneLocationsKey, zonePubKey, zonePrivKey.
  change ":config" with (":" +:+ "config"). change ":labels" with (":" +:+ "labels").
  change ":pub" with (":" +:+ "pub"). change ":priv" with (":" +:+ "priv").
  repeat apply Forall_cons_2; [..|done]; rewrite splitDbKey_prefix, !Split_colon, Split_single
    by (done || by apply (bool_decide_unpack _)); split; done.
Qed.

(** The type can be read off the key, whatever the zone and the label are. *)
Lemma rrset_key_type z l t z' l' t' :
  no_colon (type_str t) → no_colon (type_str t') →
  rrset_key z l t = rrset_key z' l' t' → type_str t = type_str t'.
Proof.
  intros Ht Ht' E. unfold zoneLocationRRSetKey in E.
  apply (f_equal (λ s, reverse (bytes s))) in E.
  assert (Hrev : ∀ a b c d e, reverse (bytes (a +:+ b +:+ c +:+ d +:+ ":" +:+ e))
            = reverse (bytes e) ++ colon :: reverse (bytes (a +:+ b +:+ c +:+ d))).
  { intros a b c d e. rewrite !bytes_app. cbn [String.list_ascii_of_string app].
    rewrite !reverse_app, reverse_cons, <-!app_assoc. done. }
  rewrite !Hrev in E.
  assert (Hcut : ∀ x y, colon ∉ x → cut_at colon (x ++ colon :: y) = Some (x, y)).
  { clear. intros x y. induction x as [|b x IH]; simpl; [done|].
    intros [? Hx]%not_elem_of_cons. case_decide; [congruence|]. by rewrite IH. }
  apply (f_equal (cut_at colon)) in E.
  unfold no_colon in *. rewrite !Hcut in E by by rewrite elem_of_reverse.
  injection E as E _. apply bytes_inj. by apply (inj reverse).
Qed.
End keys.

(** ** Types of record sets *)
Definition record_types : list Z :=
  [dns.TypeA; dns.TypeAAAA; dns.TypeCNAME; dns.TypeTXT; dns.TypeNS; dns.TypeMX; dns.TypeSRV;
   dns.TypeCAA; dns.TypePTR; dns.TypeTLSA; dns.TypeDS; TypeANAME].

(** The types a cached value can have been stored for. *)
Definition types_of (v : AnyRRSet) : list Z :=
  match v with
  | V_IP _ => [dns.TypeA; dns.TypeAAAA] | V_CNAME _ => [dns.TypeCNAME] | V_TXT _ => [dns.TypeTXT]
  | V_NS _ => [dns.TypeNS] | V_MX _ => [dns.TypeMX] | V_SRV _ => [dns.TypeSRV]
  | V_CAA _ => [dns.TypeCAA] | V_PTR _ => [dns.TypePTR] | V_TLSA _ => [dns.TypeTLSA]
  | V_DS _ => [dns.TypeDS] | V_ANAME _ => [TypeANAME]
  end.

(** The sets of type [t] are values of [R], and conversely. *)
Class Serves (R : Type) `{!RRSetKind R} (t : Z) : Prop := {
  serves_type : t ∈ record_types;
  serves_inject (r : R) : t ∈ types_of (inject r);
  serves_project v : t ∈ types_of v → is_Some (project (R:=R) v);
}.
Ltac serves := split;
  [by apply (bool_decide_unpack _)|intros []; by apply (bool_decide_unpack _)
  |intros []; simpl; intros H; try (by eexists);
   by rewrite ?elem_of_cons, ?elem_of_nil in H; naive_solver].
#[export] Instance serves_A : Serves IP_RRSet dns.TypeA. Proof. serves. Qed.
#[export] Instance serves_AAAA : Serves IP_RRSet dns.TypeAAAA. Proof. serves. Qed.
#[export] Instance serves_CNAME : Serves CNAME_RRSet dns.TypeCNAME. Proof. serves. Qed.
#[export] Instance serves_TXT : Serves TXT_RRSet dns.TypeTXT. Proof. serves. Qed.
#[export] Instance serves_NS : Serves NS_RRSet dns.TypeNS. Proof. serves. Qed.
#[export] Instance serves_MX : Serves MX_RRSet dns.TypeMX. Proof. serves. Qed.
#[export] Instance serves_SRV : Serves SRV_RRSet dns.TypeSRV. Proof. serves. Qed.
#[export] Instance serves_CAA : Serves CAA_RRSet dns.TypeCAA. Proof. serves. Qed.
#[export] Instance serves_PTR : Serves PTR_RRSet dns.TypePTR. Proof. serves. Qed.
#[export] Instance serves_TLSA : Serves TLSA_RRSet dns.TypeTLSA. Proof. serves. Qed.
#[export] Instance serves_DS : Serves DS_RRSet dns.TypeDS. Proof. serves. Qed.
#[export] Instance serves_ANAME : Serves ANAME_RRSet TypeANAME. Proof. serves. Qed.

(** ** The invariant of the caches *)
Create HintDb keeps discriminated.
Lemma map_Forall_subseteq {A} (P : string → A → Prop) (m1 m2 : gmap string A) :
  map_Forall P m2 → m1 ⊆ m2 → map_Forall P m1.
Proof. intros HP Hsub k v Hk. apply HP. by eapply lookup_weaken. Qed.

Section facts.
Context {T : Type → Type} `{!IRadix T} {RS RC ZC CK : Type}.
Context `{!RedisOps RS, !Cache RC AnyRRSet, !Cache ZC (Zone T), !Clock CK, !JsonDocs}.
Context {records : RC → gmap string AnyRRSet} {zones : ZC → gmap string (Zone T)}.
Context `{!CacheLaws RC AnyRRSet records, !CacheLaws ZC (Zone T) zones}.
Variable config : DataHandlerConfig.
Variable TypeToString : Z → string.
Variable Fqdn : string → string.
Variable unmarshal_config : string → ZoneConfig → ZoneConfig.
Variable NewRR : string → res string (option RR).
Variable NewPrivateKey : RR → string → res string string.
Variable KeyTag : RR → Z.
Variable Sign : RR → string → list RR → option RR.
Abbreviation DHS := (DH T RS RC ZC CK).
Abbreviation rrset_key := (zoneLocationRRSetKey TypeToString).
Abbreviation type_str := (type_string TypeToString).
Abbreviation get_zone :=
  (GetZone config Fqdn unmarshal_config NewRR NewPrivateKey KeyTag Sign (RC:=RC) (RS:=RS) (CK:=CK) (ZC:=ZC)).
(** The names of the types of package dns, as documented: distinct, without colon. *)
Hypothesis type_str_no_colon : ∀ t, t ∈ record_types → no_colon (type_str t).
Hypothesis type_str_inj : ∀ t t', t ∈ record_types → t' ∈ record_types →
  type_str t = type_str t' → t = t'.

Definition record_ok (key : string) (v : AnyRRSet) : Prop :=
  ∀ z l t, key = rrset_key z l t → t ∈ record_types → t ∈ types_of v.
Definition zone_ok (name : string) (z : Zone T) : Prop :=
  Name z = name ∧ keys_loaded z ∧ LocationsTree z = build_tree (LocationsList z).
Definition invariant (s : DHS) : Prop :=
  map_Forall record_ok (records (dh_recordCache s)) ∧ map_Forall zone_ok (zones (dh_zoneCache s)).

Lemma redis_keeps {A} (m : M RS A) : keeping invariant (redis m) (λ _, True).
Proof. intros s [Hr Hz]. unfold redis. by destruct (m (dh_redis s)). Qed.
Lemma Now_keeps : keeping invariant Now (λ _, True).
Proof. intros s [Hr Hz]. unfold Now. by destruct (clock_Unix _). Qed.
Lemma set_zones_keeps t : keeping invariant (set_zones t) (λ _, True).
Proof. by intros s [Hr Hz]. Qed.
Lemma FindZone_keeps q : keeping invariant (FindZone q) (λ _, True).
Proof. by intros s [Hr Hz]. Qed.
Lemma recordCache_Get_keeps k :
  keeping invariant (recordCache_Get k) (λ o, ∀ v, o = Some v → record_ok k v).
Proof.
  intros s [Hr Hz]. unfold recordCache_Get, on_recordCache.
  pose proof (law_cache_Get (V:=AnyRRSet) k (dh_recordCache s)) as [Hsub Hv].
  destruct (cache_Get k (dh_recordCache s)) as [o c]. simpl in *. split.
  - split; [by eapply map_Forall_subseteq|done].
  - intros v E. by apply (Hr k v), Hv.
Qed.
Lemma recordCache_Set_keeps k v :
  record_ok k v → keeping invariant (recordCache_Set k v) (λ _, True).
Proof.
  intros Hv s [Hr Hz]. split; [split; [|done]|done]. simpl.
  eapply map_Forall_subseteq; [by apply map_Forall_insert_2|]. apply law_cache_Set.
Qed.
Lemma recordCache_Del_keeps k : keeping invariant (recordCache_Del k) (λ _, True).
Proof.
  intros s [Hr Hz]. split; [split; [|done]|done]. simpl.
  eapply map_Forall_subseteq; [by apply map_Forall_delete|]. apply law_cache_Del.
Qed.
Lemma zoneCache_Get_keeps k :
  keeping invariant (zoneCache_Get k) (λ o, ∀ z, o = Some z → zone_ok k z).
Proof.
  intros s [Hr Hz]. unfold zoneCache_Get, on_zoneCache.
  pose proof (law_cache_Get (V:=Zone T) k (dh_zoneCache s)) as [Hsub Hv].
  destruct (cache_Get k (dh_zoneCache s)) as [o c]. simpl in *. split.
  - split; [done|by eapply map_Forall_subseteq].
  - intros v E. by apply (Hz k v), Hv.
Qed.
Lemma zoneCache_Set_keeps k z : zone_ok k z → keeping invariant (zoneCache_Set k z) (λ _, True).
Proof.
  intros Hv s [Hr Hz]. split; [split; [done|]|done]. simpl.
  eapply map_Forall_subseteq; [by apply map_Forall_insert_2|]. apply law_cache_Set.
Qed.
Lemma zoneCache_Del_keeps k : keeping invariant (zoneCache_Del k) (λ _, True).
Proof.
  intros s [Hr Hz]. split; [split; [done|]|done]. simpl.
  eapply map_Forall_subseteq; [by apply map_Forall_delete|]. apply law_cache_Del.
Qed.
Hint Resolve redis_keeps Now_keeps set_zones_keeps FindZone_keeps recordCache_Get_keeps
  recordCache_Set_keeps recordCache_Del_keeps zoneCache_Get_keeps zoneCache_Set_keeps
  zoneCache_Del_keeps keeping_ret : keeps.

(** One step of a proof that an operation keeps the invariant. *)
Ltac keep_step :=
  match goal with
  | |- keeping _ (mret _) _ => apply keeping_ret
  | |- keeping _ (_ <$> _) _ => apply keeping_fmap
  | |- keeping _ (match ?x with _ => _ end) _ => destruct x eqn:?
  | |- keeping _ (let _ := _ in _) _ => cbv zeta
  | |- keeping _ (_ ≫= _) _ => apply keeping_any; [by eauto with keeps|intros ?]
  end.
Ltac keeps := repeat keep_step; eauto with keeps.

(** *** Record sets *)
Section typed.
Context {R : Type} `{!RRSetKind R, !Json R} (t : Z) `{!Serves R t}.
Implicit Types (zone label : string).

Lemma record_ok_inject zone label (r : R) : record_ok (rrset_key zone label t) (inject r).
Proof.
  intros z l t' E Ht'. pose proof (serves_type (R:=R) (t:=t)) as Ht.
  apply rrset_key_type in E; [|by apply type_str_no_colon..].
  apply type_str_inj in E; [|done..]. subst. apply serves_inject.
Qed.

Definition result_ok (r : res StoreError AnyRRSet) : Prop :=
  match r with Ok v => t ∈ types_of v | Err e => e ≠ ECast end.

Lemma result_ok_inject (r : R) : result_ok (Ok (inject r)).
Proof. apply serves_inject. Qed.

Lemma store_result_keeps zone label (r : R) :
  keeping invariant (store_result (rrset_key zone label t) r) result_ok.
Proof.
  unfold store_result. apply keeping_any.
  - apply recordCache_Set_keeps, record_ok_inject.
  - intros _. apply keeping_ret, result_ok_inject.
Qed.

Lemma read_rrset_keeps zone label :
  keeping invariant (read_rrset R (rrset_key zone label t)) result_ok.
Proof. unfold read_rrset. keeps; by auto using store_result_keeps. Qed.

Lemma getRRSet_keeps zone label :
  keeping invariant (getRRSet config TypeToString R zone label t) result_ok.
Proof.
  unfold getRRSet. cbv zeta. eapply keeping_bind; [apply recordCache_Get_keeps|].
  intros o Ho. eapply (keeping_bind _ _ _ (λ hit, ∀ v, hit = Some v → o = Some v)).
  - destruct o; keeps; intros v'; case_match; congruence.
  - intros [v|] Hv; [|apply read_rrset_keeps]. apply keeping_ret. simpl.
    eapply Ho; [by apply Hv|done|]. apply (serves_type (R:=R)).
Qed.

Lemma get_typed_keeps zone label :
  keeping invariant (get_typed config TypeToString R t zone label) (λ r, r ≠ Err ECast).
Proof.
  unfold get_typed. apply keeping_fmap. eapply keeping_mono; [apply getRRSet_keeps|].
  intros [v|e] Hr; simpl in *; [|congruence].
  destruct (serves_project (R:=R) v Hr) as [r ->]. done.
Qed.
End typed.

(** *** Zones *)
Lemma redis_value_keeps k : keeping invariant (redis_value k) (λ _, True).
Proof. unfold redis_value. keeps. Qed.
Hint Resolve redis_value_keeps : keeps.
Lemma loadKey_keeps zone kt : keeping invariant (loadKey NewRR NewPrivateKey zone kt) (λ _, True).
Proof. unfold loadKey. keeps. Qed.
Hint Resolve loadKey_keeps : keeps.

(** What [loadZoneKeys] changes of a zone, and that it has keys if it is signed. *)
Definition keyed (z z' : Zone T) : Prop :=
  Name z' = Name z ∧ LocationsTree z' = LocationsTree z ∧ LocationsList z' = LocationsList z
  ∧ keys_loaded z'.

Lemma loadZoneKeys_keeps z :
  keeping invariant (loadZoneKeys NewRR NewPrivateKey KeyTag Sign z)
    (λ oz, ∀ z', oz = Some z' → keyed z z').
Proof.
  unfold loadZoneKeys. keeps; intros z' [= <-]; split_and!; try done; intros Hdns.
  by destruct (DnsSec (Config z)).
Qed.

Lemma load_zone_keeps zone :
  keeping invariant (load_zone config Fqdn unmarshal_config NewRR NewPrivateKey KeyTag Sign zone)
    (λ oz, ∀ z, oz = Some (Some z) → zone_ok zone z).
Proof.
  unfold load_zone. keep_step. keep_step; [|keeps; congruence].
  apply keeping_any; [eauto with keeps|intros configStr].
  apply keeping_any; [eauto with keeps|intros serial].
  eapply keeping_bind; [apply loadZoneKeys_keeps|].
  intros [z|] Hz; [|keeps; congruence].
  destruct (Hz _ eq_refl) as (E1 & E2 & E3 & Hk).
  apply keeping_any; [eauto with keeps|intros now]. cbv zeta.
  assert (Hok : zone_ok zone (set_timeout (now + ZoneCacheTimeout config) z)).
  { split_and!; [exact E1|done|]. simpl. by rewrite E2, E3. }
  apply keeping_any; [by apply zoneCache_Set_keeps|intros _].
  apply keeping_ret. by intros z' [= <-].
Qed.

Lemma GetZone_keeps zone :
  keeping invariant (get_zone zone) (λ oz, ∀ z, oz = Some (Some z) → zone_ok zone z).
Proof.
  unfold GetZone. eapply keeping_bind; [apply zoneCache_Get_keeps|]. intros o Ho.
  apply keeping_any; [keeps|]. intros fresh. case_match.
  - apply keeping_ret. intros z [= E]. by apply Ho.
  - eapply keeping_bind; [apply load_zone_keeps|]. intros oz Hoz. apply keeping_ret.
    intros z E. destruct oz as [[z'|]|]; simplify_eq; [by apply Hoz|by apply Ho].
Qed.

Lemma LoadZones_keeps : keeping invariant LoadZones (λ _, True).
Proof. unfold LoadZones. keeps. Qed.
Hint Resolve LoadZones_keeps : keeps.
Lemma on_event_keeps m e : keeping invariant (on_event m e) (λ _, True).
Proof.
  destruct e; simpl; keeps. apply keeping_any; [repeat case_match; eauto with keeps|intros _; keeps].
Qed.

(** ** The states the handler reaches *)

(** From empty caches, by its operations, its updater, and the outside world, which
    changes redis and the clock. (The writing operations only change redis.) *)
Inductive dh_step : DHS → DHS → Prop :=
| step_GetZone zone s : dh_step s (get_zone zone s).2
| step_getRRSet R `(!RRSetKind R) `(!Json R) t `(!Serves R t) zone label s :
    dh_step s (get_typed config TypeToString R t zone label s).2
| step_FindZone q s : dh_step s (FindZone q s).2
| step_LoadZones s : dh_step s (LoadZones s).2
| step_event modified e s : dh_step s (on_event modified e s).2
| step_world rs ck s :
    dh_step s {| dh_redis := rs; dh_zones := dh_zones s; dh_recordCache := dh_recordCache s;
                 dh_zoneCache := dh_zoneCache s; dh_clock := ck |}.
Definition initial (s : DHS) : Prop :=
  records (dh_recordCache s) = ∅ ∧ zones (dh_zoneCache s) = ∅.
Definition reachable (s : DHS) : Prop := ∃ s0, initial s0 ∧ rtc dh_step s0 s.

Lemma reachable_invariant s : reachable s → invariant s.
Proof.
  intros (s0 & [Hr Hz] & Hs).
  assert (invariant s0) as Hi.
  { unfold invariant. rewrite Hr, Hz. split; apply map_Forall_empty. }
  clear Hr Hz. induction Hs as [|s0 s1 s Hstep _ IH]; [done|]. apply IH. destruct Hstep.
  - by apply GetZone_keeps.
  - by apply (get_typed_keeps (R:=R) t).
  - by apply FindZone_keeps.
  - by apply LoadZones_keeps.
  - by apply on_event_keeps.
  - destruct Hi. by split.
Qed.

(** C22. The type assertions of the readers never fail: in every reachable state, a
    reader of a record set returns a set of its type or an error of redis or of the
    JSON document, whatever the caches kept. *)
Theorem readers_never_miscast R `{!RRSetKind R, !Json R} t `{!Serves R t} zone label s :
  reachable s → (get_typed config TypeToString R t zone label s).1 ≠ Err ECast.
Proof. intros Hs%reachable_invariant. by apply (get_typed_keeps (R:=R) t). Qed.

(** C21. In every reachable state, a zone that [GetZone] returns, from its cache or
    from redis, is the zone asked for, indexes its own locations, and has both its
    keys when it is signed. *)
Theorem GetZone_zone_ok zone z s :
  reachable s → (get_zone zone s).1 = Some (Some z) → zone_ok zone z.
Proof. intros Hs%reachable_invariant Hz. by apply (GetZone_keeps zone s Hs). Qed.
End facts.

(** ** Zones: the cache and the tree *)
Section zone_facts.
Context {T : Type → Type} `{IRadixLaws T} {RS RC ZC CK : Type}.
Context `{!RedisOps RS, !Cache RC AnyRRSet, !Cache ZC (Zone T), !Clock CK, !JsonDocs}.
Variable config : DataHandlerConfig.
Variable Fqdn : string → string.
Variable unmarshal_config : string → ZoneConfig → ZoneConfig.
Variable NewRR : string → res string (option RR).
Variable NewPrivateKey : RR → string → res string string.
Variable KeyTag : RR → Z.
Variable Sign : RR → string → list RR → option RR.
Abbreviation DHS := (DH T RS RC ZC CK).
Abbreviation get_zone :=
  (GetZone config Fqdn unmarshal_config NewRR NewPrivateKey KeyTag Sign (RC:=RC) (RS:=RS) (CK:=CK) (ZC:=ZC)).

(** A cached zone outlives redis: while it is fresh it is returned without a
    call to redis, and when it has expired but redis does not answer it is
    returned all the same. *)
Theorem GetZone_cached zone z (s : DHS) :
  (cache_Get zone (dh_zoneCache s)).1 = Some z →
  if (clock_Unix (dh_clock s)).1 <=? CacheTimeout z
  then (get_zone zone s).1 = Some (Some z) ∧ dh_redis (get_zone zone s).2 = dh_redis s
  else is_ok (redis_SMembers (zoneLocationsKey zone) (dh_redis s)).1 = false →
       (get_zone zone s).1 = Some (Some z).
Proof.
  intros Hc. unfold GetZone, zoneCache_Get, on_zoneCache. rewrite run_bind.
  destruct (cache_Get zone (dh_zoneCache s)) as [o c]. simpl in Hc. subst o. cbn [fst snd].
  rewrite !run_bind. unfold Now. cbn [dh_clock].
  destruct (clock_Unix (dh_clock s)) as [now ck]. cbn [fst snd mret M_ret].
  destruct (now <=? CacheTimeout z); [done|]. rewrite run_bind. unfold load_zone. rewrite run_bind.
  unfold redis. cbn [dh_redis]. intros Hf.
  destruct (redis_SMembers _ _) as [[l|e] rs]; [by simpl in Hf|]. done.
Qed.

(** [GetZone] panics only on a public key that is not a DNSKEY record. *)
Lemma GetZone_no_panic zone :
  (∀ p o, NewRR p = Ok o → ∃ rr f pr a k, o = Some rr ∧ Data rr = RD_DNSKEY f pr a k) →
  post (get_zone zone) is_Some.
Proof.
  intros Hrr. assert (Hkey : ∀ z kt, post (S:=DHS) (loadKey NewRR NewPrivateKey z kt) is_Some).
  { intros z kt. unfold loadKey. posts; try by eexists.
    all: destruct (Hrr _ _ ltac:(eassumption)) as (rr & f & pr & a' & k & ? & ?); congruence. }
  assert (Hkeys : ∀ z, post (S:=DHS) (loadZoneKeys NewRR NewPrivateKey KeyTag Sign z) is_Some).
  { intros z. unfold loadZoneKeys. post_step; [posts; by eexists|].
    eapply post_bind; [apply Hkey|]. intros [[zsk|]|] Hzsk; [|posts; by eexists|by destruct Hzsk].
    eapply post_bind; [apply Hkey|]. intros [[ksk|]|] Hksk; [|posts; by eexists|by destruct Hksk].
    posts; by eexists. }
  unfold GetZone. apply post_op. intros o. apply post_op. intros fresh.
  destruct fresh; [posts; by eexists|]. eapply (post_bind _ _ is_Some).
  - unfold load_zone. apply post_op. intros [l|e]; [|posts; by eexists].
    apply post_op. intros cfg. apply post_op. intros serial.
    eapply post_bind; [apply Hkeys|]. intros [z|] Hz; [|by destruct Hz]. posts; by eexists.
  - intros [[z|]|] Ha; posts; [by eexists|by eexists|by destruct Ha].
Qed.

End zone_facts.

Section tree_facts.
Context {T : Type → Type} `{IRadixLaws T} {RS RC ZC CK : Type} `{!RedisOps RS}.
Abbreviation DHS := (DH T RS RC ZC CK).

Lemma zone_tree_Get zs k :
  Forall ascii7 zs →
  match Get (zone_tree (T:=T) zs) k with
  | Some z => z ∈ zs ∧ k = rev_key z
  | None => ∀ z, z ∈ zs → k ≠ rev_key z
  end.
Proof.
  unfold zone_tree. induction zs as [|z zs IH] using rev_ind; intros Ha.
  { simpl. rewrite Get_New. set_solver. }
  apply Forall_app in Ha as [Ha [Hz _]%Forall_cons]. specialize (IH Ha).
  rewrite foldl_app. cbn [foldl]. rewrite Get_Insert. rewrite (ReverseName_ascii z Hz). case_decide; [set_solver|].
  destruct (Get _ k); set_solver.
Qed.

(** The zone found is the longest one of the list that encloses the name. *)
Lemma zone_tree_longest q zs :
  Forall ascii7 zs →
  match LongestPrefix (zone_tree (T:=T) zs) (rev_key q) with
  | Some (_, z) => z ∈ zs ∧ encloses z q
                   ∧ ∀ z', z' ∈ zs → encloses z' q → (String.length z' ≤ String.length z)%nat
  | None => ∀ z, z ∈ zs → ¬ encloses z q
  end.
Proof.
  intros Hzs. destruct (LongestPrefix _ _) as [[p z]|] eqn:E.
  - apply LongestPrefix_Some in E as (Hp & Hg & Hmax).
    pose proof (zone_tree_Get zs p Hzs) as Hz. rewrite Hg in Hz. destruct Hz as [Hz ->].
    split_and!; [done|by apply encloses_prefix|]. intros z' Hz' He.
    apply encloses_prefix in He. specialize (Hmax _ He). rewrite !rev_key_length in Hmax.
    enough (is_Some (Get (zone_tree (T:=T) zs) (rev_key z'))) as Hz'' by (specialize (Hmax Hz''); lia).
    pose proof (zone_tree_Get zs (rev_key z') Hzs) as Hg'.
    destruct (Get _ (rev_key z')) as [z''|]; [by eexists|]. by destruct (Hg' z').
  - intros z Hz He. apply encloses_prefix in He.
    pose proof (LongestPrefix_None _ _ E _ He) as Hn.
    pose proof (zone_tree_Get zs (rev_key z) Hzs) as Hg. rewrite Hn in Hg. by apply (Hg z).
Qed.

(** After [LoadZones] has read the zone list, [FindZone] returns the longest
    zone of the list that encloses the name (at a label boundary), and the empty
    string when there is none; a failed read leaves the zones as they were. *)
Theorem FindZone_longest q zs (s : DHS) :
  ascii7 q → Forall ascii7 zs →
  (redis_SMembers zonesKey (dh_redis s)).1 = Ok zs →
  let r := (FindZone q (LoadZones s).2).1 in
  (r ∈ zs ∧ encloses r q ∧ ∀ z, z ∈ zs → encloses z q → (String.length z ≤ String.length r)%nat)
  ∨ (r = empty_str ∧ ∀ z, z ∈ zs → ¬ encloses z q).
Proof.
  intros Hq Hzs Hm. unfold LoadZones. rewrite run_bind. unfold redis.
  destruct (redis_SMembers _ _) as [x rs]. simpl in Hm. subst x. unfold FindZone, set_zones. cbn [fst snd dh_zones].
  rewrite ReverseName_ascii by done. pose proof (zone_tree_longest q zs Hzs) as Hl.
  destruct (LongestPrefix _ _) as [[p z]|]; [by left|by right].
Qed.
End tree_facts.

(** ** Record sets: what the readers return, and what the writers store *)
Section record_facts.
Context {T : Type → Type} `{!IRadix T} {RS RC ZC CK : Type}.
Context `{!RedisOps RS, !Cache RC AnyRRSet, !Cache ZC (Zone T), !Clock CK, !JsonDocs}.
Context {rstr : RS → string → option string} {rset : RS → string → gset string}.
Context `{!RedisSpec RS rstr rset}.
Context {time : CK → Z} `{!ClockLaws CK time}.
Variable config : DataHandlerConfig.
Variable TypeToString : Z → string.
Abbreviation DHS := (DH T RS RC ZC CK).
Abbreviation rrset_key := (zoneLocationRRSetKey TypeToString).
Abbreviation stored s z l t := (rstr (dh_redis s) (rrset_key z l t)).

(** The set that the content of a key stands for. *)
Definition decode R `{!RRSetKind R, !Json R} (content : option string) : res StoreError R :=
  match content with
  | None => Ok zero
  | Some v => if str_empty v then Ok zero else
              match Unmarshal v with Ok r => Ok r | Err e => Err (EJson e) end
  end.

(** The record cache compares the time of day with the configured duration
    [RecordCacheTimeout]: from that second on (in 1970) it is never used. *)
Definition cache_expired (s : DHS) : Prop := RecordCacheTimeout config < time (dh_clock s).

Lemma getRRSet_cold R `{!RRSetKind R, !Json R} z l t s :
  cache_expired s →
  ∃ s', getRRSet config TypeToString R z l t s = read_rrset R (rrset_key z l t) s'
    ∧ dh_redis s' = dh_redis s ∧ dh_zones s' = dh_zones s ∧ cache_expired s'.
Proof.
  intros Hs. unfold getRRSet, recordCache_Get, on_recordCache. rewrite run_bind.
  destruct (cache_Get _ (dh_recordCache s)) as [[v|] c]; cbn [fst snd]; rewrite run_bind.
  - rewrite run_bind. unfold Now. cbn [dh_clock].
    pose proof (law_clock (time:=time) (dh_clock s)) as Hc.
    destruct (clock_Unix (dh_clock s)) as [now ck]. cbn [fst snd mret M_ret] in *.
    unfold cache_expired in *. rewrite (proj2 (Z.leb_gt _ _)) by lia.
    eexists. split; [done|]. simpl. split_and!; [done..|lia].
  - eexists. split; [done|]. by split_and!.
Qed.

Lemma store_result_run R `{!RRSetKind R} key (r : R) (s : DHS) :
  (store_result key r s).1 = Ok (inject r)
  ∧ dh_redis (store_result key r s).2 = dh_redis s
  ∧ dh_zones (store_result key r s).2 = dh_zones s
  ∧ dh_clock (store_result key r s).2 = dh_clock s.
Proof. by split_and!. Qed.

Lemma read_rrset_run R `{!RRSetKind R, !Json R} key (s : DHS) :
  let r := read_rrset R key s in
  (typed (R:=R) r.1 = decode R (rstr (dh_redis s) key)
   ∨ ∃ e, (redis_Get key (dh_redis s)).1 = Err e ∧ e ≠ ErrNil ∧ typed (R:=R) r.1 = Err (ERedis e))
  ∧ (∀ k, rstr (dh_redis r.2) k = rstr (dh_redis s) k)
  ∧ dh_zones r.2 = dh_zones s ∧ dh_clock r.2 = dh_clock s.
Proof.
  cbv zeta. unfold read_rrset, store_result, recordCache_Set, on_recordCache.
  rewrite run_bind. unfold redis.
  pose proof (spec_Get key (dh_redis s)) as Hg. destruct (redis_Get key (dh_redis s)) as [[v|e] rs];
    destruct Hg as [Hsame Hg]; cbn [fst snd].
  - rewrite Hg. simpl. destruct (str_empty v); [|destruct (Unmarshal v) as [r|e]];
      cbn; rewrite ?run_bind; cbn; rewrite ?project_inject; (split; [by left|split; [|done]]); intros k; apply Hsame.
  - destruct e; cbn; [rewrite run_bind; cbn; rewrite Hg, project_inject; split; [by left|split; [|done]]; intros k; apply Hsame|..];
      (split; [right; eexists; by split_and!|split; [intros k; apply Hsame|done]]).
Qed.

Lemma get_typed_run R `{!RRSetKind R, !Json R} z l t (s : DHS) :
  cache_expired s →
  let r := get_typed config TypeToString R t z l s in
  (r.1 = decode R (stored s z l t)
   ∨ ∃ e, (redis_Get (rrset_key z l t) (dh_redis s)).1 = Err e ∧ e ≠ ErrNil ∧ r.1 = Err (ERedis e))
  ∧ (∀ k, rstr (dh_redis r.2) k = rstr (dh_redis s) k)
  ∧ dh_zones r.2 = dh_zones s ∧ cache_expired r.2.
Proof.
  intros Hs. cbv zeta. unfold get_typed. rewrite run_fmap.
  destruct (getRRSet_cold R z l t s Hs) as (s' & -> & E1 & E2 & E3).
  destruct (read_rrset_run R (rrset_key z l t) s') as (Hr & Hk & Hz & Hc).
  rewrite E1 in Hr, Hk. simpl. split_and!; [done|done|by rewrite Hz|].
  unfold cache_expired. by rewrite Hc.
Qed.

Lemma SetRRSet_run R `{!Json R} z l t (r : R) (s : DHS) :
  let x := SetRRSet TypeToString z l t r s in
  (∀ k, k ≠ rrset_key z l t → rstr (dh_redis x.2) k = rstr (dh_redis s) k)
  ∧ (x.1 = Ok () → ∃ json, Marshal r = Ok json ∧ stored x.2 z l t = Some json).
Proof.
  cbv zeta. unfold SetRRSet, SetRRSetFromJson. destruct (Marshal r) as [json|e]; [|done].
  rewrite run_bind. unfold redis. pose proof (spec_Set (rrset_key z l t) json (dh_redis s)) as Hset.
  destruct (redis_Set _ _ _) as [[[]|e] rs]; destruct Hset as [Hk Hset]; simpl.
  - split; [intros k Hne; by apply Hk|]. eauto.
  - split; [intros k Hne; by apply Hk|done].
Qed.

(** A record set that is stored is read back: when both calls reach redis, the
    reader returns the set that [SetRRSet] was given, whatever the cache holds. *)
Theorem SetRRSet_roundtrip R `{!RRSetKind R, !Json R} z l t (r : R) json (s : DHS) :
  Marshal r = Ok json → json ≠ empty_str → Unmarshal json = Ok r →
  (SetRRSet TypeToString z l t r s).1 = Ok () →
  let s1 := (SetRRSet TypeToString z l t r s).2 in
  cache_expired s1 →
  let r1 := (get_typed config TypeToString R t z l s1).1 in
  r1 = Ok r ∨ ∃ e, r1 = Err (ERedis e).
Proof.
  intros Hm Hne Hu Hok s1 Hc r1.
  destruct (proj2 (SetRRSet_run R z l t r s) Hok) as (json' & Hm' & Hs).
  rewrite Hm in Hm'. injection Hm' as <-.
  destruct (get_typed_run R z l t s1 Hc) as [[E|(e & _ & _ & E)] _]; [left|right; by exists e].
  unfold r1. rewrite E. unfold s1. rewrite Hs. simpl.
  destruct (str_empty json) eqn:Hj; [by apply str_empty_true in Hj|]. by rewrite Hu.
Qed.
(** *** Locations *)
Definition clamp (ttl : Z) : Z := fixTTL ttl (MinTTL config) (MaxTTL config).
Lemma clamp_bounds ttl : MinTTL config ≤ MaxTTL config → MinTTL config ≤ clamp ttl ≤ MaxTTL config.
Proof. intros. unfold clamp, fixTTL. repeat case_match; lia. Qed.

(** The documents of a location's entry, with clamped TTLs. *)
Definition field_json {R} `{!RRSetKind R, !Json R} (e : option R) : option (res string string) :=
  (λ r, Marshal (set_ttl clamp r)) <$> e.
Definition entry_fields (e : locationEntry) : list (Z * option (res string string)) :=
  [(dns.TypeA, field_json (le_A e)); (dns.TypeAAAA, field_json (le_AAAA e));
   (dns.TypeCNAME, field_json (le_CNAME e)); (dns.TypeTXT, field_json (le_TXT e));
   (dns.TypeNS, field_json (le_NS e)); (dns.TypeMX, field_json (le_MX e));
   (dns.TypeSRV, field_json (le_SRV e)); (dns.TypeCAA, field_json (le_CAA e));
   (dns.TypePTR, field_json (le_PTR e)); (dns.TypeTLSA, field_json (le_TLSA e));
   (dns.TypeDS, field_json (le_DS e)); (TypeANAME, field_json (le_ANAME e))].
Definition field_value (old : option string) (f : option (res string string)) : option string :=
  match f with Some (Ok json) => Some json | _ => old end.

Definition write_field (z l : string) (f : Z * option (res string string)) : M DHS () :=
  match f.2 with
  | Some (Ok json) => _ ← redis (redis_Set (rrset_key z l f.1) json); mret ()
  | _ => mret ()
  end.
Definition write_fields (z l : string) (fs : list (Z * option (res string string))) : M DHS () :=
  foldr (λ f m, _ ← write_field z l f; m) (mret ()) fs.

Lemma set_entry_write {R} `{!RRSetKind R, !Json R} z l t (e : option R) (s : DHS) :
  (set_entry config TypeToString z l t e s).2 = (write_field z l (t, field_json e) s).2.
Proof.
  unfold set_entry, write_field, field_json, SetRRSet, SetRRSetFromJson. destruct e as [r|]; [|done].
  cbn. fold clamp. rewrite run_bind. cbn. destruct (Marshal _); [|done].
  by rewrite !run_bind.
Qed.

Lemma entry_fields_types entry : Forall (λ f, f.1 ∈ record_types) (entry_fields entry).
Proof. repeat apply Forall_cons_2; try done; by apply (bool_decide_unpack _). Qed.

(** The location is enabled, and then its fields are written one after another. *)
Lemma SetLocationFromJson_run z l value entry (s : DHS) :
  Unmarshal value = Ok entry → (EnableLocation z l s).1 = Ok () →
  SetLocationFromJson config TypeToString z l value s
  = (Ok (), (write_fields z l (entry_fields entry) (EnableLocation z l s).2).2).
Proof.
  intros Hu He. unfold SetLocationFromJson. rewrite Hu, run_bind.
  destruct (EnableLocation z l s) as [x s1]. simpl in He. subst x. cbn [fst snd].
  rewrite !run_bind. unfold entry_fields, write_fields. cbn [foldr].
  by rewrite !run_bind, !set_entry_write.
Qed.

Hypothesis redis_works : ∀ k v rs, (redis_Set k v rs).1 = Ok ().
Hypothesis type_str_inj : ∀ t t', t ∈ record_types → t' ∈ record_types →
  type_string TypeToString t = type_string TypeToString t' → t = t'.

Lemma types_distinct z l t t' : t ∈ record_types → t' ∈ record_types →
  rrset_key z l t = rrset_key z l t' → t = t'.
Proof.
  intros Ht Ht' E. apply type_str_inj; [done..|]. unfold zoneLocationRRSetKey in E.
  by repeat apply string_app_inj_l in E.
Qed.

Lemma write_field_run z l f k (s : DHS) :
  rstr (dh_redis (write_field z l f s).2) k =
  if decide (k = rrset_key z l f.1) then field_value (rstr (dh_redis s) k) f.2
  else rstr (dh_redis s) k.
Proof.
  unfold write_field. destruct f.2 as [[json|e]|]; simpl; [|by case_decide..].
  rewrite run_bind. unfold redis. pose proof (spec_Set (rrset_key z l f.1) json (dh_redis s)) as Hs.
  pose proof (redis_works (rrset_key z l f.1) json (dh_redis s)) as Hok.
  destruct (redis_Set _ _ _) as [x rs]. simpl in *. subst x. destruct Hs as [Hk Hv].
  case_decide; [subst; by apply Hv|by apply Hk].
Qed.

Lemma write_fields_run z l fs t (s : DHS) :
  t ∈ record_types → Forall (λ f, f.1 ∈ record_types) fs → NoDup fs.*1 →
  stored (write_fields z l fs s).2 z l t
  = field_value (stored s z l t) (list_find (λ f, f.1 = t) fs ≫= λ f, f.2.2).
Proof.
  intros Ht. revert s. induction fs as [|f fs IH]; intros s Hfs Hnd; [done|].
  apply Forall_cons in Hfs as [Hf Hfs]. apply NoDup_cons in Hnd as [Hn Hnd].
  unfold write_fields in *. csimpl. rewrite run_bind, IH, write_field_run by done.
  destruct (decide (f.1 = t)) as [E|E].
  - subst t. rewrite decide_True by done. csimpl.
    assert (list_find (λ f0, f0.1 = f.1) fs = None) as ->; [|done].
    apply list_find_None, Forall_forall. intros g Hg Eg. apply Hn. rewrite <-Eg.
    by apply list_elem_of_fmap_2.
  - rewrite decide_False by (intros Hk; by apply types_distinct in Hk).
    destruct (list_find _ fs) as [[i g]|]; done.
Qed.

(** A location is stored as its document says: when redis works, each record set
    the document has is stored under the key of its type with its TTL clamped to the
    configured bounds, and the sets it does not have keep their values. *)
Theorem SetLocationFromJson_stores z l value entry (s : DHS) :
  Unmarshal value = Ok entry → (EnableLocation z l s).1 = Ok () →
  let r := SetLocationFromJson config TypeToString z l value s in
  r.1 = Ok ()
  ∧ (MinTTL config ≤ MaxTTL config → ∀ ttl, MinTTL config ≤ clamp ttl ≤ MaxTTL config)
  ∧ ∀ t, t ∈ record_types →
      stored r.2 z l t
      = field_value (stored (EnableLocation z l s).2 z l t)
          (list_find (λ f, f.1 = t) (entry_fields entry) ≫= λ f, f.2.2).
Proof.
  intros Hu He. cbv zeta. rewrite (SetLocationFromJson_run _ _ _ _ _ Hu He). cbn [fst snd].
  split_and!; [done|by intros ? ?; apply clamp_bounds|]. intros t Ht. apply write_fields_run; [done| |].
  - apply entry_fields_types.
  - by apply (bool_decide_unpack _).
Qed.
End record_facts.

(** ** The server answers what redis holds *)
Section serve.
Context {T : Type → Type} `{!IRadix T} {RS RC ZC CK : Type}.
Context `{!RedisOps RS, !Cache RC AnyRRSet, !Cache ZC (Zone T), !Clock CK, !JsonDocs}.
Context {rstr : RS → string → option string} {rset : RS → string → gset string}.
Context `{!RedisSpec RS rstr rset}.
Context {time : CK → Z} `{!ClockLaws CK time}.
Variable config : DataHandlerConfig.
Variable TypeToString : Z → string.
Variable Fqdn : string → string.
Variable unmarshal_config : string → ZoneConfig → ZoneConfig.
Variable NewRR : string → res string (option RR).
Variable NewPrivateKey : RR → string → res string string.
Variable KeyTag : RR → Z.
Variable Sign : RR → string → list RR → option RR.
Abbreviation DHS := (DH T RS RC ZC CK).
Abbreviation stored s z l t := (rstr (dh_redis s) (zoneLocationRRSetKey TypeToString z l t)).
(** Redis answers every read, with a value or with nil. *)
Hypothesis redis_answers : ∀ k rs e, (redis_Get k rs).1 = Err e → e = ErrNil.

#[local] Instance the_store : DataStore T DHS :=
  dh_store config TypeToString Fqdn unmarshal_config NewRR NewPrivateKey KeyTag Sign.

(** The content of the store: what the documents in redis stand for. *)
Definition content (s : DHS) : Snapshot T := {|
  sn_FindZone q := (FindZone q s).1;
  sn_GetZone _ := None;
  sn_A z l := decode IP_RRSet (stored s z l dns.TypeA);
  sn_AAAA z l := decode IP_RRSet (stored s z l dns.TypeAAAA);
  sn_CNAME z l := decode CNAME_RRSet (stored s z l dns.TypeCNAME);
  sn_TXT z l := decode TXT_RRSet (stored s z l dns.TypeTXT);
  sn_NS z l := decode NS_RRSet (stored s z l dns.TypeNS);
  sn_MX z l := decode MX_RRSet (stored s z l dns.TypeMX);
  sn_SRV z l := decode SRV_RRSet (stored s z l dns.TypeSRV);
  sn_CAA z l := decode CAA_RRSet (stored s z l dns.TypeCAA);
  sn_PTR z l := decode PTR_RRSet (stored s z l dns.TypePTR);
  sn_TLSA z l := decode TLSA_RRSet (stored s z l dns.TypeTLSA);
  sn_DS z l := decode DS_RRSet (stored s z l dns.TypeDS);
  sn_ANAME z l := decode ANAME_RRSet (stored s z l TypeANAME);
  sn_Nanosecond := 0;
  sn_Upstream _ _ := ([], dns.RcodeServerFailure) |}.

(** [d] is the content of [s] and of every state that later reads lead to. *)
Definition holds (s0 s : DHS) (d : Snapshot T) : Prop :=
  d = content s0 ∧ cache_expired (time:=time) config s ∧ dh_zones s = dh_zones s0
  ∧ ∀ k, rstr (dh_redis s) k = rstr (dh_redis s0) k.

Lemma read_simulates s0 R `{!RRSetKind R, !Json R} t z l (f : Snapshot T → res StoreError R) :
  f (content s0) = decode R (stored s0 z l t) →
  simulates (holds s0) (get_typed config TypeToString R t z l) (gets f).
Proof.
  intros Hf s d (-> & Hc & Hz & Hk). unfold gets. simpl. rewrite Hf.
  destruct (get_typed_run (rstr:=rstr) (rset:=rset) config TypeToString R z l t s Hc)
    as ([E|(e & He & Hne & _)] & Hk' & Hz' & Hc').
  - rewrite E, Hk. split; [done|]. split_and!; [done|done|by rewrite Hz'|]. intros k. by rewrite Hk', Hk.
  - by apply redis_answers in He.
Qed.

#[local] Instance dh_sim s0 : StoreSim T DHS (Snapshot T) (holds s0).
Proof.
  split; intros; try (by apply read_simulates).
  intros s d (-> & Hc & Hz & Hk). split; [|done].
  change ((FindZone q s).1 = (FindZone q s0).1). unfold FindZone. cbn [fst]. by rewrite Hz.
Qed.

(** C2. The server over redis answers what redis holds: when redis answers every
    read, the handler run on the data handler gives the response it gives on the
    content of the store, for any clock and upstream resolver beside it. *)
Theorem server_answers_content {O F} `{!Outside O, !Float64 F} unicode_lower (geoip : GeoIp F)
    z zn fl q c (s : DHS) (o : O) :
  cache_expired (time:=time) config s →
  (resolve (S:=DHS * O) unicode_lower Fqdn geoip z zn fl q c (s, o)).1
  = (resolve (S:=Snapshot T * O) unicode_lower Fqdn geoip z zn fl q c (content s, o)).1.
Proof.
  intros Hc. apply (resolve_simulates (beside (holds s)) unicode_lower Fqdn geoip z zn fl q c
                      (s, o) (content s, o)).
  split; [|done]. by split_and!.
Qed.
End serve.
