(* ===== verification/Updater.v ===== *)
(** * The zone updater: the goroutine of [NewDataHandler] beside the world

    [on_event] of [DataHandler] treats a reload as one operation. Here it is taken
    apart, since the callbacks of the subscription run in a goroutine of their own
    and write the same variable [modified]: the updater reads the list of zones,
    replaces the tree, and then clears [modified], and redis changes and notifies
    in between. The two subscriptions are [Subscribe] of [Redis.v]; here they are up
    or not, and a change of the list is a message on its way while they are up. *)
From S2P Require Import Prelude GoStrings Redis Radix DnsTypes Zone Store DataHandler.
Local Open Scope Z_scope.

(** Where the loop of the updater is. *)
Inductive place :=
| Selecting
| Loading                                       (* case <-reloadTicker.C, modified *)
| ListRead (r : res RedisError (list string))   (* redis.SMembers has answered *)
| Replaced.                                     (* LoadZones has returned *)

Section updater.
Context {T : Type → Type} `{!IRadix T} {RS RC ZC CK : Type} `{!RedisOps RS}.
Context {rset : RS → string → gset string}.
Abbreviation DHS := (DH T RS RC ZC CK).

Record Updater := {
  data : DHS; modified : bool; at_ : place;
  subscribed : bool;
  pending : nat;   (* messages about the list that have not been handled *)
}.

(** [NewDataHandler] on new caches: the first [LoadZones], then the goroutine. *)
Definition NewDataHandler (rs : RS) (rc : RC) (zc : ZC) (ck : CK) : Updater := {|
  data := (LoadZones {| dh_redis := rs; dh_zones := New; dh_recordCache := rc; dh_zoneCache := zc;
                        dh_clock := ck |}).2;
  modified := false; at_ := Selecting; subscribed := false; pending := 0 |}.

Definition set_redis (rs : RS) (d : DHS) : DHS := {|
  dh_redis := rs; dh_zones := dh_zones d; dh_recordCache := dh_recordCache d; dh_zoneCache := dh_zoneCache d;
  dh_clock := dh_clock d |}.
Definition set_tree (t : T string) (d : DHS) : DHS := {|
  dh_redis := dh_redis d; dh_zones := t; dh_recordCache := dh_recordCache d; dh_zoneCache := dh_zoneCache d;
  dh_clock := dh_clock d |}.
Definition move (a : place) (u : Updater) : Updater := {|
  data := data u; modified := modified u; at_ := a; subscribed := subscribed u; pending := pending u |}.
Definition set_data (d : DHS) (u : Updater) : Updater := {|
  data := d; modified := modified u; at_ := at_ u; subscribed := subscribed u; pending := pending u |}.
Definition set_modified (b : bool) (u : Updater) : Updater := {|
  data := data u; modified := b; at_ := at_ u; subscribed := subscribed u; pending := pending u |}.
Definition set_messages (sub : bool) (n : nat) (u : Updater) : Updater := {|
  data := data u; modified := modified u; at_ := at_ u; subscribed := sub; pending := n |}.

Abbreviation listed u := (rset (dh_redis (data u)) zonesKey).
(** The callbacks do not run during a reload. *)
Definition between_reloads (u : Updater) : Prop := at_ u = Selecting ∨ at_ u = Loading.

(** [calm]: the callbacks never run during a reload, and reads of the list succeed. *)
Inductive step (calm : bool) (u : Updater) : Updater → Prop :=
| list_changes rs : (* someone writes the set of zones *)
    step calm u (set_messages (subscribed u) (if subscribed u then S (pending u) else pending u)
                   (set_data (set_redis rs (data u)) u))
| handler_works d : (* caches, the clock, other keys *)
    dh_zones d = dh_zones (data u) → rset (dh_redis d) zonesKey = listed u →
    step calm u (set_data d u)
| subscribes : (* onStart: modified = true *)
    subscribed u = false → (calm = true → between_reloads u) →
    step calm u (set_modified true (set_messages true 0 u))
| disconnects :
    subscribed u = true → step calm u (set_messages false 0 u)
| notified n : (* onMessage: modified = true *)
    pending u = S n → (calm = true → between_reloads u) →
    step calm u (set_modified true (set_messages (subscribed u) n u))
| reload_tick :
    at_ u = Selecting → modified u = true → step calm u (move Loading u)
| force_tick :
    at_ u = Selecting → step calm u (set_modified true u)
| reads_list r rs :
    at_ u = Loading → redis_SMembers zonesKey (dh_redis (data u)) = (r, rs) →
    (calm = true → is_ok r = true) →
    step calm u (move (ListRead r) (set_data (set_redis rs (data u)) u))
| replaces r :
    at_ u = ListRead r →
    step calm u (move Replaced (set_data match r with
                                         | Ok zs => set_tree (zone_tree zs) (data u)
                                         | Err _ => data u
                                         end u))
| clears :
    at_ u = Replaced → step calm u (move Selecting (set_modified false u)).

(** A reload that nothing interrupts is [LoadZones], and clears [modified]. *)
Lemma reload_is_LoadZones u :
  at_ u = Selecting → modified u = true →
  ∃ u', rtc (step false) u u' ∧ data u' = (LoadZones (data u)).2 ∧ modified u' = false ∧ at_ u' = Selecting.
Proof.
  intros Ha Hm. destruct (redis_SMembers zonesKey (dh_redis (data u))) as [r rs] eqn:E.
  eexists. split.
  - eapply rtc_l; [by apply reload_tick|]. eapply rtc_l; [by apply (reads_list _ _ r rs)|].
    eapply rtc_l; [by apply (replaces _ _ r)|]. eapply rtc_l; [by apply clears|]. apply rtc_refl.
  - split; [|done]. cbn. unfold LoadZones, redis. rewrite run_bind, E. by destruct r.
Qed.

(** ** Theorems *)
Context {rstr : RS → string → option string} `{!RedisSpec RS rstr rset}.

(** The tree holds exactly the zones that redis lists. *)
Definition lists (zs : list string) (u : Updater) : Prop := ∀ z, z ∈ zs ↔ z ∈ listed u.
Definition current (u : Updater) : Prop := ∃ zs, dh_zones (data u) = zone_tree zs ∧ lists zs u.
(** The updater has nothing to do and hears of changes. *)
Definition settled (u : Updater) : Prop :=
  at_ u = Selecting ∧ modified u = false ∧ subscribed u = true ∧ pending u = 0%nat.

(** Something is known or will be known of the difference. *)
Definition aware (u : Updater) : Prop := subscribed u = false ∨ pending u ≠ 0%nat.
Definition tracked (u : Updater) : Prop :=
  match at_ u with
  | Selecting => aware u ∨ modified u = true ∨ current u
  | Loading => modified u = true
  | ListRead (Ok zs) => aware u ∨ lists zs u
  | ListRead (Err _) => False
  | Replaced => aware u ∨ current u
  end.

Lemma SMembers_lists r rs u :
  redis_SMembers zonesKey (dh_redis (data u)) = (r, rs) →
  rset rs zonesKey = listed u ∧ ∀ zs, r = Ok zs → lists zs u.
Proof.
  intros E. pose proof (spec_SMembers zonesKey (dh_redis (data u))) as Hs. rewrite E in Hs.
  destruct Hs as [Hk Hr]. split; [apply Hk|]. intros zs ->. exact (proj2 Hr).
Qed.
Lemma aware_or u : aware u ∨ (subscribed u = true ∧ pending u = 0%nat).
Proof. unfold aware. destruct (subscribed u); [|auto]. destruct (pending u); auto. Qed.

Lemma tracked_step u u' : tracked u → step true u u' → tracked u'.
Proof.
  intros Ht Hstep.
  destruct Hstep as [rs|d Hz Hl|Hs Hb|Hs|n Hp Hb|Ha Hm|Ha|r rs Ha Hr Hok|r Ha|Ha].
  - assert (aware (set_messages (subscribed u) (if subscribed u then S (pending u) else pending u)
              (set_data (set_redis rs (data u)) u))) as Hw.
    { unfold aware. cbn. destruct (subscribed u); auto. }
    unfold tracked in *. cbn in *. by destruct (at_ u) as [| |[]|]; auto.
  - unfold tracked, aware, current, lists in *. cbn in *.
    destruct (at_ u) as [| |[]|]; try done; by rewrite ?Hz, ?Hl.
  - unfold tracked. cbn. destruct (Hb eq_refl) as [-> | ->]; auto.
  - unfold tracked, aware in *. cbn in *. destruct (at_ u) as [| |[]|]; auto.
  - unfold tracked. cbn. destruct (Hb eq_refl) as [-> | ->]; auto.
  - done.
  - unfold tracked. cbn. rewrite Ha. auto.
  - unfold tracked. cbn. destruct (SMembers_lists _ _ _ Hr) as [Hk Hls].
    destruct r as [zs|e]; [|by specialize (Hok eq_refl)]. right. unfold lists. cbn. rewrite Hk. by apply Hls.
  - unfold tracked in Ht. rewrite Ha in Ht. destruct r as [zs|e]; [|done]. unfold tracked. cbn.
    destruct Ht as [Ht|Ht]; [by left|right]. by exists zs.
  - unfold tracked in *. cbn. rewrite Ha in Ht. destruct Ht as [Ht|Ht]; [by left|by right; right].
Qed.

(** C38. The served zones follow redis: as long as the callbacks of the subscription do
    not run in the middle of a reload and the reads of the list succeed, whenever the
    updater has nothing to do and no message is on its way, it serves exactly the
    zones that redis lists. *)
Theorem settled_is_current rs rc zc ck u :
  rtc (step true) (NewDataHandler rs rc zc ck) u → settled u → current u.
Proof.
  intros Hr (Ha & Hm & Hs & Hp). assert (tracked u) as Ht.
  { remember (NewDataHandler rs rc zc ck) as u0 eqn:E0.
    assert (tracked u0) as H0 by (subst; by left; left). clear E0. induction Hr; eauto using tracked_step. }
  unfold tracked, aware in Ht. rewrite Ha, Hm, Hs, Hp in Ht. by destruct Ht as [[|]|[|]].
Qed.

(** Nothing happens that would wake the updater. *)
Definition unheard (u u' : Updater) : Prop := step false u u' ∧ settled u'.
Lemma unheard_keeps u u' :
  settled u → rtc unheard u u' → dh_zones (data u') = dh_zones (data u) ∧ listed u' = listed u.
Proof.
  intros Hu Hr. induction Hr as [u|u u1 u2 [Hstep H1] Hr IH]; [done|].
  destruct (IH H1) as [-> ->]. clear IH Hr. destruct Hu as (Ha & Hm & Hs & Hp), H1 as (Ha1 & Hm1 & Hs1 & Hp1).
  destruct Hstep; cbn in *; try done; try congruence. by rewrite Hs in Hp1.
Qed.

(** A change of the list is lost when its message comes while a reload is under way,
    after the list was read: [modified] is cleared with it. The updater then has
    nothing to do and serves the old zones, until the list changes once more, the
    subscription breaks, or the hourly forced reload. *)
Theorem update_lost rs rc zc ck zs rs1 rs' :
  let u0 := NewDataHandler rs rc zc ck in
  redis_SMembers zonesKey (dh_redis (data u0)) = (Ok zs, rs1) → rset rs' zonesKey ≠ rset rs1 zonesKey →
  ∃ u, rtc (step false) u0 u ∧ settled u ∧ dh_redis (data u) = rs' ∧ ¬ lists zs u
       ∧ ∀ u', rtc unheard u u' → dh_zones (data u') = zone_tree zs ∧ listed u' = rset rs' zonesKey.
Proof.
  intros u0 Hzs Hne. destruct (SMembers_lists _ _ _ Hzs) as [Hk Hls]. specialize (Hls zs eq_refl).
  eexists. split.
  { eapply rtc_l; [by apply subscribes|]. eapply rtc_l; [by apply reload_tick|].
    eapply rtc_l; [by apply (reads_list _ _ (Ok zs) rs1)|]. eapply rtc_l; [apply (list_changes _ _ rs')|].
    eapply rtc_l; [by apply (notified _ _ 0)|]. eapply rtc_l; [by apply (replaces _ _ (Ok zs))|].
    eapply rtc_l; [by apply clears|]. apply rtc_refl. }
  split; [by split_and!|]. split; [done|]. split.
  - intros Hl. apply Hne. apply set_eq. intros z. rewrite Hk, <-(Hls z). symmetry. apply (Hl z).
  - intros u' Hu'. edestruct (λ H, unheard_keeps _ _ H Hu') as [-> ->]; [by split_and!|done].
Qed.
End updater.
