(* ===== verification/ZoneLoads.v ===== *)
(** * Concurrent requests for one zone: [GetZone] of [internal/storage/data_handler.go]

    [GetZone] of [DataHandler] runs alone. Here its calls for one zone are taken
    apart: each looks into the cache, compares the time, and joins or starts the load
    that [zoneInflight] keeps for the zone (as documented: one load at a time, whose
    answer goes to all who wait); the load reads the locations and the configuration
    from redis one after the other, reads the keys, and stores the zone. Meanwhile
    redis and the clock go on, and events of the keyspace evict the zone. *)
From S2P Require Import Prelude GoStrings Redis Radix DnsTypes Zone Dnssec Store DataHandler DataHandlerFacts.
Local Open Scope Z_scope.

Create HintDb quiet discriminated.

Section loads.
Context {T : Type → Type} `{!IRadix T} {RS RC ZC CK : Type}.
Context `{!RedisOps RS, !Cache ZC (Zone T), !Clock CK}.
Variable config : DataHandlerConfig.
Variable Fqdn : string → string.
Variable unmarshal_config : string → ZoneConfig → ZoneConfig.
Variable NewRR : string → res string (option RR).
Variable NewPrivateKey : RR → string → res string string.
Variable KeyTag : RR → Z.
Variable Sign : RR → string → list RR → option RR.
Variable zone : string.
Abbreviation DHS := (DH T RS RC ZC CK).
Context {time : CK → Z}.

(** The function given to [zoneInflight.Do], by what it has read so far. *)
Inductive load :=
| Listing
| Configuring (locations : list string)
| Building (locations : list string) (configStr : string)
| Storing (z : Zone T)
| Finished (answer : option (option (Zone T))).

(** How a call ended: with a fresh zone of the cache, with the zone of a load, with
    what the cache held although it had expired, or in a panic. *)
Inductive result :=
| Cached (now : Z) (z : Zone T)
| Loaded (z : Zone T)
| Fallback (cachedZone : option (Zone T))
| Panicked.
Inductive caller :=
| Checking (cachedZone : option (Zone T))
| Joining (cachedZone : option (Zone T))
| Waiting (cachedZone : option (Zone T))
| Returned (r : result).

(** [reads] logs the states of redis that a load has read, with the time. *)
Record Run := {
  dh : DHS; loading : option load; callers : gmap nat caller; reads : list (Z * RS);
}.
Definition idle (s : DHS) : Run := {| dh := s; loading := None; callers := ∅; reads := [] |}.
Definition on_dh (s : DHS) (r : Run) : Run :=
  {| dh := s; loading := loading r; callers := callers r; reads := reads r |}.
Definition set_load (l : option load) (r : Run) : Run :=
  {| dh := dh r; loading := l; callers := callers r; reads := reads r |}.
Definition set_caller (i : nat) (c : caller) (r : Run) : Run :=
  {| dh := dh r; loading := loading r; callers := <[i := c]> (callers r); reads := reads r |}.
Definition log_read (r : Run) : Run :=
  {| dh := dh r; loading := loading r; callers := callers r;
     reads := (time (dh_clock (dh r)), dh_redis (dh r)) :: reads r |}.

(** What the answer of the load is to a caller that waits for it. *)
Definition answered (answer : option (option (Zone T))) (c : caller) : caller :=
  match c with
  | Waiting cachedZone =>
    Returned match answer with
             | None => Panicked
             | Some (Some z) => Loaded z
             | Some None => Fallback cachedZone
             end
  | c => c
  end.

Inductive step (r : Run) : Run → Prop :=
| world s : (* redis, the clock, other keys of the caches *)
    dh_zoneCache s = dh_zoneCache (dh r) → time (dh_clock (dh r)) ≤ time (dh_clock s) → step r (on_dh s r)
| evicts : (* an event of a key of the zone *)
    step r (on_dh (zoneCache_Del zone (dh r)).2 r)
| calls i s o :
    callers r !! i = None → zoneCache_Get zone (dh r) = (o, s) →
    step r (set_caller i (match o with Some z => Checking (Some z) | None => Joining None end) (on_dh s r))
| checks i z s now :
    callers r !! i = Some (Checking (Some z)) → Now (dh r) = (now, s) →
    step r (set_caller i (if now <=? CacheTimeout z then Returned (Cached now z) else Joining (Some z)) (on_dh s r))
| joins i o :
    callers r !! i = Some (Joining o) →
    step r (set_caller i (Waiting o) (set_load (Some (default Listing (loading r))) r))
| lists a s :
    loading r = Some Listing → DataHandler.redis (redis_SMembers (zoneLocationsKey zone)) (dh r) = (a, s) →
    step r (set_load (Some (match a with Ok l => Configuring l | Err _ => Finished (Some None) end))
              (on_dh s (log_read r)))
| configures l cfg s :
    loading r = Some (Configuring l) → redis_value (zoneConfigKey zone) (dh r) = (cfg, s) →
    step r (set_load (Some (Building l cfg)) (on_dh s (log_read r)))
| builds l cfg oz s :
    loading r = Some (Building l cfg) →
    (serial ← Now; loadZoneKeys NewRR NewPrivateKey KeyTag Sign (NewZone Fqdn unmarshal_config zone l cfg serial))
      (dh r) = (oz, s) →
    step r (set_load (Some (match oz with Some z => Storing z | None => Finished None end)) (on_dh s r))
| stores z now s :
    loading r = Some (Storing z) → Now (dh r) = (now, s) →
    let z := set_timeout (now + ZoneCacheTimeout config) z in
    step r (set_load (Some (Finished (Some (Some z)))) (on_dh (zoneCache_Set zone z s).2 r))
| finishes a :
    loading r = Some (Finished a) →
    step r {| dh := dh r; loading := None; callers := answered a <$> callers r; reads := reads r |}.

(** ** Alone, this is [load_zone], and [GetZone] *)
Abbreviation runs := (rtc step).
Abbreviation load_alone := (load_zone config Fqdn unmarshal_config NewRR NewPrivateKey KeyTag Sign zone).
Abbreviation get_alone := (GetZone config Fqdn unmarshal_config NewRR NewPrivateKey KeyTag Sign zone).

Lemma alone_is_load_zone r :
  loading r = Some Listing →
  ∃ r', runs r r' ∧ loading r' = Some (Finished (load_alone (dh r)).1) ∧ dh r' = (load_alone (dh r)).2
        ∧ callers r' = callers r.
Proof.
  intros Hl. unfold load_zone. rewrite run_bind.
  destruct (DataHandler.redis (redis_SMembers (zoneLocationsKey zone)) (dh r)) as [[locs|e] s] eqn:E1; cbn [fst snd].
  2:{ eexists. split; [by eapply rtc_once, lists|done]. }
  rewrite run_bind. destruct (redis_value (zoneConfigKey zone) s) as [cfg s1] eqn:E2. cbn [fst snd].
  destruct ((serial ← Now; loadZoneKeys NewRR NewPrivateKey KeyTag Sign
              (NewZone Fqdn unmarshal_config zone locs cfg serial)) s1) as [oz s2] eqn:E3.
  rewrite run_bind in E3. rewrite run_bind. rewrite run_bind, E3. cbn [fst snd].
  destruct oz as [z|].
  - rewrite run_bind. destruct (Now s2) as [now s3] eqn:E4. cbn [fst snd]. cbv zeta. rewrite run_bind.
    eexists. split.
    + eapply rtc_l; [by eapply lists|]. eapply rtc_l; [by eapply configures|].
      eapply rtc_l; [eapply builds; [done|by rewrite run_bind]|]. apply rtc_once. by eapply stores.
    + done.
  - eexists. split.
    + eapply rtc_l; [by eapply lists|]. eapply rtc_l; [by eapply configures|].
      apply rtc_once. eapply builds; [done|by rewrite run_bind].
    + done.
Qed.

Definition result_zone (r : result) : option (option (Zone T)) :=
  match r with Cached _ z | Loaded z => Some (Some z) | Fallback o => Some o | Panicked => None end.

Lemma load_and_finish i o r :
  callers r !! i = Some (Joining o) → loading r = None →
  ∃ r' res, runs r r' ∧ dh r' = (load_alone (dh r)).2 ∧ callers r' !! i = Some (Returned res)
    ∧ result_zone res = match (load_alone (dh r)).1 with
                        | None => None | Some (Some z) => Some (Some z) | Some None => Some o
                        end.
Proof.
  intros Hi Hl. pose proof (joins r i o Hi) as Hj. rewrite Hl in Hj. cbn [default] in Hj.
  destruct (alone_is_load_zone (set_caller i (Waiting o) (set_load (Some Listing) r)) eq_refl)
    as (r1 & Hr1 & Hl1 & Hd1 & Hc1). cbn [dh set_caller set_load] in *.
  eexists _, _. split; [eapply rtc_l; [exact Hj|]; etrans; [exact Hr1|]; by eapply rtc_once, finishes|].
  cbn. split; [done|]. rewrite lookup_fmap, Hc1. cbn. rewrite lookup_insert_eq. split; [done|].
  by destruct (load_alone (dh r)).1 as [[z|]|].
Qed.

Lemma alone_is_GetZone i s :
  ∃ r res, runs (idle s) r ∧ dh r = (get_alone s).2 ∧ callers r !! i = Some (Returned res)
           ∧ result_zone res = (get_alone s).1.
Proof.
  unfold GetZone. rewrite run_bind. destruct (zoneCache_Get zone s) as [o s1] eqn:E1. cbn [fst snd].
  pose proof (calls (idle s) i s1 o (lookup_empty i) E1) as H1. rewrite run_bind. destruct o as [z|].
  - rewrite run_bind. destruct (Now s1) as [now s2] eqn:E2. cbn [fst snd mret M_ret].
    assert (H2 := checks (set_caller i (Checking (Some z)) (on_dh s1 (idle s))) i z s2 now
      (lookup_insert_eq _ _ _) E2).
    destruct (now <=? CacheTimeout z) eqn:Ef; cbn.
    + eexists _, _. split; [eapply rtc_l; [exact H1|]; by apply rtc_once|].
      cbn. by rewrite lookup_insert_eq.
    + destruct (load_and_finish i (Some z) (set_caller i (Joining (Some z)) (on_dh s2
        (set_caller i (Checking (Some z)) (on_dh s1 (idle s))))) (lookup_insert_eq _ _ _) eq_refl)
        as (r & res & Hr & Hd & Hc & Hz).
      exists r, res. split; [eapply rtc_l; [exact H1|]; eapply rtc_l; [exact H2|exact Hr]|]. rewrite run_bind. done.
  - cbn [fst snd mret M_ret].
    destruct (load_and_finish i None (set_caller i (Joining None) (on_dh s1 (idle s)))
      (lookup_insert_eq _ _ _) eq_refl) as (r & res & Hr & Hd & Hc & Hz).
    exists r, res. split; [eapply rtc_l; [exact H1|exact Hr]|]. rewrite run_bind. done.
Qed.

(** ** Where a zone comes from *)
Context {rstr : RS → string → option string} {rset : RS → string → gset string}.
Context `{!RedisSpec RS rstr rset, !ClockLaws CK time}.
Context {zones : ZC → gmap string (Zone T)} `{!CacheLaws ZC (Zone T) zones}.

Definition listed_at (reads : list (Z * RS)) (locs : list string) (t : Z) : Prop :=
  ∃ rs, (t, rs) ∈ reads ∧ ∀ l, l ∈ locs ↔ l ∈ rset rs (zoneLocationsKey zone).
(** A configuration that cannot be read is taken as the empty document. *)
Definition configured_at (reads : list (Z * RS)) (cfg : string) (t : Z) : Prop :=
  ∃ rs, (t, rs) ∈ reads ∧ (rstr rs (zoneConfigKey zone) = Some cfg ∨ cfg = empty_str).
(** The zone was made from locations read at [t1] and a configuration read at [t2]. *)
Definition made_of (reads : list (Z * RS)) (z : Zone T) (t1 t2 : Z) : Prop :=
  ∃ cfg serial, listed_at reads (LocationsList z) t1 ∧ configured_at reads cfg t2
    ∧ Name z = zone ∧ LocationsTree z = build_tree (LocationsList z)
    ∧ SOA (Config z) = SOA (ZoneConfigFromJson Fqdn unmarshal_config zone cfg serial).
(** By a load that ended at [e], which its expiry tells. *)
Definition loaded_at (reads : list (Z * RS)) (z : Zone T) (e : Z) : Prop :=
  CacheTimeout z = e + ZoneCacheTimeout config ∧ ∃ t1 t2, made_of reads z t1 t2 ∧ t1 ≤ t2 ≤ e.
Definition known (reads : list (Z * RS)) (t : Z) (z : Zone T) : Prop := ∃ e, loaded_at reads z e ∧ e ≤ t.

Definition load_ok (reads : list (Z * RS)) (t : Z) (l : load) : Prop :=
  match l with
  | Listing | Finished None | Finished (Some None) => True
  | Configuring locs => ∃ t1, listed_at reads locs t1 ∧ t1 ≤ t
  | Building locs cfg => ∃ t1 t2, listed_at reads locs t1 ∧ configured_at reads cfg t2 ∧ t1 ≤ t2 ≤ t
  | Storing z => ∃ t1 t2, made_of reads z t1 t2 ∧ t1 ≤ t2 ≤ t
  | Finished (Some (Some z)) => known reads t z
  end.
Definition caller_ok (reads : list (Z * RS)) (t : Z) (c : caller) : Prop :=
  match c with
  | Checking (Some z) => known reads t z
  | Returned (Loaded z) => known reads t z
  | Returned (Cached now z) => ∃ e, loaded_at reads z e ∧ e ≤ now ≤ CacheTimeout z
  | _ => True
  end.
Abbreviation now_of r := (time (dh_clock (dh r))).
Definition good (r : Run) : Prop :=
  map_Forall (λ k z, k = zone → known (reads r) (now_of r) z) (zones (dh_zoneCache (dh r)))
  ∧ (∀ l, loading r = Some l → load_ok (reads r) (now_of r) l)
  ∧ map_Forall (λ _, caller_ok (reads r) (now_of r)) (callers r).

(** What is known stays known. *)
Lemma made_of_mono l l' z t1 t2 : l ⊆ l' → made_of l z t1 t2 → made_of l' z t1 t2.
Proof. intros Hs (cfg & serial & (rs & ? & ?) & (rs' & ? & ?) & ?). exists cfg, serial. split_and!; [by exists rs; auto|by exists rs'; auto|tauto..]. Qed.
Lemma known_mono l l' t t' z : l ⊆ l' → t ≤ t' → known l t z → known l' t' z.
Proof.
  intros Hs Ht (e & (Hc & t1 & t2 & Hm & ?) & ?). exists e. split; [|lia]. split; [done|].
  exists t1, t2. split; [by eapply made_of_mono|done].
Qed.
Lemma load_ok_mono l l' t t' ld : l ⊆ l' → t ≤ t' → load_ok l t ld → load_ok l' t' ld.
Proof.
  intros Hs Ht. destruct ld as [|locs|locs cfg|z|[[z|]|]]; simpl; try done.
  - intros (t1 & (rs & ? & ?) & ?). exists t1. split; [by exists rs; auto|lia].
  - intros (t1 & t2 & (rs & ? & ?) & (rs' & ? & ?) & ?). exists t1, t2. split_and!; [by exists rs; auto|by exists rs'; auto|lia..].
  - intros (t1 & t2 & ? & ?). exists t1, t2. split; [by eapply made_of_mono|lia].
  - by apply known_mono.
Qed.
Lemma caller_ok_mono l l' t t' c : l ⊆ l' → t ≤ t' → caller_ok l t c → caller_ok l' t' c.
Proof.
  intros Hs Ht. destruct c as [[z|]| | |[now z|z| |]]; simpl; try done; try by apply known_mono.
  intros (e & (Hc & t1 & t2 & Hm & ?) & ?). exists e. split; [|done]. split; [done|].
  exists t1, t2. split; [by eapply made_of_mono|done].
Qed.

(** *** Operations that leave the zones alone and let time pass *)
Definition later (s s' : DHS) : Prop :=
  zones (dh_zoneCache s') ⊆ zones (dh_zoneCache s) ∧ time (dh_clock s) ≤ time (dh_clock s').
#[local] Instance later_preorder : PreOrder later.
Proof.
  split; [intros s; split; [done|lia]|]. intros s1 s2 s3 [? ?] [? ?]. split; [by etrans|lia].
Qed.
Definition quiet {A} (m : M DHS A) : Prop := ∀ s, later s (m s).2.
Lemma quiet_ret {A} (a : A) : quiet (mret a).
Proof. intros s. reflexivity. Qed.
Lemma quiet_bind {A B} (m : M DHS A) (f : A → M DHS B) : quiet m → (∀ a, quiet (f a)) → quiet (m ≫= f).
Proof. intros Hm Hf s. rewrite run_bind. etrans; [apply Hm|apply Hf]. Qed.
Lemma quiet_redis {A} (m : M RS A) : quiet (DataHandler.redis m).
Proof. intros s. unfold DataHandler.redis. destruct (m _). split; [done|simpl; lia]. Qed.
Lemma quiet_Now : quiet Now.
Proof.
  intros s. unfold Now. pose proof (law_clock (time:=time) (dh_clock s)) as Hc.
  destruct (clock_Unix _). split; [done|simpl in *; lia].
Qed.
Hint Resolve quiet_ret quiet_redis quiet_Now : quiet.
Ltac quiet := repeat first
  [ progress eauto 1 with quiet
  | apply quiet_bind; [|intros ?]
  | match goal with |- quiet (match ?x with _ => _ end) => destruct x end ].
Lemma quiet_redis_value k : quiet (redis_value k).
Proof. unfold redis_value. quiet. Qed.
Hint Resolve quiet_redis_value : quiet.
Lemma quiet_loadKey kt : quiet (loadKey NewRR NewPrivateKey zone kt).
Proof. unfold loadKey. quiet. Qed.
Lemma quiet_loadZoneKeys z : Name z = zone → quiet (loadZoneKeys NewRR NewPrivateKey KeyTag Sign z).
Proof. intros Hz. pose proof quiet_loadKey. unfold loadZoneKeys. rewrite Hz. quiet; eauto. Qed.

(** Reading the keys leaves the name, the locations and the SOA of a zone. *)
Lemma loadZoneKeys_same z (s : DHS) z' :
  (loadZoneKeys NewRR NewPrivateKey KeyTag Sign z s).1 = Some z' →
  Name z' = Name z ∧ LocationsList z' = LocationsList z ∧ LocationsTree z' = LocationsTree z
  ∧ SOA (Config z') = SOA (Config z).
Proof.
  revert s z'. assert (Hp : post (S:=DHS) (loadZoneKeys NewRR NewPrivateKey KeyTag Sign z) (λ oz, ∀ z', oz = Some z' →
    Name z' = Name z ∧ LocationsList z' = LocationsList z ∧ LocationsTree z' = LocationsTree z
    ∧ SOA (Config z') = SOA (Config z))); [|intros s z'; exact (Hp s z')].
  unfold loadZoneKeys. destruct (negb _); [by apply post_ret; intros z' [= <-]|].
  apply post_op. intros [[zsk|]|]; [|by apply post_ret; intros z' [= <-]|by apply post_ret].
  apply post_op. intros [[ksk|]|]; [|by apply post_ret; intros z' [= <-]|by apply post_ret]. cbv zeta.
  destruct (SignRRSet _ _ _ _ _ _); by apply post_ret; intros z' [= <-].
Qed.

(** *** The invariant *)
Lemma good_later s r : good r → later (dh r) s → good (on_dh s r).
Proof.
  intros (Hz & Hl & Hc) [Hsub Ht]. split_and!; cbn.
  - intros k z Hk E. eapply known_mono; [done|exact Ht|]. eapply Hz; [by eapply lookup_weaken|done].
  - intros l E. eapply load_ok_mono; [done|exact Ht|by apply Hl].
  - intros i c E. eapply caller_ok_mono; [done|exact Ht|by eapply Hc].
Qed.
Lemma good_log_read r : good r → good (log_read r).
Proof.
  intros (Hz & Hl & Hc). split_and!; cbn.
  - intros k z Hk E. eapply known_mono; [|done|by eapply Hz]. set_solver.
  - intros l E. eapply load_ok_mono; [|done|by apply Hl]. set_solver.
  - intros i c E. eapply caller_ok_mono; [|done|by eapply Hc]. set_solver.
Qed.
Lemma good_load l r : good r → load_ok (reads r) (now_of r) l → good (set_load (Some l) r).
Proof. intros (Hz & Hl & Hc) Hok. split_and!; [done| |done]. by intros l' [= <-]. Qed.
Lemma good_caller i c r : good r → caller_ok (reads r) (now_of r) c → good (set_caller i c r).
Proof. intros (Hz & Hl & Hc) Hok. split_and!; [done|done|]. by apply map_Forall_insert_2. Qed.

Lemma good_stores z now s r :
  good r → loading r = Some (Storing z) → Now (dh r) = (now, s) →
  let z := set_timeout (now + ZoneCacheTimeout config) z in
  good (set_load (Some (Finished (Some (Some z)))) (on_dh (zoneCache_Set zone z s).2 r)).
Proof.
  intros Hg Hl Hn z'. pose proof Hg as (Hz & Hload & Hc).
  destruct (Hload _ Hl) as (t1 & t2 & Hm & Ht1 & Ht2).
  unfold Now in Hn. pose proof (law_clock (time:=time) (dh_clock (dh r))) as Hck.
  destruct (clock_Unix (dh_clock (dh r))) as [n ck]. injection Hn as -> <-. cbn [fst snd] in Hck.
  assert (Hk : known (reads r) (time ck) z').
  { exists now. split; [|lia]. split; [done|]. exists t1, t2. split; [|lia]. exact Hm. }
  assert (Hlater : ∀ l, load_ok (reads r) (now_of r) l → load_ok (reads r) (time ck) l)
    by (intros l; apply load_ok_mono; [done|lia]).
  split_and!; cbn.
  - eapply map_Forall_subseteq; [|apply law_cache_Set]. apply map_Forall_insert_2; [done|].
    intros k z0 Hz0 E. eapply known_mono; [done| |by eapply Hz]. lia.
  - by intros l [= <-].
  - intros i c Hi. eapply caller_ok_mono; [done| |by eapply Hc]. lia.
Qed.

Lemma good_lists r a s :
  good r → loading r = Some Listing → DataHandler.redis (redis_SMembers (zoneLocationsKey zone)) (dh r) = (a, s) →
  good (set_load (Some (match a with Ok l => Configuring l | Err _ => Finished (Some None) end)) (on_dh s (log_read r))).
Proof.
  intros Hg Hl E. pose proof (quiet_redis (redis_SMembers (zoneLocationsKey zone)) (dh r)) as Hlater. rewrite E in Hlater.
  apply good_load; [apply good_later; [by apply good_log_read|done]|].
  destruct a as [locs|e]; [|done]. exists (now_of r). split; [|apply Hlater].
  exists (dh_redis (dh r)). split; [left|]. unfold DataHandler.redis in E.
  pose proof (spec_SMembers (zoneLocationsKey zone) (dh_redis (dh r))) as Hm.
  destruct (redis_SMembers _ _) as [x rs]. injection E as -> _. apply Hm.
Qed.
Lemma good_configures r l cfg s :
  good r → loading r = Some (Configuring l) → redis_value (zoneConfigKey zone) (dh r) = (cfg, s) →
  good (set_load (Some (Building l cfg)) (on_dh s (log_read r))).
Proof.
  intros Hg Hl E. pose proof (quiet_redis_value (zoneConfigKey zone) (dh r)) as Hlater. rewrite E in Hlater.
  pose proof Hg as (_ & Hload & _). destruct (Hload _ Hl) as (t1 & (rs & Hrs & Hlocs) & Ht1).
  apply good_load; [apply good_later; [by apply good_log_read|done]|].
  exists t1, (now_of r). split; [exists rs; split; [by right|done]|]. split; [|split; [done|apply Hlater]].
  exists (dh_redis (dh r)). split; [left|]. unfold redis_value, DataHandler.redis in E. rewrite run_bind in E.
  pose proof (spec_Get (zoneConfigKey zone) (dh_redis (dh r))) as Hget.
  destruct (redis_Get _ _) as [[v|e] rs']; cbn in E; injection E as <- _; [left; apply Hget|by right].
Qed.
Lemma good_builds l cfg r oz s :
  good r → loading r = Some (Building l cfg) →
  (serial ← Now; loadZoneKeys NewRR NewPrivateKey KeyTag Sign (NewZone Fqdn unmarshal_config zone l cfg serial))
    (dh r) = (oz, s) →
  good (set_load (Some (match oz with Some z => Storing z | None => Finished None end)) (on_dh s r)).
Proof.
  intros Hg Hl E. pose proof Hg as (_ & Hload & _). destruct (Hload _ Hl) as (t1 & t2 & Hlist & Hcfg & Ht).
  assert (Hlater : later (dh r) s).
  { change s with (oz, s).2. rewrite <-E. apply quiet_bind; [apply quiet_Now|]. intros serial. by apply quiet_loadZoneKeys. }
  apply good_load; [by apply good_later|]. destruct oz as [z|]; [|done]. rewrite run_bind in E.
  pose proof (loadZoneKeys_same (NewZone Fqdn unmarshal_config zone l cfg (Now (dh r)).1) (Now (dh r)).2 z) as Hsame.
  rewrite E in Hsame. destruct (Hsame eq_refl) as (En & El & Et & Es). cbn in En, El, Et, Es.
  exists t1, t2. split; [|cbn; pose proof (proj2 Hlater); lia].
  exists cfg, (Now (dh r)).1. rewrite El. by split_and!.
Qed.

Lemma caller_ok_answered l t a c :
  load_ok l t (Finished a) → caller_ok l t c → caller_ok l t (answered a c).
Proof. destruct c as [|?|o|]; try done. destruct a as [[z|]|]; done. Qed.

Lemma good_step r r' : step r r' → good r → good r'.
Proof.
  intros Hstep Hg.
  destruct Hstep as [s Ezc Ht| |i s o Hi E|i z s now Hi E|i o Hi|a s Hl E|l cfg s Hl E|l cfg oz s Hl E|z now s Hl E|a Hl].
  - apply good_later; [done|]. split; [by rewrite Ezc|done].
  - apply good_later; [done|]. split; [|cbn; lia]. cbn. etrans; [apply law_cache_Del|]. apply delete_subseteq.
  - assert (later (dh r) s ∧ ∀ z, o = Some z → known (reads r) (now_of r) z) as [Hlater Ho].
    { unfold zoneCache_Get, on_zoneCache in E. pose proof (law_cache_Get (V:=Zone T) zone (dh_zoneCache (dh r))) as [Hs Hv].
      destruct (cache_Get zone _) as [o' zc]. injection E as <- <-. cbn in *. split; [split; [done|cbn; lia]|].
      intros z Ez. destruct Hg as (Hz & _). by eapply Hz; [apply Hv|]. }
    apply good_caller; [by apply good_later|]. destruct o as [z|]; [|done]. simpl.
    eapply known_mono; [done|apply Hlater|by apply Ho].
  - assert (Hlater : later (dh r) s) by (pose proof (quiet_Now (dh r)) as Hq; by rewrite E in Hq).
    apply good_caller; [by apply good_later|]. pose proof Hg as (_ & _ & Hc). specialize (Hc i _ Hi).
    destruct (now <=? CacheTimeout z) eqn:Ef; [|done]. apply Z.leb_le in Ef.
    destruct Hc as (e & Hload & He). exists e. split; [done|].
    unfold Now in E. pose proof (law_clock (time:=time) (dh_clock (dh r))) as Hck.
    destruct (clock_Unix _). injection E as -> _. cbn in *. lia.
  - apply good_caller; [|done]. apply good_load; [done|]. destruct (loading r) as [l|] eqn:El; [|done].
    by apply Hg.
  - by apply good_lists.
  - by apply good_configures.
  - by apply (good_builds l cfg).
  - by apply good_stores.
  - destruct Hg as (Hz & Hload & Hc). split_and!; [done|done|]. cbn. intros i c Hi.
    rewrite lookup_fmap in Hi. apply fmap_Some in Hi as (c' & Hi & ->).
    apply caller_ok_answered; [by apply Hload|by eapply Hc].
Qed.

Lemma idle_good s : zones (dh_zoneCache s) = ∅ → good (idle s).
Proof. intros E. split_and!; [cbn; rewrite E; apply map_Forall_empty|done|apply map_Forall_empty]. Qed.
Lemma runs_good r r' : rtc step r r' → good r → good r'.
Proof. induction 1; eauto using good_step. Qed.


(** ** A change during a load

    [calm_step]: redis keeps its content. *)
Definition calm_step (r r' : Run) : Prop :=
  step r r' ∧ ∀ k, rstr (dh_redis (dh r')) k = rstr (dh_redis (dh r)) k
                   ∧ rset (dh_redis (dh r')) k = rset (dh_redis (dh r)) k.
(** The first call has read the locations; then redis changes, and the event of the
    change evicts the zone. *)
Definition changed (s0 : DHS) (rs' : RS) (r1 : Run) : Prop :=
  rtc step (idle s0) r1 ∧ dh_redis (dh r1) = rs' ∧ ∃ s, dh r1 = (zoneCache_Del zone s).2.

Lemma change_while_loading s0 locs rs' :
  (zoneCache_Get zone s0).1 = None → (redis_SMembers (zoneLocationsKey zone) (dh_redis s0)).1 = Ok locs →
  ∃ r1, changed s0 rs' r1 ∧ loading r1 = Some (Configuring locs) ∧ callers r1 = {[0%nat := Waiting None]}.
Proof.
  intros Hc Hl. destruct (zoneCache_Get zone s0) as [o s1] eqn:E1. simpl in Hc. subst o.
  assert (Er : dh_redis s1 = dh_redis s0) by (unfold zoneCache_Get, on_zoneCache in E1; destruct (cache_Get _ _); by injection E1 as _ <-).
  destruct (DataHandler.redis (redis_SMembers (zoneLocationsKey zone)) s1) as [a s2] eqn:E2.
  assert (a = Ok locs) as ->.
  { unfold DataHandler.redis in E2. rewrite Er in E2. destruct (redis_SMembers _ _). injection E2 as <- _. done. }
  set (s3 := {| dh_redis := rs'; dh_zones := dh_zones s2; dh_recordCache := dh_recordCache s2;
                dh_zoneCache := dh_zoneCache s2; dh_clock := dh_clock s2 |}).
  eexists. split; [split|].
  - eapply rtc_l; [apply (calls _ 0%nat s1 None); [done|exact E1]|].
    eapply rtc_l; [apply (joins _ 0%nat None); by apply lookup_insert_eq|].
    eapply rtc_l; [eapply lists; [done|exact E2]|].
    eapply rtc_l; [apply (world _ s3); [done|cbn; lia]|]. apply rtc_once. apply evicts.
  - split; [done|]. by exists s3.
  - split; [done|]. cbn. by rewrite insert_insert_eq.
Qed.

Hypothesis cache_keeps : ∀ z (c : ZC), (cache_Get zone (cache_Set zone z c)).1 = Some z.
Abbreviation parsed := (ZoneConfigFromJson Fqdn unmarshal_config zone).

Lemma same_contents_once r r' : step r r' → dh_redis (dh r') = dh_redis (dh r) → calm_step r r'.
Proof. intros Hs E. split; [done|]. intros k. by rewrite E. Qed.

(** The load goes on over the redis of now, and its zone gets into the cache. *)
Lemma load_goes_on r locs cfg :
  loading r = Some (Configuring locs) → (redis_Get (zoneConfigKey zone) (dh_redis (dh r))).1 = Ok cfg →
  (∀ serial, DnsSec (parsed cfg serial) = false) →
  ∃ r' z serial ck, rtc calm_step r r' ∧ loading r' = None ∧ callers r' = answered (Some (Some z)) <$> callers r
    ∧ (zoneCache_Get zone (dh r')).1 = Some z ∧ LocationsList z = locs ∧ SOA (Config z) = SOA (parsed cfg serial)
    ∧ dh_clock (dh r') = (clock_Unix ck).2 ∧ CacheTimeout z = (clock_Unix ck).1 + ZoneCacheTimeout config.
Proof.
  intros Hl Hg Hsec.
  destruct (redis_value (zoneConfigKey zone) (dh r)) as [cfg1 s1] eqn:E1.
  assert (cfg1 = cfg ∧ ∀ k, rstr (dh_redis s1) k = rstr (dh_redis (dh r)) k ∧ rset (dh_redis s1) k = rset (dh_redis (dh r)) k) as [-> Hsame].
  { unfold redis_value, DataHandler.redis in E1. rewrite run_bind in E1.
    pose proof (spec_Get (zoneConfigKey zone) (dh_redis (dh r))) as Hs. destruct (redis_Get _ _) as [x rs].
    simpl in Hg. subst x. cbn in E1. injection E1 as <- <-. split; [done|apply Hs]. }
  set (serial := (clock_Unix (dh_clock s1)).1). set (z0 := NewZone (T:=T) Fqdn unmarshal_config zone locs cfg serial).
  set (s2 := (Now s1).2). set (z := set_timeout ((Now s2).1 + ZoneCacheTimeout config) z0).
  assert (Hn : ∀ s : DHS, (Now s).1 = (clock_Unix (dh_clock s)).1 ∧ dh_redis (Now s).2 = dh_redis s
                          ∧ dh_clock (Now s).2 = (clock_Unix (dh_clock s)).2).
  { intros s. unfold Now. by destruct (clock_Unix (dh_clock s)). }
  eexists _, z, serial, (dh_clock s2). split.
  - eapply rtc_l; [split; [eapply configures; [exact Hl|exact E1]|exact Hsame]|].
    eapply rtc_l; [apply same_contents_once; [eapply (builds _ locs cfg (Some z0) s2); [done|]|]|].
    + cbn. rewrite run_bind. unfold loadZoneKeys. cbn [Config NewZone]. rewrite Hsec. cbn.
      rewrite (proj1 (Hn s1)). done.
    + apply Hn.
    + eapply rtc_l; [apply same_contents_once; [eapply (stores _ z0 (Now s2).1 (Now s2).2); [done|apply surjective_pairing]|apply Hn]|].
      apply rtc_once. apply same_contents_once; [by apply finishes|done].
  - split; [done|split; [done|]]. cbn. unfold zoneCache_Get, on_zoneCache. cbn. pose proof (cache_keeps z (dh_zoneCache (Now s2).2)) as Hk.
    unfold z in *. rewrite (proj1 (Hn s2)) in *. split_and!; [|done|done|apply Hn|done].
    destruct (cache_Get _ _). exact Hk.
Qed.

Lemma calm_contents r r' k :
  rtc calm_step r r' → rstr (dh_redis (dh r')) k = rstr (dh_redis (dh r)) k
                       ∧ rset (dh_redis (dh r')) k = rset (dh_redis (dh r)) k.
Proof. induction 1 as [|r r1 r' [_ Hk] _ [-> ->]]; [done|apply Hk]. Qed.

(** A caller that finds the zone fresh in the cache. *)
Lemma call_cached r i z :
  callers r !! i = None → (zoneCache_Get zone (dh r)).1 = Some z →
  (clock_Unix (dh_clock (dh r))).1 ≤ CacheTimeout z →
  ∃ r' now, rtc calm_step r r' ∧ loading r' = loading r ∧ callers r' !! i = Some (Returned (Cached now z)).
Proof.
  intros Hi Hg Ht. destruct (zoneCache_Get zone (dh r)) as [o s] eqn:E. simpl in Hg. subst o.
  assert (Hs : dh_redis s = dh_redis (dh r) ∧ dh_clock s = dh_clock (dh r)).
  { unfold zoneCache_Get, on_zoneCache in E. destruct (cache_Get _ _). by injection E as _ <-. }
  set (r1 := set_caller i (Checking (Some z)) (on_dh s r)).
  assert (Hc : callers r1 !! i = Some (Checking (Some z))) by apply lookup_insert_eq.
  pose proof (checks r1 i z (Now s).2 (Now s).1 Hc (surjective_pairing _)) as H2.
  assert (Hn : (Now s).1 = (clock_Unix (dh_clock s)).1 ∧ dh_redis (Now s).2 = dh_redis s)
    by (unfold Now; by destruct (clock_Unix (dh_clock s))).
  rewrite (proj2 (Z.leb_le _ _)) in H2 by (rewrite (proj1 Hn), (proj2 Hs); lia).
  eexists _, (Now s).1. split.
  - eapply rtc_l; [apply same_contents_once; [by apply (calls r i s (Some z))|apply Hs]|].
    apply rtc_once. apply same_contents_once; [exact H2|cbn; apply Hn].
  - split; [done|]. cbn. by rewrite lookup_insert_eq.
Qed.

(** The eviction is undone, and a zone is served that redis never held: when redis
    changes between the two reads of a load and the event of the change evicts the
    zone, the load stores a zone of the old locations and the new configuration, and
    calls that come after, with nothing under way any more, are given it. *)
Theorem torn_zone_stays s0 locs rs' cfg :
  (zoneCache_Get zone s0).1 = None → (redis_SMembers (zoneLocationsKey zone) (dh_redis s0)).1 = Ok locs →
  (redis_Get (zoneConfigKey zone) rs').1 = Ok cfg → (∀ serial, DnsSec (parsed cfg serial) = false) →
  (∀ ck, (clock_Unix (clock_Unix ck).2).1 ≤ (clock_Unix ck).1 + ZoneCacheTimeout config) →
  ∃ r1 r now z serial, changed s0 rs' r1 ∧ callers r1 !! 1%nat = None
    ∧ rtc calm_step r1 r ∧ loading r = None ∧ callers r !! 1%nat = Some (Returned (Cached now z))
    ∧ LocationsList z = locs ∧ SOA (Config z) = SOA (parsed cfg serial)
    ∧ (rset rs' (zoneLocationsKey zone) ≠ rset (dh_redis s0) (zoneLocationsKey zone) →
       ¬ ∀ l, l ∈ LocationsList z ↔ l ∈ rset (dh_redis (dh r)) (zoneLocationsKey zone)).
Proof.
  intros Hc Hl Hg Hsec Hck.
  destruct (change_while_loading s0 locs rs' Hc Hl) as (r1 & Hch & Hl1 & Hc1). pose proof Hch as (_ & Ers & _).
  destruct (load_goes_on r1 locs cfg Hl1) as (r2 & z & serial & ck & Hr2 & Hl2 & Hc2 & Hget & Hlocs & Hsoa & Eck & Et);
    [by rewrite Ers|done|].
  destruct (call_cached r2 1 z) as (r & now & Hr & Hlr & Hcr).
  { by rewrite Hc2, lookup_fmap, Hc1. }
  { exact Hget. }
  { rewrite Eck, Et. apply Hck. }
  exists r1, r, now, z, serial. split_and!; [done|by rewrite Hc1|by etrans|congruence|done..|].
  intros Hne Hall. apply Hne. apply set_eq. intros l.
  destruct (calm_contents _ _ (zoneLocationsKey zone) (transitivity Hr2 Hr)) as [_ Er].
  rewrite <-Ers, <-Er, <-Hall, Hlocs. pose proof (spec_SMembers (zoneLocationsKey zone) (dh_redis s0)) as Hm.
  destruct (redis_SMembers _ _) as [x rs]. simpl in Hl. subst x. apply Hm.
Qed.
End loads.
