(* ===== verification/Lifecycle.v ===== *)
(** * How the handlers of redis shut down: [ShutDown] of [internal/storage]

    [NewStatHandler] and [NewDataHandler] start a goroutine that subscribes to events of
    redis, once and twice, and waits for [quit]; [ShutDown] closes [quit] and waits for
    a wait group. Each subscription is the loop of [SubscribeEvent] ([Subscribe] of
    [Redis]), which is told to stop through a channel of its own. The goroutines run
    beside each other, one step at a time. What the subscriptions are for is in [Health]
    and [Updater]; reloads, which the goroutine of the data handler does while it waits,
    are assumed to return. *)
From S2P Require Import Prelude.
From S2P Require Redis.
Import Redis.Subscribe (psc, goroutine, done, ctl, Selecting, Stopping, Stopped).

(** One call of [SubscribeEvent]: whether its channel [quit] holds the wait group, and
    its loop, once [Init] has returned. *)
Record subscription := { quit_sent : bool; loop : option Redis.Subscribe.state }.

(** Where the goroutine of the handler is: before [quitWG.Add(1)] or the [go] statement
    of subscription [i], waiting for [quit], or before the send to subscription [i]. *)
Inductive owner := Adding (i : nat) | Spawning (i : nat) | Awaiting | Sending (i : nat) | Gone.
(** Where the caller of [ShutDown] is. *)
Inductive closer := NotCalled | Waiting | Returned.

Record Life := { owner_at : owner; subs : list subscription; quitWG : nat; quit_closed : bool; shut_at : closer }.

(** [NewStatHandler] has one subscription, [NewDataHandler] two. *)
Definition stat_subscriptions : nat := 1.
Definition data_subscriptions : nat := 2.

Definition started : Life := {|
  owner_at := Adding 0; subs := []; quitWG := 0; quit_closed := false; shut_at := NotCalled |}.
Definition set_owner (o : owner) (s : Life) : Life := {|
  owner_at := o; subs := subs s; quitWG := quitWG s; quit_closed := quit_closed s; shut_at := shut_at s |}.
Definition set_subs (l : list subscription) (wg : nat) (s : Life) : Life := {|
  owner_at := owner_at s; subs := l; quitWG := wg; quit_closed := quit_closed s; shut_at := shut_at s |}.
Definition set_shut (quit : bool) (c : closer) (s : Life) : Life := {|
  owner_at := owner_at s; subs := subs s; quitWG := quitWG s; quit_closed := quit; shut_at := c |}.

Section life.
Variable n : nat.

Inductive step (s : Life) : Life → Prop :=
| adds i : (* quitWG.Add(1) *)
    owner_at s = Adding i → step s (set_subs (subs s) (S (quitWG s)) (set_owner (Spawning i) s))
| spawns i : (* go redis.SubscribeEvent(...) *)
    owner_at s = Spawning i →
    step s (set_subs (subs s ++ [{| quit_sent := false; loop := None |}]) (quitWG s)
              (set_owner (if decide (S i < n) then Adding (S i) else Awaiting) s))
| quits : (* <-quit *)
    owner_at s = Awaiting → quit_closed s = true → step s (set_owner (Sending 0) s)
| sends i b : (* quitChan <- &quitWG *)
    owner_at s = Sending i → subs s !! i = Some b →
    step s (set_subs (<[i := {| quit_sent := true; loop := loop b |}]> (subs s)) (quitWG s)
              (set_owner (if decide (S i < n) then Sending (S i) else Gone) s))
| initial k b ok : (* Init *)
    subs s !! k = Some b → loop b = None →
    step s (set_subs (<[k := {| quit_sent := quit_sent b; loop := Some (Redis.Subscribe.start ok) |}]> (subs s)) (quitWG s) s)
| goes_on k b l l' : (* the select, but for quit, and Subscribe *)
    subs s !! k = Some b → loop b = Some l → Redis.Subscribe.step l l' → ctl l' = ctl l →
    step s (set_subs (<[k := {| quit_sent := quit_sent b; loop := Some l' |}]> (subs s)) (quitWG s) s)
| takes_quit k b l l' : (* wg := <-quit *)
    subs s !! k = Some b → loop b = Some l → quit_sent b = true →
    Redis.Subscribe.step l l' → ctl l = Selecting → ctl l' = Stopping →
    step s (set_subs (<[k := {| quit_sent := false; loop := Some l' |}]> (subs s)) (quitWG s) s)
| stops k b l l' : (* <-done; wg.Done() *)
    subs s !! k = Some b → loop b = Some l → Redis.Subscribe.step l l' → ctl l = Stopping → ctl l' = Stopped →
    step s (set_subs (<[k := {| quit_sent := quit_sent b; loop := Some l' |}]> (subs s)) (pred (quitWG s)) s)
| ShutDown : (* close(quit) *)
    shut_at s = NotCalled → step s (set_shut true Waiting s)
| wait_returns : (* quitWG.Wait() *)
    shut_at s = Waiting → quitWG s = 0 → step s (set_shut (quit_closed s) Returned s).

Definition reached (s : Life) : Prop := rtc step started s.
End life.

(** ** Invariant *)
Definition stopped (b : subscription) : bool :=
  match loop b with Some l => match ctl l with Stopped => true | _ => false end | None => false end.
Definition live (l : list subscription) : nat := length (filter (λ b, stopped b = false) l).
(** A subscription that has not been told to stop, and one that has. *)
Definition untold (b : subscription) : Prop :=
  quit_sent b = false ∧ match loop b with Some l => ctl l = Selecting | None => True end.
Definition told (b : subscription) : Prop :=
  if quit_sent b then match loop b with Some l => ctl l = Selecting | None => True end
  else match loop b with Some l => ctl l ≠ Selecting | None => False end.
(** It was told to stop without a connection. *)
Definition stuck (b : subscription) : Prop :=
  match loop b with Some l => ctl l = Stopping ∧ psc l = false | None => False end.

Lemma live_insert l k b b' :
  l !! k = Some b →
  live (<[k := b']> l) + (if stopped b then 0 else 1) = live l + (if stopped b' then 0 else 1).
Proof.
  unfold live. revert k. induction l as [|c l IH]; intros [|k] Hk; try done; csimpl.
  - injection Hk as ->. rewrite !filter_cons. destruct (stopped b), (stopped b'); repeat case_decide; csimpl; try done; lia.
  - specialize (IH k Hk). rewrite !filter_cons. case_decide; csimpl; lia.
Qed.
Lemma live_app l1 l2 : live (l1 ++ l2) = live l1 + live l2.
Proof. unfold live. by rewrite filter_app, length_app. Qed.
Lemma live_0 l : live l = 0 → Forall (λ b, stopped b = true) l.
Proof.
  unfold live. intros Hl. apply Forall_forall. intros b Hb. destruct (stopped b) eqn:E; [done|].
  assert (b ∈ filter (λ b, stopped b = false) l) as Hin by by apply list_elem_of_filter.
  destruct (filter _ l); [set_solver|done].
Qed.

Section invariant.
Variable n : nat.
Hypothesis some_subscription : 0 < n.

(** The subscriptions that have been told to stop. *)
Definition told_upto (o : owner) : nat := match o with Sending i => i | Gone => n | _ => 0 end.
Definition loop_ok (b : subscription) : Prop :=
  match loop b with Some l => Redis.Subscribe.invariant l | None => True end.
Definition sub_ok (upto k : nat) (b : subscription) : Prop :=
  loop_ok b ∧ if decide (k < upto) then told b else untold b.
Record inv (s : Life) : Prop := {
  inv_subs : ∀ k b, subs s !! k = Some b → sub_ok (told_upto (owner_at s)) k b;
  inv_wg : quitWG s = live (subs s) + match owner_at s with Spawning _ => 1 | _ => 0 end;
  inv_length : length (subs s) = match owner_at s with Adding i | Spawning i => i | _ => n end;
  inv_owner : match owner_at s with
              | Adding i | Spawning i => i < n
              | Sending i => i < n ∧ quit_closed s = true
              | Gone => quit_closed s = true
              | Awaiting => True
              end;
  inv_closed : quit_closed s = match shut_at s with NotCalled => false | _ => true end;
}.

Lemma started_inv : inv started.
Proof. by split. Qed.

(** A step of one subscription keeps what is known of it. *)
Lemma insert_ok s k b b' upto :
  subs s !! k = Some b → (∀ k b, subs s !! k = Some b → sub_ok upto k b) →
  (sub_ok upto k b → sub_ok upto k b') →
  ∀ j c, <[k := b']> (subs s) !! j = Some c → sub_ok upto j c.
Proof.
  intros Hb Hs Hok j c Hj. apply list_lookup_insert_Some in Hj as [(-> & <- & _)|[_ Hj]]; [|by apply Hs].
  apply Hok. by apply Hs.
Qed.
Lemma one_sub_inv s k b b' wg :
  inv s → subs s !! k = Some b → (∀ upto, sub_ok upto k b → sub_ok upto k b') →
  wg + (if stopped b then 0 else 1) = quitWG s + (if stopped b' then 0 else 1) →
  inv (set_subs (<[k := b']> (subs s)) wg s).
Proof.
  intros [Hs Hwg Hl Ho Hc] Hb Hok Hlive. split; cbn -[live]; try done.
  - eapply insert_ok; [done..|apply Hok].
  - pose proof (live_insert _ _ _ b' Hb) as Hi. rewrite Hwg in Hlive. destruct (stopped b), (stopped b'); lia.
  - by rewrite length_insert.
Qed.

Lemma step_inv s s' : step n s s' → inv s → inv s'.
Proof.
  intros Hstep Hi. pose proof Hi as [Hs Hwg Hl Ho Hc].
  destruct Hstep as [i E|i E|E Eq|i b E Hb|k b ok Hb Hn|k b l l' Hb El Hstep Hctl|k b l l' Hb El Hsent Hstep H1 H2
    |k b l l' Hb El Hstep H1 H2|E|E Ew].
  - rewrite E in *. split; cbn -[live]; try done. lia.
  - rewrite E in *. cbn in *. split; cbn -[live]; try done.
    + assert (told_upto (if decide (S i < n) then Adding (S i) else Awaiting) = 0) as -> by by case_decide.
      intros k b [Hk|[Hk Hb]]%lookup_app_Some; [by apply Hs|]. destruct (k - length (subs s)); [|done]. by injection Hb as <-.
    + rewrite live_app, Hwg. change (live [_]) with 1. case_decide; lia.
    + rewrite length_app, Hl. cbn. case_decide; lia.
    + by case_decide.
  - rewrite E in *. split; cbn -[live]; try done.
  - rewrite E in *. cbn in *. destruct Ho as [Hin Hq]. pose proof (Hs i b Hb) as [Hlo Hun]. rewrite decide_False in Hun by lia.
    destruct Hun as [Hns Hun]. assert (told_upto (if decide (S i < n) then Sending (S i) else Gone) = S i) as Et by (case_decide; cbn; lia).
    split; cbn -[live]; try done.
    + rewrite Et. intros j c [(-> & <- & _)|[Hj Hjc]]%list_lookup_insert_Some.
      * split; [exact Hlo|]. rewrite decide_True by lia. unfold told. cbn. exact Hun.
      * destruct (Hs j c Hjc) as [Hjl Hjt]. split; [done|]. destruct (decide (j < i)), (decide (j < S i)); try done; lia.
    + pose proof (live_insert _ _ _ {| quit_sent := true; loop := loop b |} Hb) as Hli. unfold stopped in Hli. cbn in Hli.
      case_decide; lia.
    + rewrite length_insert, Hl. by case_decide.
    + by case_decide.
  - apply (one_sub_inv s k b); try done; [|unfold stopped; rewrite Hn; cbn; lia].
    intros upto [_ Ht]. split; [by destruct ok; unfold loop_ok, Redis.Subscribe.invariant; cbn; auto|].
    unfold told, untold in *. rewrite Hn in Ht. cbn. case_decide; destruct (quit_sent b); tauto.
  - apply (one_sub_inv s k b); try done; [|unfold stopped; cbn; rewrite El, Hctl; lia].
    intros upto [Hlo Ht]. unfold sub_ok, loop_ok, told, untold in *. rewrite El in *. cbn. rewrite Hctl.
    split; [by eapply Redis.Subscribe.step_invariant|done].
  - apply (one_sub_inv s k b); try done; [|unfold stopped; cbn; rewrite El, H1, H2; lia].
    intros upto [Hlo Ht]. unfold sub_ok, loop_ok, told, untold in *. rewrite El, Hsent in *. cbn. rewrite H2.
    split; [by eapply Redis.Subscribe.step_invariant|]. case_decide; [done|by destruct Ht].
  - assert (Hlive : 0 < live (subs s)).
    { pose proof (live_insert _ _ _ {| quit_sent := quit_sent b; loop := Some l' |} Hb) as Hli. unfold stopped in Hli. cbn in Hli.
      rewrite El, H1, H2 in Hli. lia. }
    apply (one_sub_inv s k b); try done; [|unfold stopped; cbn; rewrite El, H1, H2; lia].
    intros upto [Hlo Ht]. unfold sub_ok, loop_ok, told, untold in *. rewrite El in *. cbn. rewrite H2.
    split; [pose proof (Redis.Subscribe.step_invariant _ _ Hstep Hlo) as Hl'; unfold Redis.Subscribe.invariant in *; by rewrite H2 in *|].
    rewrite H1 in Ht. case_decide; [by destruct (quit_sent b)|by destruct Ht].
  - split; cbn -[live]; try done. destruct (owner_at s); try done. by destruct Ho.
  - rewrite E in Hc. by split; cbn -[live].
Qed.
Lemma life_steps_inv s s' : rtc (step n) s s' → inv s → inv s'.
Proof. induction 1; eauto using step_inv. Qed.
Lemma life_inv s : reached n s → inv s.
Proof. intros Hr. by eapply life_steps_inv, started_inv. Qed.

(** ** Without a connection [ShutDown] hangs *)
Lemma stuck_no_step b l l' : loop_ok b → stuck b → loop b = Some l → ¬ Redis.Subscribe.step l l'.
Proof.
  unfold loop_ok, stuck. intros Hok Hst E. rewrite E in *. destruct Hst as [Hc Hp].
  unfold Redis.Subscribe.invariant in Hok. rewrite Hc in Hok. destruct l as [p g d c]. cbn in *. subst p c.
  destruct Hok as [E'|[E'|[e E']]]; try done. injection E' as -> ->. by inversion 1.
Qed.
Lemma stuck_step s s' : step n s s' → inv s → Exists stuck (subs s) → Exists stuck (subs s').
Proof.
  intros Hstep Hi. rewrite !Exists_exists. intros (x & [k Hk]%list_elem_of_lookup & Hx).
  pose proof (proj1 (inv_subs _ Hi k x Hk)) as Hok. pose proof (stuck_no_step x) as Hno. pose proof (lookup_lt_Some _ _ _ Hk).
  assert (Hsame : ∀ j b b', subs s !! j = Some b → (j = k → loop b' = loop b) → ∃ y, y ∈ <[j := b']> (subs s) ∧ stuck y).
  { intros j b b' Hj Hl. destruct (decide (j = k)) as [->|Hne].
    - exists b'. split; [apply list_elem_of_lookup; exists k; by apply list_lookup_insert_eq|].
      assert (b = x) as -> by congruence. unfold stuck in *. by rewrite Hl.
    - exists x. split; [|done]. apply list_elem_of_lookup. exists k. by rewrite list_lookup_insert_ne. }
  destruct Hstep as [i E|i E|E Eq|i b E Hb|j b ok Hb Hn|j b l l' Hb El Hstep Hctl|j b l l' Hb El Hsent Hstep H1 H2
    |j b l l' Hb El Hstep H1 H2|E|E Ew]; cbn; try (exists x; split; [by eapply list_elem_of_lookup_2|done]).
  - exists x. split; [apply elem_of_app; left; by eapply list_elem_of_lookup_2|done].
  - by eapply Hsame.
  - eapply Hsame; [done|]. intros ->. unfold stuck in Hx. assert (b = x) as -> by congruence. by rewrite Hn in Hx.
  - eapply Hsame; [done|]. intros ->. assert (b = x) as -> by congruence. by destruct (Hno l l' Hok Hx El).
  - eapply Hsame; [done|]. intros ->. assert (b = x) as -> by congruence. by destruct (Hno l l' Hok Hx El).
  - eapply Hsame; [done|]. intros ->. assert (b = x) as -> by congruence. by destruct (Hno l l' Hok Hx El).
Qed.
Lemma stuck_live l : Exists stuck l → 0 < live l.
Proof.
  rewrite Exists_exists. intros (b & Hb & Hs). destruct (live l) eqn:E; [|lia]. apply live_0 in E.
  rewrite Forall_forall in E. specialize (E b Hb). unfold stuck, stopped in *. destruct (loop b) as [l'|]; [|done].
  destruct Hs as [Hc _]. by rewrite Hc in E.
Qed.

(** A subscription that is told to stop while it has no connection keeps [ShutDown]
    waiting for ever. *)
Lemma shutdown_hangs s s' :
  reached n s → Exists stuck (subs s) → shut_at s ≠ Returned → rtc (step n) s s' → shut_at s' ≠ Returned.
Proof.
  intros Hi%life_inv Hst Hne Hr. revert Hi Hst Hne. induction Hr as [|s s1 s2 Hstep _ IH]; [done|]. intros Hi Hst Hne.
  apply IH; [by eapply step_inv|by eapply stuck_step|]. pose proof (stuck_live _ Hst). pose proof (inv_wg _ Hi).
  destruct Hstep; cbn; try done. lia.
Qed.

(** ** With one it returns *)
Abbreviation internal := (λ a b, Redis.Subscribe.step a b ∧ ctl b = ctl a).
Definition connected : Redis.Subscribe.state := {| psc := true; goroutine := true; done := []; ctl := Selecting |}.
Lemma can_connect l : Redis.Subscribe.invariant l → ctl l = Selecting → rtc internal l connected.
Proof.
  destruct l as [p g d c]. unfold Redis.Subscribe.invariant. cbn. intros Hi ->.
  destruct Hi as [E|[E|E]]; injection E as -> -> ->.
  - apply rtc_once. split; [apply (Redis.Subscribe.tick_init true)|done].
  - apply rtc_refl.
  - eapply rtc_l; [split; [apply Redis.Subscribe.take_done|done]|]. cbn. apply rtc_once.
    split; [apply (Redis.Subscribe.tick_init true)|done].
Qed.

(** What else stays when only subscription [k] goes on. *)
Definition only (k : nat) (b' : subscription) (s s' : Life) : Prop :=
  subs s' = <[k := b']> (subs s) ∧ owner_at s' = owner_at s ∧ shut_at s' = shut_at s ∧ quit_closed s' = quit_closed s.
Lemma only_trans k b1 b2 s1 s2 s3 : only k b1 s1 s2 → only k b2 s2 s3 → only k b2 s1 s3.
Proof. intros (E1 & ? & ? & ?) (E2 & ? & ? & ?). split_and!; try congruence. by rewrite E2, E1, list_insert_insert_eq. Qed.
Lemma only_lookup k b b' s s' : only k b' s s' → subs s !! k = Some b → subs s' !! k = Some b'.
Proof. intros (-> & _) Hk. apply list_lookup_insert_eq. by eapply lookup_lt_Some. Qed.
Lemma goes_on_many k q l l' s :
  rtc internal l l' → subs s !! k = Some {| quit_sent := q; loop := Some l |} →
  ∃ s', rtc (step n) s s' ∧ only k {| quit_sent := q; loop := Some l' |} s s'.
Proof.
  intros Hr. revert s. induction Hr as [l|l l1 l2 [Hs Hc] _ IH]; intros s Hk.
  - exists s. split; [apply rtc_refl|]. split_and!; try done. by rewrite list_insert_id.
  - pose proof (goes_on n s k _ l l1 Hk eq_refl Hs Hc) as H1.
    match type of H1 with step _ _ ?s1 => assert (Ho : only k {| quit_sent := q; loop := Some l1 |} s s1) by done;
      destruct (IH s1) as (s2 & Hr2 & Ho2); [by eapply only_lookup|] end.
    exists s2. split; [by eapply rtc_l|by eapply only_trans].
Qed.

Lemma can_stop s k b :
  inv s → owner_at s = Gone → subs s !! k = Some b → ¬ stuck b →
  ∃ s' b', rtc (step n) s s' ∧ only k b' s s' ∧ stopped b' = true.
Proof.
  intros Hi Ho Hk Hst. pose proof (inv_subs _ Hi k b Hk) as [Hok Ht]. rewrite Ho in Ht. cbn in Ht.
  rewrite decide_True in Ht by (pose proof (lookup_lt_Some _ _ _ Hk); pose proof (inv_length _ Hi) as Hl; rewrite Ho in Hl; lia).
  (* from Stopping *)
  assert (Hstop : ∀ s q l, subs s !! k = Some {| quit_sent := q; loop := Some l |} → Redis.Subscribe.invariant l →
    ctl l = Stopping → psc l = true → ∃ s' b', rtc (step n) s s' ∧ only k b' s s' ∧ stopped b' = true).
  { clear. intros s q [p g d c] Hk Hinv Hc Hp. cbn in Hc, Hp. subst c p. unfold Redis.Subscribe.invariant in Hinv. cbn in Hinv.
    assert (∃ e, rtc internal {| psc := true; goroutine := g; done := d; ctl := Stopping |}
                     {| psc := true; goroutine := false; done := [e]; ctl := Stopping |}) as [e He].
    { destruct Hinv as [E|[E|[e E]]]; try done; injection E as -> ->.
      - exists false. apply rtc_once. split; [apply Redis.Subscribe.receive_unsubscribe|done].
      - exists e. apply rtc_refl. }
    destruct (goes_on_many k q _ _ s He Hk) as (s1 & Hr1 & Ho1).
    pose proof (only_lookup _ _ _ _ _ Ho1 Hk) as Hk1.
    pose proof (stops n s1 k _ _ _ Hk1 eq_refl (Redis.Subscribe.finish true false e []) eq_refl eq_refl) as Hs2.
    eexists _, _. split; [eapply rtc_r; [exact Hr1|exact Hs2]|]. split; [eapply only_trans; [exact Ho1|done]|done]. }
  (* from Selecting, told *)
  assert (Hsel : ∀ s l, subs s !! k = Some {| quit_sent := true; loop := Some l |} → Redis.Subscribe.invariant l →
    ctl l = Selecting → ∃ s' b', rtc (step n) s s' ∧ only k b' s s' ∧ stopped b' = true).
  { clear -Hstop. intros s l Hk Hinv Hc. destruct (goes_on_many k true _ _ s (can_connect l Hinv Hc) Hk) as (s1 & Hr1 & Ho1).
    pose proof (only_lookup _ _ _ _ _ Ho1 Hk) as Hk1.
    pose proof (takes_quit n s1 k _ _ _ Hk1 eq_refl eq_refl (Redis.Subscribe.take_quit true true []) eq_refl eq_refl) as Hs2.
    match type of Hs2 with step _ _ ?s2 => destruct (Hstop s2 false {| psc := true; goroutine := true; done := []; ctl := Stopping |})
      as (s3 & b3 & Hr3 & Ho3 & Hb3) end; try done.
    - cbn. apply list_lookup_insert_eq. by eapply lookup_lt_Some.
    - unfold Redis.Subscribe.invariant. cbn. auto.
    - exists s3, b3. split; [etrans; [exact Hr1|]; eapply rtc_l; [exact Hs2|exact Hr3]|]. split; [|done].
      eapply only_trans; [exact Ho1|]. by eapply only_trans; [|exact Ho3]. }
  destruct b as [q [l|]]; unfold told, stuck, loop_ok, stopped in *; cbn in *.
  - destruct q; [by eapply Hsel|]. destruct (ctl l) eqn:Ec; [done| |].
    + apply (Hstop s false l Hk Hok Ec). destruct (psc l) eqn:Ep; [done|]. by destruct Hst.
    + exists s, {| quit_sent := false; loop := Some l |}. split; [apply rtc_refl|]. split; [|by cbn; rewrite Ec].
      split_and!; try done. by rewrite list_insert_id.
  - destruct q; [|done]. pose proof (initial n s k _ true Hk eq_refl) as Hs1. cbn in Hs1.
    match type of Hs1 with step _ _ ?s1 => destruct (Hsel s1 (Redis.Subscribe.start true)) as (s2 & b2 & Hr2 & Ho2 & Hb2) end; try done.
    + cbn. apply list_lookup_insert_eq. by eapply lookup_lt_Some.
    + unfold Redis.Subscribe.invariant. cbn. auto.
    + exists s2, b2. split; [by eapply rtc_l|]. split; [|done]. by eapply only_trans; [|exact Ho2].
Qed.

Lemma stopped_not_stuck b : stopped b = true → ¬ stuck b.
Proof. unfold stopped, stuck. destruct (loop b) as [l|]; [|done]. intros Hs [Hc _]. by rewrite Hc in Hs. Qed.
Lemma all_stop s :
  inv s → owner_at s = Gone → Forall (λ b, ¬ stuck b) (subs s) →
  ∃ s', rtc (step n) s s' ∧ owner_at s' = Gone ∧ shut_at s' = shut_at s ∧ live (subs s') = 0.
Proof.
  remember (live (subs s)) as m eqn:Em. revert s Em. induction m as [|m IH]; intros s Em Hi Ho Hst.
  - exists s. split; [apply rtc_refl|done].
  - assert (∃ b, b ∈ filter (λ b, stopped b = false) (subs s)) as (b & [Hb [k Hk]%list_elem_of_lookup]%list_elem_of_filter).
    { unfold live in Em. destruct (filter _ _) as [|b l]; [done|]. exists b. by left. }
    assert (¬ stuck b) as Hnb by (rewrite Forall_lookup in Hst; by eapply Hst).
    destruct (can_stop s k b Hi Ho Hk Hnb) as (s1 & b1 & Hr1 & (Es & Eo & Eh & Eq) & Hb1).
    pose proof (live_insert _ _ _ b1 Hk) as Hl. rewrite Hb, Hb1 in Hl.
    destruct (IH s1) as (s2 & Hr2 & ? & ? & ?).
    + rewrite Es. lia.
    + by eapply life_steps_inv.
    + congruence.
    + rewrite Es. apply Forall_insert; [done|]. by apply stopped_not_stuck.
    + exists s2. split; [by etrans|]. split_and!; [done|congruence|done].
Qed.

(** The goroutine of the handler can get to its end. *)
Definition owner_left (o : owner) : nat :=
  match o with Adding i => 2 * (n - i) + n + 2 | Spawning i => 2 * (n - i) + n + 1 | Awaiting => n + 1 | Sending i => n - i | Gone => 0 end.
Lemma owner_ends s :
  inv s → quit_closed s = true → Forall (λ b, ¬ stuck b) (subs s) →
  ∃ s', rtc (step n) s s' ∧ owner_at s' = Gone ∧ shut_at s' = shut_at s ∧ Forall (λ b, ¬ stuck b) (subs s').
Proof.
  remember (owner_left (owner_at s)) as m eqn:Em. revert s Em. induction (lt_wf m) as [m _ IH]. intros s -> Hi Hq Hst.
  assert (Hgo : ∀ s1, step n s s1 → owner_left (owner_at s1) < owner_left (owner_at s) → quit_closed s1 = true →
    shut_at s1 = shut_at s → Forall (λ b, ¬ stuck b) (subs s1) →
    ∃ s', rtc (step n) s s' ∧ owner_at s' = Gone ∧ shut_at s' = shut_at s ∧ Forall (λ b, ¬ stuck b) (subs s')).
  { intros s1 Hs1 Hlt Hq1 Hh1 Hst1. destruct (IH _ Hlt s1 eq_refl) as (s2 & Hr2 & ? & ? & ?); [by eapply step_inv|done..|].
    exists s2. split; [by eapply rtc_l|]. split_and!; [done|congruence|done]. }
  pose proof (inv_owner _ Hi) as Ho. pose proof (inv_length _ Hi) as Hl.
  destruct (owner_at s) as [i|i| |i|] eqn:E.
  - eapply Hgo; [by apply adds|cbn; lia|done..].
  - eapply Hgo; [by apply spawns|cbn; case_decide; cbn; lia|done|done|]. cbn. apply Forall_app. split; [done|].
    apply Forall_singleton. intros H0. exact H0.
  - eapply Hgo; [by apply quits|cbn; lia|done..].
  - destruct Ho as [Hlt _]. destruct (lookup_lt_is_Some_2 (subs s) i) as [b Hb]; [lia|].
    eapply Hgo; [by eapply sends|cbn; case_decide; cbn; lia|done|done|]. cbn. apply Forall_insert; [done|].
    rewrite Forall_lookup in Hst. exact (Hst i b Hb).
  - exists s. split; [apply rtc_refl|done].
Qed.

(** Otherwise [ShutDown] can return, with every subscription at its end. *)
Lemma shutdown_can_return s :
  reached n s → shut_at s = Waiting → Forall (λ b, ¬ stuck b) (subs s) →
  ∃ s', rtc (step n) s s' ∧ shut_at s' = Returned ∧ length (subs s') = n ∧ Forall (λ b, stopped b = true) (subs s').
Proof.
  intros Hi%life_inv Hw Hst. pose proof (inv_closed _ Hi) as Hq. rewrite Hw in Hq.
  destruct (owner_ends s Hi Hq Hst) as (s1 & Hr1 & Ho1 & Hs1 & Hst1). pose proof (life_steps_inv _ _ Hr1 Hi) as Hi1.
  destruct (all_stop s1 Hi1 Ho1 Hst1) as (s2 & Hr2 & Ho2 & Hs2 & Hl2). pose proof (life_steps_inv _ _ Hr2 Hi1) as Hi2.
  pose proof (inv_wg _ Hi2) as Hwg. pose proof (inv_length _ Hi2) as Hlen. rewrite Ho2 in Hwg, Hlen.
  exists (set_shut (quit_closed s2) Returned s2). split; [|split_and!; [done|done|by apply live_0]].
  eapply rtc_r; [by etrans|]. apply wait_returns; [congruence|lia].
Qed.

(** C35. [ShutDown], once called, can always return, with every subscription at its end,
    unless a subscription was told to stop while it had no connection to redis: then it
    never does. *)
Theorem shutdown_fate s :
  reached n s → shut_at s = Waiting →
  (Forall (λ b, ¬ stuck b) (subs s) →
   ∃ s', rtc (step n) s s' ∧ shut_at s' = Returned ∧ length (subs s') = n ∧ Forall (λ b, stopped b = true) (subs s'))
  ∧ (Exists stuck (subs s) → ∀ s', rtc (step n) s s' → shut_at s' ≠ Returned).
Proof.
  intros Hr Hw. split; [by apply shutdown_can_return|]. intros Hst s' Hs'. eapply shutdown_hangs; [done..| |done]. congruence.
Qed.

(** ** What a return means *)

(** Called when the goroutine waits for it, [ShutDown] returns only after every
    subscription has ended. *)
Definition settled_live (s : Life) : Prop :=
  match owner_at s with Adding _ | Spawning _ => False | _ => True end ∧ (shut_at s = Returned → live (subs s) = 0).
Lemma settled_step s s' : step n s s' → inv s → settled_live s → settled_live s'.
Proof.
  intros Hstep Hi [Ho Hl].
  assert (Hle : ∀ k b b' (o : owner), subs s !! k = Some b → (stopped b = true → stopped b' = true) →
    match o with Adding _ | Spawning _ => False | _ => True end →
    match o with Adding _ | Spawning _ => False | _ => True end ∧ (shut_at s = Returned → live (<[k := b']> (subs s)) = 0)).
  { intros k b b' o Hk Hs Hm. split; [done|]. intros Hr. pose proof (live_insert _ _ _ b' Hk) as Hli. specialize (Hl Hr).
    destruct (stopped b); [rewrite Hs in Hli by done|destruct (stopped b')]; lia. }
  destruct Hstep as [i E|i E|E Eq|i b E Hb|k b ok Hb Hn|k b l l' Hb El Hstep Hctl|k b l l' Hb El Hsent Hstep H1 H2
    |k b l l' Hb El Hstep H1 H2|E|E Ew]; try (by rewrite E in Ho); unfold settled_live; cbn -[live].
  - eapply Hle; [done|by unfold stopped|by case_decide].
  - eapply Hle; [done| |done]. unfold stopped. by rewrite Hn.
  - eapply Hle; [done| |done]. unfold stopped. cbn. by rewrite El, Hctl.
  - eapply Hle; [done| |done]. unfold stopped. cbn. by rewrite El, H1.
  - eapply Hle; [done| |done]. unfold stopped. cbn. by rewrite El, H1.
  - done.
  - split; [done|]. intros _. pose proof (inv_wg _ Hi). destruct (owner_at s); try done; lia.
Qed.
Theorem shutdown_waits s s' :
  reached n s → owner_at s = Awaiting → shut_at s = NotCalled → rtc (step n) s s' → shut_at s' = Returned →
  length (subs s') = n ∧ Forall (λ b, stopped b = true) (subs s').
Proof.
  intros Hi%life_inv Ho Hs Hr Hret.
  assert (settled_live s) as H0. { split; [by rewrite Ho|congruence]. }
  assert (settled_live s' ∧ inv s') as [[Ho' Hl] Hi'].
  { clear Hs Hret Ho. induction Hr as [|s s1 s2 Hstep _ IH]; [done|]. apply IH; [by eapply step_inv|by eapply settled_step]. }
  split; [|by apply live_0, Hl]. pose proof (inv_length _ Hi') as Hlen. by destruct (owner_at s').
Qed.
End invariant.

(** Called before the goroutine has begun, it returns at once, and the subscriptions
    begin afterwards: [quitWG.Add] is in the goroutine. *)
Theorem shutdown_too_early n :
  0 < n →
  ∃ s, reached n s ∧ shut_at s = Returned ∧ subs s = []
    ∧ ∃ s', rtc (step n) s s' ∧ Exists (λ b, loop b = Some connected) (subs s').
Proof.
  intros Hn. eexists. split; [|split; [|split]].
  - eapply rtc_l; [by apply ShutDown|]. apply rtc_once. by apply wait_returns.
  - done.
  - done.
  - eexists. split.
    + eapply rtc_l; [by eapply adds|]. eapply rtc_l; [by eapply spawns|]. apply rtc_once.
      by eapply (initial n _ 0 _ true).
    + by constructor.
Qed.
