(* ===== verification/RateLimit.v ===== *)
(** * The rate limiter: [pkg/ratelimit/limiter.go]

    A leaky bucket per client address: each accepted request adds [TimeStep] to
    the [Size] of the client's limiter, time drains it, and a request is refused
    while [Size] exceeds [MaxTime]. The limiters are kept in a go-cache, whose
    entries expire one minute after they were set. Durations are nanoseconds in
    64 bits. Calls are atomic here; [LimiterRuns] takes them apart. *)
From S2P Require Import Prelude GoStrings.
Local Open Scope Z_scope.

Definition Millisecond : Z := 1000000.
Definition Minute : Z := 60000 * Millisecond.

Record Config := {
  Enable : bool; Burst : Z; Rate : Z; cfg_WhiteList : list string; cfg_BlackList : list string;
}.
Record RateLimiter := {
  MaxTime : Z; TimeStep : Z; rl_Config : Config; WhiteList : gset string; BlackList : gset string;
}.
Record Limiter := { Size : Z; LastUpdate : Z }.

(** [NewRateLimiter]; [None] is the panic of a division by zero. *)
Definition NewRateLimiter (config : Config) : option RateLimiter :=
  if Rate config =? 0 then None else
  let timeStep := wrap64 (Z.quot 60000 (Rate config) * Millisecond) in
  Some {| MaxTime := wrap64 (timeStep * Burst config); TimeStep := timeStep; rl_Config := config;
          WhiteList := list_to_set (cfg_WhiteList config);
          BlackList := list_to_set (cfg_BlackList config) |}.

(** A go-cache: [Get] at a time, and [Set] at a time with a lifetime. *)
Class TTLCache (C V : Type) := {
  tc_Get : string → Z → C → option V;
  tc_Set : string → V → Z → Z → C → C;
}.
(** An entry is returned until its lifetime is over. *)
Class TTLCacheLaws (C V : Type) `{!TTLCache C V} (peek : C → string → option (V * Z)) : Prop := {
  law_tc_Get k now c :
    tc_Get k now c = match peek c k with
                     | Some (v, exp) => if now <=? exp then Some v else None
                     | None => None
                     end;
  law_tc_Set k v now d c k' :
    peek (tc_Set k v now d c) k' = if decide (k = k') then Some (v, now + d) else peek c k';
}.

(** The clock readings of one call: the cache lookup, [time.Since],
    [time.Now], and the cache update. *)
Record Times := { t_get : Z; t_since : Z; t_now : Z; t_set : Z }.

Section CanHandle.
Context {C : Type} `{!TTLCache C Limiter}.
Variable rl : RateLimiter.

(** The limiter of a known client at the next request. *)
Definition update (ts : Times) (l : Limiter) : bool * Limiter :=
  let size := wrap64 (Size l - (t_since ts - LastUpdate l)) in
  let size := if size <? 0 then 0 else size in
  if size >? MaxTime rl then (false, {| Size := size; LastUpdate := t_now ts |})
  else (true, {| Size := wrap64 (size + TimeStep rl); LastUpdate := t_now ts |}).

Definition CanHandle (key : string) (ts : Times) (c : C) : bool * C :=
  if negb (Enable (rl_Config rl)) then (true, c) else
  if bool_decide (key ∈ BlackList rl) then (false, c) else
  if bool_decide (key ∈ WhiteList rl) then (true, c) else
  match tc_Get key (t_get ts) c with
  | Some l =>
    let '(res, l) := update ts l in (res, tc_Set key l (t_set ts) Minute c)
  | None =>
    let l := {| Size := TimeStep rl; LastUpdate := t_now ts |} in
    (true, tc_Set key l (t_set ts) Minute c)
  end.

(** The requests of one client, one after the other. *)
Fixpoint serve (key : string) (tss : list Times) (c : C) : list bool * C :=
  match tss with
  | [] => ([], c)
  | ts :: tss =>
    let '(res, c) := CanHandle key ts c in
    let '(ress, c) := serve key tss c in (res :: ress, c)
  end.
End CanHandle.

(** ** Theorems *)

(** Readings of a clock that does not go back, from [t] on. *)
Fixpoint ordered (t : Z) (tss : list Times) : Prop :=
  match tss with
  | [] => True
  | ts :: tss =>
    t ≤ t_get ts ∧ t_get ts ≤ t_since ts ∧ t_since ts ≤ t_now ts ∧ t_now ts ≤ t_set ts
    ∧ t_set ts < 2 ^ 63 ∧ ordered (t_set ts) tss
  end.
Fixpoint end_time (t : Z) (tss : list Times) : Z :=
  match tss with [] => t | ts :: tss => end_time (t_set ts) tss end.
Definition accepted (ress : list bool) : Z := Z.of_nat (length (List.filter id ress)).

Lemma ordered_end t tss : ordered t tss → t ≤ end_time t tss.
Proof.
  revert t. induction tss as [|ts tss IH]; intros t; simpl; [lia|].
  intros (? & ? & ? & ? & ? & Ho). specialize (IH _ Ho). lia.
Qed.

Section facts.
Context {C : Type} `{!TTLCache C Limiter} {peek : C → string → option (Limiter * Z)}.
Context `{!TTLCacheLaws C Limiter peek}.
Variable rl : RateLimiter.
Hypothesis step_nonneg : 0 ≤ TimeStep rl.
Hypothesis max_nonneg : 0 ≤ MaxTime rl.
Variable key : string.

(** No limit of a client lasts longer than its entry in the cache. *)
Definition fits : Prop := MaxTime rl + TimeStep rl ≤ Minute.
Definition limited : Prop :=
  Enable (rl_Config rl) = true ∧ (key ∉ BlackList rl) ∧ (key ∉ WhiteList rl).

Definition size_ok (l : Limiter) : Prop := 0 ≤ Size l ≤ MaxTime rl + TimeStep rl.

(** [update] drains the elapsed time and adds a step for an accepted request. *)
Lemma update_spec ts l :
  fits → size_ok l → 0 ≤ LastUpdate l ≤ t_since ts → t_since ts < 2 ^ 63 →
  let size := Z.max 0 (Size l - (t_since ts - LastUpdate l)) in
  update rl ts l = if size <=? MaxTime rl
                   then (true, {| Size := size + TimeStep rl; LastUpdate := t_now ts |})
                   else (false, {| Size := size; LastUpdate := t_now ts |}).
Proof.
  unfold fits, size_ok, update, Minute, Millisecond. intros Hf Hs Hl Ht.
  assert (is_int64 (Size l - (t_since ts - LastUpdate l))) as Hi by (unfold is_int64; lia).
  rewrite (wrap64_id _ Hi).
  assert (E : (if Size l - (t_since ts - LastUpdate l) <? 0 then 0
               else Size l - (t_since ts - LastUpdate l))
              = Z.max 0 (Size l - (t_since ts - LastUpdate l))) by (case_match; lia).
  rewrite E. set (size := Z.max 0 _) in *. simpl.
  destruct (Z.leb_spec size (MaxTime rl)) as [Hle|Hgt].
  - destruct (Z.gtb_spec size (MaxTime rl)); [lia|]. rewrite wrap64_id; [done|].
    unfold is_int64. lia.
  - destruct (Z.gtb_spec size (MaxTime rl)); [done|lia].
Qed.

(** After [n] accepted requests since [t0]: what the limiter holds plus the time
    that has passed covers them. *)
Definition covers (t0 t n : Z) (c : C) : Prop :=
  match peek c key with
  | None => n = 0
  | Some (l, exp) =>
    size_ok l ∧ 0 ≤ LastUpdate l ≤ t ∧ LastUpdate l + Minute ≤ exp
    ∧ n * TimeStep rl ≤ Size l + (LastUpdate l - t0)
  end.

Lemma CanHandle_covers t0 t n ts c :
  fits → limited → 0 ≤ t0 ≤ t → covers t0 t n c →
  t ≤ t_get ts → t_get ts ≤ t_since ts → t_since ts ≤ t_now ts → t_now ts ≤ t_set ts →
  t_set ts < 2 ^ 63 →
  let '(res, c') := CanHandle rl key ts c in
  covers t0 (t_set ts) (if res then n + 1 else n) c'.
Proof.
  intros Hf (He & Hb & Hw) Ht0 Hc ? ? ? ? ?.
  unfold CanHandle. rewrite He, !bool_decide_eq_false_2 by done. cbn [negb].
  rewrite (law_tc_Get (peek:=peek)). unfold covers in Hc.
  assert (Hnew : n * TimeStep rl ≤ t_now ts - t0 → covers t0 (t_set ts) (n + 1)
            (tc_Set key {| Size := TimeStep rl; LastUpdate := t_now ts |} (t_set ts) Minute c)).
  { intros Hle. unfold covers. rewrite (law_tc_Set (peek:=peek)), decide_True by done.
    unfold size_ok, Minute, Millisecond. simpl. lia. }
  destruct (peek c key) as [[l exp]|]; [|apply Hnew; subst; lia].
  destruct Hc as (Hs & Hl & Hexp & Hcov). destruct (Z.leb_spec (t_get ts) exp) as [Hlive|Hdead].
  - rewrite update_spec by (done || lia). cbv zeta.
    set (size := Z.max 0 _). assert (Size l - (t_since ts - LastUpdate l) ≤ size ∧ 0 ≤ size
      ∧ size ≤ MaxTime rl + TimeStep rl) by (unfold size, size_ok in *; lia).
    destruct (Z.leb_spec size (MaxTime rl)); unfold covers;
      rewrite (law_tc_Set (peek:=peek)), decide_True by done; unfold size_ok; simpl;
      unfold Minute, Millisecond in *; lia.
  - apply Hnew. unfold size_ok, fits in *. lia.
Qed.

Lemma covers_bound t0 t n c :
  t0 ≤ t → covers t0 t n c → n * TimeStep rl ≤ MaxTime rl + TimeStep rl + (t - t0).
Proof.
  intros Ht Hc. unfold covers, size_ok in Hc. destruct (peek c key) as [[l exp]|]; [lia|]. subst. lia.
Qed.

Lemma serve_covers t0 t n tss c :
  fits → limited → 0 ≤ t0 ≤ t → covers t0 t n c → ordered t tss →
  covers t0 (end_time t tss) (n + accepted (serve rl key tss c).1) (serve rl key tss c).2.
Proof.
  intros Hf Hl. revert t n c. induction tss as [|ts tss IH]; intros t n c Ht Hc Ho; simpl.
  { by rewrite Z.add_0_r. }
  destruct Ho as (? & ? & ? & ? & ? & Ho).
  pose proof (CanHandle_covers t0 t n ts c Hf Hl Ht Hc) as Hstep.
  destruct (CanHandle rl key ts c) as [res c'].
  specialize (IH (t_set ts) (if res then n + 1 else n) c' ltac:(lia) ltac:(auto) Ho).
  destruct (serve rl key tss c') as [ress c'']. simpl in *.
  replace (n + accepted (res :: ress)) with ((if res then n + 1 else n) + accepted ress); [done|].
  unfold accepted. destruct res; simpl; lia.
Qed.

(** No client gets more than its share: over any sequence of requests of a
    client that is on no list, the accepted ones cost at most the burst and one
    request more, plus the time that passed, at the rate of one [TimeStep] each.
    (The limiter starts empty and is filled before it is compared, hence the one
    request more.) *)
Theorem rate_bound t0 tss c :
  fits → limited → 0 ≤ t0 → peek c key = None → ordered t0 tss →
  accepted (serve rl key tss c).1 * TimeStep rl
  ≤ MaxTime rl + TimeStep rl + (end_time t0 tss - t0).
Proof.
  intros Hf Hl Ht Hp Ho.
  assert (Hc : covers t0 t0 0 c) by (unfold covers; by rewrite Hp).
  pose proof (serve_covers t0 t0 0 tss c Hf Hl ltac:(lia) Hc Ho) as H.
  rewrite Z.add_0_l in H. by apply (covers_bound _ _ _ (serve rl key tss c).2 (ordered_end _ _ Ho)).
Qed.

(** A client that keeps to the rate is never refused: whatever it asked before, and
    whatever was refused, a request that comes at least one [TimeStep] after the
    last one was counted is accepted. *)
Theorem steady_client_accepted t0 tss ts c0 :
  fits → limited → 0 ≤ t0 → peek c0 key = None → ordered t0 tss →
  let c := (serve rl key tss c0).2 in
  end_time t0 tss ≤ t_get ts → t_get ts ≤ t_since ts → t_since ts < 2 ^ 63 →
  (∀ l exp, peek c key = Some (l, exp) → LastUpdate l + TimeStep rl ≤ t_since ts) →
  (CanHandle rl key ts c).1 = true.
Proof.
  intros Hf Hlim Ht Hp Ho c ? ? ? Hl.
  assert (Hc0 : covers t0 t0 0 c0) by (unfold covers; by rewrite Hp).
  pose proof (serve_covers t0 t0 0 tss c0 Hf Hlim ltac:(lia) Hc0 Ho) as Hc. fold c in Hc.
  destruct Hlim as (He & Hb & _). unfold CanHandle. rewrite He, bool_decide_eq_false_2 by done.
  cbn [negb]. case_bool_decide; [done|]. rewrite (law_tc_Get (peek:=peek)). unfold covers in Hc.
  destruct (peek c key) as [[l exp]|]; [|done]. destruct (Z.leb_spec (t_get ts) exp); [|done].
  destruct Hc as (Hs & Hlu & _). specialize (Hl _ _ eq_refl).
  rewrite update_spec by (done || lia). cbv zeta. unfold size_ok in Hs.
  destruct (Z.leb_spec (Z.max 0 (Size l - (t_since ts - LastUpdate l))) (MaxTime rl)); [done|lia].
Qed.
End facts.
