(* ===== verification/LimiterRuns.v ===== *)
(** * Simultaneous requests of one client: [CanHandle] statement by statement

    [RateLimit] runs the calls of [CanHandle] one after the other. Here the calls
    of one client interleave: the cache holds pointers, the limiters are objects in
    a heap, and a call takes a step at every read of the clock, operation on the
    cache and operation on the mutex. Two results connect the models: a run in which
    the cache was missed once is equal to calls one after the other, in the order of
    their updates; and calls that miss it together are all let through. *)
From S2P Require Import Prelude GoStrings RateLimit.
Local Open Scope Z_scope.

(** Where a call is. *)
Inductive call :=
| Begin
| Found (p : nat)                              (* before l.Mutex.Lock() *)
| Locked (p : nat)
| Elapsed (p : nat) (since : Z)                (* time.Since has been read *)
| Decided (p : nat) (since now : Z) (res : bool)  (* *l is updated *)
| Stored (p : nat) (res : bool)                (* before l.Mutex.Unlock() *)
| Missed
| Made (p : nat) (now : Z)                     (* before rl.Limiters.Set *)
| Returned (res : bool).

Record Run (C : Type) := {
  clock : Z; cache : C; heap : list Limiter; locked : gset nat; calls : list call;
  log : list (Times * bool);   (* the calls that have set the cache, with their results *)
  misses : nat;                (* how many calls the cache has missed *)
}.
Arguments clock {C}. Arguments cache {C}. Arguments heap {C}. Arguments locked {C}.
Arguments calls {C}. Arguments log {C}. Arguments misses {C}.

Section runs.
Context {C : Type} `{!TTLCache C nat}.
Variable rl : RateLimiter.
Variable key : string.

(** The clock readings of a call that holds the mutex: it counts from [time.Since]. *)
Definition stamps (since now set : Z) : Times :=
  {| t_get := since; t_since := since; t_now := now; t_set := set |}.

Definition set_call (i : nat) (x : call) (s : Run C) : Run C := {|
  clock := clock s; cache := cache s; heap := heap s; locked := locked s; calls := <[i := x]> (calls s);
  log := log s; misses := misses s |}.
Definition set_heap (h : list Limiter) (s : Run C) : Run C := {|
  clock := clock s; cache := cache s; heap := h; locked := locked s; calls := calls s;
  log := log s; misses := misses s |}.
Definition set_locked (l : gset nat) (s : Run C) : Run C := {|
  clock := clock s; cache := cache s; heap := heap s; locked := l; calls := calls s;
  log := log s; misses := misses s |}.
(** [rl.Limiters.Set(key, l, time.Minute)] *)
Definition set_cache (p : nat) (e : Times * bool) (s : Run C) : Run C := {|
  clock := clock s; cache := tc_Set key p (clock s) Minute (cache s); heap := heap s; locked := locked s;
  calls := calls s; log := log s ++ [e]; misses := misses s |}.

Inductive step (s : Run C) : Run C → Prop :=
| time_passes t :
    clock s ≤ t →
    step s {| clock := t; cache := cache s; heap := heap s; locked := locked s; calls := calls s;
              log := log s; misses := misses s |}
| arrives :
    step s {| clock := clock s; cache := cache s; heap := heap s; locked := locked s;
              calls := calls s ++ [Begin]; log := log s; misses := misses s |}
| finds i p : (* rl.Limiters.Get(key) *)
    calls s !! i = Some Begin → tc_Get key (clock s) (cache s) = Some p →
    step s (set_call i (Found p) s)
| misses_it i :
    calls s !! i = Some Begin → tc_Get key (clock s) (cache s) = None →
    step s {| clock := clock s; cache := cache s; heap := heap s; locked := locked s;
              calls := <[i := Missed]> (calls s); log := log s; misses := S (misses s) |}
| locks i p :
    calls s !! i = Some (Found p) → p ∉ locked s →
    step s (set_call i (Locked p) (set_locked ({[p]} ∪ locked s) s))
| reads_since i p :
    calls s !! i = Some (Locked p) → step s (set_call i (Elapsed p (clock s)) s)
| decides i p since l res l' : (* up to the branch, with time.Now *)
    calls s !! i = Some (Elapsed p since) → heap s !! p = Some l →
    update rl (stamps since (clock s) (clock s)) l = (res, l') →
    step s (set_call i (Decided p since (clock s) res) (set_heap (<[p := l']> (heap s)) s))
| stores i p since now res :
    calls s !! i = Some (Decided p since now res) →
    step s (set_call i (Stored p res) (set_cache p (stamps since now (clock s), res) s))
| unlocks i p res :
    calls s !! i = Some (Stored p res) →
    step s (set_call i (Returned res) (set_locked (locked s ∖ {[p]}) s))
| makes i :
    calls s !! i = Some Missed →
    step s (set_call i (Made (length (heap s)) (clock s))
              (set_heap (heap s ++ [{| Size := TimeStep rl; LastUpdate := clock s |}]) s))
| publishes i p now :
    calls s !! i = Some (Made p now) →
    step s (set_call i (Returned true) (set_cache p (stamps now now (clock s), true) s)).

Definition idle (t : Z) (c : C) : Run C := {|
  clock := t; cache := c; heap := []; locked := ∅; calls := []; log := []; misses := 0 |}.

(** ** Theorems *)
Context {peek : C → string → option (nat * Z)} `{!TTLCacheLaws C nat peek}.

(** The calls one after the other, on a cache of limiters. *)
Context {V : Type} `{!TTLCache V Limiter}.
Context {vpeek : V → string → option (Limiter * Z)} `{!TTLCacheLaws V Limiter vpeek}.
Hypothesis step_nonneg : 0 ≤ TimeStep rl.
Hypothesis max_nonneg : 0 ≤ MaxTime rl.
Hypothesis Hfits : fits rl.
Hypothesis Hlimited : limited rl key.

Lemma serve_snoc tss ts (v : V) :
  serve rl key (tss ++ [ts]) v
  = let '(rs, v1) := serve rl key tss v in
    let '(r, v2) := CanHandle rl key ts v1 in (rs ++ [r], v2).
Proof.
  revert v. induction tss as [|t tss IH]; intros v; cbn.
  - destruct (CanHandle rl key ts v) as [r v2]. done.
  - destruct (CanHandle rl key t v) as [r v1]. rewrite IH. destruct (serve rl key tss v1) as [rs v2].
    by destruct (CanHandle rl key ts v2).
Qed.
Lemma ordered_snoc t tss ts :
  ordered t (tss ++ [ts]) ↔ ordered t tss ∧ ordered (end_time t tss) [ts].
Proof. revert t. induction tss as [|x tss IH]; intros t; cbn; [tauto|]. rewrite IH. cbn. tauto. Qed.
Lemma end_time_snoc t tss ts : end_time t (tss ++ [ts]) = t_set ts.
Proof. revert t. induction tss as [|x tss IH]; intros t; cbn; [done|]. apply IH. Qed.

(** A call for which the cache has no live entry is let through. *)
Lemma CanHandle_miss ts (v : V) :
  vpeek v key = None →
  CanHandle rl key ts v
  = (true, tc_Set key {| Size := TimeStep rl; LastUpdate := t_now ts |} (t_set ts) Minute v).
Proof.
  intros Hv. destruct Hlimited as (He & Hb & Hw). unfold CanHandle.
  rewrite He, !bool_decide_eq_false_2 by done. cbn [negb]. by rewrite (law_tc_Get (peek:=vpeek)), Hv.
Qed.
(** An entry that is used although it has just expired makes no difference: the
    limiter has drained. *)
Lemma CanHandle_hit ts (v : V) l exp res l' :
  vpeek v key = Some (l, exp) → size_ok rl l → 0 ≤ LastUpdate l → LastUpdate l + Minute ≤ exp →
  LastUpdate l ≤ t_since ts → t_since ts < 2 ^ 63 → t_get ts = t_since ts →
  update rl ts l = (res, l') →
  CanHandle rl key ts v = (res, tc_Set key l' (t_set ts) Minute v).
Proof.
  intros Hv Hs Hl0 Hexp Hl Ht Eg Hu. destruct Hlimited as (He & Hb & Hw). unfold CanHandle.
  rewrite He, !bool_decide_eq_false_2 by done. cbn [negb]. rewrite (law_tc_Get (peek:=vpeek)), Hv.
  destruct (Z.leb_spec (t_get ts) exp) as [Hle|Hgt]; [by rewrite Hu|].
  rewrite (update_spec rl) in Hu by (done || lia). unfold size_ok, fits in *.
  rewrite Z.max_l in Hu by lia. rewrite (proj2 (Z.leb_le 0 (MaxTime rl))) in Hu by lia.
  by injection Hu as <- <-.
Qed.

Variables (t0 : Z) (v0 : V).
Hypothesis t0_nonneg : 0 ≤ t0.
Hypothesis v0_empty : vpeek v0 key = None.

Definition outside (x : call) : Prop := x = Begin ∨ x = Found 0 ∨ ∃ r, x = Returned r.
(** The call that holds the mutex, the limiter as it is and as the calls before left it. *)
Definition inside (s : Run C) (x : call) (l l' : Limiter) : Prop :=
  let t := end_time t0 (log s).*1 in
  match x with
  | Locked 0 | Stored 0 _ => l = l'
  | Elapsed 0 since => l = l' ∧ t ≤ since ≤ clock s
  | Decided 0 since now res =>
    update rl (stamps since now now) l' = (res, l) ∧ t ≤ since ∧ since ≤ now ≤ clock s
  | _ => False
  end.
Inductive stage (s : Run C) : Prop :=
| not_asked :
    misses s = 0%nat → heap s = [] → log s = [] → peek (cache s) key = None →
    (∀ i x, calls s !! i = Some x → x = Begin) → stage s
| one_missed i0 :
    misses s = 1%nat → heap s = [] → log s = [] → peek (cache s) key = None →
    calls s !! i0 = Some Missed → (∀ i x, i ≠ i0 → calls s !! i = Some x → x = Begin) → stage s
| one_made i0 now :
    misses s = 1%nat → heap s = [{| Size := TimeStep rl; LastUpdate := now |}] → log s = [] →
    peek (cache s) key = None → t0 ≤ now ≤ clock s →
    calls s !! i0 = Some (Made 0 now) → (∀ i x, i ≠ i0 → calls s !! i = Some x → x = Begin) → stage s
| shared l l' exp hold :
    misses s = 1%nat → heap s = [l] → peek (cache s) key = Some (0%nat, exp) →
    vpeek (serve rl key (log s).*1 v0).2 key = Some (l', exp) →
    match hold with
    | None => locked s = ∅ ∧ l = l'
    | Some i => locked s = {[0%nat]} ∧ ∃ x, calls s !! i = Some x ∧ inside s x l l'
    end →
    (∀ i x, hold ≠ Some i → calls s !! i = Some x → outside x) → stage s.
Record serial (s : Run C) : Prop := {
  serial_results : (serve rl key (log s).*1 v0).1 = (log s).*2;
  serial_ordered : ordered t0 (log s).*1;
  serial_clock : t0 ≤ clock s ∧ end_time t0 (log s).*1 ≤ clock s;
  serial_stage : stage s;
  serial_unlocked : log s = [] → locked s = ∅ }.

Lemma serial_idle c : peek c key = None → serial (idle t0 c).
Proof. intros Hc. split; cbn; [done|done|lia|by apply not_asked|done]. Qed.

(** Only the call inside the mutex touches the limiter. *)
Lemma outside_set i x y (s : Run C) (hold : option nat) :
  (∀ j z, hold ≠ Some j → calls s !! j = Some z → outside z) →
  calls s !! i = Some y → (hold = Some i ∨ outside x) →
  ∀ j z, hold ≠ Some j → <[i := x]> (calls s) !! j = Some z → outside z.
Proof.
  intros Ho Hi Hx j z Hj [(-> & -> & _)|[? Hz]]%list_lookup_insert_Some; [|by eapply Ho].
  by destruct Hx.
Qed.
Lemma begin_set i0 i x (s : Run C) :
  (∀ j z, j ≠ i0 → calls s !! j = Some z → z = Begin) →
  i = i0 ∨ x = Begin →
  ∀ j z, j ≠ i0 → <[i := x]> (calls s) !! j = Some z → z = Begin.
Proof.
  intros Ho Hx j z Hj [(-> & -> & _)|[? Hz]]%list_lookup_insert_Some; [|by eapply Ho]. naive_solver.
Qed.
Lemma lookup_arrive (l : list call) j z :
  (l ++ [Begin]) !! j = Some z → l !! j = Some z ∨ z = Begin.
Proof. intros [?|[_ [_ <-]%list_lookup_singleton_Some]]%lookup_app_Some; auto. Qed.

Lemma stage_time t s :
  clock s ≤ t → stage s →
  stage {| clock := t; cache := cache s; heap := heap s; locked := locked s; calls := calls s;
           log := log s; misses := misses s |}.
Proof.
  intros Ht [| |i0 now ? ? ? ? [? ?]|l l' exp hold Hm Hh Hp Hv Hhold Ho]; [by apply not_asked|by eapply one_missed| |].
  - eapply one_made; cbn; try done; lia.
  - eapply (shared _ l l' exp hold); try done. destruct hold as [i|]; [|done].
    destruct Hhold as (Hl & x & Hx & Hin). split; [done|]. exists x. split; [done|].
    destruct x; try done; cbn in *; destruct p; try done; naive_solver lia.
Qed.
Lemma stage_arrive s :
  stage s →
  stage {| clock := clock s; cache := cache s; heap := heap s; locked := locked s;
           calls := calls s ++ [Begin]; log := log s; misses := misses s |}.
Proof.
  intros [|i0 ? ? ? ? Hi0|i0 now ? ? ? ? ? Hi0|l l' exp hold Hm Hh Hp Hv Hhold Ho].
  - apply not_asked; try done. intros i x [?| ->]%lookup_arrive; eauto.
  - eapply (one_missed _ i0); try done; [by apply lookup_app_l_Some|]. intros i x ? [?| ->]%lookup_arrive; eauto.
  - eapply (one_made _ i0); try done; [by apply lookup_app_l_Some|]. intros i x ? [?| ->]%lookup_arrive; eauto.
  - eapply (shared _ l l' exp hold); try done.
    + destruct hold as [i|]; [|done]. destruct Hhold as (Hl & x & Hx & Hin). split; [done|]. exists x.
      split; [by apply lookup_app_l_Some|done].
    + intros i x Hi [?| ->]%lookup_arrive; [eauto|by left].
Qed.

(** What the calls so far say about the limiter they have left. *)
Lemma serial_covers s l' exp :
  serial s → vpeek (serve rl key (log s).*1 v0).2 key = Some (l', exp) →
  size_ok rl l' ∧ 0 ≤ LastUpdate l' ≤ end_time t0 (log s).*1 ∧ LastUpdate l' + Minute ≤ exp.
Proof.
  intros [_ Hord _ _ _] Hv.
  assert (H0 : covers (peek:=vpeek) rl key t0 t0 0 v0) by (unfold covers; by rewrite v0_empty).
  pose proof (serve_covers (peek:=vpeek) rl step_nonneg max_nonneg key t0 t0 0 (log s).*1 v0
    Hfits Hlimited ltac:(lia) H0 Hord) as Hc.
  unfold covers in Hc. rewrite Hv in Hc. tauto.
Qed.

(** A call that has the mutex: the limiter is shared and the call is the one. *)
Definition critical (x : call) : bool :=
  match x with Locked _ | Elapsed _ _ | Decided _ _ _ _ | Stored _ _ => true | _ => false end.
Lemma stage_critical s i x :
  stage s → calls s !! i = Some x → critical x = true →
  ∃ l l' exp, misses s = 1%nat ∧ heap s = [l] ∧ peek (cache s) key = Some (0%nat, exp)
    ∧ vpeek (serve rl key (log s).*1 v0).2 key = Some (l', exp)
    ∧ locked s = {[0%nat]} ∧ inside s x l l'
    ∧ (∀ j z, Some i ≠ Some j → calls s !! j = Some z → outside z).
Proof.
  intros [? ? ? ? Hc|i0 ? ? ? ? Hi0 Hc|i0 now ? ? ? ? ? Hi0 Hc|l l' exp hold Hm Hh Hp Hv Hhold Ho] Hi Hx.
  - apply Hc in Hi. by subst x.
  - destruct (decide (i = i0)) as [->|Hne]; [|apply Hc in Hi; [|done]]; by simplify_eq.
  - destruct (decide (i = i0)) as [->|Hne]; [|apply Hc in Hi; [|done]]; by simplify_eq.
  - assert (hold = Some i) as ->.
    { destruct (decide (hold = Some i)) as [|Hne]; [done|]. by destruct (Ho _ _ Hne Hi) as [->|[->|[? ->]]]. }
    destruct Hhold as (Hk & y & Hy & Hin). rewrite Hi in Hy. injection Hy as <-. by exists l, l', exp.
Qed.

Lemma stage_find s i p :
  calls s !! i = Some Begin → tc_Get key (clock s) (cache s) = Some p → stage s →
  stage (set_call i (Found p) s).
Proof.
  intros Hi Hg Hst. rewrite (law_tc_Get (peek:=peek)) in Hg.
  destruct Hst as [? ? ? Hp|i0 ? ? ? Hp|i0 now ? ? ? Hp|l l' exp hold Hm1 Hh Hp Hv Hhold Ho];
    try (by rewrite Hp in Hg). rewrite Hp in Hg. destruct (clock s <=? exp); [|done]. injection Hg as <-.
  assert (hold ≠ Some i) as Hne.
  { intros ->. destruct Hhold as (_ & x & Hx & Hin). rewrite Hi in Hx. by injection Hx as <-. }
  eapply (shared _ l l' exp hold); try done.
  - destruct hold as [i'|]; [|done]. destruct Hhold as (Hl & x & Hx & Hin). split; [done|]. exists x.
    split; [cbn; rewrite list_lookup_insert_ne by congruence; done|done].
  - cbn. eapply outside_set; [done..|]. right. by right; left.
Qed.
Lemma stage_miss s i :
  calls s !! i = Some Begin → (S (misses s) ≤ 1)%nat → stage s →
  stage {| clock := clock s; cache := cache s; heap := heap s; locked := locked s;
           calls := <[i := Missed]> (calls s); log := log s; misses := S (misses s) |}.
Proof.
  intros Hi Hm Hst.
  destruct Hst as [? ? ? Hp Hc|i0 ? ? ? Hp|i0 now ? ? ? Hp|l l' exp hold Hm1 Hh Hp Hv Hhold Ho]; [|lia..].
  eapply (one_missed _ i); cbn; try done; [lia|apply list_lookup_insert_eq; by eapply lookup_lt_Some|].
  eapply begin_set; [|by left]. naive_solver.
Qed.
Lemma stage_lock s i p :
  calls s !! i = Some (Found p) → p ∉ locked s → stage s →
  stage (set_call i (Locked p) (set_locked ({[p]} ∪ locked s) s)).
Proof.
  intros Hi Hl Hst.
  destruct Hst as [? ? ? Hp Hc|i0 ? ? ? Hp Hi0 Hc|i0 now ? ? ? Hp ? Hi0 Hc|l l' exp hold Hm1 Hh Hp Hv Hhold Ho].
  - apply Hc in Hi. done.
  - destruct (decide (i = i0)) as [->|Hne]; [congruence|apply Hc in Hi; done].
  - destruct (decide (i = i0)) as [->|Hne]; [congruence|apply Hc in Hi; done].
  - assert (hold ≠ Some i) as Hne.
    { intros ->. destruct Hhold as (_ & x & Hx & Hin). rewrite Hi in Hx. by injection Hx as <-. }
    destruct (Ho i _ Hne Hi) as [|[[= ->]|[? ?]]]; [done| |done].
    destruct hold as [j|]; [destruct Hhold as [Hk _]; rewrite Hk in Hl; set_solver|].
    destruct Hhold as [Hk ->]. eapply (shared _ l' l' exp (Some i)); try done.
    + split; [cbn; rewrite Hk; set_solver|]. exists (Locked 0). split; [|done].
      apply list_lookup_insert_eq; by eapply lookup_lt_Some.
    + cbn. eapply outside_set; [|done|by left]. intros j z _. by apply Ho.
Qed.
(** The call in the mutex goes on, and changes the limiter. *)
Lemma stage_go_on s i x y l l1 l' exp :
  calls s !! i = Some x → heap s = [l] → misses s = 1%nat → peek (cache s) key = Some (0%nat, exp) →
  vpeek (serve rl key (log s).*1 v0).2 key = Some (l', exp) → locked s = {[0%nat]} →
  (∀ j z, Some i ≠ Some j → calls s !! j = Some z → outside z) →
  inside s y l1 l' → stage (set_call i y (set_heap [l1] s)).
Proof.
  intros Hi Hh Hm Hp Hv Hk Ho Hin. eapply (shared _ l1 l' exp (Some i)); try done.
  - split; [done|]. exists y. split; [|done]. apply list_lookup_insert_eq; by eapply lookup_lt_Some.
  - cbn. eapply outside_set; [done|done|by left].
Qed.
Lemma set_heap_same (s : Run C) h : heap s = h → set_heap h s = s.
Proof. by intros <-; destruct s. Qed.
Lemma stage_unlock s i p res :
  calls s !! i = Some (Stored p res) → stage s →
  stage (set_call i (Returned res) (set_locked (locked s ∖ {[p]}) s)).
Proof.
  intros Hi Hst. destruct (stage_critical _ _ _ Hst Hi eq_refl) as (l & l' & exp & Hm & Hh & Hp & Hv & Hk & Hin & Ho).
  destruct p; [|done]. cbn in Hin. subst l'. eapply (shared _ l l exp None); try done.
  - split; [cbn; rewrite Hk; set_solver|done].
  - cbn. intros j z _ [(-> & <- & _)|[Hne Hz]]%list_lookup_insert_Some; [right; right; eauto|].
    eapply Ho, Hz. congruence.
Qed.
Lemma stage_make s i :
  calls s !! i = Some Missed → t0 ≤ clock s → stage s →
  stage (set_call i (Made (length (heap s)) (clock s))
           (set_heap (heap s ++ [{| Size := TimeStep rl; LastUpdate := clock s |}]) s)).
Proof.
  intros Hi Ht Hst.
  destruct Hst as [? ? ? Hp Hc|i0 Hm Hh Hlg Hp Hi0 Hc|i0 now ? ? ? Hp ? Hi0 Hc|l l' exp hold Hm1 Hh Hp Hv Hhold Ho].
  - apply Hc in Hi. done.
  - destruct (decide (i = i0)) as [->|Hne]; [|apply Hc in Hi; done]. rewrite Hh.
    eapply (one_made _ i0 (clock s)); cbn; try done.
    + apply list_lookup_insert_eq; by eapply lookup_lt_Some.
    + by eapply begin_set; [|left].
  - destruct (decide (i = i0)) as [->|Hne]; [congruence|apply Hc in Hi; done].
  - destruct (decide (hold = Some i)) as [->|Hne].
    + destruct Hhold as (_ & x & Hx & Hin). rewrite Hi in Hx. by injection Hx as <-.
    + by destruct (Ho _ _ Hne Hi) as [|[|[? ?]]].
Qed.

(** Setting the cache adds a call to the calls in order. *)
Lemma serial_log s i p x y ts res l :
  serial s → calls s !! i = Some x →
  (let '(r, v) := CanHandle rl key ts (serve rl key (log s).*1 v0).2 in
   r = res ∧ vpeek v key = Some (l, t_set ts + Minute)) →
  t_set ts = clock s → end_time t0 (log s).*1 ≤ t_get ts →
  t_get ts ≤ t_since ts → t_since ts ≤ t_now ts → t_now ts ≤ clock s → clock s < 2 ^ 63 →
  (∀ v, vpeek v key = Some (l, clock s + Minute) →
   v = (serve rl key (log (set_cache p (ts, res) s)).*1 v0).2 →
   stage (set_call i y (set_cache p (ts, res) s))) →
  serial (set_call i y (set_cache p (ts, res) s)).
Proof.
  intros [Hres Hord Hclk _ _] Hi Hcan Hset ? ? ? ? ? Hstage.
  assert (E : serve rl key (log (set_cache p (ts, res) s)).*1 v0
    = let '(r, v) := CanHandle rl key ts (serve rl key (log s).*1 v0).2 in ((log s).*2 ++ [r], v)).
  { cbn. rewrite fmap_app. cbn. rewrite serve_snoc, <-Hres. by destruct (serve rl key (log s).*1 v0). }
  destruct (CanHandle rl key ts (serve rl key (log s).*1 v0).2) as [r v]. destruct Hcan as [-> Hv].
  rewrite Hset in Hv. split.
  - cbn [set_call log]. rewrite E. cbn. by rewrite fmap_app.
  - cbn. rewrite fmap_app. apply ordered_snoc. split; [done|]. cbn. rewrite Hset. lia.
  - cbn. rewrite fmap_app. cbn. rewrite end_time_snoc, Hset. lia.
  - apply (Hstage v Hv). by rewrite E.
  - cbn. intros En. by destruct (log s).
Qed.

Lemma serial_store s i p since now res :
  calls s !! i = Some (Decided p since now res) → clock s < 2 ^ 63 → serial s →
  serial (set_call i (Stored p res) (set_cache p (stamps since now (clock s), res) s)).
Proof.
  intros Hi Ht Hser.
  destruct (stage_critical _ _ _ (serial_stage _ Hser) Hi eq_refl) as (l & l' & exp & Hm & Hh & Hp & Hv & Hk & Hin & Ho).
  destruct p; [|done]. destruct Hin as (Hu & Hs1 & Hs2 & Hs3).
  destruct (serial_covers _ _ _ Hser Hv) as (Hsz & Hlu & Hexp).
  eapply (serial_log s i 0%nat _ _ _ res l); cbn; try done.
  - rewrite (CanHandle_hit (stamps since now (clock s)) _ l' exp res l); try done; cbn; try lia.
    split; [done|]. by rewrite (law_tc_Set (peek:=vpeek)), decide_True.
  - intros v Hv2 Ev. eapply (shared _ l l (clock s + Minute) (Some i)); try done.
    + cbn. by rewrite (law_tc_Set (peek:=peek)), decide_True.
    + cbn. by rewrite <-Ev.
    + split; [done|]. exists (Stored 0 res). split; [|done]. apply list_lookup_insert_eq; by eapply lookup_lt_Some.
    + cbn. eapply (outside_set _ _ _ s); [done|done|by left].
Qed.
Lemma serial_publish s i p now :
  calls s !! i = Some (Made p now) → clock s < 2 ^ 63 → serial s →
  serial (set_call i (Returned true) (set_cache p (stamps now now (clock s), true) s)).
Proof.
  intros Hi Ht Hser. pose proof (serial_stage _ Hser) as Hst.
  destruct Hst as [? ? ? Hp Hc|i0 ? ? ? Hp Hi0 Hc|i0 now' Hm Hh Hlg Hp Hnow Hi0 Hc|l l' exp hold Hm1 Hh Hp Hv Hhold Ho].
  - apply Hc in Hi. done.
  - destruct (decide (i = i0)) as [->|Hne]; [congruence|apply Hc in Hi; done].
  - destruct (decide (i = i0)) as [->|Hne]; [|apply Hc in Hi; done].
    rewrite Hi in Hi0. injection Hi0 as -> ->.
    eapply (serial_log s i0 0%nat _ _ _ true); cbn; try done; try lia.
    + rewrite Hlg. cbn. rewrite CanHandle_miss by done. split; [done|].
      by rewrite (law_tc_Set (peek:=vpeek)), decide_True.
    + rewrite Hlg. cbn. lia.
    + intros v Hv Ev. eapply (shared _ _ _ (clock s + Minute) None); try done.
      * cbn. by rewrite (law_tc_Set (peek:=peek)), decide_True.
      * cbn. by rewrite <-Ev.
      * split; [|done]. cbn. by apply serial_unlocked.
      * cbn. intros j z _ [(-> & <- & _)|[Hne Hz]]%list_lookup_insert_Some; [right; right; eauto|].
        left. eapply Hc, Hz. done.
  - destruct (decide (hold = Some i)) as [->|Hne].
    + destruct Hhold as (_ & x & Hx & Hin). rewrite Hi in Hx. by injection Hx as <-.
    + by destruct (Ho _ _ Hne Hi) as [|[|[? ?]]].
Qed.

(** A step that does not set the cache. *)
Lemma serial_quiet s s' :
  serial s → log s' = log s → clock s' = clock s → (log s = [] → locked s' = ∅) → stage s' → serial s'.
Proof. intros [Hres Hord Hclk _ _] El Ec Hk Hst. by split; rewrite ?El, ?Ec. Qed.
Lemma found_logged s i p : serial s → calls s !! i = Some (Found p) → log s ≠ [].
Proof.
  intros Hser Hi Hlog.
  destruct (serial_stage _ Hser) as [? ? ? Hp Hc|i0 ? ? ? Hp Hi0 Hc|i0 now' ? ? ? Hp ? Hi0 Hc|l l' exp hold Hm1 Hh Hp Hv Hhold Ho].
  - apply Hc in Hi. done.
  - destruct (decide (i = i0)) as [->|Hne]; [congruence|apply Hc in Hi; done].
  - destruct (decide (i = i0)) as [->|Hne]; [congruence|apply Hc in Hi; done].
  - rewrite Hlog in Hv. cbn in Hv. by rewrite v0_empty in Hv.
Qed.

Lemma serial_step s s' :
  step s s' → (misses s' ≤ 1)%nat → clock s' < 2 ^ 63 → serial s → serial s'.
Proof.
  intros Hs Hm Ht Hser. pose proof (serial_stage _ Hser) as Hst. pose proof (serial_unlocked _ Hser) as Hun.
  pose proof (serial_clock _ Hser) as Hclk.
  destruct Hs as [t Hle| |i p Hi Hg|i Hi Hg|i p Hi Hl|i p Hi|i p since l res l' Hi Hl Hu|i p since now res Hi
    |i p res Hi|i Hi|i p now Hi]; cbn in Hm, Ht.
  - destruct Hser. split; cbn; try done; [lia|by apply stage_time].
  - apply (serial_quiet s); try done. by apply stage_arrive.
  - apply (serial_quiet s); try done. by apply stage_find.
  - apply (serial_quiet s); try done. by apply stage_miss.
  - apply (serial_quiet s); try done; [|by apply stage_lock]. intros E. by destruct (found_logged _ _ _ Hser Hi).
  - apply (serial_quiet s); try done.
    destruct (stage_critical _ _ _ Hst Hi eq_refl) as (l & l' & exp & Hm1 & Hh & Hp & Hv & Hk & Hin & Ho).
    destruct p; [|done]. cbn in Hin. subst l'.
    pose proof (stage_go_on s i _ (Elapsed 0 (clock s)) l l l exp Hi Hh Hm1 Hp Hv Hk Ho) as Hgo.
    rewrite (set_heap_same _ _ Hh) in Hgo. apply Hgo. split; [done|lia].
  - apply (serial_quiet s); try done.
    destruct (stage_critical _ _ _ Hst Hi eq_refl) as (l1 & l2 & exp & Hm1 & Hh & Hp & Hv & Hk & Hin & Ho).
    destruct p; [|done]. destruct Hin as [<- Hs]. rewrite Hh in Hl |- *. injection Hl as <-. cbn.
    eapply (stage_go_on s i _ _ l1 l' l1 exp); try done. cbn. split; [done|lia].
  - by apply serial_store.
  - apply (serial_quiet s); try done; [|by apply stage_unlock]. cbn. intros E. rewrite (Hun E). set_solver.
  - apply (serial_quiet s); try done. apply stage_make; [done|lia|done].
  - by apply serial_publish.
Qed.

Lemma runs_monotone s s' :
  rtc step s s' → (misses s ≤ misses s')%nat ∧ clock s ≤ clock s'.
Proof.
  induction 1 as [s|s s1 s2 Hs _ [IH1 IH2]]; [lia|].
  assert ((misses s ≤ misses s1)%nat ∧ clock s ≤ clock s1) as [? ?] by (destruct Hs; cbn; lia). lia.
Qed.

(** C10. Calls of [CanHandle] for one client that run at the same time are as good as
    calls one after the other, if only one of them misses the cache: the results, in
    the order in which the calls set the cache, are those of the calls in that order,
    at times that do not go back. So they are let through as [rate_bound] says. *)
Theorem interleaved_is_serial c s :
  peek c key = None → rtc step (idle t0 c) s → (misses s ≤ 1)%nat → clock s < 2 ^ 63 →
  (serve rl key (log s).*1 v0).1 = (log s).*2
  ∧ ordered t0 (log s).*1 ∧ end_time t0 (log s).*1 ≤ clock s
  ∧ accepted (log s).*2 * TimeStep rl ≤ MaxTime rl + TimeStep rl + (clock s - t0).
Proof.
  intros Hc Hr Hm Ht. assert (serial s) as [Hres Hord Hclk Hst _].
  { assert (Hser : serial (idle t0 c)) by by apply serial_idle.
    remember (idle t0 c) as s0 eqn:E0. clear E0. induction Hr as [s|s s1 s2 Hs Hr IH]; [done|].
    destruct (runs_monotone _ _ Hr). apply IH; try done. apply (serial_step s); [done|lia..|done]. }
  split_and!; try done; [lia|].
  assert (H0 : covers (peek:=vpeek) rl key t0 t0 0 v0) by (unfold covers; by rewrite v0_empty).
  pose proof (serve_covers (peek:=vpeek) rl step_nonneg max_nonneg key t0 t0 0 (log s).*1 v0
    Hfits Hlimited ltac:(lia) H0 Hord) as Hcov. rewrite Z.add_0_l, Hres in Hcov.
  apply covers_bound in Hcov; try done; [lia|]. by apply ordered_end.
Qed.

(** ** First requests at the same time *)
Definition all_missed (n : nat) (c : C) : Run C := {|
  clock := t0; cache := c; heap := []; locked := ∅; calls := replicate n Missed; log := []; misses := n |}.
Lemma run_missed n c : peek c key = None → rtc step (idle t0 c) (all_missed n c).
Proof.
  intros Hc. induction n as [|n IH]; [apply rtc_refl|].
  eapply rtc_r; [eapply rtc_r; [exact IH|apply arrives]|].
  pose proof (misses_it {| clock := t0; cache := c; heap := []; locked := ∅;
    calls := replicate n Missed ++ [Begin]; log := []; misses := n |} n) as Hs.
  assert (<[n := Missed]> (replicate n Missed ++ [Begin]) = replicate (S n) Missed) as E.
  { rewrite insert_app_r_alt, length_replicate, Nat.sub_diag by by rewrite length_replicate.
    cbn. by rewrite <-replicate_cons_app. }
  cbn in Hs. rewrite E in Hs. apply Hs.
  - rewrite lookup_app_r, length_replicate, Nat.sub_diag by by rewrite length_replicate. done.
  - by rewrite (law_tc_Get (peek:=peek)), Hc.
Qed.
Lemma run_published k j c :
  (j ≤ k)%nat → peek c key = None →
  ∃ s, rtc step (idle t0 c) s ∧ calls s = replicate j (Returned true) ++ replicate (k - j) Missed
       ∧ clock s = t0 ∧ length (log s) = j ∧ Forall (λ e, e.2 = true) (log s).
Proof.
  intros Hj Hc. induction j as [|j IH].
  - exists (all_missed k c). rewrite Nat.sub_0_r. split_and!; try done. by apply run_missed.
  - destruct (IH ltac:(lia)) as (s & Hr & Ecalls & Eclk & Hlen & Hall).
    assert (Hi : calls s !! j = Some Missed).
    { rewrite Ecalls, lookup_app_r, length_replicate, Nat.sub_diag by by rewrite length_replicate.
      replace (k - j)%nat with (S (k - S j)) by lia. done. }
    pose proof (makes s j Hi) as Hmake. set (s1 := set_call j _ _) in Hmake.
    assert (Hi1 : calls s1 !! j = Some (Made (length (heap s)) (clock s)))
      by (apply list_lookup_insert_eq; by eapply lookup_lt_Some).
    pose proof (publishes s1 j _ _ Hi1) as Hpub.
    eexists. split; [eapply rtc_r; [eapply rtc_r; [exact Hr|exact Hmake]|exact Hpub]|].
    cbn. rewrite list_insert_insert_eq, Ecalls, length_app, Hlen, Forall_app, Forall_singleton.
    split_and!; try done; [|cbn; lia].
    rewrite insert_app_r_alt, length_replicate, Nat.sub_diag by by rewrite length_replicate.
    replace (k - j)%nat with (S (k - S j)) by lia. cbn.
    by rewrite (cons_middle (Returned true)), app_assoc, <-replicate_cons_app.
Qed.

(** First requests of a client that arrive at the same time are all let through,
    however many they are and however small the burst is: each misses the cache and
    makes a limiter of its own. *)
Theorem simultaneous_first_requests k c :
  peek c key = None →
  ∃ s, rtc step (idle t0 c) s ∧ clock s = t0 ∧ length (log s) = k ∧ accepted (log s).*2 = Z.of_nat k.
Proof.
  intros Hc. destruct (run_published k k c) as (s & Hr & _ & Hclk & Hlen & Hall); [done..|].
  exists s. split_and!; try done. unfold accepted. f_equal. rewrite <-Hlen. clear -Hall.
  induction Hall as [|[ts r] l E Hall IH]; [done|]. cbn in E. subst r. cbn. by rewrite IH.
Qed.
End runs.
