(* ===== verification/WorkerPool.v ===== *)
(** * The worker pool: [pkg/workerpool/workerpool.go]

    The dispatcher, its workers and the goroutines they start, as a step relation:
    a step is one operation on a channel, or the end of a handler. A worker offers
    its channel in [WorkerPool] and then waits for a job or for the end; [Queue]
    and [Dispatch] each start a goroutine per job. The waiting of a goroutine in
    [Queue] is a job in [queueing], that of one of [Dispatch] a job in [assigning]
    or [sending]. A handler is assumed to return (the step [finish]). *)
From S2P Require Import Prelude.

Section workerpool.
Context {Job : Type}.

(** Where the loop of [Worker.Run] is. *)
Inductive phase :=
| Ready                 (* before Run *)
| Announcing            (* w.WorkerPool <- w.JobChannel *)
| Waiting               (* select *)
| Running (j : Job)     (* w.handler(w, job) *)
| Gone.                 (* return *)
(** Where [Dispatch] is: not started yet, in its select, or [Closing i]: it has
    closed [quit] of worker [i] and waits. *)
Inductive control := Created | Dispatching | Closing (i : nat) | Ended.

Record Dispatcher := {
  submitted : list Job;          (* every argument of Queue *)
  queueing : list Job;           (* goroutines of Queue before their send *)
  JobQueue : list Job;           (* the buffer *)
  assigning : list Job;          (* goroutines of Dispatch before <-d.WorkerPool *)
  sending : list (Job * nat);    (* ... before jobChannel <- job *)
  WorkerPool : list nat;         (* the buffer: channels by worker *)
  WorkerList : list phase;
  ctl : control;
  quit : bool;                   (* d.quit is closed *)
  handled : list (Job * nat);
}.

Variables (maxWaitingJobs maxWorkers : nat).

Definition NewDispatcher : Dispatcher := {|
  submitted := []; queueing := []; JobQueue := []; assigning := []; sending := []; WorkerPool := [];
  WorkerList := []; ctl := Created; quit := false; handled := [] |}.
Definition AddWorker (d : Dispatcher) : Dispatcher := {|
  submitted := submitted d; queueing := queueing d; JobQueue := JobQueue d; assigning := assigning d;
  sending := sending d; WorkerPool := WorkerPool d; WorkerList := WorkerList d ++ [Ready];
  ctl := ctl d; quit := quit d; handled := handled d |}.
(** Starts every worker and [Dispatch]; it is called once. *)
Definition Run (d : Dispatcher) : Dispatcher := {|
  submitted := submitted d; queueing := queueing d; JobQueue := JobQueue d; assigning := assigning d;
  sending := sending d; WorkerPool := WorkerPool d; WorkerList := (λ _, Announcing) <$> WorkerList d;
  ctl := Dispatching; quit := quit d; handled := handled d |}.
Definition Queue (j : Job) (d : Dispatcher) : Dispatcher := {|
  submitted := submitted d ++ [j]; queueing := queueing d ++ [j]; JobQueue := JobQueue d;
  assigning := assigning d; sending := sending d; WorkerPool := WorkerPool d;
  WorkerList := WorkerList d; ctl := ctl d; quit := quit d; handled := handled d |}.
(** [None]: the panic of closing a closed channel. *)
Definition Stop (d : Dispatcher) : option Dispatcher := if quit d then None else Some {|
  submitted := submitted d; queueing := queueing d; JobQueue := JobQueue d; assigning := assigning d;
  sending := sending d; WorkerPool := WorkerPool d; WorkerList := WorkerList d; ctl := ctl d;
  quit := true; handled := handled d |}.

(** The next worker to close, of [n]. *)
Definition closing (i n : nat) : control := if decide (i < n) then Closing i else Ended.

(** The state with other contents of the channels and another worker list. *)
Definition with_jobs (d : Dispatcher) q1 q2 as_ se : Dispatcher := {|
  submitted := submitted d; queueing := q1; JobQueue := q2; assigning := as_; sending := se;
  WorkerPool := WorkerPool d; WorkerList := WorkerList d; ctl := ctl d; quit := quit d;
  handled := handled d |}.
Definition with_workers (d : Dispatcher) pool ws : Dispatcher := {|
  submitted := submitted d; queueing := queueing d; JobQueue := JobQueue d; assigning := assigning d;
  sending := sending d; WorkerPool := pool; WorkerList := ws; ctl := ctl d; quit := quit d;
  handled := handled d |}.
Definition with_ctl (d : Dispatcher) c : Dispatcher := {|
  submitted := submitted d; queueing := queueing d; JobQueue := JobQueue d; assigning := assigning d;
  sending := sending d; WorkerPool := WorkerPool d; WorkerList := WorkerList d; ctl := c;
  quit := quit d; handled := handled d |}.
Definition with_handled (d : Dispatcher) h : Dispatcher := {|
  submitted := submitted d; queueing := queueing d; JobQueue := JobQueue d; assigning := assigning d;
  sending := sending d; WorkerPool := WorkerPool d; WorkerList := WorkerList d; ctl := ctl d;
  quit := quit d; handled := h |}.

(** What the goroutines do. *)
Inductive step (d : Dispatcher) : Dispatcher → Prop :=
| enqueue l1 j l2 : (* d.JobQueue <- job *)
    queueing d = l1 ++ j :: l2 → length (JobQueue d) < maxWaitingJobs →
    step d (with_jobs d (l1 ++ l2) (JobQueue d ++ [j]) (assigning d) (sending d))
| hand_over l1 j l2 : (* the same, when the channel has no buffer *)
    queueing d = l1 ++ j :: l2 → maxWaitingJobs = 0 → ctl d = Dispatching →
    step d (with_jobs d (l1 ++ l2) (JobQueue d) (assigning d ++ [j]) (sending d))
| dispatch j q : (* job := <-d.JobQueue *)
    JobQueue d = j :: q → ctl d = Dispatching →
    step d (with_jobs d (queueing d) q (assigning d ++ [j]) (sending d))
| pick l1 j l2 w p : (* jobChannel := <-d.WorkerPool *)
    assigning d = l1 ++ j :: l2 → WorkerPool d = w :: p →
    step d (with_workers (with_jobs d (queueing d) (JobQueue d) (l1 ++ l2) (sending d ++ [(j, w)]))
              p (WorkerList d))
| send l1 j w l2 : (* jobChannel <- job, and job := <-w.JobChannel *)
    sending d = l1 ++ (j, w) :: l2 → WorkerList d !! w = Some Waiting →
    step d (with_workers (with_jobs d (queueing d) (JobQueue d) (assigning d) (l1 ++ l2))
              (WorkerPool d) (<[w := Running j]> (WorkerList d)))
| announce w : (* w.WorkerPool <- w.JobChannel *)
    WorkerList d !! w = Some Announcing → length (WorkerPool d) < maxWorkers →
    step d (with_workers d (WorkerPool d ++ [w]) (<[w := Waiting]> (WorkerList d)))
| meet l1 j l2 w : (* the same and the receive, when the channel has no buffer *)
    assigning d = l1 ++ j :: l2 → WorkerList d !! w = Some Announcing → maxWorkers = 0 →
    step d (with_workers (with_jobs d (queueing d) (JobQueue d) (l1 ++ l2) (sending d ++ [(j, w)]))
              (WorkerPool d) (<[w := Waiting]> (WorkerList d)))
| finish w j : (* the handler returns *)
    WorkerList d !! w = Some (Running j) →
    step d (with_handled (with_workers d (WorkerPool d) (<[w := Announcing]> (WorkerList d)))
              (handled d ++ [(j, w)]))
| start_closing : (* <-d.quit *)
    ctl d = Dispatching → quit d = true → step d (with_ctl d (closing 0 (length (WorkerList d))))
| leave w : (* <-w.quit, and w.quitWG.Wait() *)
    ctl d = Closing w → WorkerList d !! w = Some Waiting →
    step d (with_ctl (with_workers d (WorkerPool d) (<[w := Gone]> (WorkerList d)))
              (closing (S w) (length (WorkerList d)))).

(** A run: [n] workers, and calls of [Queue] and [Stop] at any time. *)
Inductive runs_to (n : nat) : Dispatcher → Prop :=
| run_start : runs_to n (Run (Nat.iter n AddWorker NewDispatcher))
| run_step d d' : runs_to n d → step d d' → runs_to n d'
| run_Queue d j : runs_to n d → runs_to n (Queue j d)
| run_Stop d d' : runs_to n d → Stop d = Some d' → runs_to n d'.

(** ** Invariants *)
Definition running (ws : list phase) : list Job :=
  omap (λ p, match p with Running j => Some j | _ => None end) ws.
(** Where the submitted jobs are. *)
Definition conserved (d : Dispatcher) : Prop :=
  submitted d ≡ₚ queueing d ++ JobQueue d ++ assigning d ++ (sending d).*1 ++ running (WorkerList d)
                 ++ (handled d).*1.
(** The channels that are offered or taken, and their workers. *)
Definition offered (d : Dispatcher) : list nat := WorkerPool d ++ (sending d).*2.
Definition idle (p : phase) : Prop := p = Waiting ∨ p = Gone.
Definition pool_ok (o : list nat) (ws : list phase) : Prop :=
  NoDup o
  ∧ (∀ w, w ∈ o → ∃ p, ws !! w = Some p ∧ idle p)
  ∧ ∀ w, ws !! w = Some Waiting → w ∈ o.
(** Workers are gone as far as the dispatcher has come. *)
Definition control_ok (n : nat) (d : Dispatcher) : Prop :=
  length (WorkerList d) = n
  ∧ (∀ w, WorkerList d !! w = Some Gone ↔
      w < n ∧ match ctl d with Created | Dispatching => False | Closing i => w < i | Ended => True end)
  ∧ (∀ i, ctl d = Closing i → i < n)
  ∧ (ctl d ≠ Dispatching → quit d = true).
(** After [Run]. *)
Definition started (d : Dispatcher) : Prop := ctl d ≠ Created ∧ Ready ∉ WorkerList d.

Lemma running_insert ws w p q :
  ws !! w = Some p →
  ∃ l1 l2, running ws = l1 ++ running [p] ++ l2 ∧ running (<[w := q]> ws) = l1 ++ running [q] ++ l2.
Proof.
  intros Hw. exists (running (take w ws)), (running (drop (S w) ws)). unfold running.
  assert (Hcons : ∀ x l, omap (λ p, match p with Running j => Some j | _ => None end) (x :: l)
    = omap (λ p, match p with Running j => Some j | _ => None end) [x]
      ++ omap (λ p, match p with Running j => Some j | _ => None end) l) by (by intros []).
  split.
  - rewrite <-Hcons, <-omap_app. by rewrite (take_drop_middle ws w p).
  - rewrite insert_take_drop by by eapply lookup_lt_Some. by rewrite omap_app, Hcons.
Qed.

Lemma step_conserved d d' : step d d' → conserved d → conserved d'.
Proof.
  intros Hs. unfold conserved. destruct Hs; intros Hc; cbn -[running]; rewrite Hc; clear Hc;
  repeat match goal with
    | E : WorkerList d !! ?w = Some ?p |- context [<[?w := ?q]> _] =>
      destruct (running_insert _ _ _ q E) as (r1 & r2 & -> & ->); clear E
    | E : queueing d = _ |- _ => rewrite E; clear E
    | E : JobQueue d = _ |- _ => rewrite E; clear E
    | E : assigning d = _ |- _ => rewrite E; clear E
    | E : sending d = _ |- _ => rewrite E; clear E
    end; rewrite ?fmap_app; cbn; solve_Permutation.
Qed.

Lemma pool_ok_perm o o' ws : o ≡ₚ o' → pool_ok o ws → pool_ok o' ws.
Proof. intros E (H1 & H2 & H3). unfold pool_ok. setoid_rewrite <-E. done. Qed.
Lemma pool_ok_busy o ws w p : ¬ idle p → pool_ok o ws → ws !! w = Some p → w ∉ o.
Proof. intros Hp (_ & H & _) Hw [q [? ?]]%H. naive_solver. Qed.
(** A worker that is not idle offers its channel. *)
Lemma pool_ok_offer o ws w p :
  ¬ idle p → pool_ok o ws → ws !! w = Some p → pool_ok (w :: o) (<[w := Waiting]> ws).
Proof.
  intros Hp Hok Hw. pose proof (pool_ok_busy _ _ _ _ Hp Hok Hw). destruct Hok as (H1 & H2 & H3).
  pose proof (lookup_lt_Some _ _ _ Hw). unfold pool_ok, idle in *. split_and!.
  - by constructor.
  - intros v [->|Hv]%elem_of_cons; [rewrite list_lookup_insert_eq by done; eauto|].
    rewrite list_lookup_insert_ne by naive_solver. auto.
  - intros v [(-> & _)|[? Hv%H3]]%list_lookup_insert_Some; set_solver.
Qed.
(** A worker that waits takes a job. *)
Lemma pool_ok_take o ws w p :
  p ≠ Waiting → pool_ok (w :: o) ws → pool_ok o (<[w := p]> ws).
Proof.
  intros Hp (H1 & H2 & H3). apply NoDup_cons in H1 as [? H1]. unfold pool_ok in *. split_and!; [done|..].
  - intros v Hv. rewrite list_lookup_insert_ne by naive_solver. set_solver.
  - intros v [(-> & ? & _)|[? Hv%H3]]%list_lookup_insert_Some; set_solver.
Qed.
(** A worker that is idle, or one that is not, changes and stays so. *)
Lemma pool_ok_same o ws w p q :
  pool_ok o ws → ws !! w = Some p → (idle p ↔ idle q) → q ≠ Waiting → pool_ok o (<[w := q]> ws).
Proof.
  intros (H1 & H2 & H3) Hw Hi Hq. pose proof (lookup_lt_Some _ _ _ Hw). unfold pool_ok in *. split_and!; [done|..].
  - intros v [r [Hr ?]]%H2. destruct (decide (v = w)) as [->|].
    + rewrite list_lookup_insert_eq by done. naive_solver.
    + rewrite list_lookup_insert_ne by done. eauto.
  - intros v [(-> & ? & _)|[? Hv%H3]]%list_lookup_insert_Some; naive_solver.
Qed.

Lemma step_pool d d' : step d d' → pool_ok (offered d) (WorkerList d) → pool_ok (offered d') (WorkerList d').
Proof.
  unfold offered. intros Hs. destruct Hs as [| | |l1 j l2 w p Ha Hp|l1 j w l2 Hse Hw|w Hw Hlt|l1 j l2 w Ha Hw H0|w j Hw| |w Hc Hw];
    cbn; intros Hok; try done.
  - eapply pool_ok_perm, Hok. rewrite Hp, fmap_app. cbn. solve_Permutation.
  - apply pool_ok_take; [done|]. eapply pool_ok_perm, Hok. rewrite Hse, !fmap_app. cbn. solve_Permutation.
  - eapply pool_ok_perm, pool_ok_offer, Hw; [|by intros []|exact Hok]. solve_Permutation.
  - eapply pool_ok_perm, pool_ok_offer, Hw; [|by intros []|exact Hok]. rewrite fmap_app. cbn. solve_Permutation.
  - eapply pool_ok_same; [done..| |done]. unfold idle. naive_solver.
  - eapply pool_ok_same; [done..| |done]. unfold idle. naive_solver.
Qed.

Lemma gone_insert (ws : list phase) w p q v :
  ws !! w = Some p → p ≠ Gone → q ≠ Gone → <[w := q]> ws !! v = Some Gone ↔ ws !! v = Some Gone.
Proof.
  intros Hw Hp Hq. destruct (decide (v = w)) as [->|].
  - rewrite list_lookup_insert_eq by by eapply lookup_lt_Some. naive_solver.
  - by rewrite list_lookup_insert_ne by done.
Qed.
Lemma control_ok_same n d d' :
  length (WorkerList d') = length (WorkerList d) → ctl d' = ctl d → quit d' = quit d →
  (∀ v, WorkerList d' !! v = Some Gone ↔ WorkerList d !! v = Some Gone) →
  control_ok n d → control_ok n d'.
Proof. unfold control_ok. intros -> -> -> H. by setoid_rewrite H. Qed.

Lemma step_control n d d' : step d d' → control_ok n d → control_ok n d'.
Proof.
  intros Hs. destruct Hs as [| | | |l1 j w l2 Hse Hw|w Hw Hlt|l1 j l2 w Ha Hw H0|w j Hw|Hc Hq|w Hc Hw];
    try by apply control_ok_same.
  1-4: apply control_ok_same; cbn; rewrite ?length_insert; try done; intros v; by eapply gone_insert.
  - intros (Hl & Hg & _ & _). unfold control_ok, closing. cbn. rewrite Hc in Hg. split_and!; [done| |case_decide; naive_solver lia|done].
    intros v. rewrite Hg, Hl. case_decide; [|lia]. split; [tauto|lia].
  - intros (Hl & Hg & Hi & Hq). unfold control_ok, closing. cbn. rewrite length_insert, Hl. rewrite Hc in Hg.
    pose proof (Hi _ Hc). split_and!; [done| |case_decide; naive_solver lia|by rewrite Hc in Hq; auto].
    intros v. destruct (decide (v = w)) as [->|].
    + rewrite list_lookup_insert_eq by lia. case_decide; split; [lia|done|done|done].
    + rewrite list_lookup_insert_ne by done. rewrite Hg. case_decide; lia.
Qed.

Lemma ready_insert (ws : list phase) w p : p ≠ Ready → Ready ∉ ws → Ready ∉ <[w := p]> ws.
Proof.
  intros Hp Hws [v Hv]%list_elem_of_lookup. apply list_lookup_insert_Some in Hv as [(_ & ? & _)|[_ Hv]]; [done|].
  by apply list_elem_of_lookup_2 in Hv.
Qed.
Lemma step_started d d' : step d d' → started d → started d'.
Proof.
  unfold started. destruct 1; intros [Hc Hr]; split; cbn; unfold closing; try case_decide; try done;
    by apply ready_insert.
Qed.

(** What holds of every state of a run. *)
Record pool_inv (n : nat) (d : Dispatcher) : Prop := {
  inv_jobs : conserved d;
  inv_pool : pool_ok (offered d) (WorkerList d);
  inv_control : control_ok n d;
  inv_started : started d }.

Lemma workers_created n :
  Nat.iter n AddWorker NewDispatcher =
  {| submitted := []; queueing := []; JobQueue := []; assigning := []; sending := []; WorkerPool := [];
     WorkerList := replicate n Ready; ctl := Created; quit := false; handled := [] |}.
Proof. induction n as [|n IH]; [done|]. rewrite Nat.iter_succ, IH. unfold AddWorker. cbn. by rewrite <-replicate_cons_app. Qed.
Lemma workers_start n :
  Run (Nat.iter n AddWorker NewDispatcher) =
  {| submitted := []; queueing := []; JobQueue := []; assigning := []; sending := []; WorkerPool := [];
     WorkerList := replicate n Announcing; ctl := Dispatching; quit := false; handled := [] |}.
Proof. rewrite workers_created. unfold Run. cbn. by rewrite fmap_replicate. Qed.

Lemma runs_inv n d : runs_to n d → pool_inv n d.
Proof.
  induction 1 as [|d d' _ [] Hs|d j _ [Hj Hp Hc Ha]|d d' _ [Hj Hp Hc Ha] Hs].
  - rewrite workers_start. split; unfold conserved, pool_ok, control_ok, started, running, offered; cbn.
    + by induction n.
    + split_and!; [constructor|set_solver|]. intros w [? _]%lookup_replicate. done.
    + rewrite length_replicate. split_and!; try done. intros w. split; [intros [? _]%lookup_replicate; done|tauto].
    + split; [done|]. by intros [? _]%elem_of_replicate.
  - split; [by eapply step_conserved|by eapply step_pool|by eapply step_control|by eapply step_started].
  - split; [|exact Hp|exact Hc|exact Ha]. unfold conserved in *. cbn. rewrite Hj. solve_Permutation.
  - unfold Stop in Hs. case_match; [done|]. injection Hs as <-. split; [exact Hj|exact Hp| |exact Ha].
    destruct Hc as (? & ? & ? & ?). by split_and!.
Qed.
Lemma runs_rtc n d d' : runs_to n d → rtc step d d' → runs_to n d'.
Proof. induction 2; eauto using run_step. Qed.

(** ** Every operation uses up something *)
Definition announcing (ws : list phase) : nat :=
  sum_list_with (λ p, match p with Announcing => 1 | Running _ => 2 | _ => 0 end) ws.
Definition left_to_do (d : Dispatcher) : nat :=
  6 * length (queueing d) + 5 * length (JobQueue d) + 4 * length (assigning d) + 3 * length (sending d)
  + announcing (WorkerList d)
  + match ctl d with Created => 0 | Dispatching => S (length (WorkerList d)) | Closing i => length (WorkerList d) - i | Ended => 0 end.

Lemma announcing_insert ws w p q :
  ws !! w = Some p → announcing (<[w := q]> ws) + announcing [p] = announcing ws + announcing [q].
Proof.
  revert w. induction ws as [|r ws IH]; intros [|w] Hw; [done..| |].
  - injection Hw as ->. change (<[0:=q]> (p :: ws)) with (q :: ws). unfold announcing. cbn [sum_list_with]. lia.
  - specialize (IH _ Hw). change (<[S w:=q]> (r :: ws)) with (r :: <[w:=q]> ws).
    unfold announcing in *. cbn [sum_list_with] in *. lia.
Qed.

Lemma step_decreases n d d' : control_ok n d → step d d' → left_to_do d' < left_to_do d.
Proof.
  intros (Hl & _ & Hi & _) Hs. unfold left_to_do.
  destruct Hs as [l1 j l2 E|l1 j l2 E|j q E|l1 j l2 w p E|l1 j w l2 E Hw|w Hw Hlt|l1 j l2 w E Hw H0|w j Hw|Hc Hq|w Hc Hw];
    cbn -[announcing Nat.mul]; try rewrite E; try rewrite Hc;
    rewrite ?length_insert, ?length_app; cbn -[announcing Nat.mul]; try lia;
    unfold closing;
    try match goal with |- context [announcing (<[w := ?q]> _)] =>
      pose proof (announcing_insert _ _ _ q Hw) as Ha; cbn -[announcing Nat.mul] in Ha; unfold announcing at 2 4 in Ha; cbn in Ha end;
    try case_decide; try pose proof (Hi _ Hc); lia.
Qed.

(** A step ends no handler, or one. *)
Lemma step_handled d d' :
  step d d' → handled d' = handled d ∨ ∃ j w, handled d' = handled d ++ [(j, w)].
Proof. destruct 1; try (by left). right. by eexists _, _. Qed.
Lemma step_constant d d' : step d d' → submitted d' = submitted d ∧ quit d' = quit d.
Proof. by destruct 1. Qed.
Lemma rtc_constant d d' : rtc step d d' → submitted d' = submitted d ∧ quit d' = quit d.
Proof. induction 1 as [|x y z Hs _ [-> ->]]; [done|by apply step_constant]. Qed.

(** No run of operations is infinite. *)
Lemma runs_sn n d : runs_to n d → sn step d.
Proof.
  remember (left_to_do d) as k eqn:Hk. revert d Hk. induction (lt_wf k) as [k _ IH]; intros d -> Hr.
  constructor. intros d' Hs. eapply IH; [|reflexivity|by eapply run_step].
  eapply step_decreases, Hs. by apply runs_inv.
Qed.

(** ** A pool that can do nothing has done everything *)
Lemma pool_has_room n d w :
  pool_inv n d → WorkerList d !! w = Some Announcing → length (WorkerPool d) < n.
Proof.
  intros [_ Hp (<- & _) _] Hw. assert (w ∉ offered d) as Hn by (eapply pool_ok_busy; [|exact Hp|exact Hw]; by intros []).
  destruct Hp as (Hnd & Hin & _). unfold offered in *. apply NoDup_app in Hnd as (Hnd & _).
  assert (w :: WorkerPool d ⊆+ seq 0 (length (WorkerList d))) as Hl%submseteq_length.
  { apply NoDup_submseteq; [constructor; [set_solver|done]|]. intros v Hv. apply elem_of_seq. split; [lia|].
    apply elem_of_cons in Hv as [->|Hv]; [by eapply lookup_lt_Some|].
    destruct (Hin v) as (p & ? & _); [set_solver|]. by eapply lookup_lt_Some. }
  rewrite length_seq in Hl. cbn in Hl. lia.
Qed.
(** A worker waits, or is gone, or can go on. *)
Lemma idle_or_step n d w p :
  n ≤ maxWorkers → pool_inv n d → WorkerList d !! w = Some p → idle p ∨ red step d.
Proof.
  intros Hn Hi Hw. destruct p.
  - apply list_elem_of_lookup_2 in Hw. by destruct Hi as [_ _ _ []].
  - right. eexists. apply (announce d w); [done|]. pose proof (pool_has_room _ _ _ Hi Hw). lia.
  - by left; left.
  - right. eexists. by apply (finish d w j).
  - by left; right.
Qed.
Lemma nf_idle n d w p :
  n ≤ maxWorkers → pool_inv n d → nf step d → WorkerList d !! w = Some p → idle p.
Proof. intros Hn Hi Hnf Hw. by destruct (idle_or_step _ _ _ _ Hn Hi Hw). Qed.
(** A pool that is stopped goes on until [Dispatch] has returned. *)
Lemma stopping_progress n d :
  n ≤ maxWorkers → pool_inv n d → quit d = true → ctl d = Ended ∨ red step d.
Proof.
  intros Hn Hi Hq. destruct (Hi) as [_ _ (Hl & Hg & Hcl & _) [Hcr _]].
  destruct (ctl d) as [| |w|] eqn:Hc; [done| | |by left]; right.
  - eexists. by apply start_closing.
  - destruct (lookup_lt_is_Some_2 (WorkerList d) w) as [p Hw]; [rewrite Hl; auto|].
    destruct (idle_or_step _ _ _ _ Hn Hi Hw) as [[->| ->]|Hr]; [|apply Hg in Hw; lia|done].
    eexists. by eapply leave.
Qed.
Lemma stopping_ends n d :
  n ≤ maxWorkers → runs_to n d → quit d = true → ∃ d', rtc step d d' ∧ ctl d' = Ended.
Proof.
  intros Hn Hr Hq. pose proof (runs_sn _ _ Hr) as Hsn. revert Hr Hq.
  induction Hsn as [d _ IH]. intros Hr Hq.
  destruct (stopping_progress n d Hn (runs_inv _ _ Hr) Hq) as [He|[d' Hs]]; [by exists d|].
  destruct (IH d' Hs) as (d2 & Hd2 & He); [by eapply run_step|by rewrite (proj2 (step_constant _ _ Hs))|].
  exists d2. split; [by eapply rtc_l|done].
Qed.

(** A pool that is not stopped has handled everything or can go on. *)
Lemma handled_or_step n d :
  1 ≤ n ≤ maxWorkers → pool_inv n d → quit d = false →
  (running (WorkerList d) = [] ∧ submitted d ≡ₚ (handled d).*1) ∨ red step d.
Proof.
  intros Hn Hi Hq. destruct (Hi) as [Hj Hp Hc [Hcr _]]. assert (ctl d = Dispatching) as Hd.
  { destruct Hc as (_ & _ & _ & H). destruct (ctl d); [done|done|..]; by rewrite H in Hq. }
  assert (∀ w, WorkerList d !! w ≠ Some Gone) as Hgone.
  { intros w Hw. destruct Hc as (_ & H & _). apply H in Hw. rewrite Hd in Hw. tauto. }
  assert (Hall : ∀ w p, WorkerList d !! w = Some p → p = Waiting ∨ red step d).
  { intros w p Hw. destruct (idle_or_step _ _ _ _ (proj2 Hn) Hi Hw) as [[->| ->]|]; [by left|by destruct (Hgone w)|by right]. }
  destruct (sending d) as [|[j w] l] eqn:Es.
  2: { destruct Hp as (_ & H & _). destruct (H w) as (p & Hw & _); [unfold offered; rewrite Es; set_solver|].
    destruct (Hall _ _ Hw) as [->|]; [right; eexists; by eapply (send d [] j w l)|by right]. }
  destruct (assigning d) as [|j l] eqn:Ea.
  2: { right. destruct (WorkerPool d) as [|v q] eqn:Ep; [|eexists; by eapply (pick d [] j l)].
    destruct Hc as (Hl & _). destruct (lookup_lt_is_Some_2 (WorkerList d) 0) as [p Hw]; [lia|].
    destruct (Hall _ _ Hw) as [->|]; [|done]. destruct Hp as (_ & _ & H). specialize (H 0 Hw).
    unfold offered in H. rewrite Es, Ep in H. set_solver. }
  destruct (JobQueue d) as [|j l] eqn:Ej; [|right; eexists; by eapply dispatch].
  destruct (queueing d) as [|j l] eqn:Eq.
  2: { right. destruct (decide (maxWaitingJobs = 0)).
    - eexists. by eapply (hand_over d [] j l).
    - eexists. eapply (enqueue d [] j l); [done|]. rewrite Ej. cbn. lia. }
  unfold conserved in Hj. rewrite Es, Ea, Ej, Eq in Hj. cbn -[running] in Hj.
  destruct (running (WorkerList d)) as [|j l] eqn:Er; [by left|]. right.
  assert (j ∈ running (WorkerList d)) as (p & Hin & Hp')%list_elem_of_omap by (rewrite Er; set_solver).
  destruct p; try done. injection Hp' as ->. apply list_elem_of_lookup in Hin as [w Hw].
  eexists. by apply (finish d w j).
Qed.
Lemma nf_all_handled n d :
  1 ≤ n ≤ maxWorkers → pool_inv n d → quit d = false → nf step d → submitted d ≡ₚ (handled d).*1.
Proof. intros Hn Hi Hq Hnf. by destruct (handled_or_step n d Hn Hi Hq) as [[_ ?]|?]. Qed.
(** and it can go on until it has. *)
Lemma can_handle_all n d :
  1 ≤ n ≤ maxWorkers → runs_to n d → quit d = false →
  ∃ d', rtc step d d' ∧ running (WorkerList d') = [] ∧ submitted d' ≡ₚ (handled d').*1.
Proof.
  intros Hn Hr Hq. pose proof (runs_sn _ _ Hr) as Hsn. revert Hr Hq.
  induction Hsn as [d _ IH]. intros Hr Hq.
  destruct (handled_or_step n d Hn (runs_inv _ _ Hr) Hq) as [[He He']|[d' Hs]]; [by exists d|].
  destruct (IH d' Hs) as (d2 & Hd2 & He & He'); [by eapply run_step|by rewrite (proj2 (step_constant _ _ Hs))|].
  exists d2. split; [by eapply rtc_l|done].
Qed.

Lemma nf_all_gone n d :
  n ≤ maxWorkers → pool_inv n d → quit d = true → nf step d →
  ctl d = Ended ∧ WorkerList d = replicate n Gone.
Proof.
  intros Hn Hi Hq Hnf. destruct (Hi) as [_ _ (Hl & Hg & _) _].
  destruct (stopping_progress _ _ Hn Hi Hq) as [Hd|]; [|done].
  split; [done|]. apply list_eq_same_length with n; [by rewrite length_replicate|done|].
  intros w x y Hw Hx Hy. apply lookup_replicate in Hy as [-> _].
  assert (WorkerList d !! w = Some Gone) as E by (apply Hg; rewrite Hd; done). congruence.
Qed.

Lemma conserved_handled d : conserved d → (handled d).*1 ⊆+ submitted d.
Proof. unfold conserved. intros ->. rewrite !app_assoc. by apply submseteq_inserts_l. Qed.

(** C32. A pool of at least one worker that is not stopped: no job is lost or done twice at any time,
    its goroutines can do only finitely many operations without new calls, and when none can go on
    every job of [Queue] has been handled once. *)
Theorem pool_handles_all n d :
  1 ≤ n ≤ maxWorkers → runs_to n d → quit d = false →
  conserved d ∧ (handled d).*1 ⊆+ submitted d ∧ sn step d
  ∧ ∀ d', rtc step d d' → nf step d' → submitted d ≡ₚ (handled d').*1.
Proof.
  intros Hn Hr Hq. pose proof (inv_jobs _ _ (runs_inv _ _ Hr)) as Hj. split_and!; [done|by apply conserved_handled|by eapply runs_sn|].
  intros d' Hd Hnf. destruct (rtc_constant _ _ Hd) as [<- E]. eapply nf_all_handled; [done| |congruence|done].
    eapply runs_inv, runs_rtc; done.
Qed.

(** After [Stop], with no more workers than the pool has room for, every run of the goroutines
    ends, and then [Dispatch] has returned, hence [Stop] has, and every worker is gone. *)
Theorem pool_stop_returns n d d1 :
  n ≤ maxWorkers → runs_to n d → Stop d = Some d1 →
  sn step d1 ∧ ∀ d', rtc step d1 d' → nf step d' → ctl d' = Ended ∧ WorkerList d' = replicate n Gone.
Proof.
  intros Hn Hr Hs. assert (runs_to n d1) as Hr1 by by eapply run_Stop. split; [by eapply runs_sn|].
  intros d' Hd Hnf. eapply nf_all_gone; [done| | |done].
  - eapply runs_inv, runs_rtc; done.
  - destruct (rtc_constant _ _ Hd) as [_ ->]. unfold Stop in Hs. case_match; [done|by injection Hs as <-].
Qed.

(** [Stop] does not wait for the jobs: one that [Queue] took can be given to a worker that is
    gone, whose channel is still in [WorkerPool], and then nothing can go on. *)
Theorem stop_loses_job j :
  maxWorkers ≠ 0 →
  ∃ d, runs_to 1 d ∧ ctl d = Ended ∧ nf step d ∧ submitted d = [j] ∧ handled d = []
       ∧ sending d = [(j, 0)].
Proof.
  intros Hm.
  assert (runs_to 1 {| submitted := [j]; queueing := []; JobQueue := []; assigning := [j]; sending := [];
    WorkerPool := []; WorkerList := [Announcing]; ctl := Dispatching; quit := false; handled := [] |}) as H.
  { pose proof (run_Queue 1 _ j (run_start 1)) as H. cbn in H. destruct (decide (maxWaitingJobs = 0)).
    - eapply run_step in H; [|by apply (hand_over _ [] j [])]. done.
    - eapply run_step in H; [|apply (enqueue _ [] j []); cbn; [done|lia]].
      eapply run_step in H; [|by eapply (dispatch _ j [])]. done. }
  eapply run_step in H; [|apply (announce _ 0); cbn; [done|lia]].
  eapply run_Stop in H; [|done]. eapply run_step in H; [|by apply start_closing].
  eapply run_step in H; [|by apply (leave _ 0)]. eapply run_step in H; [|by apply (pick _ [] j [] 0 [])].
  cbn in H. eexists. split_and!; [exact H|done..| |done|done|done]. clear H. intros [d' Hs].
  inversion Hs as [l1 ? ? E|l1 ? ? E|? ? E|l1 ? ? ? ? E|l1 ? ? ? E Hw|? Hw|l1 ? ? ? E|? ? Hw|E|? E]; cbn in *.
  all: try (by destruct l1); try done.
  all: try (by destruct w).
  all: destruct l1 as [|? []]; try done; injection E as <- <-; done.
Qed.

(** ** A pool that is never started *)
Definition unstarted (d : Dispatcher) : Prop :=
  ctl d = Created ∧ WorkerList d = replicate (length (WorkerList d)) Ready
  ∧ WorkerPool d = [] ∧ sending d = [] ∧ handled d = [].
Lemma unstarted_created n : unstarted (Nat.iter n AddWorker NewDispatcher).
Proof. rewrite workers_created. unfold unstarted. cbn. by rewrite length_replicate. Qed.
Lemma unstarted_phase d w p : unstarted d → WorkerList d !! w = Some p → p = Ready.
Proof. intros (_ & Hw & _) H. rewrite Hw in H. by apply lookup_replicate in H as [? _]. Qed.
(** Its goroutines can fill the queue and nothing else. *)
Lemma unstarted_step d d' : unstarted d → step d d' → unstarted d'.
Proof.
  intros Hu Hs. pose proof (unstarted_phase d) as Hph. destruct Hu as (Hc & Hw & Hp & Hse & Hh).
  destruct Hs as [l1 j l2 E|l1 j l2 E|j q E|l1 j l2 w p E Ep|l1 j w l2 E Hv|w Hv|l1 j l2 w E Hv|w j Hv| |w Ec];
    try congruence; try (by apply Hph in Hv); try (by split_and!).
Qed.
Lemma unstarted_Queue d j : unstarted d → unstarted (Queue j d).
Proof. intros (? & ? & ? & ? & ?). by split_and!. Qed.
Lemma unstarted_Stop d d' : unstarted d → Stop d = Some d' → unstarted d'.
Proof.
  intros (? & ? & ? & ? & ?) Hs. unfold Stop in Hs. case_match; [done|]. injection Hs as <-. by split_and!.
Qed.
End workerpool.
