(* ===== verification/Upstream.v ===== *)
(** * The upstream resolver client: [internal/upstream/upstream.go]

    A query is answered from a cache of record lists, or by the first connection
    that answers. The exchange over the network, the go-cache and the clock are
    parameters; calls for one key that the source merges with singleflight are
    one call here, and taken apart in [SingleFlight]. Times are nanoseconds. *)
From S2P Require Import Prelude GoStrings DnsTypes Store.
Local Open Scope Z_scope.

Definition Second : Z := 1000000000.
Definition defaultCacheTtl : Z := 600.

Record Connection := { Net : string; conn_Timeout : Z; connectionStr : string }.
Record UpstreamConfig := { up_Ip : string; up_Port : Z; up_Protocol : string; up_Timeout : Z }.
(** What the client uses of a [dns.Msg]. *)
Record DnsReply := { Rcode : Z; Answer : list RR }.

(** A go-cache of record lists: [uc_Get] is [GetWithExpiration] at a time;
    [uc_Set] sets an entry at a time for a duration; [uc_Update] replaces the
    records of an entry, which are shared with the caller, in place. *)
Class RRCache (C : Type) := {
  uc_New : Z → Z → C;
  uc_Get : string → Z → C → option (list RR * Z);
  uc_Set : string → list RR → Z → Z → C → C;
  uc_Update : string → list RR → C → C;
}.
Class Network (N : Type) := {
  Exchange : Connection → string → Z → M N (res string DnsReply);
  net_Now : M N Z;
}.

Record Upstream (C N : Type) := { connections : list Connection; up_cache : C; up_net : N }.
Arguments connections {C N}. Arguments up_cache {C N}. Arguments up_net {C N}.

Definition new_connection (c : UpstreamConfig) : Connection := {|
  Net := up_Protocol c; conn_Timeout := wrap64 (up_Timeout c * 1000000);
  connectionStr := up_Ip c +:+ ":" +:+ Itoa (up_Port c) |}.

Section Upstream.
Context {C N : Type} `{!RRCache C, !Network N}.
Abbreviation U := (Upstream C N).

Definition NewUpstream (config : list UpstreamConfig) (net : N) : U := {|
  connections := new_connection <$> config;
  up_cache := uc_New (Second * defaultCacheTtl) (Second * defaultCacheTtl * 10);
  up_net := net |}.

Definition on_net {A} (m : M N A) : M U A := λ u,
  let '(a, n) := m (up_net u) in
  (a, {| connections := connections u; up_cache := up_cache u; up_net := n |}).
Definition on_up_cache (f : C → C) : M U () := λ u,
  ((), {| connections := connections u; up_cache := f (up_cache u); up_net := up_net u |}).
(** [u.connections[0], c = c, u.connections[0]]: the loop variable [c] is not an
    element of the list. *)
Definition swap_first (c : Connection) : M U () := λ u,
  ((), {| connections := <[0%nat := c]> (connections u); up_cache := up_cache u; up_net := up_net u |}).

Definition with_ttl (ttl : Z) (r : RR) : RR := {|
  Header := {| Hdr_Name := rr_name r; Hdr_Rrtype := rr_type r; Hdr_Class := Hdr_Class (Header r);
               Hdr_Ttl := ttl |};
  Data := Data r |}.

(** The loop over the cached records; [time.Until(exp)] is read for each. *)
Fixpoint refresh (exp : Z) (records : list RR) : M U (list RR) :=
  match records with
  | [] => mret []
  | r :: records =>
    now ← on_net net_Now;
    records ← refresh exp records;
    mret (with_ttl (Z.quot (exp - now) Second `mod` 2 ^ 32) r :: records)
  end.

Fixpoint min_ttl (m : Z) (records : list RR) : Z :=
  match records with
  | [] => m
  | r :: records => min_ttl (if rr_ttl r <? m then rr_ttl r else m) records
  end.

(** The loop over the connections; [None] is the error after the last one. *)
Fixpoint query_loop (key location : string) (qtype : Z) (conns : list Connection)
  : M U (option DnsReply) :=
  match conns with
  | [] => mret None
  | c :: conns =>
    r ← on_net (Exchange c location qtype);
    match r with
    | Err _ => query_loop key location qtype conns
    | Ok r =>
      if negb (Rcode r =? dns.RcodeSuccess) then mret (Some r) else
      match Answer r with
      | [] => mret (Some r)
      | first :: _ =>
        let minTtl := min_ttl (rr_ttl first) (Answer r) in
        now ← on_net net_Now;
        _ ← on_up_cache (uc_Set key (Answer r) now (minTtl * Second));
        _ ← swap_first c;
        mret (Some r)
      end
    end
  end.

Definition query_key (location : string) (qtype : Z) : string := location +:+ ":" +:+ Itoa qtype.

Definition Query (location : string) (qtype : Z) : M U (list RR * Z) :=
  let key := query_key location qtype in
  now ← on_net net_Now;
  found ← (λ u, (uc_Get key now (up_cache u), u));
  match (found : option (list RR * Z)) with
  | Some (records, exp) =>
    records ← refresh exp records;
    _ ← on_up_cache (uc_Update key records);
    mret (records, dns.RcodeSuccess)
  | None =>
    conns ← (λ u, (connections u, u));
    answer ← query_loop key location qtype conns;
    mret match (answer : option DnsReply) with
         | None => ([], dns.RcodeServerFailure)
         | Some msg => (Answer msg, Rcode msg)
         end
  end.
End Upstream.

(** ** Theorems *)

(** A go-cache keeps an entry until its expiry; a duration of 0 stands for the
    default of the cache. *)
Class RRCacheLaws (C : Type) `{!RRCache C} (peek : C → string → option (list RR * Z))
    (dflt : C → Z) : Prop := {
  law_uc_New d cleanup : dflt (uc_New d cleanup) = d ∧ ∀ k, peek (uc_New d cleanup) k = None;
  law_uc_Get k now c :
    uc_Get k now c = match peek c k with
                     | Some (v, exp) => if now <=? exp then Some (v, exp) else None
                     | None => None
                     end;
  law_uc_Set k v now d c :
    0 ≤ d →
    dflt (uc_Set k v now d c) = dflt c
    ∧ ∀ k', peek (uc_Set k v now d c) k'
            = if decide (k = k') then Some (v, now + if d =? 0 then dflt c else d) else peek c k';
}.
(** Time does not go back. *)
Class NetworkLaws (N : Type) `{!Network N} (time : N → Z) : Prop := {
  law_Exchange c q t n : time n ≤ time (Exchange c q t n).2;
  law_net_Now n : time n ≤ (net_Now n).1 ≤ time (net_Now n).2;
}.

Section facts.
Context {C N : Type} `{!RRCache C, !Network N}.
Context {peek : C → string → option (list RR * Z)} {dflt : C → Z} `{!RRCacheLaws C peek dflt}.
Context {time : N → Z} `{!NetworkLaws N time}.
Abbreviation U := (Upstream C N).

(** The shortest TTL of a list of records that starts with [r]. *)
Lemma min_ttl_spec m records :
  min_ttl m records ≤ m ∧ (∀ r, r ∈ records → min_ttl m records ≤ rr_ttl r)
  ∧ (min_ttl m records = m ∨ ∃ r, r ∈ records ∧ min_ttl m records = rr_ttl r).
Proof.
  revert m. induction records as [|r records IH]; intros m; simpl.
  { split_and!; [lia|by intros r ?%elem_of_nil|by left]. }
  destruct (IH (if rr_ttl r <? m then rr_ttl r else m)) as (H1 & H2 & H3).
  destruct (Z.ltb_spec (rr_ttl r) m); split_and!; try lia.
  - intros r' [->|?]%elem_of_cons; [lia|auto].
  - right. destruct H3 as [E|(r' & Hin & E)]; [exists r|exists r']; (split; [|done]); [left|by right].
  - intros r' [->|?]%elem_of_cons; [lia|auto].
  - destruct H3 as [E|(r' & Hin & E)]; [by left|right; exists r'; split; [by right|done]].
Qed.

Section query.
Variables (location : string) (qtype : Z).
(** What each connection answers to the question. *)
Variable reply : Connection → res string DnsReply.
Hypothesis replies : ∀ c n, (Exchange c location qtype n).1 = reply c.
Abbreviation key := (query_key location qtype).

Fixpoint first_reply (conns : list Connection) : option (Connection * DnsReply) :=
  match conns with
  | [] => None
  | c :: conns => match reply c with Ok r => Some (c, r) | Err _ => first_reply conns end
  end.
(** An answer that is cached. *)
Definition useful (r : DnsReply) : bool := (Rcode r =? dns.RcodeSuccess) && negb (bool_decide (Answer r = [])).
Definition life (c : C) (r : DnsReply) : Z :=
  let m := min_ttl (from_option rr_ttl 0 (head (Answer r))) (Answer r) in
  if m =? 0 then dflt c else m * Second.
(** Records of a response have TTLs of 32 bits. *)
Hypothesis ttl_nonneg : ∀ c r x, reply c = Ok r → x ∈ Answer r → 0 ≤ rr_ttl x.

Lemma query_loop_run conns u :
  let x := query_loop key location qtype conns u in
  x.1 = snd <$> first_reply conns
  ∧ time (up_net u) ≤ time (up_net x.2)
  ∧ match first_reply conns with
    | Some (c, r) =>
      if useful r then
        connections x.2 = <[0%nat := c]> (connections u)
        ∧ ∃ now, time (up_net u) ≤ now ≤ time (up_net x.2)
                 ∧ peek (up_cache x.2) key = Some (Answer r, now + life (up_cache u) r)
      else connections x.2 = connections u ∧ up_cache x.2 = up_cache u
    | None => connections x.2 = connections u ∧ up_cache x.2 = up_cache u
    end.
Proof.
  cbv zeta. revert u. induction conns as [|c conns IH]; intros u; simpl; [done|].
  rewrite run_bind. unfold on_net. pose proof (replies c (up_net u)) as Hr.
  pose proof (law_Exchange (time:=time) c location qtype (up_net u)) as Ht.
  destruct (Exchange c location qtype (up_net u)) as [r n]. cbn [fst snd] in *. subst r.
  destruct (reply c) as [r|e] eqn:Hc; simpl.
  2:{ destruct (IH {| connections := connections u; up_cache := up_cache u; up_net := n |})
        as (E1 & E2 & E3). simpl in *. split_and!; [done|lia|].
      destruct (first_reply conns) as [[c' r']|]; [|done]. destruct (useful r'); [|done].
      destruct E3 as (? & now & ? & ?). split; [done|]. exists now. split; [lia|done]. }
  unfold useful. destruct (Rcode r =? dns.RcodeSuccess); simpl; [|by split_and!].
  destruct (Answer r) as [|x xs] eqn:Ha; [rewrite bool_decide_eq_true_2 by done; by split_and!|].
  rewrite bool_decide_eq_false_2 by done. simpl. rewrite run_bind. cbn [up_net].
  pose proof (law_net_Now (time:=time) n) as Hn. destruct (net_Now n) as [now n']. cbn [fst snd] in *.
  rewrite !run_bind. cbn. set (m := if rr_ttl x <? rr_ttl x then rr_ttl x else rr_ttl x).
  assert (Hm : 0 ≤ min_ttl m xs).
  { destruct (min_ttl_spec m xs) as (_ & _ & [->|(y & Hy & ->)]).
    - unfold m. rewrite Z.ltb_irrefl. apply (ttl_nonneg c r x Hc). rewrite Ha. left.
    - apply (ttl_nonneg c r y Hc). rewrite Ha. by right. }
  split_and!; [done|lia|done|]. exists now. split; [lia|].
  destruct (law_uc_Set (peek:=peek) (dflt:=dflt) key (x :: xs) now (min_ttl m xs * Second) (up_cache u))
    as [_ Hp]; [unfold Second; lia|].
  rewrite Hp, decide_True by done. do 2 f_equal. unfold life. rewrite Ha. cbn [head from_option min_ttl].
  fold m. f_equal. unfold Second.
  destruct (Z.eqb_spec (min_ttl m xs * 1000000000) 0), (Z.eqb_spec (min_ttl m xs) 0); lia.
Qed.

(** Nothing usable in the cache. *)
Definition misses (u : U) : Prop :=
  ∀ now, time (up_net u) ≤ now → uc_Get key now (up_cache u) = None.

Lemma Query_miss u :
  misses u →
  ∃ n, time (up_net u) ≤ time n
    ∧ let u' := {| connections := connections u; up_cache := up_cache u; up_net := n |} in
      Query location qtype u
      = (match (query_loop key location qtype (connections u) u').1 with
         | None => ([], dns.RcodeServerFailure)
         | Some msg => (Answer msg, Rcode msg)
         end, (query_loop key location qtype (connections u) u').2).
Proof.
  intros Hm. unfold Query. cbv zeta. rewrite run_bind. unfold on_net.
  pose proof (law_net_Now (time:=time) (up_net u)) as Hn.
  destruct (net_Now (up_net u)) as [now n]. cbn [fst snd] in *. exists n. split; [lia|].
  rewrite run_bind. cbn [fst snd up_cache]. rewrite Hm by lia. by rewrite !run_bind.
Qed.

(** The connections after a query that [c] answered with [r]. *)
Definition connections_after (conns : list Connection) : list Connection :=
  match first_reply conns with
  | Some (c, r) => if useful r then <[0%nat := c]> conns else conns
  | None => conns
  end.

Lemma first_reply_in conns c r : first_reply conns = Some (c, r) → c ∈ conns ∧ reply c = Ok r.
Proof.
  induction conns as [|c' conns IH]; simpl; [done|]. destruct (reply c') eqn:E.
  - intros [= <- <-]. split; [left|done].
  - intros H. destruct (IH H). split; [by right|done].
Qed.

(** C23. A query that the cache cannot answer is answered by the first connection that
    answers at all, whatever its response code, and fails with SERVFAIL when none
    does. After a useful answer the connection that gave it is first in the list;
    the one that was first is not moved but lost, so a server that failed once is
    never asked again. *)
Theorem Query_failover u :
  misses u →
  let x := Query location qtype u in
  x.1 = match first_reply (connections u) with
        | Some (_, r) => (Answer r, Rcode r)
        | None => ([], dns.RcodeServerFailure)
        end
  ∧ connections x.2 = connections_after (connections u)
  ∧ ∀ c0 conns c r, connections u = c0 :: conns → NoDup (connections u) →
      first_reply (connections u) = Some (c, r) → useful r = true → c ≠ c0 →
      head (connections x.2) = Some c ∧ c0 ∉ connections x.2.
Proof.
  intros Hm x. destruct (Query_miss u Hm) as (n & _ & E). cbv zeta in E.
  set (u' := {| connections := connections u; up_cache := up_cache u; up_net := n |}) in E.
  destruct (query_loop_run (connections u) u') as (E1 & _ & E2).
  assert (Hc : connections x.2 = connections_after (connections u)).
  { unfold x. rewrite E. unfold connections_after. simpl.
    destruct (first_reply _) as [[c r]|]; [destruct (useful r)|]; by destruct E2. }
  split_and!; [|done|].
  - unfold x. rewrite E, E1. simpl. by destruct (first_reply _) as [[c r]|].
  - intros c0 conns c r Ec Hnd Hf Hu Hne. rewrite Hc. unfold connections_after. rewrite Hf, Hu, Ec.
    rewrite Ec in Hnd. apply NoDup_cons in Hnd as [Hn _]. simpl. split; [done|]. set_solver.
Qed.

(** *** The cache *)

Lemma refresh_frame exp records (u : U) :
  let x := refresh exp records u in
  time (up_net u) ≤ time (up_net x.2) ∧ connections x.2 = connections u
  ∧ up_cache x.2 = up_cache u.
Proof.
  cbv zeta. revert u. induction records as [|r records IH]; intros u; [by split_and!|].
  cbn [refresh]. rewrite run_bind. unfold on_net.
  pose proof (law_net_Now (time:=time) (up_net u)) as Hn.
  destruct (net_Now (up_net u)) as [now n]. cbn [fst snd] in *. rewrite run_bind. cbn.
  destruct (IH {| connections := connections u; up_cache := up_cache u; up_net := n |})
    as (E1 & E2 & E3). cbn in *. unfold on_net in *. split_and!; [lia|done..].
Qed.

(** Records read within their life get the seconds that are left of it. *)
Definition relabelled (L : Z) (r r' : RR) : Prop := ∃ ttl, r' = with_ttl ttl r ∧ 0 ≤ ttl ≤ L.
Lemma refresh_run exp L records (u : U) :
  0 ≤ L < 2 ^ 32 → exp ≤ time (up_net u) + L * Second →
  time (up_net (refresh exp records u).2) < exp + Second →
  Forall2 (relabelled L) records (refresh exp records u).1.
Proof.
  intros HL. revert u. induction records as [|r records IH]; intros u Hexp Hend; [constructor|].
  cbn [refresh] in *. rewrite run_bind in *. unfold on_net in *.
  pose proof (law_net_Now (time:=time) (up_net u)) as Hn.
  destruct (net_Now (up_net u)) as [now n]. cbn [fst snd] in *. rewrite run_bind in *. cbn [mret M_ret fst snd] in *.
  set (u1 := {| connections := connections u; up_cache := up_cache u; up_net := n |}) in *.
  destruct (refresh_frame exp records u1) as (Ht & _). unfold Second in *. cbn [u1 up_net] in Ht.
  unfold on_net in *. constructor; [|apply IH; [cbn [u1 up_net]; lia|done]].
  eexists. split; [done|].
  assert (Hq : 0 ≤ Z.quot (exp - now) 1000000000 ≤ L).
  { destruct (Z.le_gt_cases 0 (exp - now)).
    - split; [apply Z.quot_pos; lia|].
      rewrite <-(Z.quot_mul L 1000000000) by lia. apply Z.quot_le_mono; lia.
    - rewrite <-(Z.opp_involutive (exp - now)), Z.quot_opp_l, Z.quot_small by lia. lia. }
  rewrite Z.mod_small by lia. done.
Qed.

(** The life of a cached answer in seconds. *)
Definition life_seconds (c : C) (r : DnsReply) : Z :=
  if life c r =? Second * defaultCacheTtl then defaultCacheTtl
  else min_ttl (from_option rr_ttl 0 (head (Answer r))) (Answer r).
Lemma life_seconds_spec conns c r cache :
  first_reply conns = Some (c, r) → useful r = true →
  (∀ x, x ∈ Answer r → rr_ttl x < 2 ^ 32) → dflt cache = Second * defaultCacheTtl →
  0 ≤ life_seconds cache r < 2 ^ 32 ∧ life cache r = life_seconds cache r * Second.
Proof.
  intros Hf Hu Hbound Hd. unfold life_seconds.
  destruct (Z.eqb_spec (life cache r) (Second * defaultCacheTtl)) as [->|Hne].
  { unfold Second, defaultCacheTtl. lia. }
  apply first_reply_in in Hf as [_ Hr]. unfold life in *. rewrite Hd in *.
  destruct (Answer r) as [|a l] eqn:Ha; [unfold useful in Hu; rewrite Ha in Hu; by rewrite andb_false_r in Hu|].
  cbn [head from_option] in *. set (m := min_ttl _ _) in *.
  destruct (Z.eqb_spec m 0); [done|]. split; [|done].
  destruct (min_ttl_spec (rr_ttl a) (a :: l)) as (H1 & _ & H3). fold m in H1, H3.
  assert (0 ≤ m).
  { destruct H3 as [->|(y & Hy & ->)]; apply (ttl_nonneg c r); rewrite ?Ha; done || left. }
  pose proof (Hbound a ltac:(left)). lia.
Qed.

(** A useful answer is served from the cache while it lives: a later query for the
    same key, before the shortest TTL of the answer has passed, sends nothing and
    gives the same records with TTLs that do not exceed what is left. An answer
    with a TTL of 0 lives for the default of the cache, ten minutes. *)
Theorem Query_cached c r u n :
  misses u → first_reply (connections u) = Some (c, r) → useful r = true →
  (∀ x, x ∈ Answer r → rr_ttl x < 2 ^ 32) → dflt (up_cache u) = Second * defaultCacheTtl →
  let u1 := (Query location qtype u).2 in
  let L := life_seconds (up_cache u) r in
  let u2 := {| connections := connections u1; up_cache := up_cache u1; up_net := n |} in
  ∃ now, time (up_net u) ≤ now ≤ time (up_net u1) ∧
  (time (up_net u1) ≤ time n → (net_Now n).1 ≤ now + life (up_cache u) r →
   let x := Query location qtype u2 in
   time (up_net x.2) < now + life (up_cache u) r + Second →
   x.1.2 = dns.RcodeSuccess ∧ Forall2 (relabelled L) (Answer r) x.1.1
   ∧ connections x.2 = connections u1).
Proof.
  intros Hm Hf Hu Hbound Hd u1 L u2.
  destruct (Query_miss u Hm) as (n0 & Hn0 & E). cbv zeta in E.
  set (u' := {| connections := connections u; up_cache := up_cache u; up_net := n0 |}) in E.
  destruct (query_loop_run (connections u) u') as (_ & Ht & E2). rewrite Hf, Hu in E2.
  destruct E2 as (Hconn & now & Hnow & Hpeek).
  assert (Eu1 : u1 = (query_loop key location qtype (connections u) u').2) by (unfold u1; by rewrite E).
  rewrite <-Eu1 in *. cbn [u' up_net up_cache] in *. exists now. split; [lia|].
  intros Hn Hfresh. cbv zeta.
  destruct (life_seconds_spec _ c r (up_cache u) Hf Hu Hbound Hd) as [HLr HL]. fold L in HLr, HL.
  unfold Query. cbv zeta. rewrite run_bind. unfold on_net.
  pose proof (law_net_Now (time:=time) n) as Hlaw. unfold u2. cbn [up_net].
  destruct (net_Now n) as [t n']. cbn [fst snd] in *. rewrite run_bind. cbn [fst snd up_cache].
  rewrite (law_uc_Get (peek:=peek)), Hpeek, (proj2 (Z.leb_le _ _)) by lia.
  rewrite !run_bind. cbn [fst snd mret M_ret]. intros Hend.
  set (v := {| connections := connections u1; up_cache := up_cache u1; up_net := n' |}) in *.
  destruct (refresh_frame (now + life (up_cache u) r) (Answer r) v) as (_ & Hc & _).
  split_and!; [done| |done]. apply refresh_run; [lia| |done]. cbn [v up_net]. lia.
Qed.
End query.
End facts.
