(* ===== verification/SingleFlight.v ===== *)
(** * Calls that are merged: [singleflight.Group] in [data_handler.go] and [upstream.go]

    [getRRSet] and [Upstream.Query] look into a cache and, if that does not answer, give
    a function to [Do]: the first caller for a key runs it, those who come while it runs
    wait for its answer. Here a function is a tree of atomic operations ([work]), and the
    calls for one key are interleaved with the one run of the function and with the
    world. ([ZoneLoads] does the same for [GetZone], piece by piece.) *)
From S2P Require Import Prelude GoStrings Redis Radix DnsTypes Zone Store DataHandler DataHandlerFacts.
From S2P Require Upstream.
Local Open Scope Z_scope.

(** ** Functions in pieces

    [Op m k] takes the world [w] to [m w], and goes on as [k w]. *)
Inductive work (W A : Type) := Done (a : A) | Op (m : W → W) (k : W → work W A).
Arguments Done {W A}. Arguments Op {W A}.

Section work.
Context {W : Type}.

(** Run without interruption. *)
Fixpoint alone {A} (k : work W A) : M W A :=
  λ w, match k with Done a => (a, w) | Op m k => alone (k w) (m w) end.
Definition op {A} (m : M W A) : work W A := Op (λ w, (m w).2) (λ w, Done (m w).1).
Fixpoint bind {A B} (k : work W A) (f : A → work W B) : work W B :=
  match k with Done a => f a | Op m k => Op m (λ w, bind (k w) f) end.

Lemma alone_op {A} (m : M W A) w : alone (op m) w = m w.
Proof. symmetry. apply surjective_pairing. Qed.
Lemma alone_bind {A B} (k : work W A) (f : A → work W B) w :
  alone (bind k f) w = (x ← alone k; alone (f x)) w.
Proof. revert w. induction k as [a|m k IH]; intros w; [done|]. cbn. by rewrite IH, !run_bind. Qed.

(** The answer is [a], whatever the world does meanwhile. *)
Inductive always {A} (a : A) : work W A → Prop :=
| always_done : always a (Done a)
| always_op m k : (∀ w, always a (k w)) → always a (Op m k).
(** The answer is that of its first operation. *)
Definition reads {A} (f : W → A) (k : work W A) : Prop :=
  match k with Done _ => False | Op _ k => ∀ w, always (f w) (k w) end.

Lemma always_inv {A} (a : A) k :
  always a k → match k with Done a' => a' = a | Op _ k => ∀ w, always a (k w) end.
Proof. by destruct 1. Qed.
End work.

(** Its operations keep [P], and from worlds with [P] its answer has [Q]. *)
Fixpoint respects {W A} (P : W → Prop) (Q : A → Prop) (k : work W A) : Prop :=
  match k with Done a => Q a | Op m k => ∀ w, P w → P (m w) ∧ respects P Q (k w) end.
Lemma respects_bind {W A B} (P : W → Prop) (Q : A → Prop) (Q' : B → Prop) k f :
  respects P Q k → (∀ a, Q a → respects P Q' (f a)) → respects P Q' (bind k f).
Proof.
  intros Hk Hf. induction k as [a|m k IH]; cbn in *; [auto|]. intros w Hw. split; [by apply Hk|].
  apply IH. by apply Hk.
Qed.
Lemma respects_op {W A} (P : W → Prop) (Q : A → Prop) (m : M W A) :
  keeping P m Q → respects P Q (op m).
Proof. intros Hm w Hw. by destruct (Hm w Hw). Qed.

Lemma respects_alone {W A} (P : W → Prop) (Q : A → Prop) k w :
  respects P Q k → P w → Q (alone k w).1 ∧ P (alone k w).2.
Proof.
  revert w. induction k as [a|m k IH]; intros w Hk Hw; [done|]. destruct (Hk w Hw). by apply IH.
Qed.

(** ** The calls for one key *)
Section group.
Context {W A B : Type}.
(** [look] answers from the cache or not at all, [body] is what [Do] is given, and
    [settle] is what the caller makes of its answer. *)
Variables (look : work W (option B)) (body : work W A) (settle : A → B).
Variable env : W → W → Prop.

Definition call : work W B :=
  bind look (λ o, match o with Some b => Done b | None => bind body (λ a, Done (settle a)) end).

(** A call that got its answer from a flight keeps when it joined it, and when the
    flight was started. *)
Inductive caller :=
| Looking (k : work W (option B))
| Waiting (joined start : nat)
| Hit (b : B)
| Flown (joined start : nat) (a : A).
Definition answer (c : caller) : option B :=
  match c with Hit b => Some b | Flown _ _ a => Some (settle a) | _ => None end.

(** [log] has the worlds that operations of flights found, with the time. *)
Record Run := {
  world : W; tick : nat; flight : option (nat * work W A); callers : gmap nat caller;
  log : list (nat * W);
}.
Definition idle (w : W) : Run :=
  {| world := w; tick := 0; flight := None; callers := ∅; log := [] |}.
Definition at_world (w : W) (r : Run) : Run :=
  {| world := w; tick := S (tick r); flight := flight r; callers := callers r; log := log r |}.
Definition set_caller (i : nat) (c : caller) (r : Run) : Run :=
  {| world := world r; tick := S (tick r); flight := flight r; callers := <[i := c]> (callers r);
     log := log r |}.
Definition joined (i : nat) (r : Run) : Run :=
  let '(start, k) := default (tick r, body) (flight r) in
  {| world := world r; tick := S (tick r); flight := Some (start, k);
     callers := <[i := Waiting (tick r) start]> (callers r); log := log r |}.
Definition works_on (start : nat) (m : W → W) (k : W → work W A) (r : Run) : Run :=
  {| world := m (world r); tick := S (tick r); flight := Some (start, k (world r)); callers := callers r;
     log := (tick r, world r) :: log r |}.
Definition informed (a : A) (c : caller) : caller :=
  match c with Waiting j s => Flown j s a | c => c end.
Definition finished (a : A) (r : Run) : Run :=
  {| world := world r; tick := S (tick r); flight := None; callers := informed a <$> callers r;
     log := log r |}.

Inductive step (r : Run) : Run → Prop :=
| moves w : env (world r) w → step r (at_world w r)
| calls i : callers r !! i = None → step r (set_caller i (Looking look) r)
| looks i m k :
    callers r !! i = Some (Looking (Op m k)) →
    step r (set_caller i (Looking (k (world r))) (at_world (m (world r)) r))
| hits i b : callers r !! i = Some (Looking (Done (Some b))) → step r (set_caller i (Hit b) r)
| joins i : callers r !! i = Some (Looking (Done None)) → step r (joined i r)
| works start m k : flight r = Some (start, Op m k) → step r (works_on start m k r)
| finishes start a : flight r = Some (start, Done a) → step r (finished a r).
Abbreviation runs := (rtc step).

(** *** One call alone *)
Lemma looks_alone i k r :
  callers r !! i = Some (Looking k) →
  ∃ r', runs r r' ∧ callers r' !! i = Some (Looking (Done (alone k (world r)).1))
        ∧ world r' = (alone k (world r)).2 ∧ flight r' = flight r ∧ (tick r ≤ tick r')%nat
        ∧ ∀ j, j ≠ i → callers r' !! j = callers r !! j.
Proof.
  revert r. induction k as [o|m k IH]; intros r Hi; [by exists r|].
  destruct (IH (world r) (set_caller i (Looking (k (world r))) (at_world (m (world r)) r)))
    as (r' & Hr & ? & ? & ? & Ht & Hj); [by apply lookup_insert_eq|]. exists r'. cbn in Ht.
  split_and!; [eapply rtc_l; [by apply (looks r i m k)|done]|done..|lia|].
  intros j Hne. rewrite Hj by done. by apply lookup_insert_ne.
Qed.
Lemma flies_alone start k r :
  flight r = Some (start, k) →
  ∃ r', runs r r' ∧ flight r' = Some (start, Done (alone k (world r)).1)
        ∧ world r' = (alone k (world r)).2 ∧ callers r' = callers r.
Proof.
  revert r. induction k as [o|m k IH]; intros r Hf; [by exists r|].
  destruct (IH (world r) (works_on start m k r) eq_refl) as (r' & Hr & H). exists r'. split; [|exact H].
  eapply rtc_l; [by apply (works r start m k)|done].
Qed.
Lemma lands start k r :
  flight r = Some (start, k) →
  ∃ r', runs r r' ∧ flight r' = None ∧ world r' = (alone k (world r)).2
        ∧ callers r' = informed (alone k (world r)).1 <$> callers r.
Proof.
  intros Hf. destruct (flies_alone start k r Hf) as (r' & Hr & Hf' & Hw & Hc).
  exists (finished (alone k (world r)).1 r'). cbn. rewrite Hc. split_and!; [|done..].
  eapply rtc_r; [exact Hr|by eapply finishes].
Qed.

Lemma call_run w :
  alone call w = let '(o, w') := alone look w in
                 match o with
                 | Some b => (b, w')
                 | None => let '(a, w'') := alone body w' in (settle a, w'')
                 end.
Proof.
  unfold call. rewrite alone_bind, run_bind. destruct (alone look w) as [[b|] w']; cbn [fst snd]; [done|].
  rewrite alone_bind, run_bind. by destruct (alone body w').
Qed.

(** A call with no other under way does what [call] does. *)
Lemma call_alone i r :
  callers r !! i = None → flight r = None →
  ∃ r' c, runs r r' ∧ flight r' = None ∧ world r' = (alone call (world r)).2
          ∧ callers r' !! i = Some c ∧ answer c = Some (alone call (world r)).1.
Proof.
  intros Hi Hf. rewrite call_run.
  destruct (looks_alone i look (set_caller i (Looking look) r)) as (r1 & Hr1 & Hi1 & Hw1 & Hf1 & _);
    [apply lookup_insert_eq|]. cbn [world flight set_caller] in *.
  assert (Hr : runs r r1) by (eapply rtc_l; [by apply calls|done]).
  destruct (alone look (world r)) as [[b|] w'] eqn:E; cbn [fst snd] in *.
  - exists (set_caller i (Hit b) r1), (Hit b). cbn. rewrite lookup_insert_eq, Hf1. split_and!; [|done..].
    eapply rtc_r; [exact Hr|by apply hits].
  - destruct (lands (tick r1) body (joined i r1)) as (r2 & Hr2 & Hf2 & Hw2 & Hc2).
    { unfold joined. by rewrite Hf1, Hf. }
    assert (Hw : world (joined i r1) = w') by (unfold joined; by destruct (default _ _)).
    rewrite Hw in *. destruct (alone body w') as [a w'']. cbn [fst snd] in *.
    eexists r2, _. split_and!; [etrans; [eapply rtc_r; [exact Hr|by apply joins]|done]|done|done|..].
    + rewrite Hc2, lookup_fmap. unfold joined. rewrite Hf1, Hf. cbn. by rewrite lookup_insert_eq.
    + done.
Qed.

(** *** Every call can return *)
Definition returned (c : caller) : Prop := is_Some (answer c).
Definition waited_for (r : Run) : Prop :=
  map_Forall (λ _ c, match c with Waiting _ s => fst <$> flight r = Some s | _ => True end) (callers r).

Lemma waited_for_step r r' : step r r' → waited_for r → waited_for r'.
Proof.
  unfold waited_for. intros Hs Hg. destruct Hs as [w _|i Hi|i m k Hi|i b Hi|i Hi|s m k Hf|s a Hf]; cbn.
  - done.
  - by apply map_Forall_insert_2.
  - by apply map_Forall_insert_2.
  - by apply map_Forall_insert_2.
  - unfold joined. destruct (flight r) as [[s k]|]; cbn.
    + by apply map_Forall_insert_2.
    + apply map_Forall_insert_2; [done|]. eapply map_Forall_impl; [exact Hg|]. by intros j [].
  - rewrite Hf in Hg. done.
  - apply map_Forall_fmap. intros j c Hj. by destruct c.
Qed.
Lemma waited_for_runs r r' : runs r r' → waited_for r → waited_for r'.
Proof. induction 1; eauto using waited_for_step. Qed.

(** From every state that calls and the world can lead to, each call that has begun can
    go on to its answer. *)
Theorem call_can_return w r i c :
  runs (idle w) r → callers r !! i = Some c →
  ∃ r' c', runs r r' ∧ callers r' !! i = Some c' ∧ returned c'.
Proof.
  intros Hr Hi. apply waited_for_runs in Hr; [|apply map_Forall_empty].
  assert (Hland : ∀ r j s, waited_for r → callers r !! i = Some (Waiting j s) →
                  ∃ r' c', runs r r' ∧ callers r' !! i = Some c' ∧ returned c').
  { clear. intros r j s Hw Hi. pose proof (Hw i _ Hi) as Hf. cbn in Hf.
    destruct (flight r) as [[s' k]|] eqn:Ef; [|done].
    destruct (lands s' k r Ef) as (r' & Hr & _ & _ & Hc). eexists r', _.
    split; [done|]. rewrite Hc, lookup_fmap, Hi. split; [done|by eexists]. }
  destruct c as [k|j s|b|j s a]; [|by eapply Hland|by eexists r, _; split_and!; [done..|eexists]|
                                  by eexists r, _; split_and!; [done..|eexists]].
  destruct (looks_alone i k r Hi) as (r1 & Hr1 & Hi1 & _).
  destruct (alone k (world r)).1 as [b|].
  - exists (set_caller i (Hit b) r1), (Hit b). split_and!; [eapply rtc_r; [done|by apply hits]| |by eexists].
    apply lookup_insert_eq.
  - assert (Hj : runs r (joined i r1)) by (eapply rtc_r; [done|by apply joins]).
    assert (∃ j s, callers (joined i r1) !! i = Some (Waiting j s)) as (j & s & Hjs).
    { unfold joined. destruct (default _ _). eexists _, _. apply lookup_insert_eq. }
    destruct (Hland _ j s (waited_for_runs _ _ Hj Hr) Hjs) as (r' & c' & Hr' & H). exists r', c'.
    split; [by etrans|done].
Qed.

(** *** What a flight answers

    A [body] that reads once, with the answer [f] of a world. *)
Variable f : W → A.
Hypothesis body_reads : reads f body.

Definition read_at (r : Run) (start : nat) (a : A) : Prop :=
  ∃ t w, (t, w) ∈ log r ∧ (start ≤ t < tick r)%nat ∧ a = f w.
Definition flight_ok (r : Run) : Prop :=
  match flight r with
  | None => True
  | Some (s, k) => (s ≤ tick r)%nat ∧ (k = body ∨ ∃ a, read_at r s a ∧ always a k)
  end.
Definition caller_ok (r : Run) (c : caller) : Prop :=
  match c with
  | Waiting j s => (s ≤ j < tick r)%nat
  | Flown j s a => (s ≤ j < tick r)%nat ∧ read_at r s a
  | _ => True
  end.
Definition good (r : Run) : Prop := flight_ok r ∧ map_Forall (λ _, caller_ok r) (callers r).

(** Time goes on and the log grows. *)
Definition later (r r' : Run) : Prop := (tick r ≤ tick r')%nat ∧ log r ⊆ log r'.
Lemma read_at_later r r' s a : later r r' → read_at r s a → read_at r' s a.
Proof. intros [Ht Hl] (t & w & Hin & ? & Ha). exists t, w. split_and!; [by apply Hl|lia..|done]. Qed.
Lemma caller_ok_later r r' c : later r r' → caller_ok r c → caller_ok r' c.
Proof.
  intros Hl. pose proof Hl as [Ht _]. destruct c as [|j s| |j s a]; cbn; try done; [lia|].
  intros [? ?]. split; [lia|by eapply read_at_later].
Qed.
Lemma callers_later r r' :
  later r r' → map_Forall (λ _, caller_ok r) (callers r) → map_Forall (λ _, caller_ok r') (callers r).
Proof. intros Hl H. eapply map_Forall_impl; [exact H|]. intros i c. by apply caller_ok_later. Qed.
Lemma flight_ok_later r r' : later r r' → flight r' = flight r → flight_ok r → flight_ok r'.
Proof.
  intros Hl Hf. pose proof Hl as [Ht _]. unfold flight_ok. rewrite Hf. destruct (flight r) as [[s k]|]; [|done].
  intros [? [->|(a & Ha & Hk)]]; (split; [lia|]); [by left|]. right. exists a. split; [by eapply read_at_later|done].
Qed.
Lemma good_keep r r' :
  later r r' → flight r' = flight r → callers r' = callers r → good r → good r'.
Proof.
  intros Hl Hf Hc [Hg Hcs]. split; [by eapply flight_ok_later|]. rewrite Hc. by eapply callers_later.
Qed.
Lemma caller_good i c r : good r → caller_ok (set_caller i c r) c → good (set_caller i c r).
Proof.
  intros [Hf Hc] Hok. assert (Hl : later r (set_caller i c r)) by (split; cbn; [lia|done]).
  split; [by eapply flight_ok_later|]. apply map_Forall_insert_2; [done|by apply (callers_later r)].
Qed.
Lemma good_joined i r : good r → good (joined i r).
Proof.
  intros [Hf Hc]. unfold joined, flight_ok in *. destruct (flight r) as [[s k]|]; cbn.
  - destruct Hf as [Hs Hk]. split; cbn.
    + split; [lia|]. destruct Hk as [->|(a & Ha & Hk)]; [by left|]. right. exists a. split; [|done].
      eapply read_at_later; [|done]. split; [cbn; lia|done].
    + apply map_Forall_insert_2; [cbn; lia|]. apply (callers_later r); [split; [cbn; lia|done]|done].
  - split; cbn; [split; [lia|by left]|].
    apply map_Forall_insert_2; [cbn; lia|]. apply (callers_later r); [split; [cbn; lia|done]|done].
Qed.
Lemma good_works s m k r : flight r = Some (s, Op m k) → good r → good (works_on s m k r).
Proof.
  intros Hf [Hg Hc]. assert (Hl : later r (works_on s m k r)) by (split; cbn; [lia|by right]).
  split; [|by apply (callers_later r)]. unfold flight_ok in Hg. rewrite Hf in Hg. destruct Hg as [Hs Hk].
  cbn. split; [lia|]. right. destruct Hk as [E|(a & Ha & Hk)].
  - exists (f (world r)). pose proof body_reads as Hb. rewrite <-E in Hb. split; [|apply Hb].
    exists (tick r), (world r). split; [left|]. cbn. split; [lia|done].
  - exists a. split; [by eapply read_at_later|]. apply always_inv in Hk. apply Hk.
Qed.
Lemma body_goes_on a : body ≠ Done a.
Proof. intros E. pose proof body_reads as Hb. by rewrite E in Hb. Qed.
Lemma good_finished s a r : flight r = Some (s, Done a) → waited_for r → good r → good (finished a r).
Proof.
  intros Hf Hw [Hg Hc]. assert (Hl : later r (finished a r)) by (split; cbn; [lia|done]).
  split; [done|]. apply map_Forall_fmap. intros i c Hi. cbn.
  specialize (Hc i c Hi). specialize (Hw i c Hi). destruct c as [|j s'| |j s' a']; cbn in *;
    [done| |done|exact (caller_ok_later r _ (Flown j s' a') Hl Hc)].
  split; [lia|]. rewrite Hf in Hw. injection Hw as <-. unfold flight_ok in Hg. rewrite Hf in Hg.
  destruct Hg as [_ [E|(a' & Ha & Hk)]]; [by destruct (body_goes_on a)|].
  apply always_inv in Hk as ->. by eapply read_at_later.
Qed.
Lemma step_good r r' : step r r' → waited_for r → good r → good r'.
Proof.
  intros Hs Hw Hg. destruct Hs; eauto using good_works, good_finished, good_joined.
  - apply (good_keep r); [split; [cbn; lia|done]|done..].
  - by apply caller_good.
  - apply caller_good; [|done]. apply (good_keep r); [split; [cbn; lia|done]|done..].
  - by apply caller_good.
Qed.
Lemma good_runs w r : runs (idle w) r → good r.
Proof.
  assert (∀ r r', runs r r' → waited_for r → good r → good r') as H.
  { induction 1; eauto using step_good, waited_for_step. }
  intros Hr. eapply H; [done|apply map_Forall_empty|]. split; [done|apply map_Forall_empty].
Qed.

(** The answer of a flight is that of one world, which the flight found while it ran. *)
Lemma flown_is_read w r i j s a :
  runs (idle w) r → callers r !! i = Some (Flown j s a) →
  (s ≤ j)%nat ∧ ∃ t w', (t, w') ∈ log r ∧ (s ≤ t < tick r)%nat ∧ a = f w'.
Proof. intros Hr Hi. apply good_runs in Hr as [_ Hc]. destruct (Hc i _ Hi) as [? Hat]. split; [lia|done]. Qed.

(** Once a flight has read, whoever joins is given what it has read: also a call that
    begins after the world has changed. *)
Lemma always_alone (a : A) (k : work W A) w : always a k → (alone k w).1 = a.
Proof. intros H. revert w. induction H; [done|]. intros w. cbn. auto. Qed.
Lemma joiner_is_given r i start k a :
  callers r !! i = None → flight r = Some (start, k) → always a k → (alone look (world r)).1 = None →
  ∃ r' j, runs r r' ∧ callers r' !! i = Some (Flown j start a) ∧ (tick r ≤ j)%nat.
Proof.
  intros Hi Hf Ha Hl.
  destruct (looks_alone i look (set_caller i (Looking look) r)) as (r1 & Hr1 & Hi1 & _ & Hf1 & Ht1 & _);
    [apply lookup_insert_eq|]. cbn [world flight tick set_caller] in *. rewrite Hl in Hi1. rewrite Hf in Hf1.
  destruct (lands start k (joined i r1)) as (r2 & Hr2 & _ & _ & Hc2); [unfold joined; by rewrite Hf1|].
  rewrite always_alone with (a := a) in Hc2 by done.
  exists r2, (tick r1). split; [|split; [|lia]].
  - eapply rtc_l; [by apply calls|]. etrans; [exact Hr1|]. eapply rtc_l; [by apply joins|done].
  - rewrite Hc2, lookup_fmap. unfold joined. rewrite Hf1. cbn. by rewrite lookup_insert_eq.
Qed.

Lemma flight_has_read w :
  (alone look w).1 = None →
  ∃ r start k, runs (idle w) r ∧ flight r = Some (start, k) ∧ always (f (alone look w).2) k
               ∧ ∀ j, j ≠ 0%nat → callers r !! j = None.
Proof.
  intros Hl.
  destruct (looks_alone 0 look (set_caller 0 (Looking look) (idle w))) as (r1 & Hr1 & Hi1 & Hw1 & Hf1 & _ & Hc1);
    [apply lookup_insert_eq|]. cbn [world flight set_caller idle] in *. rewrite Hl in Hi1.
  pose proof body_reads as Hb. destruct body as [|m k] eqn:Eb; [done|].
  exists (works_on (tick r1) m k (joined 0 r1)), (tick r1), (k (world r1)).
  assert (Hj : joined 0 r1 = {| world := world r1; tick := S (tick r1); flight := Some (tick r1, Op m k);
    callers := <[0%nat := Waiting (tick r1) (tick r1)]> (callers r1); log := log r1 |})
    by (unfold joined; by rewrite Hf1, Eb).
  split_and!.
  - eapply rtc_l; [by apply (calls (idle w) 0%nat)|]. etrans; [exact Hr1|]. eapply rtc_l; [by apply joins|].
    apply rtc_once. apply works. by rewrite Hj.
  - by rewrite Hj.
  - rewrite <-Hw1. apply Hb.
  - intros j Hne. rewrite Hj. cbn. rewrite lookup_insert_ne, Hc1 by done. cbn. by rewrite lookup_insert_ne.
Qed.

(** *** Properties of the world that all keep *)
Variable P : W → Prop.
Variable Q : option B → Prop.
Hypothesis env_keeps : ∀ w w', env w w' → P w → P w'.
Hypothesis look_respects : respects P Q look.
Hypothesis body_respects : respects P (λ _, True) body.

Definition kept (r : Run) : Prop :=
  P (world r) ∧ (∀ s k, flight r = Some (s, k) → respects P (λ _, True) k)
  ∧ (∀ t w, (t, w) ∈ log r → P w)
  ∧ map_Forall (λ _ c, match c with Looking k => respects P Q k | Hit b => Q (Some b) | _ => True end) (callers r).
Lemma kept_step r r' : step r r' → kept r → kept r'.
Proof.
  intros Hs (Hw & Hf & Hl & Hc). destruct Hs as [w Hw'|i Hi|i m k Hi|i b Hi|i Hi|s m k Hk|s a Hk].
  - split_and!; eauto.
  - split_and!; eauto. by apply map_Forall_insert_2.
  - pose proof (Hc i _ Hi _ Hw) as [? ?]. split_and!; eauto. by apply map_Forall_insert_2.
  - pose proof (Hc i _ Hi). split_and!; eauto. by apply map_Forall_insert_2.
  - unfold joined. destruct (flight r) as [[s k]|] eqn:E; cbn.
    + split_and!; [done|intros ? ? [= <- <-]; by apply (Hf s)|done|by apply map_Forall_insert_2].
    + split_and!; [done|by intros ? ? [= <- <-]|done|by apply map_Forall_insert_2].
  - pose proof (Hf _ _ Hk _ Hw) as [? ?]. split_and!; [done|by intros ? ? [= <- <-]| |done].
    intros t w [[= -> ->]|Hin]%elem_of_cons; [done|by eapply Hl].
  - split_and!; [done..|]. apply map_Forall_fmap. intros i c Hi. specialize (Hc i c Hi). by destruct c.
Qed.
Lemma kept_runs w r : runs (idle w) r → P w → kept r.
Proof.
  assert (∀ r r', runs r r' → kept r → kept r') as H by (induction 1; eauto using kept_step).
  intros Hr Hw. apply (H _ _ Hr).
  split_and!; [done..|by intros ? ? ?%elem_of_nil|apply map_Forall_empty].
Qed.
End group.
Arguments Flown {W A B}. Arguments Hit {W A B}.

(** ** Record sets *)
Section rrsets.
Context {T : Type → Type} `{!IRadix T} {RS RC ZC CK : Type}.
Context `{!RedisOps RS, !Cache RC AnyRRSet, !Clock CK}.
Variable config : DataHandlerConfig.
Variable TypeToString : Z → string.
Context (R : Type) `{!RRSetKind R, !Json R}.
Variables (zone label : string) (t : Z).
Abbreviation DHS := (DH T RS RC ZC CK).
Abbreviation key := (zoneLocationRRSetKey TypeToString zone label t).
Abbreviation Answer := (res StoreError AnyRRSet).

Definition look_rrset : work DHS (option Answer) :=
  bind (op (recordCache_Get key)) (λ cachedRRSet,
    match cachedRRSet with
    | Some r => bind (op Now) (λ now, Done (if now <=? RecordCacheTimeout config then Some (Ok r) else None))
    | None => Done None
    end).
Definition store_piece (r : R) : work DHS Answer :=
  bind (op (recordCache_Set key (inject r))) (λ _, Done (Ok (inject r))).
Definition read_pieces : work DHS Answer :=
  bind (op (DataHandler.redis (redis_Get key))) (λ val,
    match val with
    | Err ErrNil => store_piece zero
    | Err e => Done (Err (ERedis e))
    | Ok v =>
      if str_empty v then store_piece zero else
      match Unmarshal v with
      | Err e => Done (Err (EJson e))
      | Ok r => store_piece r
      end
    end).
Abbreviation read := (read_rrset R key : M DHS Answer).

Lemma store_piece_run r (s : DHS) : alone (store_piece r) s = store_result key r s.
Proof. done. Qed.
Lemma read_pieces_run (s : DHS) : alone read_pieces s = read s.
Proof.
  unfold read_pieces, read_rrset. rewrite alone_bind, !run_bind, alone_op.
  destruct (DataHandler.redis (redis_Get key) s) as [[v|[]] s']; cbn [fst snd]; [|done..].
  destruct (str_empty v); [done|]. by destruct (Unmarshal v).
Qed.
(** Alone, this is [getRRSet]. *)
Lemma alone_getRRSet (s : DHS) :
  alone (call look_rrset read_pieces id) s = getRRSet config TypeToString R zone label t s.
Proof.
  rewrite call_run. unfold look_rrset, getRRSet. cbv zeta. rewrite alone_bind, !run_bind, alone_op.
  destruct (recordCache_Get key s) as [[r|] s1]; cbn [fst snd]; rewrite ?run_bind.
  - rewrite alone_bind, !run_bind, alone_op. destruct (Now s1) as [now s2]. cbn [fst snd alone].
    destruct (now <=? _); cbn [fst snd mret M_ret alone]; [done|]. rewrite read_pieces_run. by destruct (read s2).
  - cbn [fst snd alone mret M_ret]. rewrite read_pieces_run. by destruct (read s1).
Qed.

(** The answer is settled by what redis answers. *)
Lemma store_piece_always r : always (Ok (inject r) : Answer) (store_piece r).
Proof. constructor. intros w. constructor. Qed.
Lemma read_pieces_reads : reads (λ s, (read s).1) read_pieces.
Proof.
  intros s. rewrite <-read_pieces_run. cbn. unfold DataHandler.redis.
  destruct (redis_Get key (dh_redis s)) as [[v|[]] rs]; cbn; try apply store_piece_always; try constructor.
  destruct (str_empty v); [apply store_piece_always|].
  destruct (Unmarshal v); [apply store_piece_always|constructor].
Qed.

Context {rstr : RS → string → option string} {rset : RS → string → gset string}.
Context `{!RedisSpec RS rstr rset} {time : CK → Z} `{!ClockLaws CK time}.
(** Redis, the caches and the other keys do what they will; the clock goes on. *)
Definition goes_on (s s' : DHS) : Prop := time (dh_clock s) ≤ time (dh_clock s').
Abbreviation expired := (cache_expired (time:=time) config : DHS → Prop).
Abbreviation runs := (rtc (step look_rrset read_pieces goes_on)).
Abbreviation start s := (idle (B:=Answer) (A:=Answer) s).

Lemma keeps_redis {A} (m : M RS A) : keeping expired (DataHandler.redis m) (λ _, True).
Proof. intros s Hs. unfold DataHandler.redis. by destruct (m _). Qed.
Lemma keeps_Get k : keeping expired (recordCache_Get k) (λ _, True).
Proof. intros s Hs. unfold recordCache_Get, on_recordCache. by destruct (cache_Get _ _). Qed.
Lemma keeps_Now : keeping expired Now (λ now, RecordCacheTimeout config < now).
Proof.
  intros s Hs. unfold Now, cache_expired in *. pose proof (law_clock (time:=time) (dh_clock s)) as Hc.
  destruct (clock_Unix _). cbn in *. lia.
Qed.
Lemma look_misses : respects expired (λ o, o = None) look_rrset.
Proof.
  eapply respects_bind; [apply respects_op, keeps_Get|]. intros [r|] _; [|done].
  eapply respects_bind; [apply respects_op, keeps_Now|]. intros now Hnow. cbn.
  by rewrite (proj2 (Z.leb_gt _ _)).
Qed.
Lemma read_respects : respects expired (λ _, True) read_pieces.
Proof.
  assert (Hs : ∀ r, respects expired (λ _, True) (store_piece r)) by (intros r w Hw; by split).
  eapply respects_bind; [apply respects_op, keeps_redis|]. intros [v|[]] _; try done.
  destruct (str_empty v); [done|]. by destruct (Unmarshal v).
Qed.

Lemma kept_run s r : expired s → runs (start s) r → kept expired (λ o, o = None) r.
Proof.
  intros Hs Hr. apply (kept_runs look_rrset read_pieces goes_on) with (w := s);
    [|apply look_misses|apply read_respects|done..].
  intros w w' Hww ?. unfold goes_on, cache_expired in *. lia.
Qed.
Lemma look_run (s : DHS) :
  expired s → (alone look_rrset s).1 = None ∧ dh_redis (alone look_rrset s).2 = dh_redis s.
Proof.
  intros Hs. split.
  - eapply (respects_alone expired); [apply look_misses|done].
  - eapply (respects_alone (λ w, dh_redis w = dh_redis s) (λ _, True)); [|done].
    eapply (respects_bind _ (λ _, True)); [apply respects_op; intros w; unfold recordCache_Get, on_recordCache; by destruct (cache_Get _ _)|].
    intros [v|] _; [|done].
    eapply (respects_bind _ (λ _, True)); [apply respects_op; intros w; unfold Now; by destruct (clock_Unix _)|].
    by intros now _.
Qed.

(** What redis holds is what the calls are answered. *)
Lemma read_is_decode (s : DHS) :
  typed (R:=R) (read s).1 = decode R (rstr (dh_redis s) key)
  ∨ ∃ e, (redis_Get key (dh_redis s)).1 = Err e ∧ e ≠ ErrNil ∧ typed (R:=R) (read s).1 = Err (ERedis e).
Proof. destruct (read_rrset_run R key s) as ([?|(e & ? & ? & ?)] & _); [by left|right; by exists e]. Qed.

(** C36. However the calls for a record set, writes to redis and events are interleaved, the
    answer of a call is the record set that redis held at one moment, or the error that
    redis gave then; that moment is in the flight the call has joined, so not before the
    call began if the call started the flight. *)
Theorem rrset_answers_held s r i c ans :
  expired s → runs (start s) r → callers r !! i = Some c → answer id c = Some ans →
  ∃ began joined t w, c = Flown joined began ans ∧ (t, w) ∈ log r ∧ (began ≤ joined)%nat ∧ (began ≤ t < tick r)%nat
    ∧ (typed (R:=R) ans = decode R (rstr (dh_redis w) key)
       ∨ ∃ e, (redis_Get key (dh_redis w)).1 = Err e ∧ e ≠ ErrNil ∧ typed (R:=R) ans = Err (ERedis e)).
Proof.
  intros Hs Hr Hi Ha.
  destruct (kept_run s r Hs Hr) as (_ & _ & _ & Hc).
  specialize (Hc i c Hi). destruct c as [k|j b|b|j b a]; try done. injection Ha as <-.
  destruct (flown_is_read _ _ _ _ read_pieces_reads s r i j b a Hr Hi) as (Hj & t0 & w & Hin & Ht & ->).
  exists b, j, t0, w. split_and!; [done..|lia|lia|apply read_is_decode].
Qed.

(** So a call may miss a write that was done before it began: here redis has changed
    when call 1 begins, and it is given what redis held before. *)
Theorem joined_answer_is_old (s : DHS) rs' :
  expired s →
  ∃ r1 r2 j b, runs (start s) r1 ∧ dh_redis (world r1) = rs' ∧ callers r1 !! 1%nat = None
    ∧ runs r1 r2 ∧ (tick r1 ≤ j)%nat
    ∧ ∃ ans, callers r2 !! 1%nat = Some (Flown j b ans)
      ∧ (typed (R:=R) ans = decode R (rstr (dh_redis s) key)
         ∨ ∃ e, (redis_Get key (dh_redis s)).1 = Err e ∧ e ≠ ErrNil ∧ typed (R:=R) ans = Err (ERedis e)).
Proof.
  intros Hs. destruct (look_run s Hs) as [Hl Er].
  destruct (flight_has_read look_rrset read_pieces goes_on _ read_pieces_reads s Hl) as (r0 & b & k & Hr0 & Hf0 & Hk & Hc0).
  set (w1 := {| dh_redis := rs'; dh_zones := dh_zones (world r0); dh_recordCache := dh_recordCache (world r0);
                dh_zoneCache := dh_zoneCache (world r0); dh_clock := dh_clock (world r0) |} : DHS).
  assert (Hr1 : runs (start s) (at_world w1 r0)) by (eapply rtc_r; [exact Hr0|by apply moves; unfold goes_on; cbn]).
  destruct (kept_run s _ Hs Hr1) as (Hw1 & _).
  destruct (joiner_is_given look_rrset read_pieces goes_on (at_world w1 r0) 1 b k _ (Hc0 1%nat ltac:(done)) Hf0 Hk)
    as (r2 & j & Hr2 & Hi2 & Ht); [by apply look_run|].
  exists (at_world w1 r0), r2, j, b. split_and!; [done..|by apply Hc0|done|done|].
  eexists. split; [exact Hi2|]. rewrite <-Er. apply read_is_decode.
Qed.
End rrsets.

(** ** Upstream *)
Section upstream.
Context {C N : Type} `{!Upstream.RRCache C, !Upstream.Network N}.
Import Upstream.
Abbreviation U := (Upstream C N).
Variables (location : string) (qtype : Z).
Abbreviation key := (query_key location qtype).

Fixpoint refresh_pieces (exp : Z) (records : list RR) : work U (list RR) :=
  match records with
  | [] => Done []
  | r :: records =>
    bind (op (on_net net_Now)) (λ now, bind (refresh_pieces exp records) (λ records,
      Done (with_ttl (Z.quot (exp - now) Second `mod` 2 ^ 32) r :: records)))
  end.
Definition look_upstream : work U (option (list RR * Z)) :=
  bind (op (on_net net_Now)) (λ now, bind (op (λ u : U, (uc_Get key now (up_cache u), u))) (λ found,
    match found with
    | Some (records, exp) =>
      bind (refresh_pieces exp records) (λ records,
        bind (op (on_up_cache (uc_Update key records))) (λ _, Done (Some (records, dns.RcodeSuccess))))
    | None => Done None
    end)).
Fixpoint query_pieces (conns : list Connection) : work U (option DnsReply) :=
  match conns with
  | [] => Done None
  | c :: conns => bind (op (on_net (Exchange c location qtype))) (λ r,
    match r with
    | Err _ => query_pieces conns
    | Ok r =>
      if negb (Rcode r =? dns.RcodeSuccess) then Done (Some r) else
      match Upstream.Answer r with
      | [] => Done (Some r)
      | first :: _ =>
        bind (op (on_net net_Now)) (λ now,
        bind (op (on_up_cache (uc_Set key (Upstream.Answer r) now (min_ttl (rr_ttl first) (Upstream.Answer r) * Second)))) (λ _,
        bind (op (swap_first c)) (λ _, Done (Some r))))
      end
    end)
  end.
Definition upstream_body : work U (option DnsReply) := bind (op (λ u : U, (connections u, u))) query_pieces.
Definition reply_of (answer : option DnsReply) : list RR * Z :=
  match answer with
  | None => ([], dns.RcodeServerFailure)
  | Some msg => (Upstream.Answer msg, Rcode msg)
  end.

Lemma refresh_pieces_run exp records (u : U) : alone (refresh_pieces exp records) u = refresh exp records u.
Proof.
  revert u. induction records as [|r records IH]; intros u; [done|]. cbn [refresh_pieces refresh].
  by rewrite alone_bind, !run_bind, alone_op, alone_bind, run_bind, IH.
Qed.
Lemma query_pieces_run conns (u : U) : alone (query_pieces conns) u = query_loop key location qtype conns u.
Proof.
  revert u. induction conns as [|c conns IH]; intros u; [done|]. cbn [query_pieces query_loop].
  rewrite alone_bind, !run_bind, alone_op. destruct (on_net _ u) as [[r|e] u1]; cbn [fst snd]; [|done].
  destruct (negb _); [done|]. destruct (Upstream.Answer r); [done|]. by rewrite alone_bind, !run_bind, alone_op.
Qed.
(** Alone, this is [Query]. *)
Lemma alone_Query (u : U) : alone (call look_upstream upstream_body reply_of) u = Query location qtype u.
Proof.
  rewrite call_run. unfold look_upstream, upstream_body, Query. cbv zeta.
  rewrite alone_bind, !run_bind, alone_op. destruct (on_net _ u) as [now u1]. cbn [fst snd].
  rewrite alone_bind, run_bind, alone_op. cbn [fst snd].
  destruct (uc_Get key now (up_cache u1)) as [[records exp]|].
  - by rewrite alone_bind, !run_bind, refresh_pieces_run.
  - cbn [alone]. rewrite alone_bind, !run_bind, alone_op. cbn [fst snd]. rewrite query_pieces_run.
    by destruct (query_loop _ _ _ _ _).
Qed.

(** Flights for other keys, which move connections to the front at the same time, are
    part of the world. However they are interleaved, the list keeps its length and has
    only servers of the configuration. *)
Variable configured : list Connection.
Definition connected (u : U) : Prop :=
  length (connections u) = length configured ∧ connections u ⊆ configured.
Lemma connected_on_net {A} (m : M N A) : keeping connected (on_net m) (λ _, True).
Proof. intros u Hu. unfold on_net. by destruct (m _). Qed.
Lemma connected_swap c : c ∈ configured → keeping connected (swap_first c) (λ _, True).
Proof.
  intros Hc u [Hl Hs]. split; [split|done]; cbn; [by rewrite length_insert|].
  intros x. destruct (connections u) as [|c0 conns]; [by intros ?%elem_of_nil|]. cbn.
  intros [->|Hx]%elem_of_cons; [done|]. apply Hs. by right.
Qed.
Lemma refresh_connected exp records : respects connected (λ _, True) (refresh_pieces exp records).
Proof.
  induction records as [|r records IH]; [done|]. cbn [refresh_pieces].
  eapply respects_bind; [apply respects_op, connected_on_net|]. intros now _.
  eapply respects_bind; [apply IH|done].
Qed.
Lemma look_connected : respects connected (λ _, True) look_upstream.
Proof.
  eapply respects_bind; [apply respects_op, connected_on_net|]. intros now _.
  eapply (respects_bind _ (λ _, True)); [by intros u Hu|]. intros [[records exp]|] _; [|done].
  eapply respects_bind; [apply refresh_connected|]. intros l _. by intros u Hu.
Qed.
Lemma query_connected conns : conns ⊆ configured → respects connected (λ _, True) (query_pieces conns).
Proof.
  induction conns as [|c conns IH]; intros Hc; [done|]. cbn [query_pieces].
  eapply respects_bind; [apply respects_op, connected_on_net|]. intros [r|e] _; [|apply IH; set_solver].
  destruct (negb _); [done|]. destruct (Upstream.Answer r); [done|].
  eapply respects_bind; [apply respects_op, connected_on_net|]. intros now _.
  eapply (respects_bind _ (λ _, True)); [by intros u Hu|]. intros _ _.
  eapply respects_bind; [apply respects_op, connected_swap; set_solver|done].
Qed.
Lemma body_connected : respects connected (λ _, True) upstream_body.
Proof.
  eapply (respects_bind _ (λ conns, conns ⊆ configured)); [|apply query_connected].
  intros u Hu. split; [done|]. apply Hu.
Qed.

Theorem connections_are_configured env u r :
  (∀ u u', env u u' → connected u → connected u') → connected u →
  rtc (step look_upstream upstream_body env) (idle u) r → connected (world r).
Proof.
  intros Henv Hu Hr.
  by destruct (kept_runs look_upstream upstream_body env connected (λ _, True)) with (w := u) (r := r)
    as [? _]; [|apply look_connected|apply body_connected|..].
Qed.
End upstream.
