(* ===== verification/Config.v ===== *)
(** * Settings: the configuration of every component and of the three programs

    The [Config] structs below [internal] and [pkg], the listeners made from them
    ([internal/server/server.go]), the pool of [hiredis.NewRedis], and the
    configuration files of [cmd]: the default values, [LoadConfig], which decodes
    a file into the default object itself, and [Verify], the check of a
    configuration against the machine. The JSON decoder, files, sockets and the
    maxmind reader are parameters. *)
From S2P Require Import Prelude GoStrings Redis DnsTypes DataHandler Geo.
From S2P Require RateLimit Upstream.
Local Open Scope Z_scope.

(** ** [pkg/hiredis] *)
Record ConnectionConfig := {
  MaxIdleConnections : Z; MaxActiveConnections : Z; ConnectTimeout : Z; ReadTimeout : Z;
  IdleKeepAlive : Z; MaxKeepAlive : Z; WaitForConnection : bool;
}.
Record HiredisConfig := {
  Address : string; rc_Net : string; rc_DB : Z; Password : string; rc_Prefix : string;
  rc_Suffix : string; rc_Connection : ConnectionConfig;
}.
(** The part the operations of the client read. *)
Definition client_config (c : HiredisConfig) : RedisConfig :=
  {| Prefix := rc_Prefix c; Suffix := rc_Suffix c; DB := rc_DB c |}.

Inductive DialOption :=
| DialPassword (p : string) | DialConnectTimeout (d : Z) | DialReadTimeout (d : Z) | DialDatabase (db : Z).
(** [redisCon.Pool], with the arguments its [Dial] passes on. *)
Record Pool := {
  Dial : string * string * list DialOption;
  MaxIdle : Z; MaxActive : Z; IdleTimeout : Z; Wait : bool; MaxConnLifetime : Z;
}.
Definition Milliseconds (n : Z) : Z := wrap64 (n * 1000000).
Definition Seconds (n : Z) : Z := wrap64 (n * 1000000000).
Definition dial_options (c : HiredisConfig) : list DialOption :=
  (if bool_decide (Password c = empty_str) then [] else [DialPassword (Password c)])
  ++ (if ConnectTimeout (rc_Connection c) =? 0 then []
      else [DialConnectTimeout (Milliseconds (ConnectTimeout (rc_Connection c)))])
  ++ (if ReadTimeout (rc_Connection c) =? 0 then []
      else [DialReadTimeout (Milliseconds (ReadTimeout (rc_Connection c)))])
  ++ [DialDatabase (rc_DB c)].
Definition NewRedis (c : HiredisConfig) : Pool := {|
  Dial := (rc_Net c, Address c, dial_options c);
  MaxIdle := MaxIdleConnections (rc_Connection c);
  MaxActive := MaxActiveConnections (rc_Connection c);
  IdleTimeout := Seconds (IdleKeepAlive (rc_Connection c));
  Wait := WaitForConnection (rc_Connection c);
  MaxConnLifetime := Seconds (MaxKeepAlive (rc_Connection c)) |}.

(** ** [internal/storage], [internal/handler], [internal/healthcheck] *)
Record StorageConfig := {
  sc_ZoneCacheSize : Z; sc_ZoneCacheTimeout : Z; sc_ZoneReload : Z; sc_RecordCacheSize : Z;
  sc_RecordCacheTimeout : Z; sc_Redis : HiredisConfig; sc_MinTTL : Z; sc_MaxTTL : Z;
}.
(** The part the data handler reads. *)
Definition handler_config (c : StorageConfig) : DataHandlerConfig := {|
  ZoneCacheTimeout := sc_ZoneCacheTimeout c; ZoneReload := sc_ZoneReload c;
  RecordCacheTimeout := sc_RecordCacheTimeout c; MinTTL := sc_MinTTL c; MaxTTL := sc_MaxTTL c |}.
Record StatHandlerConfig := { st_Redis : HiredisConfig }.
Record DnsRequestHandlerConfig := {
  hc_Upstream : list Upstream.UpstreamConfig; hc_GeoIp : GeoConfig; hc_LogSourceLocation : bool;
}.
Record HealthConfig := {
  hl_Enable : bool; hl_MaxRequests : Z; hl_MaxPendingRequests : Z; hl_UpdateInterval : Z;
  hl_CheckInterval : Z;
}.

(** ** Listeners: [internal/server/server.go] *)
Record TlsConfig := { tls_Enable : bool; CertPath : string; KeyPath : string; CaPath : string }.
Record ServerConfig := { sv_Ip : string; sv_Port : Z; sv_Protocol : string; sv_Count : Z; sv_Tls : TlsConfig }.
(** [*tls.Config] and [*dns.Server], with the fields that are set. *)
Record TLS := { Certificates : list string; RootCAs : option string }.
Record DnsServer := { Addr : string; sv_Net : string; ReusePort : bool; TLSConfig : option TLS }.

Section server.
Variable ReadFile : string → option string.
(** [AppendCertsFromPEM] on a new pool. *)
Variable CertPool : string → option string.
Variable LoadX509KeyPair : string → string → option string.

Definition loadRoots (caPath : string) : option string :=
  if bool_decide (caPath = empty_str) then None
  else pem ← ReadFile caPath; CertPool pem.
Definition loadTlsConfig (cfg : TlsConfig) : option TLS :=
  let root := loadRoots (CaPath cfg) in
  if bool_decide (KeyPath cfg = empty_str) || bool_decide (CertPath cfg = empty_str)
  then Some {| Certificates := []; RootCAs := root |}
  else cert ← LoadX509KeyPair (CertPath cfg) (KeyPath cfg);
       Some {| Certificates := [cert]; RootCAs := root |}.
Definition listener (cfg : ServerConfig) : DnsServer := {|
  Addr := sv_Ip cfg +:+ ":" +:+ Itoa (sv_Port cfg); sv_Net := sv_Protocol cfg; ReusePort := true;
  TLSConfig := if tls_Enable (sv_Tls cfg) then loadTlsConfig (sv_Tls cfg) else None |}.
Fixpoint NewServer (config : list ServerConfig) : list DnsServer :=
  match config with
  | [] => []
  | cfg :: config =>
    let count := if sv_Count cfg <? 1 then 1 else sv_Count cfg in
    replicate (Z.to_nat count) (listener cfg) ++ NewServer config
  end.
End server.

(** ** Configuration files *)
Record ResolverConfig := {
  rs_Server : list ServerConfig; rs_RedisData : StorageConfig; rs_RedisStat : StatHandlerConfig;
  rs_Handler : DnsRequestHandlerConfig; rs_RateLimit : RateLimit.Config;
}.
Record HealthcheckerConfig := {
  hk_RedisData : StorageConfig; hk_RedisStat : StatHandlerConfig; hk_Healthcheck : HealthConfig;
}.
Record ApiServerConfig := { BindAddress : string; as_ReadTimeout : Z; as_WriteTimeout : Z }.
Record ApiConfig := {
  DBConnectionString : string; ac_ServerConfig : ApiServerConfig; ac_RedisConfig : HiredisConfig;
}.

Definition default_connection : ConnectionConfig := {|
  MaxIdleConnections := 10; MaxActiveConnections := 10; ConnectTimeout := 500; ReadTimeout := 500;
  IdleKeepAlive := 30; MaxKeepAlive := 0; WaitForConnection := false |}.
Definition default_redis : HiredisConfig := {|
  Address := "127.0.0.1:6379"; rc_Net := "tcp"; rc_DB := 0; Password := empty_str;
  rc_Prefix := "z42_"; rc_Suffix := "_z42"; rc_Connection := default_connection |}.
Definition default_storage : StorageConfig := {|
  sc_ZoneCacheSize := 10000; sc_ZoneCacheTimeout := 60; sc_ZoneReload := 60;
  sc_RecordCacheSize := 1000000; sc_RecordCacheTimeout := 60; sc_Redis := default_redis;
  sc_MinTTL := 5; sc_MaxTTL := 300 |}.
Definition resolverDefaultConfig : ResolverConfig := {|
  rs_Server := [{| sv_Ip := "127.0.0.1"; sv_Port := 1053; sv_Protocol := "udp"; sv_Count := 1;
    sv_Tls := {| tls_Enable := false; CertPath := empty_str; KeyPath := empty_str; CaPath := empty_str |} |}];
  rs_RedisData := default_storage;
  rs_RedisStat := {| st_Redis := default_redis |};
  rs_Handler := {|
    hc_Upstream := [{| Upstream.up_Ip := "1.1.1.1"; Upstream.up_Port := 53;
                       Upstream.up_Protocol := "udp"; Upstream.up_Timeout := 400 |}];
    hc_GeoIp := {| GC_Enable := false; GC_CountryDB := "geoCity.mmdb"; GC_ASNDB := "geoIsp.mmdb" |};
    hc_LogSourceLocation := false |};
  rs_RateLimit := {| RateLimit.Enable := false; RateLimit.Rate := 60; RateLimit.Burst := 10;
    RateLimit.cfg_BlackList := []; RateLimit.cfg_WhiteList := [] |} |}.
Definition healthcheckerDefaultConfig : HealthcheckerConfig := {|
  hk_RedisData := default_storage;
  hk_RedisStat := {| st_Redis := default_redis |};
  hk_Healthcheck := {| hl_Enable := false; hl_MaxRequests := 10; hl_MaxPendingRequests := 100;
    hl_UpdateInterval := 600; hl_CheckInterval := 600 |} |}.
Definition apiDefaultConfig : ApiConfig := {|
  DBConnectionString := "root:root@tcp(127.0.0.1:3306)/z42";
  ac_ServerConfig := {| BindAddress := "localhost:8080"; as_ReadTimeout := 10; as_WriteTimeout := 10 |};
  ac_RedisConfig := default_redis |}.

(** The three [LoadConfig] are one function of the type of the configuration. The
    state is the object behind the default pointer: it is what the decoder writes
    into and what is returned, with or without the error. *)
Section LoadConfig.
Context {C : Type}.
Variable Open : string → res string string.        (* os.Open, with the content *)
Variable Decode : string → C → C * option string.  (* DisallowUnknownFields, Decode *)

Definition LoadConfig (path : string) : M C (option string) := λ config,
  match Open path with
  | Err err => (Some err, config)
  | Ok file => let '(config, err) := Decode file config in (err, config)
  end.
End LoadConfig.
Definition resolver_LoadConfig := LoadConfig (C:=ResolverConfig).
Definition healthchecker_LoadConfig := LoadConfig (C:=HealthcheckerConfig).
Definition api_LoadConfig := LoadConfig (C:=ApiConfig).

(** ** Loggers: the configurations that the three programs build *)
Inductive LogLevel := InfoLevel | ErrorLevel.
Record EncoderConfig := {
  TimeKey : string; LevelKey : string; NameKey : string; CallerKey : string; MessageKey : string;
  StacktraceKey : string; LineEnding : string; EncodeLevel : string; EncodeTime : string;
  EncodeDuration : string; EncodeCaller : string;
}.
Record LoggerConfig := {
  Level : LogLevel; Development : bool; Encoding : string; lg_EncoderConfig : EncoderConfig;
  OutputPaths : list string; ErrorOutputPaths : list string;
}.
Definition encoder (level caller message stacktrace : string) : EncoderConfig := {|
  TimeKey := "time"; LevelKey := level; NameKey := "logger"; CallerKey := caller; MessageKey := message;
  StacktraceKey := stacktrace; LineEnding := String "010"%char EmptyString; EncodeLevel := "lowercase";
  EncodeTime := "epoch"; EncodeDuration := "seconds"; EncodeCaller := "short" |}.
(** The logger of requests, with the key of its messages. *)
Definition requestLoggerConfig (message : string) : LoggerConfig := {|
  Level := InfoLevel; Development := false; Encoding := "json";
  lg_EncoderConfig := encoder empty_str empty_str message empty_str;
  OutputPaths := ["stdout"]; ErrorOutputPaths := ["stderr"] |}.
Definition eventLoggerConfig (stacktrace : string) : LoggerConfig := {|
  Level := ErrorLevel; Development := false; Encoding := "json";
  lg_EncoderConfig := encoder "level" "caller" "message" stacktrace;
  OutputPaths := ["stderr"]; ErrorOutputPaths := ["stderr"] |}.

(** ** [Verify]: the lines it prints *)
Inductive Verdict := OK | FAIL (err : string) | WARN (warning : string).
Definition line : Type := string * Verdict.
Definition printResult (msg : string) (err : option string) : line :=
  (msg, match err with None => OK | Some e => FAIL e end).
Definition printWarning (msg warning : string) : line := (msg, WARN warning).

Section Verify.
Context {S Reply : Type} `{!Redigo Reply, !Server S Reply}.
(** The machine the configuration is checked on. *)
Variable Open : string → res string string.
Variable Decode : string → ResolverConfig → ResolverConfig * option string.
Variable ParseIP : string → IP.
Variable ListenPacket Listen : string → string → option string.
Variable Exchange : string → Z → string → res string (list RR).  (* net, timeout, address *)
Variable connect : HiredisConfig → S.  (* the server behind a pool *)
Variable redis_error : RedisError → string.
Variable IP_String : IP → string.
Variable Stat : string → option string.
Variable db_Open : string → option string.
Variable db_Lookup : string → nat → option string.

Definition checkAddress (protocol ip : string) (port : Z) : list line :=
  [printResult ("checking protocol : " +:+ protocol)
     (if negb (bool_decide (protocol = "tcp")) && negb (bool_decide (protocol = "udp"))
      then Some "invalid protocol" else None);
   printResult ("checking ip address : " +:+ ip)
     (match ParseIP ip with None => Some "invalid ip address" | Some _ => None end);
   printResult ("checking port number : " +:+ Itoa port)
     (if (port >? 65535) || (port <? 1) then Some "invalid port number" else None)].

Definition error_of {A} (r : res RedisError A) : option string :=
  match r with Ok _ => None | Err e => Some (redis_error e) end.
(** What the subscriptions need of [notify-keyspace-events]. *)
Definition check_events (nkse : string) : option string :=
  if negb (Contains nkse "K") then Some "keyspace in not active"
  else if negb (Contains nkse "A") && negb (Contains nkse "s") then Some "A or s should be active"
  else None.
Definition checkRedis (config : HiredisConfig) : list line :=
  let '(pong, rd) := Ping (Reply:=Reply) (connect config) in
  let '(nkse, rd) := GetConfig (Reply:=Reply) "notify-keyspace-events" rd in
  [printResult ("checking whether " +:+ rc_Net config +:+ "://" +:+ Address config +:+ " is available")
     (error_of pong);
   printResult "checking notify-keyspace-events"
     (match nkse with Ok nkse => check_events nkse | Err e => Some (redis_error e) end)].

Definition address (ip : string) (port : Z) : string := ip +:+ ":" +:+ Itoa port.
Definition check_server (c : ServerConfig) : list line :=
  let addr := address (sv_Ip c) (sv_Port c) in
  checkAddress (sv_Protocol c) (sv_Ip c) (sv_Port c)
  ++ [let msg := "checking port number : " +:+ Itoa (sv_Port c) in
      if negb (sv_Port c =? 53) then printWarning msg "using non-standard port" else printResult msg None;
      printResult ("checking whether " +:+ sv_Protocol c +:+ "://" +:+ addr +:+ " is available")
        (if bool_decide (sv_Protocol c = "udp") then ListenPacket (sv_Protocol c) addr
         else Listen (sv_Protocol c) addr)].
Definition check_answer (answer : list RR) : option string :=
  match answer with
  | [] => Some "empty response"
  | r :: _ =>
    match Data r with
    | RD_A a => if bool_decide (IP_String a = "131.107.255.255") then None else Some "incorrect response"
    | _ => Some "bad response"
    end
  end.
Definition check_upstream (c : Upstream.UpstreamConfig) : list line :=
  let addr := address (Upstream.up_Ip c) (Upstream.up_Port c) in
  checkAddress (Upstream.up_Protocol c) (Upstream.up_Ip c) (Upstream.up_Port c)
  ++ [printResult ("checking whether " +:+ Upstream.up_Protocol c +:+ "://" +:+ addr +:+ " is available")
        (match Exchange (Upstream.up_Protocol c) (Milliseconds (Upstream.up_Timeout c)) addr with
         | Err e => Some e
         | Ok answer => check_answer answer
         end)].
Definition check_db (i : nat) (dbFile : string) : list line :=
  let stat := Stat dbFile in
  printResult ("checking file stat : " +:+ dbFile) stat ::
  match stat with
  | Some _ => []
  | None =>
    let opened := db_Open dbFile in
    printResult ("checking db : " +:+ dbFile) opened ::
    match opened with
    | Some _ => []
    | None => [printResult "checking db query results" (db_Lookup dbFile i)]
    end
  end.
Definition check_geoip (c : GeoConfig) : list line :=
  if GC_Enable c then check_db 0 (GC_CountryDB c) ++ check_db 1 (GC_ASNDB c) else [].

Definition Verify (configFile : string) : M ResolverConfig (list line) :=
  err ← resolver_LoadConfig Open Decode configFile;
  config ← (λ c, (c, c)) : M ResolverConfig ResolverConfig;
  mret (printResult ("loading config file : " +:+ configFile) err ::
        (rs_Server config ≫= check_server)
        ++ (hc_Upstream (rs_Handler config) ≫= check_upstream)
        ++ checkRedis (sc_Redis (rs_RedisData config)) ++ checkRedis (st_Redis (rs_RedisStat config))
        ++ check_geoip (hc_GeoIp (rs_Handler config))).

(** ** Theorems *)
Definition passed (lines : list line) : Prop := Forall (λ l, ∀ e, l.2 ≠ FAIL e) lines.

Lemma passed_app l1 l2 : passed (l1 ++ l2) ↔ passed l1 ∧ passed l2.
Proof. apply Forall_app. Qed.
Lemma passed_bind {A} (f : A → list line) (l : list A) : passed (l ≫= f) ↔ Forall (λ x, passed (f x)) l.
Proof.
  induction l as [|x l IH]; [by split; constructor|]. cbn [mbind list_bind].
  by rewrite passed_app, IH, Forall_cons.
Qed.
Lemma passed_result msg err lines :
  passed (printResult msg err :: lines) ↔ err = None ∧ passed lines.
Proof.
  unfold passed. rewrite Forall_cons. destruct err as [e|]; cbn.
  - split; [intros [H _]; by destruct (H e)|by intros [? _]].
  - split; intros [_ ?]; done.
Qed.
Lemma passed_warning msg w lines : passed (printWarning msg w :: lines) ↔ passed lines.
Proof. unfold passed. rewrite Forall_cons. cbn. split; [by intros [_ ?]|done]. Qed.
Lemma passed_nil : passed [] ↔ True.
Proof. split; [done|constructor]. Qed.

(** A protocol, address and port that can be used. *)
Definition address_ok (protocol ip : string) (port : Z) : Prop :=
  (protocol = "tcp" ∨ protocol = "udp") ∧ is_Some (ParseIP ip) ∧ 1 ≤ port ≤ 65535.
Lemma checkAddress_passed protocol ip port :
  passed (checkAddress protocol ip port) ↔ address_ok protocol ip port.
Proof.
  unfold checkAddress, address_ok. rewrite !passed_result, passed_nil.
  destruct (bool_decide_reflect (protocol = "tcp")), (bool_decide_reflect (protocol = "udp")),
    (ParseIP ip), (Z.gtb_spec port 65535), (Z.ltb_spec port 1); cbn; unfold is_Some; naive_solver lia.
Qed.
Definition server_ok (c : ServerConfig) : Prop :=
  address_ok (sv_Protocol c) (sv_Ip c) (sv_Port c)
  ∧ (if bool_decide (sv_Protocol c = "udp") then ListenPacket "udp" (address (sv_Ip c) (sv_Port c))
     else Listen "tcp" (address (sv_Ip c) (sv_Port c))) = None.
Definition upstream_ok (c : Upstream.UpstreamConfig) : Prop :=
  address_ok (Upstream.up_Protocol c) (Upstream.up_Ip c) (Upstream.up_Port c)
  ∧ ∃ r a rest, Exchange (Upstream.up_Protocol c) (Milliseconds (Upstream.up_Timeout c))
                  (address (Upstream.up_Ip c) (Upstream.up_Port c)) = Ok (r :: rest)
                ∧ Data r = RD_A a ∧ IP_String a = "131.107.255.255".
Definition redis_ok (c : HiredisConfig) : Prop :=
  is_ok (Ping (Reply:=Reply) (connect c)).1 = true
  ∧ ∃ nkse, (GetConfig (Reply:=Reply) "notify-keyspace-events" (Ping (Reply:=Reply) (connect c)).2).1 = Ok nkse
            ∧ check_events nkse = None.
Definition db_ok (i : nat) (f : string) : Prop := Stat f = None ∧ db_Open f = None ∧ db_Lookup f i = None.

Lemma check_server_passed c : passed (check_server c) ↔ server_ok c.
Proof.
  unfold check_server, server_ok. rewrite passed_app, checkAddress_passed.
  cbn zeta. assert (∀ l, passed (((if negb (sv_Port c =? 53)
    then printWarning ("checking port number : " +:+ Itoa (sv_Port c)) "using non-standard port"
    else printResult ("checking port number : " +:+ Itoa (sv_Port c)) None)) :: l) ↔ passed l) as E.
  { intros l. case_match; [apply passed_warning|rewrite passed_result; naive_solver]. }
  rewrite E, passed_result, passed_nil. unfold address_ok.
  destruct (bool_decide_reflect (sv_Protocol c = "udp")) as [->|Hu]; naive_solver congruence.
Qed.
Lemma check_upstream_passed c : passed (check_upstream c) ↔ upstream_ok c.
Proof.
  unfold check_upstream, upstream_ok. rewrite passed_app, checkAddress_passed, passed_result, passed_nil.
  set (ans := Exchange _ _ _). split.
  - intros (Ha & He & _). split; [done|]. destruct ans as [[|r rest]|e]; cbn in He; try done.
    destruct (Data r) as [a| | | | | | | | | | | | | | | | | |] eqn:Hd; try done.
    case_bool_decide; [|done]. by exists r, a, rest.
  - intros (Ha & r & a & rest & -> & Hd & Hip). split; [done|]. split; [|done]. cbn.
    by rewrite Hd, bool_decide_eq_true_2.
Qed.
Lemma checkRedis_passed c : passed (checkRedis c) ↔ redis_ok c.
Proof.
  unfold checkRedis, redis_ok. destruct (Ping (connect c)) as [pong rd]. cbn [fst snd].
  destruct (GetConfig _ rd) as [nkse rd']. cbn [fst snd]. rewrite !passed_result, passed_nil.
  destruct pong as [u|e]; cbn; [|by split; intros [? _]].
  destruct nkse as [k|e]; [|split; [by intros (_ & ? & _)|by intros (_ & k & ? & _)]].
  split; [intros (_ & He & _); split; [done|]; by exists k|].
  intros (_ & k' & Ek & Hk). injection Ek as ->. by split_and!.
Qed.
Lemma check_db_passed i f : passed (check_db i f) ↔ db_ok i f.
Proof.
  unfold check_db, db_ok. cbn zeta. rewrite passed_result.
  destruct (Stat f); [by split; intros [? _]|]. rewrite passed_result.
  destruct (db_Open f); [split; [by intros (_ & ? & _)|by intros (_ & ? & _)]|].
  rewrite passed_result, passed_nil. tauto.
Qed.

(** What [Verify] accepts: no line is a failure exactly when the file loads and, of
    the configuration it leaves, every listener and upstream server has a usable
    protocol, address and port and answers, both redis servers answer and notify
    key events, and the databases of an enabled geoip can be read. *)
Theorem Verify_spec path c0 :
  let '(err, c) := resolver_LoadConfig Open Decode path c0 in
  passed (Verify path c0).1
  ↔ err = None ∧ Forall server_ok (rs_Server c) ∧ Forall upstream_ok (hc_Upstream (rs_Handler c))
    ∧ redis_ok (sc_Redis (rs_RedisData c)) ∧ redis_ok (st_Redis (rs_RedisStat c))
    ∧ (GC_Enable (hc_GeoIp (rs_Handler c)) = true →
       db_ok 0 (GC_CountryDB (hc_GeoIp (rs_Handler c))) ∧ db_ok 1 (GC_ASNDB (hc_GeoIp (rs_Handler c)))).
Proof.
  unfold Verify. rewrite !run_bind. destruct (resolver_LoadConfig Open Decode path c0) as [err c].
  cbn [fst snd mret M_ret]. rewrite passed_result, !passed_app, !passed_bind, !checkRedis_passed.
  setoid_rewrite check_server_passed. setoid_rewrite check_upstream_passed.
  unfold check_geoip. destruct (GC_Enable _); [rewrite passed_app, !check_db_passed; tauto|].
  rewrite passed_nil. intuition done.
Qed.
End Verify.

(** *** Loading again *)
Section reload.
Context {C : Type} (Open : string → res string string) (Decode : string → C → C * option string).

(** A document says nothing of a field when decoding it never changes the field. *)
Definition silent {V} (file : string) (field : C → V) : Prop :=
  ∀ c, field (Decode file c).1 = field c.

(** The files a program loads, one after the other, each time with the error. *)
Fixpoint load_all (paths : list string) : M C (list (option string)) :=
  match paths with
  | [] => mret []
  | p :: paths => e ← LoadConfig Open Decode p; es ← load_all paths; mret (e :: es)
  end.

(** Every load starts from what the loads before have left, not from the default
    values: a setting that the current file does not mention keeps the value an
    earlier one gave it. *)
Theorem reload_keeps {V} (field : C → V) p q file c0 :
  Open q = Ok file → silent file field →
  field (load_all [p; q] c0).2 = field (LoadConfig Open Decode p c0).2.
Proof.
  intros Hq Hs. unfold load_all. rewrite !run_bind. cbn [snd mret M_ret].
  unfold LoadConfig at 1. rewrite Hq. specialize (Hs (LoadConfig Open Decode p c0).2).
  by destruct (Decode file _).
Qed.
End reload.

(** *** Listeners *)
Section server_facts.
Variable ReadFile : string → option string.
Variable CertPool : string → option string.
Variable LoadX509KeyPair : string → string → option string.
Abbreviation servers := (NewServer ReadFile CertPool LoadX509KeyPair).

(** There is a listener on the address of every entry, as many as it counts and at
    least one, and no other. *)
Theorem NewServer_spec config :
  length (servers config) = sum_list_with (λ c, Z.to_nat (Z.max 1 (sv_Count c))) config
  ∧ ∀ s, s ∈ servers config ↔ ∃ c, c ∈ config ∧ s = listener ReadFile CertPool LoadX509KeyPair c.
Proof.
  induction config as [|c config [IHl IHe]]; [split; [done|]; intros s; set_solver|].
  cbn [NewServer sum_list_with]. assert (∃ n, Z.to_nat (if sv_Count c <? 1 then 1 else sv_Count c) = S n
    ∧ Z.to_nat (Z.max 1 (sv_Count c)) = S n) as (n & -> & ->).
  { exists (pred (Z.to_nat (Z.max 1 (sv_Count c)))). destruct (Z.ltb_spec (sv_Count c) 1); lia. }
  rewrite length_app, length_replicate, IHl. split; [done|]. intros s.
  rewrite elem_of_app, elem_of_replicate, IHe. setoid_rewrite elem_of_cons. naive_solver.
Qed.
(** A key pair that cannot be read leaves a listener with TLS enabled and no TLS
    configuration; a missing CA file goes unnoticed. *)
Theorem listener_no_cert c :
  tls_Enable (sv_Tls c) = true → KeyPath (sv_Tls c) ≠ empty_str → CertPath (sv_Tls c) ≠ empty_str →
  LoadX509KeyPair (CertPath (sv_Tls c)) (KeyPath (sv_Tls c)) = None →
  TLSConfig (listener ReadFile CertPool LoadX509KeyPair c) = None.
Proof.
  intros He Hk Hc Hl. unfold listener, loadTlsConfig. cbn. rewrite He, !bool_decide_eq_false_2 by done.
  cbn. by rewrite Hl.
Qed.
End server_facts.
