(* ===== verification/Resolver.v ===== *)
(** * The resolver process: [cmd/resolver/resolver.go]

    [handleRequest] as the server runs it, with the limiter in front of the handler
    and their states side by side; and the life of the process: [Start] makes every
    component from a configuration, [Stop] shuts them down, and [main] reacts to
    signals. Loggers and the profiling listener are left out; the listeners are
    modelled by their settings, and a component by whether its [quit] channel is
    open, since closing it twice panics. *)
From S2P Require Import Prelude GoStrings Radix DnsTypes Zone Geo Store Request Handler HandlerFacts.
From S2P Require Import Redis Config.
From S2P Require RateLimit.
Local Open Scope Z_scope.

(** ** A request *)
Section requests.
Context {T : Type → Type} `{!IRadix T} {S : Type} `{!DataStore T S, !Outside S}.
Context {F : Type} `{!Float64 F} {C : Type} `{!RateLimit.TTLCache C RateLimit.Limiter}.
Variable unicode_lower : string → string.
Variable Fqdn : string → string.
Variable geoip : GeoIp F.
Variable LogSourceLocation : bool.
Variable KeyTag : RR → Z.
Variable Sign : RR → string → list RR → option RR.
Variable map_order : gmap RRSetKey (list RR) → list (RRSetKey * list RR).
Variable rl : RateLimit.RateLimiter.

(** A message from the network: [context.IP()], the clock during [CanHandle], and
    the context made from it. *)
Record Arrival := { from_ip : string; times : RateLimit.Times; context : RequestContext T }.

(** [handleRequest]: [None] is a panic. *)
Definition serve_request (a : Arrival) : M (C * S) (option Msg) :=
  ok ← on_fst (RateLimit.CanHandle rl (from_ip a) (times a));
  on_snd (handleRequest unicode_lower Fqdn geoip LogSourceLocation KeyTag Sign map_order ok (context a)).
Fixpoint serve_requests (l : list Arrival) : M (C * S) (list (option Msg)) :=
  match l with
  | [] => mret []
  | a :: l => m ← serve_request a; ms ← serve_requests l; mret (m :: ms)
  end.

(** ** Theorems *)
Context {peek : C → string → option (RateLimit.Limiter * Z)}.
Context `{!RateLimit.TTLCacheLaws C RateLimit.Limiter peek}.

(** A context as [NewRequestContext] makes it. *)
Definition fresh (a : Arrival) : Prop := Res (context a) = dns.RcodeSuccess.
Definition is_refused (m : option Msg) : bool :=
  match m with Some m => Rcode m =? dns.RcodeRefused | None => false end.

(** A request is refused exactly when the limiter says so; the answer is then empty
    and the store is not asked. *)
Lemma serve_request_run a c s :
  fresh a →
  let '(ok, c') := RateLimit.CanHandle rl (from_ip a) (times a) c in
  let '(m, (c1, s1)) := serve_request a (c, s) in
  c1 = c' ∧ is_refused m = negb ok
  ∧ (ok = false → s1 = s ∧ m = Some (Response (set_Res dns.RcodeRefused (context a)))).
Proof.
  intros Hf. unfold serve_request, on_fst, on_snd. rewrite run_bind. cbn [fst snd].
  destruct (RateLimit.CanHandle rl (from_ip a) (times a) c) as [ok c']. cbn [fst snd].
  unfold handleRequest. destruct ok; [|done]. rewrite run_bind.
  pose proof (HandleRequest_rcodes unicode_lower Fqdn geoip LogSourceLocation KeyTag Sign map_order
                (context a) Hf s) as Hr.
  destruct (HandleRequest _ _ _ _ _ _ _ _ s) as [oc s1]. cbn [fst snd mret M_ret] in *.
  split_and!; [done| |done]. destruct oc as [c2|]; [|done]. cbn. specialize (Hr _ eq_refl).
  unfold rcode_ok in Hr. apply Z.eqb_neq. intros E. rewrite E in Hr. naive_solver.
Qed.

Variable key : string.

(** Another client does not change what is known of [key]. *)
Lemma CanHandle_other k ts c : k ≠ key → peek (RateLimit.CanHandle rl k ts c).2 key = peek c key.
Proof.
  intros Hk. unfold RateLimit.CanHandle. repeat case_match; try done; cbn [snd];
    simplify_eq; by rewrite (RateLimit.law_tc_Set (peek:=peek)), decide_False.
Qed.

(** The requests of [key] that were not refused. *)
Definition admitted (l : list Arrival) (ms : list (option Msg)) : Z :=
  Z.of_nat (length (filter (λ p, from_ip p.1 = key ∧ is_refused p.2 = false) (zip l ms))).

Lemma serve_requests_covers t0 t n l c s :
  0 ≤ RateLimit.TimeStep rl → 0 ≤ RateLimit.MaxTime rl →
  RateLimit.fits rl → RateLimit.limited rl key → Forall fresh l → 0 ≤ t0 ≤ t →
  RateLimit.covers (peek:=peek) rl key t0 t n c → RateLimit.ordered t (times <$> l) →
  let '(ms, (c', _)) := serve_requests l (c, s) in
  RateLimit.covers (peek:=peek) rl key t0 (RateLimit.end_time t (times <$> l)) (n + admitted l ms) c'.
Proof.
  intros HS HM Hf Hl Hfr. revert t n c s. induction Hfr as [|a l Ha Hfr IH]; intros t n c s Ht Hc Ho.
  { cbn. by rewrite Z.add_0_r. }
  cbn in Ho. destruct Ho as (Ho1 & Ho2 & Ho3 & Ho4 & Ho5 & Ho). cbn [serve_requests]. rewrite run_bind.
  pose proof (serve_request_run a c s Ha) as Hrun.
  destruct (serve_request a (c, s)) as [m [c1 s1]]. cbn [fst snd]. rewrite run_bind.
  assert (Hc1 : RateLimit.covers (peek:=peek) rl key t0 (RateLimit.t_set (times a))
            (if bool_decide (from_ip a = key ∧ is_refused m = false) then n + 1 else n) c1).
  { destruct (decide (from_ip a = key)) as [E|E].
    - rewrite E in Hrun.
      pose proof (RateLimit.CanHandle_covers (peek:=peek) rl HS HM key t0 t n (times a) c Hf Hl Ht Hc) as H'.
      destruct (RateLimit.CanHandle _ _ _ _) as [ok c']. destruct Hrun as (-> & Hm & _).
      rewrite Hm. destruct ok; cbn; [rewrite bool_decide_eq_true_2 by done|rewrite bool_decide_eq_false_2 by naive_solver]; auto.
    - rewrite bool_decide_eq_false_2 by naive_solver. unfold RateLimit.covers in *.
      pose proof (CanHandle_other (from_ip a) (times a) c E) as Hp.
      destruct (RateLimit.CanHandle _ _ _ _) as [ok c']. destruct Hrun as (-> & _). cbn [snd] in Hp.
      rewrite Hp. destruct (peek c key) as [[lim exp]|]; [|done].
      destruct Hc as (Hs & Hlu & Hexp & Hcov). split_and!; try done; lia. }
  assert (Hts : 0 ≤ t0 ≤ RateLimit.t_set (times a)) by lia.
  specialize (IH _ _ c1 s1 Hts Hc1 Ho).
  destruct (serve_requests l (c1, s1)) as [ms [c2 s2]]. cbn [fst snd mret M_ret fmap list_fmap RateLimit.end_time].
  replace (n + admitted (a :: l) (m :: ms))
    with ((if bool_decide (from_ip a = key ∧ is_refused m = false) then n + 1 else n) + admitted l ms); [done|].
  unfold admitted. cbn [zip zip_with]. rewrite filter_cons. cbn [fst snd].
  case_bool_decide; [rewrite decide_True by done; cbn [length]; lia|by rewrite decide_False].
Qed.

End requests.

(** ** The process *)
Inductive Signal :=
| SIGINT
| SIGHUP (file : res string string).  (* with what os.Open finds at that time *)

(** Whether the [quit] channel of a component is open. *)
Inductive component := Running | Closed.
Record Components := {
  servers : list DnsServer; rateLimiter : RateLimit.RateLimiter;
  redisDataHandler : component; redisStatHandler : component; dnsRequestHandler : component;
}.
(** [p_config] is the object behind [resolverDefaultConfig]. *)
Record Process := { p_config : ResolverConfig; p_components : option Components }.
Inductive outcome :=
| Serving (p : Process) | Returned (p : Process) | Panicked
| Verified (lines : list line)             (* -t *)
| Generated (write : option (string * string)).  (* -g: the file written and its content *)
(** The command line; [g] is whether [-g] was given. *)
Record Flags := { flag_c : string; flag_t : bool; flag_g : option string }.

Section process.
Variable Decode : string → ResolverConfig → ResolverConfig * option string.
Variable ReadFile : string → option string.
Variable CertPool : string → option string.
Variable LoadX509KeyPair : string → string → option string.
Variable Build : LoggerConfig → option string.  (* zap: the error *)
Variable configFile : string.
Abbreviation new_servers := (NewServer ReadFile CertPool LoadX509KeyPair).

(** [Start]; it panics when the configuration does not load, a logger cannot be
    built, or [NewRateLimiter] panics. [file] is what the file holds at that time. *)
Definition resolver_requestLogger : LoggerConfig := requestLoggerConfig "dns_query".
Definition resolver_eventLogger : LoggerConfig := eventLoggerConfig "stacktrace".
Definition Start (file : res string string) (p : Process) : option Process :=
  let '(err, cfg) := resolver_LoadConfig (λ _, file) Decode configFile (p_config p) in
  match err, Build resolver_requestLogger, Build resolver_eventLogger with
  | None, None, None =>
    rl ← RateLimit.NewRateLimiter (rs_RateLimit cfg);
    Some {| p_config := cfg;
            p_components := Some {| servers := new_servers (rs_Server cfg); rateLimiter := rl;
              redisDataHandler := Running; redisStatHandler := Running; dnsRequestHandler := Running |} |}
  | _, _, _ => None
  end.
(** [close(quit)] *)
Definition ShutDown (c : component) : option component :=
  match c with Running => Some Closed | Closed => None end.
Definition Stop (p : Process) : option Process :=
  match p_components p with
  | None => None
  | Some c =>
    h ← ShutDown (dnsRequestHandler c);
    d ← ShutDown (redisDataHandler c);
    st ← ShutDown (redisStatHandler c);
    Some {| p_config := p_config p;
            p_components := Some {| servers := servers c; rateLimiter := rateLimiter c;
              redisDataHandler := d; redisStatHandler := st; dnsRequestHandler := h |} |}
  end.
(** The loop over the signals. *)
Fixpoint main_loop (signals : list Signal) (p : Process) : outcome :=
  match signals with
  | [] => Serving p
  | SIGINT :: _ => match Stop p with Some p => Returned p | None => Panicked end
  | SIGHUP file :: signals =>
    match Stop p ≫= Start file with Some p => main_loop signals p | None => Panicked end
  end.
(** [main] without [-t] and [-g]. *)
Definition serve_main (file : res string string) (signals : list Signal) : outcome :=
  match Start file {| p_config := resolverDefaultConfig; p_components := None |} with
  | Some p => main_loop signals p
  | None => Panicked
  end.

(** ** Theorems *)

(** What [main] does, by the configurations alone: the one a file gives when it is
    decoded over [c], and the fate of the process. *)
Definition loggers_build : bool :=
  bool_decide (Build resolver_requestLogger = None) && bool_decide (Build resolver_eventLogger = None).
Definition next_config (file : res string string) (c : ResolverConfig) : option ResolverConfig :=
  match file with
  | Err _ => None
  | Ok file =>
    let '(c', err) := Decode file c in
    if bool_decide (err = None) && loggers_build && negb (RateLimit.Rate (rs_RateLimit c') =? 0)
    then Some c' else None
  end.
Fixpoint configs (signals : list Signal) (c : ResolverConfig) : option (ResolverConfig * bool) :=
  match signals with
  | [] => Some (c, true)
  | SIGINT :: _ => Some (c, false)
  | SIGHUP file :: signals => next_config file c ≫= configs signals
  end.
(** A process that runs with the configuration [c]. *)
Definition runs_with (c : ResolverConfig) (p : Process) : Prop :=
  p_config p = c
  ∧ ∃ rl, RateLimit.NewRateLimiter (rs_RateLimit c) = Some rl
  ∧ p_components p = Some {| servers := new_servers (rs_Server c); rateLimiter := rl;
      redisDataHandler := Running; redisStatHandler := Running; dnsRequestHandler := Running |}.

Lemma Start_spec file p :
  match next_config file (p_config p) with
  | Some c => ∃ p', Start file p = Some p' ∧ runs_with c p'
  | None => Start file p = None
  end.
Proof.
  unfold Start, next_config, resolver_LoadConfig, LoadConfig. destruct file as [file|e]; [|done].
  destruct (Decode file (p_config p)) as [c [e|]]; [done|]. cbn. unfold loggers_build.
  destruct (Build resolver_requestLogger); [done|]. destruct (Build resolver_eventLogger); [done|]. cbn.
  unfold RateLimit.NewRateLimiter. destruct (RateLimit.Rate (rs_RateLimit c) =? 0) eqn:E; [done|].
  cbn. eexists. split; [done|]. split; [done|]. unfold RateLimit.NewRateLimiter. rewrite E. by eexists.
Qed.
Lemma Stop_running c p :
  runs_with c p → ∃ p', Stop p = Some p' ∧ p_config p' = c.
Proof. intros (Hc & rl & Hrl & E). unfold Stop. rewrite E. cbn. by eexists. Qed.

Lemma main_loop_spec signals c p :
  runs_with c p →
  match configs signals c with
  | Some (c', true) => ∃ p', main_loop signals p = Serving p' ∧ runs_with c' p'
  | Some (c', false) => ∃ p', main_loop signals p = Returned p' ∧ p_config p' = c'
  | None => main_loop signals p = Panicked
  end.
Proof.
  revert c p. induction signals as [|[|file] signals IH]; intros c p Hp; cbn.
  - by exists p.
  - destruct (Stop_running c p Hp) as (p' & -> & Hc). by exists p'.
  - destruct (Stop_running c p Hp) as (p' & -> & <-). cbn. pose proof (Start_spec file p') as HS.
    destruct (next_config file (p_config p')) as [c'|]; [|by rewrite HS].
    destruct HS as (p2 & -> & Hp2). by apply IH.
Qed.

Lemma serve_main_spec file signals :
  match next_config file resolverDefaultConfig ≫= configs signals with
  | Some (c, true) => ∃ p, serve_main file signals = Serving p ∧ runs_with c p
  | Some (c, false) => ∃ p, serve_main file signals = Returned p ∧ p_config p = c
  | None => serve_main file signals = Panicked
  end.
Proof.
  unfold serve_main. pose proof (Start_spec file {| p_config := resolverDefaultConfig; p_components := None |}) as HS.
  cbn [p_config] in HS. destruct (next_config file resolverDefaultConfig) as [c|]; cbn; [|by rewrite HS].
  destruct HS as (p & -> & Hp). by apply main_loop_spec.
Qed.
End process.

(** ** The command line *)
Section command_line.
Context {SV Reply : Type} `{!Redigo Reply, !Server SV Reply}.
Variable Open : string → res string string.
Variable Decode : string → ResolverConfig → ResolverConfig * option string.
Variable ParseIP : string → IP.
Variable ListenPacket Listen : string → string → option string.
Variable Exchange : string → Z → string → res string (list RR).
Variable connect : HiredisConfig → SV.
Variable redis_error : RedisError → string.
Variable IP_String : IP → string.
Variable Stat db_Open : string → option string.
Variable db_Lookup : string → nat → option string.
Variable ReadFile CertPool : string → option string.
Variable LoadX509KeyPair : string → string → option string.
Variable Build : LoggerConfig → option string.
Variable MarshalIndent : ResolverConfig → res string string.
Abbreviation verify :=
  (Verify Open Decode ParseIP ListenPacket Listen Exchange connect redis_error IP_String Stat db_Open db_Lookup).

Definition main (flags : Flags) (signals : list Signal) : outcome :=
  if flag_t flags then Verified (verify (flag_c flags) resolverDefaultConfig).1
  else match flag_g flags with
  | Some g => Generated (match MarshalIndent resolverDefaultConfig with Ok data => Some (g, data) | Err _ => None end)
  | None =>
    serve_main Decode ReadFile CertPool LoadX509KeyPair Build (flag_c flags) (Open (flag_c flags)) signals
  end.

End command_line.
