(* ===== verification/TestCase.v ===== *)
(** * A zone from its documents to the answers: [internal/handler/testcase.go]

    A test case describes zones by documents: for each zone the JSON document of
    every label and that of its configuration. [DefaultInitialize] clears redis and
    writes them with the data handler. The theorem follows the documents through the
    writers, the keys of redis, the tree of zones, the zone with its locations and
    the readers to the answer of [HandleRequest]; [DefaultApplyAndVerify] compares that
    with what a case expects. *)
From S2P Require Import Prelude GoStrings Redis Radix DnsTypes Zone Geo IpSelect Dnssec Store.
From S2P Require Import Request Handler HandlerFacts HandlerRun DataHandler DataHandlerFacts Upstream Config.
From S2P Require Import GoText TestHelpers.
Local Open Scope Z_scope.

(** ** Writing in sequence

    What a run of writers does to redis: [ws] are the strings written, in order, and
    [adds] the members added to sets. *)
Definition last_write (ws : list (string * string)) (k : string) (old : option string) : option string :=
  foldl (λ o w, if decide (w.1 = k) then Some w.2 else o) old ws.

Lemma last_write_app ws ws' k old : last_write (ws ++ ws') k old = last_write ws' k (last_write ws k old).
Proof. apply foldl_app. Qed.
Lemma last_write_some ws k old : k ∈ ws.*1 → ∃ v, (k, v) ∈ ws ∧ last_write ws k old = Some v.
Proof.
  induction ws as [|[k' v'] ws IH] using rev_ind; intros Hk; [by apply elem_of_nil in Hk|].
  rewrite last_write_app. simpl. case_decide as E; simpl in E; [subst; exists v'; set_solver|].
  rewrite fmap_app in Hk. destruct IH as (v & Hv & ->); [set_solver|]. exists v. set_solver.
Qed.
Lemma last_write_none ws k old : k ∉ ws.*1 → last_write ws k old = old.
Proof.
  induction ws as [|[k' v'] ws IH] using rev_ind; intros Hk; [done|].
  rewrite fmap_app in Hk. rewrite last_write_app. simpl. rewrite decide_False by set_solver.
  apply IH. set_solver.
Qed.

Section writes.
Context {T : Type → Type} {RS RC ZC CK : Type} `{!RedisOps RS}.
Context {rstr : RS → string → option string} {rset : RS → string → gset string}.
Context `{!RedisSpec RS rstr rset}.
Abbreviation DHS := (DH T RS RC ZC CK).
Implicit Types s : DHS.

Definition writes (ws adds : list (string * string)) s s' : Prop :=
  (dh_zones s' = dh_zones s ∧ dh_recordCache s' = dh_recordCache s
   ∧ dh_zoneCache s' = dh_zoneCache s ∧ dh_clock s' = dh_clock s)
  ∧ (∀ k, k ∉ adds.*1 → rstr (dh_redis s') k = last_write ws k (rstr (dh_redis s) k))
  ∧ (∀ k, k ∉ ws.*1 → ∀ x, x ∈ rset (dh_redis s') k ↔ x ∈ rset (dh_redis s) k ∨ (k, x) ∈ adds).

Lemma writes_refl s : writes [] [] s s.
Proof. split_and!; try done. set_solver. Qed.
Lemma writes_trans ws adds ws' adds' s s1 s' :
  writes ws adds s s1 → writes ws' adds' s1 s' → writes (ws ++ ws') (adds ++ adds') s s'.
Proof.
  intros ((E1 & E2 & E3 & E4) & Hs & Hm) ((E1' & E2' & E3' & E4') & Hs' & Hm'). split; [|split].
  - split_and!; congruence.
  - intros k Hk. rewrite fmap_app in Hk. rewrite last_write_app, Hs', Hs by set_solver. done.
  - intros k Hk x. rewrite fmap_app in Hk. rewrite Hm', Hm by set_solver. set_solver.
Qed.

Lemma writes_Set k v s : (redis_Set k v (dh_redis s)).1 = Ok () → writes [(k, v)] [] s (redis (redis_Set k v) s).2.
Proof.
  intros Hok. unfold redis. pose proof (spec_Set k v (dh_redis s)) as Hs.
  destruct (redis_Set k v _) as [r rs]. simpl in Hok. subst r. destruct Hs as [Ho Hv].
  split; [done|split].
  - intros k' _. simpl. case_decide; [subst; by apply Hv|by apply Ho].
  - intros k' Hk x. simpl. rewrite (proj2 (Ho k' ltac:(set_solver))). set_solver.
Qed.
Lemma writes_SAdd k m s : (redis_SAdd k m (dh_redis s)).1 = Ok () → writes [] [(k, m)] s (redis (redis_SAdd k m) s).2.
Proof.
  intros Hok. unfold redis. pose proof (spec_SAdd k m (dh_redis s)) as Hs.
  destruct (redis_SAdd k m _) as [r rs]. simpl in Hok. subst r. destruct Hs as [Ho Hv].
  split; [done|split].
  - intros k' Hk. simpl in *. apply Ho. set_solver.
  - intros k' _ x. simpl. destruct (decide (k' = k)) as [->|Hne]; [rewrite Hv by done; set_solver|].
    rewrite (proj2 (Ho k' Hne)). set_solver.
Qed.
End writes.

(** ** Test cases

    Without the two fields for functions, which hold [DefaultInitialize] and
    [DefaultApplyAndVerify]. *)
Record TestCase := {
  tc_Name : string; Description : string; Enabled : bool;
  RedisDataConfig : StorageConfig; HandlerConfig : DnsRequestHandlerConfig;
  Zones : list string; ZoneConfigs : list string;
  Entries : list (list (list string));  (* for each zone, pairs of a label and its document *)
  TestCases : list Case;
}.

Definition DefaultRedisDataTestConfig : StorageConfig := {|
  sc_ZoneCacheSize := 10000; sc_ZoneCacheTimeout := 60; sc_ZoneReload := 60;
  sc_RecordCacheSize := 1000000; sc_RecordCacheTimeout := 60;
  sc_Redis := {|
    Address := "redis:6379"; rc_Net := "tcp"; rc_DB := 0; Password := empty_str;
    rc_Prefix := "test_"; rc_Suffix := "_test";
    rc_Connection := {| MaxIdleConnections := 10; MaxActiveConnections := 10; ConnectTimeout := 500;
      ReadTimeout := 500; IdleKeepAlive := 30; MaxKeepAlive := 0; WaitForConnection := true |} |};
  sc_MinTTL := 5; sc_MaxTTL := 3600 |}.
Definition DefaultHandlerTestConfig : DnsRequestHandlerConfig := {|
  hc_Upstream := [{| up_Ip := "1.1.1.1"; up_Port := 53; up_Protocol := "udp"; up_Timeout := 1000 |}];
  hc_GeoIp := {| GC_Enable := true; GC_CountryDB := "../../assets/geoCity.mmdb";
                 GC_ASNDB := "../../assets/geoIsp.mmdb" |};
  hc_LogSourceLocation := false |}.

(** The errors that [DefaultInitialize] returns: those of the store, and the message
    made of the error for one document. *)
Inductive InitError := EStore (e : StoreError) | EEntry (e : StoreError) (json : string).

(** ** What the documents say *)
Section documents.
Context `{!JsonDocs}.
Variable TypeToString : Z → string.
Variable tc : TestCase.
Abbreviation config := (handler_config (RedisDataConfig tc)).
Abbreviation rrset_key := (zoneLocationRRSetKey TypeToString).

Definition entry_of (zone l : string) (e : locationEntry) : Prop :=
  ∃ i cmds cmd doc, Zones tc !! i = Some zone ∧ Entries tc !! i = Some cmds ∧ cmd ∈ cmds
    ∧ cmd !! 0%nat = Some l ∧ cmd !! 1%nat = Some doc ∧ Unmarshal doc = Ok e.
Definition config_of (zone json : string) : Prop :=
  ∃ i, Zones tc !! i = Some zone ∧ ZoneConfigs tc !! i = Some json.
Definition label_of (zone l : string) : Prop :=
  l = "@" ∨ ∃ i cmds cmd, Zones tc !! i = Some zone ∧ Entries tc !! i = Some cmds ∧ cmd ∈ cmds
    ∧ cmd !! 0%nat = Some l.

(** The strings written and the members added for them, in order. *)
Definition field_writes (z l : string) (fs : list (Z * option (res string string))) : list (string * string) :=
  fs ≫= λ f, match f.2 with Some (Ok json) => [(rrset_key z l f.1, json)] | _ => [] end.
Definition cmd_writes (zone : string) (cmd : list string) : list (string * string) :=
  match cmd !! 0%nat, cmd !! 1%nat with
  | Some l, Some doc =>
    match Unmarshal doc with Ok e => field_writes zone l (entry_fields config e) | Err _ => [] end
  | _, _ => []
  end.
Definition cmd_adds (zone : string) (cmd : list string) : list (string * string) :=
  match cmd !! 0%nat with Some l => [(zoneLocationsKey zone, l)] | None => [] end.
Definition zone_writes (i : nat) (zone : string) : list (string * string) :=
  (default [] (Entries tc !! i) ≫= cmd_writes zone)
  ++ match ZoneConfigs tc !! i with Some json => [(zoneConfigKey zone, json)] | None => [] end.
Definition zone_adds (i : nat) (zone : string) : list (string * string) :=
  [(zoneLocationsKey zone, "@"); (zonesKey, zone)] ++ (default [] (Entries tc !! i) ≫= cmd_adds zone).
Fixpoint zones_writes (i : nat) (zones : list string) : list (string * string) :=
  match zones with [] => [] | z :: zones => zone_writes i z ++ zones_writes (S i) zones end.
Fixpoint zones_adds (i : nat) (zones : list string) : list (string * string) :=
  match zones with [] => [] | z :: zones => zone_adds i z ++ zones_adds (S i) zones end.

Lemma elem_of_zones_writes i zones w :
  w ∈ zones_writes i zones ↔ ∃ j zone, zones !! j = Some zone ∧ w ∈ zone_writes (i + j) zone.
Proof.
  revert i. induction zones as [|z zones IH]; intros i; simpl; [set_solver|].
  rewrite elem_of_app, IH. split.
  - intros [Hw|(j & zone & Hj & Hw)]; [exists 0%nat, z; by rewrite Nat.add_0_r|].
    exists (S j), zone. by rewrite Nat.add_succ_r.
  - intros ([|j] & zone & Hj & Hw); simplify_eq/=; [rewrite Nat.add_0_r in Hw; by left|].
    right. exists j, zone. by rewrite Nat.add_succ_r in Hw.
Qed.
Lemma elem_of_zones_adds i zones w :
  w ∈ zones_adds i zones ↔ ∃ j zone, zones !! j = Some zone ∧ w ∈ zone_adds (i + j) zone.
Proof.
  revert i. induction zones as [|z zones IH]; intros i; simpl; [set_solver|].
  rewrite !elem_of_cons, elem_of_app, IH. split.
  - intros Hw. destruct Hw as [->|[->|[Hw|(j & zone & Hj & Hw)]]];
      [exists 0%nat, z; rewrite Nat.add_0_r; unfold zone_adds; set_solver..|].
    exists (S j), zone. by rewrite Nat.add_succ_r.
  - intros ([|j] & zone & Hj & Hw); simplify_eq/=.
    + rewrite Nat.add_0_r in Hw. unfold zone_adds in Hw. simpl in Hw. rewrite !elem_of_cons in Hw. tauto.
    + right; right; right. exists j, zone. by rewrite Nat.add_succ_r in Hw.
Qed.

(** The strings written: the fields of the documents and the configurations. *)
Lemma elem_of_writes k v :
  (k, v) ∈ zones_writes 0 (Zones tc) ↔
  (∃ zone l e t, entry_of zone l e ∧ k = rrset_key zone l t ∧ (t, Some (Ok v)) ∈ entry_fields config e)
  ∨ (∃ zone, config_of zone v ∧ k = zoneConfigKey zone).
Proof.
  rewrite elem_of_zones_writes. unfold zone_writes. simpl. split.
  - intros (j & zone & Hj & Hw). apply elem_of_app in Hw as [Hw|Hw].
    + left. apply list_elem_of_bind in Hw as (cmd & Hw & Hcmd).
      destruct (Entries tc !! j) as [cmds|] eqn:Hc; [|by apply elem_of_nil in Hcmd].
      unfold cmd_writes in Hw. repeat case_match; try by apply elem_of_nil in Hw.
      apply list_elem_of_bind in Hw as ([t f] & Hw & Hf). simpl in *. repeat case_match; try by apply elem_of_nil in Hw.
      apply list_elem_of_singleton in Hw. simplify_eq. eexists _, _, _, _. split; [|done].
      by exists j, cmds, cmd; eexists.
    + right. destruct (ZoneConfigs tc !! j) as [json|] eqn:Hc; [|by apply elem_of_nil in Hw].
      apply list_elem_of_singleton in Hw. simplify_eq. exists zone. split; [by exists j|done].
  - intros [(zone & l & e & t & (j & cmds & cmd & doc & Hj & Hc & Hcmd & H0 & H1 & Hu) & -> & Ht)|(zone & (j & Hj & Hc) & ->)];
      exists j, zone; (split; [done|]); apply elem_of_app.
    + left. apply list_elem_of_bind. exists cmd. rewrite Hc. split; [|done]. unfold cmd_writes. rewrite H0, H1, Hu.
      apply list_elem_of_bind. exists (t, Some (Ok v)). split; [|done]. by apply list_elem_of_singleton.
    + right. rewrite Hc. by apply list_elem_of_singleton.
Qed.
(** The members added: the zones, and the labels of each zone. *)
Lemma elem_of_adds k m :
  (k, m) ∈ zones_adds 0 (Zones tc) ↔
  (k = zonesKey ∧ m ∈ Zones tc) ∨ (∃ zone, zone ∈ Zones tc ∧ label_of zone m ∧ k = zoneLocationsKey zone).
Proof.
  rewrite elem_of_zones_adds. unfold zone_adds. simpl. split.
  - intros (j & zone & Hj & Hw). pose proof (list_elem_of_lookup_2 _ _ _ Hj) as Hz.
    rewrite !elem_of_cons in Hw. destruct Hw as [Hw|[Hw|Hw]]; simplify_eq.
    + right. exists zone. by repeat split; try left.
    + by left.
    + right. apply list_elem_of_bind in Hw as (cmd & Hw & Hcmd).
      destruct (Entries tc !! j) as [cmds|] eqn:Hc; [|by apply elem_of_nil in Hcmd].
      unfold cmd_adds in Hw. case_match; [|by apply elem_of_nil in Hw].
      apply list_elem_of_singleton in Hw. simplify_eq. exists zone. split; [done|]. split; [|done].
      right. by exists j, cmds, cmd.
  - intros [[-> Hm]|(zone & Hz & [->|(j & cmds & cmd & Hj & Hc & Hcmd & H0)] & ->)].
    + apply list_elem_of_lookup_1 in Hm as [j Hj]. exists j, m. set_solver.
    + apply list_elem_of_lookup_1 in Hz as [j Hj]. exists j, zone. set_solver.
    + exists j, zone. split; [done|]. rewrite !elem_of_cons. right; right.
      apply list_elem_of_bind. exists cmd. rewrite Hc. split; [|done]. unfold cmd_adds. rewrite H0.
      by apply list_elem_of_singleton.
Qed.

(** Names are ASCII and without colon. *)
Definition plain_name (n : string) : Prop := ascii7 n ∧ no_colon n.
Definition plain : Prop :=
  (∀ zone, zone ∈ Zones tc → plain_name zone) ∧ ∀ zone l, label_of zone l → plain_name l.

Lemma split_config z : no_colon z → splitDbKey (zoneConfigKey z) = [z; "config"].
Proof.
  intros Hz. unfold zoneConfigKey. rewrite splitDbKey_prefix. change ":config" with (":" +:+ "config").
  by rewrite Split_colon, Split_single by (done || by apply (bool_decide_unpack _)).
Qed.
Lemma split_locations z : no_colon z → splitDbKey (zoneLocationsKey z) = [z; "labels"].
Proof.
  intros Hz. unfold zoneLocationsKey. rewrite splitDbKey_prefix. change ":labels" with (":" +:+ "labels").
  by rewrite Split_colon, Split_single by (done || by apply (bool_decide_unpack _)).
Qed.
Lemma split_zones : splitDbKey zonesKey = ["z42"; "zones"].
Proof. vm_compute. reflexivity. Qed.

Lemma entry_of_label zone l e : entry_of zone l e → zone ∈ Zones tc ∧ label_of zone l.
Proof.
  intros (i & cmds & cmd & doc & Hi & Hc & Hcmd & H0 & H1 & Hu).
  split; [by eapply list_elem_of_lookup_2|]. right. by exists i, cmds, cmd.
Qed.
Lemma config_of_zone zone json : config_of zone json → zone ∈ Zones tc.
Proof. intros (i & Hi & _). by eapply list_elem_of_lookup_2. Qed.
Lemma field_type e t v : (t, v) ∈ entry_fields config e → t ∈ record_types.
Proof.
  intros Hf. pose proof (entry_fields_types (handler_config (RedisDataConfig tc)) e) as Ht.
  rewrite Forall_forall in Ht. exact (Ht _ Hf).
Qed.

Section plain.
Hypothesis type_str_no_colon : ∀ t, t ∈ record_types → no_colon (type_string TypeToString t).
Hypothesis type_str_inj : ∀ t t', t ∈ record_types → t' ∈ record_types →
  type_string TypeToString t = type_string TypeToString t' → t = t'.
Hypothesis tc_plain : plain.
Abbreviation ws := (zones_writes 0 (Zones tc)).
Abbreviation adds := (zones_adds 0 (Zones tc)).

Lemma split_rrset z l t : no_colon z → no_colon l → t ∈ record_types →
  splitDbKey (rrset_key z l t) = [z; "labels"; l; type_string TypeToString t].
Proof.
  intros Hz Hl Ht. unfold zoneLocationRRSetKey. rewrite splitDbKey_prefix.
  change (":labels:" +:+ l +:+ ":" +:+ type_string TypeToString t)
    with (":" +:+ "labels" +:+ ":" +:+ l +:+ ":" +:+ type_string TypeToString t).
  by rewrite !Split_colon, Split_single by (auto || by apply (bool_decide_unpack _)).
Qed.
(** A key is a string or a set, by what it is split into. *)
Ltac by_split E :=
  apply (f_equal splitDbKey) in E; revert E;
  rewrite ?split_zones, ?split_rrset, ?split_config, ?split_locations by done; intros E; by simplify_eq/=.

Lemma plain_zone zone : zone ∈ Zones tc → no_colon zone.
Proof. intros Hz. by apply tc_plain. Qed.
Lemma plain_label zone l : label_of zone l → no_colon l.
Proof. intros Hl. by eapply tc_plain. Qed.
Hint Resolve plain_zone plain_label : core.

(** Only the last document of a label counts; here there is one. *)
Lemma initialized_record zone l e t :
  entry_of zone l e → (∀ e', entry_of zone l e' → e' = e) → t ∈ record_types →
  rrset_key zone l t ∉ adds.*1
  ∧ last_write ws (rrset_key zone l t) None
    = field_value None (list_find (λ f, f.1 = t) (entry_fields config e) ≫= λ f, f.2.2).
Proof.
  intros He Honly Ht. destruct (entry_of_label _ _ _ He) as [Hz Hl].
  assert (no_colon zone) as Hnz by eauto. assert (no_colon l) as Hnl by eauto. split.
  { intros ([k m] & Hk & Hin)%list_elem_of_fmap. simpl in Hk. subst k.
    apply elem_of_adds in Hin as [[E _]|(z' & Hz' & _ & E)]; [by_split E|].
    assert (no_colon z') by eauto. by_split E. }
  assert (Hval : ∀ v, (rrset_key zone l t, v) ∈ ws → (t, Some (Ok v)) ∈ entry_fields config e).
  { intros v [(z' & l' & e' & t' & He' & E & Hf)|(z' & Hc & E)]%elem_of_writes.
    - destruct (entry_of_label _ _ _ He') as [Hz' Hl'].
      assert (no_colon z') by eauto. assert (no_colon l') by eauto. pose proof (field_type _ _ _ Hf).
      apply (f_equal splitDbKey) in E. rewrite !split_rrset in E by done. injection E as <- <- E.
      apply type_str_inj in E; [|done..]. subst t'. by rewrite <-(Honly e').
    - assert (no_colon z') by eauto using config_of_zone. by_split E. }
  assert (Hnd : NoDup (entry_fields config e).*1) by by apply (bool_decide_unpack _).
  destruct (list_find (λ f, f.1 = t) (entry_fields config e)) as [[i [t' f]]|] eqn:Hfind; simpl.
  - apply list_find_Some in Hfind as (Hi & Et & _). simpl in Et. subst t'.
    assert (Hf : ∀ f', (t, f') ∈ entry_fields config e → f' = f).
    { intros f' Hf'. apply list_elem_of_lookup_1 in Hf' as [j Hj].
      assert (i = j) as <-; [|congruence].
      apply (NoDup_lookup _ i j t Hnd); by rewrite list_lookup_fmap, ?Hi, ?Hj. }
    assert (Hdec : (∃ v, f = Some (Ok v)) ∨ field_value None f = None) by (destruct f as [[]|]; eauto).
    destruct Hdec as [[v ->]|Hnone].
    + destruct (last_write_some ws (rrset_key zone l t) None) as (v' & Hv' & ->).
      { apply list_elem_of_fmap. exists (rrset_key zone l t, v). split; [done|]. apply elem_of_writes. left.
        exists zone, l, e, t. split_and!; [done..|]. by eapply list_elem_of_lookup_2. }
      by apply Hval, Hf in Hv' as [= ->].
    + rewrite Hnone. apply last_write_none. intros ([k v] & Hk & Hin)%list_elem_of_fmap. simpl in Hk. subst k.
      apply Hval, Hf in Hin. by subst f.
  - apply last_write_none. intros ([k v] & Hk & Hin)%list_elem_of_fmap. simpl in Hk. subst k.
    apply Hval in Hin. apply list_find_None in Hfind. rewrite Forall_forall in Hfind. by apply (Hfind _ Hin).
Qed.

Lemma initialized_config zone :
  zone ∈ Zones tc →
  zoneConfigKey zone ∉ adds.*1
  ∧ ∀ json, last_write ws (zoneConfigKey zone) None = Some json → config_of zone json.
Proof.
  intros Hz. assert (no_colon zone) as Hnz by eauto. split.
  { intros ([k m] & Hk & Hin)%list_elem_of_fmap. simpl in Hk. subst k.
    apply elem_of_adds in Hin as [[E _]|(z' & Hz' & _ & E)]; [by_split E|].
    assert (no_colon z') by eauto. by_split E. }
  intros json Hjson. destruct (decide (zoneConfigKey zone ∈ ws.*1)) as [Hin|Hin];
    [|by rewrite last_write_none in Hjson].
  destruct (last_write_some ws (zoneConfigKey zone) None Hin) as (v & Hv & E).
  rewrite E in Hjson. injection Hjson as <-.
  apply elem_of_writes in Hv as [(z' & l' & e' & t' & He' & E' & Hf)|(z' & Hc' & E')].
  - destruct (entry_of_label _ _ _ He') as [Hz' Hl'].
    assert (no_colon z') by eauto. assert (no_colon l') by eauto. pose proof (field_type _ _ _ Hf). by_split E'.
  - assert (no_colon z') by eauto using config_of_zone.
    apply (f_equal splitDbKey) in E'. rewrite !split_config in E' by done. by injection E' as <-.
Qed.

(** The sets: the zones, and the labels of a zone. *)
Lemma initialized_sets k :
  k = zonesKey ∨ (∃ zone, zone ∈ Zones tc ∧ k = zoneLocationsKey zone) → k ∉ ws.*1.
Proof.
  intros Hk ([k' v] & Hk' & Hin)%list_elem_of_fmap. simpl in Hk'. subst k'.
  assert (Hs : splitDbKey k = ["z42"; "zones"] ∨ ∃ zone, splitDbKey k = [zone; "labels"]).
  { destruct Hk as [->|(zone & Hz & ->)]; [left; apply split_zones|right].
    exists zone. apply split_locations. eauto. }
  apply elem_of_writes in Hin as [(z' & l' & e' & t' & He' & -> & Hf)|(z' & Hc' & ->)].
  - destruct (entry_of_label _ _ _ He') as [Hz' Hl'].
    rewrite split_rrset in Hs by eauto using field_type. naive_solver.
  - rewrite split_config in Hs by eauto using config_of_zone. naive_solver.
Qed.
Lemma added_labels zone l : zone ∈ Zones tc → (zoneLocationsKey zone, l) ∈ adds ↔ label_of zone l.
Proof.
  intros Hz. rewrite elem_of_adds. split; [|by right; eauto]. intros [[E _]|(z' & Hz' & Hl & E)].
  - assert (no_colon zone) by eauto. by_split E.
  - assert (no_colon zone) by eauto. assert (no_colon z') by eauto.
    apply (f_equal splitDbKey) in E. rewrite !split_locations in E by done. by injection E as ->.
Qed.
Lemma added_zones z : (zonesKey, z) ∈ adds ↔ z ∈ Zones tc.
Proof.
  rewrite elem_of_adds. split; [|by left]. intros [[_ ?]|(z' & Hz' & _ & E)]; [done|].
  assert (no_colon z') by eauto. by_split E.
Qed.

End plain.
End documents.

(** ** [DefaultInitialize] *)
Section initialize.
Context {T : Type → Type} `{!IRadix T} {RS RC ZC CK : Type}.
Context `{!RedisOps RS, !JsonDocs}.
Variable TypeToString : Z → string.
Variable tc : TestCase.
Abbreviation DHS := (DH T RS RC ZC CK).
Abbreviation config := (handler_config (RedisDataConfig tc)).
Abbreviation rrset_key := (zoneLocationRRSetKey TypeToString).

(** The loop over the entries of a zone; [None] is a panic (an index out of range). *)
Fixpoint initialize_entries (zone : string) (cmds : list (list string))
  : M DHS (option (res InitError ())) :=
  match cmds with
  | [] => mret (Some (Ok ()))
  | cmd :: cmds =>
    match cmd !! 0%nat, cmd !! 1%nat with
    | Some label, Some value =>
      r ← SetLocationFromJson config TypeToString zone label value;
      match r with
      | Err e => mret (Some (Err (EEntry e value)))
      | Ok _ => initialize_entries zone cmds
      end
    | _, _ => mret None
    end
  end.

(** The loop over the zones, from index [i]. *)
Fixpoint initialize_zones (i : nat) (zones : list string) : M DHS (option (res InitError ())) :=
  match zones with
  | [] => mret (Some (Ok ()))
  | zone :: zones =>
    r ← EnableZone zone;
    match r, Entries tc !! i with
    | Err e, _ => mret (Some (Err (EStore (ERedis e))))
    | Ok _, None => mret None
    | Ok _, Some cmds =>
      r ← initialize_entries zone cmds;
      match r, ZoneConfigs tc !! i with
      | None, _ | Some (Err _), _ => mret r
      | Some (Ok _), None => mret None
      | Some (Ok _), Some json =>
        r ← SetZoneConfigFromJson zone json;
        match r with
        | Err e => mret (Some (Err (EStore e)))
        | Ok _ => initialize_zones (S i) zones
        end
      end
    end
  end.

(** After [NewDataHandler]. *)
Definition DefaultInitialize : M DHS (option (res InitError ())) :=
  r ← Clear;
  match r with
  | Err e => mret (Some (Err (EStore (ERedis e))))
  | Ok _ =>
    r ← initialize_zones 0 (Zones tc);
    match r with
    | Some (Ok _) => _ ← LoadZones; mret (Some (Ok ()))
    | _ => mret r
    end
  end.

(** *** It writes the documents *)
Context {rstr : RS → string → option string} {rset : RS → string → gset string}.
Context `{!RedisSpec RS rstr rset}.
Hypothesis Set_works : ∀ k v rs, (redis_Set k v rs).1 = Ok ().
Abbreviation wrote := (writes (rstr:=rstr) (rset:=rset)).
Implicit Types s : DHS.

Lemma write_fields_writes z l fs s : wrote (field_writes TypeToString z l fs) [] s (write_fields TypeToString z l fs s).2.
Proof.
  unfold write_fields. revert s. induction fs as [|f fs IH]; intros s; csimpl; [apply writes_refl|].
  rewrite run_bind. eapply (writes_trans _ [] _ []); [|apply IH]. clear IH. unfold write_field.
  destruct f.2 as [[json|e]|]; cbn [snd]; [|apply writes_refl..]. rewrite run_bind.
  apply writes_Set, Set_works.
Qed.

Lemma cmd_wrote zone l doc cmd s :
  cmd !! 0%nat = Some l → cmd !! 1%nat = Some doc →
  (SetLocationFromJson config TypeToString zone l doc s).1 = Ok () →
  wrote (cmd_writes TypeToString tc zone cmd) (cmd_adds zone cmd) s (SetLocationFromJson config TypeToString zone l doc s).2.
Proof.
  intros Hl Hd Hok. unfold cmd_writes, cmd_adds. rewrite Hl, Hd.
  destruct (Unmarshal doc) as [e|e] eqn:Hu; [|by unfold SetLocationFromJson in Hok; rewrite Hu in Hok].
  assert (He : (EnableLocation zone l s).1 = Ok ()).
  { unfold SetLocationFromJson in Hok. rewrite Hu, run_bind in Hok. by destruct (EnableLocation _ _ _) as [[[]|]]. }
  rewrite (SetLocationFromJson_run _ _ _ _ _ _ _ Hu He). cbn [snd].
  eapply (writes_trans [] [(_, _)] _ []); [|apply write_fields_writes].
  apply writes_SAdd. unfold EnableLocation, redis in He. by destruct (redis_SAdd _ _ _).
Qed.

Lemma entries_wrote zone cmds s :
  (initialize_entries zone cmds s).1 = Some (Ok ()) →
  wrote (cmds ≫= cmd_writes TypeToString tc zone) (cmds ≫= cmd_adds zone) s (initialize_entries zone cmds s).2.
Proof.
  revert s. induction cmds as [|cmd cmds IH]; intros s; csimpl; [intros _; apply writes_refl|].
  destruct (cmd !! 0%nat) as [l|] eqn:Hl; [|done]. destruct (cmd !! 1%nat) as [doc|] eqn:Hd; [|done].
  rewrite run_bind. destruct (SetLocationFromJson config TypeToString zone l doc s) as [[[]|e] s1] eqn:E; [|done].
  cbn [fst snd]. intros Hok. eapply writes_trans; [|by apply IH].
  pose proof (cmd_wrote zone l doc cmd s Hl Hd) as Hw. rewrite E in Hw. by apply Hw.
Qed.

Lemma EnableZone_wrote zone s :
  (EnableZone zone s).1 = Ok () →
  wrote [] [(zoneLocationsKey zone, "@"); (zonesKey, zone)] s (EnableZone zone s).2.
Proof.
  unfold EnableZone. rewrite run_bind. intros Hok.
  pose proof (writes_SAdd (rstr:=rstr) (rset:=rset) (zoneLocationsKey zone) "@" s) as H1. unfold redis in *.
  destruct (redis_SAdd (zoneLocationsKey zone) "@" (dh_redis s)) as [[[]|e] rs]; cbn [fst snd] in *; [|done].
  eapply (writes_trans [] [_] [] [_]); [by apply H1|]. apply writes_SAdd.
  cbn [dh_redis] in *. by destruct (redis_SAdd _ _ _).
Qed.
Lemma config_wrote zone json s :
  (SetZoneConfigFromJson zone json s).1 = Ok () →
  wrote [(zoneConfigKey zone, json)] [] s (SetZoneConfigFromJson zone json s).2.
Proof. intros _. unfold SetZoneConfigFromJson. rewrite run_bind. apply writes_Set, Set_works. Qed.

Lemma zones_wrote i zones s :
  (initialize_zones i zones s).1 = Some (Ok ()) →
  wrote (zones_writes TypeToString tc i zones) (zones_adds tc i zones) s (initialize_zones i zones s).2.
Proof.
  revert i s. induction zones as [|zone zones IH]; intros i s; csimpl; [intros _; apply writes_refl|].
  rewrite run_bind. pose proof (EnableZone_wrote zone s) as H1.
  destruct (EnableZone zone s) as [[[]|e] s1]; [|done]. cbn [fst snd] in *. specialize (H1 eq_refl).
  unfold zone_writes, zone_adds. destruct (Entries tc !! i) as [cmds|]; [|done]. cbn [default].
  rewrite run_bind. pose proof (entries_wrote zone cmds s1) as H2.
  destruct (initialize_entries zone cmds s1) as [[[[]|e]|] s2]; [|done..]. cbn [fst snd] in *.
  specialize (H2 eq_refl). destruct (ZoneConfigs tc !! i) as [json|]; [|done].
  rewrite run_bind. pose proof (config_wrote zone json s2) as H3.
  destruct (SetZoneConfigFromJson zone json s2) as [[[]|e] s3]; [|done]. cbn [fst snd] in *.
  specialize (H3 eq_refl). intros Hok.
  pose proof (writes_trans _ _ _ _ _ _ _ H1 (writes_trans _ _ _ _ _ _ _ H2 H3)) as Hw.
  rewrite app_nil_r in Hw. exact (writes_trans _ _ _ _ _ _ _ Hw (IH _ _ Hok)).
Qed.

(** *** The state it leaves *)
(** What [Clear] does to the client's keys ([Del_clears] of [Redis]). *)
Hypothesis Clear_empties : ∀ rs rs', redis_Del "*" rs = (Ok (), rs') →
  ∀ k, rstr rs' k = None ∧ rset rs' k = ∅.
Hypothesis SMembers_works : ∀ k rs, is_ok (redis_SMembers k rs).1 = true.
Hypothesis type_str_no_colon : ∀ t, t ∈ record_types → no_colon (type_string TypeToString t).
Hypothesis tc_plain : plain tc.
Abbreviation ws := (zones_writes TypeToString tc 0 (Zones tc)).
Abbreviation adds := (zones_adds tc 0 (Zones tc)).

(** Redis holds the documents, and a data handler that has just loaded its zones. *)
Record holds_documents (rs : RS) : Prop := {
  doc_str k : k ∉ adds.*1 → rstr rs k = last_write ws k None;
  doc_set k : k ∉ ws.*1 → ∀ x, x ∈ rset rs k ↔ (k, x) ∈ adds;
}.
Record initialized (s0 s : DHS) : Prop := {
  init_zones : ∃ zs, dh_zones s = zone_tree zs ∧ ∀ z, z ∈ zs ↔ z ∈ Zones tc;
  init_documents : holds_documents (dh_redis s);
  init_zoneCache : dh_zoneCache s = dh_zoneCache s0;
  init_clock : dh_clock s = dh_clock s0;
}.
Lemma wrote_documents s1 s2 :
  wrote ws adds s1 s2 → (∀ k, rstr (dh_redis s1) k = None ∧ rset (dh_redis s1) k = ∅) →
  holds_documents (dh_redis s2).
Proof.
  intros (_ & Hstr & Hset) Hclear. split.
  - intros k Hk. rewrite Hstr by done. by rewrite (proj1 (Hclear k)).
  - intros k Hk x. rewrite Hset by done. rewrite (proj2 (Hclear k)), elem_of_empty.
    clear. tauto.
Qed.
Lemma LoadZones_initialized s : holds_documents (dh_redis s) → initialized s (LoadZones s).2.
Proof.
  intros [Hstr Hset]. unfold LoadZones, redis. rewrite !run_bind.
  pose proof (spec_SMembers zonesKey (dh_redis s)) as Hm. pose proof (SMembers_works zonesKey (dh_redis s)) as Hok.
  destruct (redis_SMembers zonesKey (dh_redis s)) as [[zs|e] rs]; [|done]. cbn.
  destruct Hm as [Hsame [_ Hzs]]. split; [|split|done|done]; simpl.
  - exists zs. split; [done|]. intros z. rewrite Hzs, Hset by (apply initialized_sets; by auto).
    apply (added_zones tc tc_plain).
  - intros k Hk. rewrite (proj1 (Hsame k)). by apply Hstr.
  - intros k Hk x. rewrite (proj2 (Hsame k)). by apply Hset.
Qed.
Lemma DefaultInitialize_initialized s0 s :
  DefaultInitialize s0 = (Some (Ok ()), s) → initialized s0 s.
Proof.
  unfold DefaultInitialize, Clear, redis. rewrite run_bind.
  pose proof (Clear_empties (dh_redis s0)) as Hclear.
  destruct (redis_Del "*" (dh_redis s0)) as [[[]|e] rs]; [|done]. cbn [fst snd].
  set (s1 := {| dh_redis := rs; dh_zones := _; dh_recordCache := _; dh_zoneCache := _; dh_clock := _ |}).
  specialize (Hclear rs eq_refl). rewrite run_bind. pose proof (zones_wrote 0 (Zones tc) s1) as Hw.
  destruct (initialize_zones 0 (Zones tc) s1) as [[[[]|e]|] s2]; [|done..]. cbn [fst snd] in *.
  specialize (Hw eq_refl). rewrite run_bind. pose proof (LoadZones_initialized s2 (wrote_documents s1 s2 Hw Hclear)) as Hi.
  destruct Hw as ((_ & _ & Ez & Eck) & _).
  destruct (LoadZones s2) as [? s3]. cbn [snd] in *. intros [= <-]. destruct Hi as [Hz Hd Hzc Hck].
  split; [done|done|by rewrite Hzc|by rewrite Hck].
Qed.
End initialize.

(** ** [DefaultApplyAndVerify]

    The queries come from the address of [test.ResponseWriter]; [reply] is what
    [SizeAndDo] and [Scrub] of coredns make of the response. The first case that fails
    ends the test. *)
Inductive TestResult := Passed | Failed (c : Case) (e : TestError) | TestPanicked.

Section apply.
Context {T : Type → Type} `{!IRadix T} {S : Type} `{!DataStore T S, !Outside S}.
Context {F : Type} `{!Float64 F}.
Variable unicode_lower : string → string.
Variable Fqdn : string → string.
Variable geoip : GeoIp F.
Variable LogSourceLocation : bool.
Variable KeyTag : RR → Z.
Variable Sign : RR → string → list RR → option RR.
Variable map_order : gmap RRSetKey (list RR) → list (RRSetKey * list RR).
Variable reply : Request.Query → Msg → Msg.
Variable Sort : list RR → list RR.
Abbreviation handle := (HandleRequest (S:=S) unicode_lower Fqdn geoip LogSourceLocation KeyTag Sign map_order).

(** [net.ParseIP("10.240.0.1")] *)
Definition test_client : IP := Some (str (v4InV6Prefix ++ ["010"; "240"; "000"; "001"]%char)).
Definition case_context (c : Case) : RequestContext T :=
  NewRequestContext (Case_Msg Fqdn c) test_client (Qtype c) (Case_Do c).

Fixpoint DefaultApplyAndVerify (cases : list Case) : M S TestResult :=
  match cases with
  | [] => mret Passed
  | c :: cases =>
    state ← handle (case_context c);
    match state with
    | None => mret TestPanicked
    | Some state =>
      match SortAndCheck Sort (reply (Case_Msg Fqdn c) (Response state)) c with
      | None => mret TestPanicked
      | Some (Some err) => mret (Failed c err)
      | Some None => DefaultApplyAndVerify cases
      end
    end
  end.
End apply.
