(* ===== verification/EndToEnd.v ===== *)
(** * What a document says is what the server answers

    The documents of a test case ([TestCase]) are followed through [HandleRequest]:
    the zone is found among the zones loaded, built from its labels and its
    configuration, and the record sets read for the name are those of its document,
    with their TTL clamped. *)
From S2P Require Import Prelude GoStrings Redis Radix DnsTypes Zone Geo IpSelect Dnssec Store.
From S2P Require Import Request Handler HandlerFacts HandlerRun DataHandler DataHandlerFacts Config TestHelpers TestCase.
Local Open Scope Z_scope.

Section end_to_end.
Context {T : Type → Type} `{IRadixLaws T} {RS RC ZC CK : Type}.
Context `{!RedisOps RS, !Cache RC AnyRRSet, !Cache ZC (Zone T), !Clock CK, !JsonDocs}.
Context {rstr : RS → string → option string} {rset : RS → string → gset string}.
Context `{!RedisSpec RS rstr rset}.
Context {time : CK → Z} `{!ClockLaws CK time}.
Context {zones : ZC → gmap string (Zone T)} `{!CacheLaws ZC (Zone T) zones}.
Context {O F : Type} `{!Outside O, !Float64 F}.
Variable unicode_lower : string → string.
Variable Fqdn : string → string.
Variable geoip : GeoIp F.
Variable TypeToString : Z → string.
Variable unmarshal_config : string → ZoneConfig → ZoneConfig.
Variable NewRR : string → res string (option RR).
Variable NewPrivateKey : RR → string → res string string.
Variable KeyTag : RR → Z.
Variable Sign : RR → string → list RR → option RR.
Variable map_order : gmap RRSetKey (list RR) → list (RRSetKey * list RR).
Variable tc : TestCase.
Abbreviation DHS := (DH T RS RC ZC CK).
Abbreviation config := (handler_config (RedisDataConfig tc)).
Abbreviation raw := (raw_name unicode_lower).
(** The configuration of the data handler that reads. *)
Variable rconfig : DataHandlerConfig.
Abbreviation get_zone :=
  (GetZone rconfig Fqdn unmarshal_config NewRR NewPrivateKey KeyTag Sign (RC:=RC) (RS:=RS) (CK:=CK) (ZC:=ZC)).
Abbreviation parsed := (ZoneConfigFromJson Fqdn unmarshal_config).
Implicit Types (s : DHS) (o : O) (c : RequestContext T) (z : Zone T) (d : Snapshot T).

(** Redis works. *)
Hypothesis SMembers_works : ∀ k rs, is_ok (redis_SMembers k rs).1 = true.
Hypothesis Get_works : ∀ k rs e, (redis_Get k rs).1 = Err e → e = ErrNil.
(** The names of the types of package dns. *)
Hypothesis type_str_no_colon : ∀ t, t ∈ record_types → no_colon (type_string TypeToString t).
Hypothesis type_str_inj : ∀ t t', t ∈ record_types → t' ∈ record_types →
  type_string TypeToString t = type_string TypeToString t' → t = t'.

(** ** The zone *)
Lemma redis_value_run k s cfg :
  default empty_str (rstr (dh_redis s) k) = cfg →
  ∃ rs, redis_value k s = (cfg, {| dh_redis := rs; dh_zones := dh_zones s; dh_recordCache := dh_recordCache s;
                                   dh_zoneCache := dh_zoneCache s; dh_clock := dh_clock s |})
        ∧ ∀ k', rstr rs k' = rstr (dh_redis s) k' ∧ rset rs k' = rset (dh_redis s) k'.
Proof.
  intros Hcfg. unfold redis_value, redis. rewrite run_bind. pose proof (spec_Get k (dh_redis s)) as Hg.
  pose proof (Get_works k (dh_redis s)) as Hw. destruct (redis_Get k (dh_redis s)) as [[v|e] rs];
    destruct Hg as [Hsame Hg]; exists rs; cbn.
  - rewrite Hg in Hcfg. simpl in Hcfg. subst v. split; [done|apply Hsame].
  - pose proof (Hw e eq_refl) as ->. rewrite Hg in Hcfg. simpl in Hcfg. subst cfg. split; [done|apply Hsame].
Qed.

(** A zone that is not cached is built from redis. *)
Lemma GetZone_first zone cfg s :
  (cache_Get zone (dh_zoneCache s)).1 = None → default empty_str (rstr (dh_redis s) (zoneConfigKey zone)) = cfg →
  (∀ now, DnsSec (parsed zone cfg now) = false) →
  ∃ z s', get_zone zone s = (Some (Some z), s')
    ∧ Name z = zone ∧ LocationsTree z = build_tree (LocationsList z) ∧ DnsSec (Zone.Config z) = false
    ∧ (∀ l, l ∈ LocationsList z ↔ l ∈ rset (dh_redis s) (zoneLocationsKey zone))
    ∧ dh_zones s' = dh_zones s ∧ (∀ k, rstr (dh_redis s') k = rstr (dh_redis s) k)
    ∧ time (dh_clock s) ≤ time (dh_clock s')
    ∧ (∀ k, rset (dh_redis s') k = rset (dh_redis s) k)
    ∧ zones (dh_zoneCache s') ⊆ <[zone := z]> (zones (dh_zoneCache s)).
Proof.
  intros Hc Hcfg Hsec. unfold GetZone, zoneCache_Get, on_zoneCache. rewrite run_bind.
  pose proof (law_cache_Get (V:=Zone T) zone (dh_zoneCache s)) as [Hzones _].
  destruct (cache_Get zone (dh_zoneCache s)) as [o zc]. simpl in Hc. subst o. cbn [fst snd].
  rewrite run_bind. cbn [mret M_ret fst snd]. rewrite run_bind. unfold load_zone. rewrite run_bind.
  unfold redis. cbn [dh_redis]. pose proof (spec_SMembers (zoneLocationsKey zone) (dh_redis s)) as Hm.
  pose proof (SMembers_works (zoneLocationsKey zone) (dh_redis s)) as Hok.
  destruct (redis_SMembers _ _) as [[locs|e] rs]; [|done]. destruct Hm as [Hsame [_ Hlocs]]. cbn [fst snd].
  rewrite run_bind. cbn [dh_zones dh_recordCache dh_zoneCache dh_clock].
  match goal with |- context [redis_value (zoneConfigKey zone) ?s1] =>
    destruct (redis_value_run (zoneConfigKey zone) s1 cfg) as (rs2 & -> & Hsame2) end.
  { cbn [dh_redis]. by rewrite (proj1 (Hsame _)). }
  cbn [fst snd dh_redis dh_zones dh_recordCache dh_zoneCache dh_clock].
  rewrite run_bind. unfold Now. cbn [dh_clock].
  pose proof (law_clock (time:=time) (dh_clock s)) as Hck.
  destruct (clock_Unix (dh_clock s)) as [serial ck]. cbn [fst snd] in *.
  rewrite run_bind. unfold loadZoneKeys. cbn [Zone.Config NewZone]. rewrite Hsec. cbn [negb mret M_ret fst snd].
  rewrite run_bind. cbn [dh_clock dh_redis dh_zones dh_recordCache dh_zoneCache].
  pose proof (law_clock (time:=time) ck) as Hck2.
  destruct (clock_Unix ck) as [now ck2]. cbn [fst snd] in *. cbv zeta. rewrite run_bind. cbn.
  eexists _, _. split; [done|]. cbn. split_and!; try done.
  - apply Hsec.
  - intros k. etrans; [apply Hsame2|apply Hsame].
  - lia.
  - intros k. etrans; [apply Hsame2|apply Hsame].
  - etrans; [apply law_cache_Set|]. by apply insert_mono.
Qed.

(** ** The answer that an entry describes *)
Definition entry_value {R} `{!RRSetKind R} (e : option R) : R := default zero (set_ttl (clamp config) <$> e).
Definition entry_answer (e : locationEntry) (owner : string) (t : Z) (src : IP) (ns : Z) : list RR :=
  if t =? dns.TypeA then
    let a := entry_value (le_A e) in generateA owner (Ttl (IP_Generic a)) (filtered geoip src a ns)
  else if t =? dns.TypeAAAA then
    let a := entry_value (le_AAAA e) in generateAAAA owner (Ttl (IP_Generic a)) (filtered geoip src a ns)
  else if t =? dns.TypeTXT then TXT_Value (entry_value (le_TXT e)) owner
  else if t =? dns.TypeNS then NS_Value Fqdn (entry_value (le_NS e)) owner
  else if t =? dns.TypeMX then MX_Value Fqdn (entry_value (le_MX e)) owner
  else if t =? dns.TypeSRV then SRV_Value Fqdn (entry_value (le_SRV e)) owner
  else if t =? dns.TypePTR then PTR_Value Fqdn (entry_value (le_PTR e)) owner
  else if t =? dns.TypeTLSA then TLSA_Value (entry_value (le_TLSA e)) owner
  else [].

(** The store holds, for one name, what the entry says. *)
Record describes (e : locationEntry) (zone l : string) d : Prop := {
  says_A : sn_A d zone l = Ok (entry_value (le_A e));
  says_AAAA : sn_AAAA d zone l = Ok (entry_value (le_AAAA e));
  says_CNAME : sn_CNAME d zone l = Ok (entry_value (le_CNAME e));
  says_TXT : sn_TXT d zone l = Ok (entry_value (le_TXT e));
  says_NS : sn_NS d zone l = Ok (entry_value (le_NS e));
  says_MX : sn_MX d zone l = Ok (entry_value (le_MX e));
  says_SRV : sn_SRV d zone l = Ok (entry_value (le_SRV e));
  says_PTR : sn_PTR d zone l = Ok (entry_value (le_PTR e));
  says_TLSA : sn_TLSA d zone l = Ok (entry_value (le_TLSA e));
  says_ANAME : sn_ANAME d zone l = Ok (entry_value (le_ANAME e));
}.

(** One read of a snapshot beside the clock. *)
Ltac snap := rewrite run_bind;
  cbn [st_FindZone st_CNAME st_NS st_A st_AAAA st_ANAME st_TXT st_MX st_SRV st_PTR st_TLSA snapshot_store
       beside_store on_fst on_snd gets fst snd].

Lemma answer_described e zone l q z c d o :
  describes e zone l d → Name z = zone → entry_answer e q (QType c) (SourceIp c) (Nanosecond o).1 ≠ [] →
  (answer_for (S:=Snapshot T * O) Fqdn geoip z c l q (d, o)).1
  = Answered c (entry_answer e q (QType c) (SourceIp c) (Nanosecond o).1).
Proof.
  intros [HA HAAAA _ HTXT HNS HMX HSRV HPTR HTLSA HANAME] <-. unfold answer_for, entry_answer. cbv zeta.
  assert (Hempty : ∀ a, filtered geoip (SourceIp c) a (Nanosecond o).1 ≠ [] → IP_Empty a = false).
  { intros a Hne. destruct (IP_Empty a) eqn:E; [|done]. by rewrite filtered_empty in Hne. }
  destruct (QType c =? dns.TypeA).
  { intros Hne. unfold answer_A. snap. rewrite HA. snap. rewrite HANAME, Hempty; cbn [andb].
    - unfold h_filter. rewrite !run_bind. cbn. unfold on_snd. cbn. by destruct (Nanosecond o).
    - intros E. by rewrite E in Hne. }
  destruct (QType c =? dns.TypeAAAA).
  { intros Hne. unfold answer_AAAA. snap. rewrite HAAAA. snap. rewrite HANAME, Hempty; cbn [andb].
    - unfold h_filter. rewrite !run_bind. cbn. unfold on_snd. cbn. by destruct (Nanosecond o).
    - intros E. by rewrite E in Hne. }
  destruct (QType c =? dns.TypeCNAME) eqn:Hcn.
  { apply Z.eqb_eq in Hcn. by rewrite Hcn. }
  unfold answer_set. destruct (QType c =? dns.TypeTXT); [intros _; snap; by rewrite HTXT|].
  destruct (QType c =? dns.TypeNS); [intros _; snap; by rewrite HNS|].
  destruct (QType c =? dns.TypeMX); [intros _; snap; by rewrite HMX|].
  destruct (QType c =? dns.TypeSRV); [intros _; snap; by rewrite HSRV|].
  destruct (QType c =? dns.TypeCAA) eqn:Hcaa.
  { apply Z.eqb_eq in Hcaa. by rewrite Hcaa. }
  destruct (QType c =? dns.TypePTR); [intros _; snap; by rewrite HPTR|].
  destruct (QType c =? dns.TypeTLSA); [intros _; snap; by rewrite HTLSA|]. done.
Qed.

(** The loop ends at once at a location with neither CNAME nor delegation. *)
Lemma resolve_described e l zone fl z c d o :
  describes e zone l d → Name z = zone → sn_FindZone d (raw c) = zone → FindLocation z (raw c) = (l, ExactMatch) →
  CNAME_Empty (entry_value (le_CNAME e)) = true →
  (raw c = zone ∨ NS_Empty (entry_value (le_NS e)) = true) →
  let rrs := entry_answer e (raw c) (QType c) (SourceIp c) (Nanosecond o).1 in
  rrs ≠ [] →
  (resolve (S:=Snapshot T * O) unicode_lower Fqdn geoip z zone fl (raw c) c (d, o)).1 = Some (append_Answer rrs c).
Proof.
  intros Hd Hn Hz Hl Hcn Hns rrs Hne. pose proof Hd as [_ _ HCNAME _ HNS _ _ _ _ _].
  assert (Hfin : (final_answer (S:=Snapshot T * O) unicode_lower Fqdn geoip z fl l (raw c) c (d, o)).1
                 = Some (append_Answer rrs c)).
  { unfold final_answer. rewrite run_bind. cbv zeta. replace (if fl then raw c else raw c) with (raw c) by by destruct fl.
    cbn [mret M_ret fst]. rewrite (answer_described e zone) by done. unfold finish. fold rrs. clearbody rrs.
    by destruct rrs. }
  unfold resolve. change 11%nat with (Datatypes.S 10). generalize 10%nat as fuel. intros fuel. csimpl. snap. rewrite Hz, decide_False, Hl by (intros E; by apply E). snap.
  rewrite Hn, HCNAME, Hcn. cbn [negb andb]. case_decide as Hq; [|done]. snap. rewrite HNS.
  destruct Hns as [E|Hns]; [done|]. by rewrite Hns.
Qed.

(** ** What is in redis after [DefaultInitialize] *)

(** The codec reads back what it wrote. *)
Definition kept {R} `{!RRSetKind R, !Json R} (o : option R) : Prop :=
  match set_ttl (clamp config) <$> o with
  | None => True
  | Some r => ∃ json, Marshal r = Ok json ∧ str_empty json = false ∧ Unmarshal json = Ok r
  end.
Definition documents_kept (e : locationEntry) : Prop :=
  kept (le_A e) ∧ kept (le_AAAA e) ∧ kept (le_CNAME e) ∧ kept (le_TXT e) ∧ kept (le_NS e) ∧ kept (le_MX e)
  ∧ kept (le_SRV e) ∧ kept (le_PTR e) ∧ kept (le_TLSA e) ∧ kept (le_ANAME e).
Lemma kept_decode {R} `{!RRSetKind R, !Json R} (o : option R) :
  kept o → decode R (field_value None (field_json config o)) = Ok (entry_value o).
Proof.
  unfold kept, entry_value, field_json. destruct o as [r|]; [|done]. cbn. intros (json & -> & He & Hu).
  cbn. by rewrite He, Hu.
Qed.

Hypothesis tc_plain : plain tc.
Abbreviation ready := (initialized (rstr:=rstr) (rset:=rset) TypeToString tc).

Lemma initialized_describes s0 s zone l e :
  ready s0 s → entry_of tc zone l e → (∀ e', entry_of tc zone l e' → e' = e) → documents_kept e →
  describes e zone l (content (rstr:=rstr) TypeToString s).
Proof.
  intros Hi He Honly (?&?&?&?&?&?&?&?&?&?).
  assert (Hs : ∀ t, t ∈ record_types → rstr (dh_redis s) (zoneLocationRRSetKey TypeToString zone l t)
    = field_value None (list_find (λ f, f.1 = t) (entry_fields config e) ≫= λ f, f.2.2)).
  { intros t Ht. edestruct (initialized_record TypeToString tc) as [Hk Hw]; [done..|].
    by rewrite (doc_str _ _ _ (init_documents _ _ _ _ Hi)). }
  split; cbn; (rewrite Hs by by apply (bool_decide_unpack _)); by apply kept_decode.
Qed.

Lemma describes_ext s s' e zone l :
  (∀ k, rstr (dh_redis s') k = rstr (dh_redis s) k) →
  describes e zone l (content (rstr:=rstr) TypeToString s) → describes e zone l (content (rstr:=rstr) TypeToString s').
Proof. intros Hk []. split; cbn in *; by rewrite Hk. Qed.

(** ** The request *)
Definition name_of (l zone : string) : string := if decide (l = "@") then zone else l +:+ String dot zone.

Lemma name_of_encloses l zone : encloses zone (name_of l zone).
Proof.
  unfold name_of. case_decide; [apply encloses_refl|]. unfold encloses. rewrite bytes_app. by exists (dot :: bytes l).
Qed.
Lemma name_of_ascii l zone : zone ∈ Zones tc → label_of tc zone l → ascii7 (name_of l zone).
Proof.
  intros Hz Hl. unfold name_of. case_decide; [by apply tc_plain|]. apply ascii7_app. split; [by eapply tc_plain|].
  change (String dot zone) with ("." +:+ zone). apply ascii7_app. split; [by apply (bool_decide_unpack _)|by apply tc_plain].
Qed.
Lemma FindLocation_name_of z l : well_built z → l ∈ LocationsList z → FindLocation z (name_of l (Name z)) = (l, ExactMatch).
Proof.
  intros Hz Hl. unfold name_of. case_decide; [subst|by apply well_built_finds].
  unfold FindLocation. by rewrite decide_True.
Qed.

(** The zone found for a name is the longest one. *)
Lemma FindZone_nearest s q zs zone :
  dh_zones s = zone_tree zs → Forall ascii7 zs → ascii7 q → zone ∈ zs → encloses zone q →
  (∀ zn, zn ∈ zs → encloses zn q → (String.length zn ≤ String.length zone)%nat) → (FindZone q s).1 = zone.
Proof.
  intros Hzs Ha Hq Hz He Hmax. unfold FindZone. cbn [fst]. rewrite Hzs, ReverseName_ascii by done.
  pose proof (zone_tree_longest (T:=T) q zs Ha) as Hl. destruct (LongestPrefix _ _) as [[p z]|]; [|by destruct (Hl zone Hz)].
  destruct Hl as (Hz' & He' & Hmax'). pose proof (Hmax z Hz' He'). pose proof (Hmax' zone Hz He).
  rewrite encloses_prefix in He, He'. apply rev_key_inj.
  destruct (prefix_weak_total _ _ _ He He'); [symmetry|]; apply prefix_length_eq; rewrite ?rev_key_length; (done || lia).
Qed.

Context (LogSourceLocation : bool).
#[local] Instance the_dh : DataStore T DHS :=
  dh_store rconfig TypeToString Fqdn unmarshal_config NewRR NewPrivateKey KeyTag Sign.
Abbreviation handle := (HandleRequest (S:=DHS * O) unicode_lower Fqdn geoip LogSourceLocation KeyTag Sign map_order).
Abbreviation locate := (locate_source geoip LogSourceLocation).

(** The name of a request depends on the query only. *)
Lemma raw_name_ext c c' : Req c = Req c' → ctx_name c = ctx_name c' → raw c = raw c'.
Proof.
  unfold raw_name, RawName. intros -> ->. destruct (negb _); [done|].
  destruct (Req c') as [r|]; [|done]. by destruct (Question r) as [|[]].
Qed.
Lemma locate_keeps c : raw (locate c) = raw c ∧ QType (locate c) = QType c ∧ SourceIp (locate c) = SourceIp c.
Proof. unfold locate_source. destruct LogSourceLocation; [|done]. split; [by apply raw_name_ext|done]. Qed.

(** Over the data handler the loop gives what it gives on the content of redis. *)
Lemma same_as_content z zn fl q c s o :
  cache_expired (time:=time) rconfig s →
  (resolve (S:=DHS * O) unicode_lower Fqdn geoip z zn fl q c (s, o)).1
  = (resolve (S:=Snapshot T * O) unicode_lower Fqdn geoip z zn fl q c (content (rstr:=rstr) TypeToString s, o)).1.
Proof.
  intros Hc. pose proof (dh_sim (time:=time) rconfig TypeToString Fqdn unmarshal_config NewRR NewPrivateKey KeyTag Sign Get_works s) as Hsim.
  apply (resolve_simulates (beside (holds (rstr:=rstr) (time:=time) rconfig TypeToString s))).
  split; [by split_and!|done].
Qed.

(** The zone of a name is found among those loaded, *)
Lemma initialized_finds s0 s zone l s' :
  ready s0 s → zone ∈ Zones tc → label_of tc zone l →
  (∀ zn, zn ∈ Zones tc → encloses zn (name_of l zone) → (String.length zn ≤ String.length zone)%nat) →
  dh_zones s' = dh_zones s → (FindZone (name_of l zone) s').1 = zone.
Proof.
  intros Hi Hz Hl Hmax E. destruct (init_zones _ _ _ _ Hi) as (zs & Hzs & Hin).
  apply (FindZone_nearest s' _ zs); [congruence| | | | |].
  - apply Forall_forall. intros zn Hzn. apply tc_plain. by apply Hin.
  - by apply name_of_ascii.
  - by apply Hin.
  - apply name_of_encloses.
  - intros zn Hzn. apply Hmax. by apply Hin.
Qed.

(** and it is built with all its labels. *)
Lemma initialized_zone s0 s zone l :
  ready s0 s → zones (dh_zoneCache s0) = ∅ → zone ∈ Zones tc → label_of tc zone l →
  (∀ json now, config_of tc zone json → DnsSec (parsed zone json now) = false) →
  ∃ z s', get_zone zone s = (Some (Some z), s')
    ∧ Name z = zone ∧ DnsSec (Zone.Config z) = false ∧ FindLocation z (name_of l zone) = (l, ExactMatch)
    ∧ dh_zones s' = dh_zones s ∧ (∀ k, rstr (dh_redis s') k = rstr (dh_redis s) k)
    ∧ time (dh_clock s) ≤ time (dh_clock s').
Proof.
  intros Hi Hzc Hz Hl Hcfg.
  destruct (initialized_config TypeToString tc type_str_no_colon tc_plain zone Hz) as (Hkc & Hcof).
  pose proof (init_documents _ _ _ _ Hi) as [Hstr Hset].
  assert (Hcache : (cache_Get zone (dh_zoneCache s)).1 = None).
  { rewrite (init_zoneCache _ _ _ _ Hi). pose proof (law_cache_Get (V:=Zone T) zone (dh_zoneCache s0)) as [_ Hg].
    destruct (cache_Get zone (dh_zoneCache s0)).1 as [z|]; [|done]. specialize (Hg z eq_refl).
    by rewrite Hzc, lookup_empty in Hg. }
  destruct (GetZone_first zone _ s Hcache eq_refl) as (z & s' & Hget & Hname & Htree & Hsec & Hlocs & Hrest).
  { intros now. rewrite Hstr by done. specialize (Hcof). destruct (last_write _ _ _) as [json|]; [|done].
    by apply Hcfg, Hcof. }
  exists z, s'. split_and!; try done; try apply Hrest. rewrite <-Hname.
  assert (Hall : ∀ x, x ∈ LocationsList z ↔ label_of tc zone x).
  { intros x. rewrite Hlocs, Hset by (apply initialized_sets; eauto). by apply added_labels. }
  apply FindLocation_name_of; [split; [done|]|by apply Hall].
  apply Forall_forall. intros x Hx%Hall. by eapply tc_plain.
Qed.

(** A query for a label of one document, over a data handler that has loaded the zones. *)
Lemma initialized_answered s0 s o zone l e c :
  ready s0 s → zones (dh_zoneCache s0) = ∅ → cache_expired (time:=time) rconfig s0 →
  entry_of tc zone l e → (∀ e', entry_of tc zone l e' → e' = e) → documents_kept e →
  (∀ json now, config_of tc zone json → DnsSec (parsed zone json now) = false) →
  CNAME_Empty (entry_value (le_CNAME e)) = true → (l = "@" ∨ NS_Empty (entry_value (le_NS e)) = true) →
  zone ≠ empty_str → raw c = name_of l zone →
  (∀ zn, zn ∈ Zones tc → encloses zn (raw c) → (String.length zn ≤ String.length zone)%nat) →
  let rrs := entry_answer e (raw c) (QType c) (SourceIp c) (Nanosecond o).1 in
  rrs ≠ [] →
  ∃ z, Name z = zone
       ∧ (handle c (s, o)).1 = Some (append_Answer rrs (set_zone z (DomainId (Zone.Config z)) false (locate c))).
Proof.
  intros Hi Hzc Hck He Honly Hkept Hcfg Hcn Hns Hne Hq Hmax rrs Hrrs.
  destruct (entry_of_label _ _ _ _ He) as [Hz Hl].
  rewrite Hq in Hmax. pose proof (initialized_finds s0 s zone l) as Hfind. rewrite <-Hq in Hfind, Hmax.
  destruct (initialized_zone s0 s zone l Hi Hzc Hz Hl Hcfg) as (z & s' & Hget & Hname & Hsec & Hloc & Ez & Estr & Hclock).
  exists z. split; [done|]. destruct (locate_keeps c) as (Er & Et & Es).
  unfold HandleRequest. cbv zeta. rewrite run_bind. cbn [st_FindZone beside_store on_fst fst snd the_dh dh_store].
  rewrite Er. change (on_fst (FindZone (raw c)) (s, o)) with ((FindZone (raw c) s).1, (s, o)). cbn [fst snd].
  rewrite Hfind, decide_False by done. rewrite run_bind.
  change (st_GetZone (S:=DHS * O) zone) with (on_fst (O:=O) (default None <$> get_zone zone)).
  unfold on_fst at 1 2. cbn [fst snd]. rewrite !run_fmap, Hget. cbn [fst snd default id].
  rewrite Hsec, andb_false_r. rewrite run_bind. cbn [mret M_ret fst snd orb].
  set (c1 := set_zone z _ false (locate c)).
  assert (Hraw : raw c1 = raw c) by (rewrite (raw_name_ext c1 (locate c)) by done; exact Er).
  assert (Hres : (resolve (S:=DHS * O) unicode_lower Fqdn geoip z zone (CnameFlattening (Zone.Config z)) (raw c1) c1 (s', o)).1
                 = Some (append_Answer rrs c1)).
  { rewrite same_as_content by (unfold cache_expired in *; rewrite (init_clock _ _ _ _ Hi) in Hclock; lia).
    unfold rrs. rewrite <-Et, <-Es, <-Hraw. apply (resolve_described e l zone _ z c1); try done.
    - apply (describes_ext s); [done|]. by apply (initialized_describes s0).
    - rewrite Hraw. by apply Hfind.
    - by rewrite Hraw, Hq.
    - destruct Hns as [->|?]; [left|by right]. rewrite Hraw, Hq. unfold name_of. by rewrite decide_True.
    - intros E. apply Hrrs. unfold rrs. rewrite <-Et, <-Es, <-Hraw. exact E. }
  rewrite Hres. done.
Qed.
End end_to_end.

(** ** The theorem *)
Section documents_answered.
Context {T : Type → Type} `{IRadixLaws T} {RS RC ZC CK : Type}.
Context `{!RedisOps RS, !Cache RC AnyRRSet, !Cache ZC (Zone T), !Clock CK, !JsonDocs}.
Context {rstr : RS → string → option string} {rset : RS → string → gset string}.
Context `{!RedisSpec RS rstr rset}.
Context {time : CK → Z} `{!ClockLaws CK time}.
Context {zones : ZC → gmap string (Zone T)} `{!CacheLaws ZC (Zone T) zones}.
Context {O F : Type} `{!Outside O, !Float64 F}.
Variable unicode_lower : string → string.
Variable Fqdn : string → string.
Variable geoip : GeoIp F.
Variable TypeToString : Z → string.
Variable unmarshal_config : string → ZoneConfig → ZoneConfig.
Variable NewRR : string → res string (option RR).
Variable NewPrivateKey : RR → string → res string string.
Variable KeyTag : RR → Z.
Variable Sign : RR → string → list RR → option RR.
Variable map_order : gmap RRSetKey (list RR) → list (RRSetKey * list RR).
Variable tc : TestCase.
Abbreviation config := (handler_config (RedisDataConfig tc)).
Abbreviation raw := (raw_name unicode_lower).
Abbreviation parsed := (ZoneConfigFromJson Fqdn unmarshal_config).
Implicit Types (s : DH T RS RC ZC CK) (o : O) (c : RequestContext T).

Hypothesis Set_works : ∀ k v rs, (redis_Set k v rs).1 = Ok ().
Hypothesis SMembers_works : ∀ k rs, is_ok (redis_SMembers k rs).1 = true.
Hypothesis Get_works : ∀ k rs e, (redis_Get k rs).1 = Err e → e = ErrNil.
Hypothesis Clear_empties : ∀ rs rs', redis_Del "*" rs = (Ok (), rs') →
  ∀ k, rstr rs' k = None ∧ rset rs' k = ∅.
Hypothesis type_str_no_colon : ∀ t, t ∈ record_types → no_colon (type_string TypeToString t).
Hypothesis type_str_inj : ∀ t t', t ∈ record_types → t' ∈ record_types →
  type_string TypeToString t = type_string TypeToString t' → t = t'.
Hypothesis tc_plain : plain tc.
Context (LogSourceLocation : bool).
#[local] Instance tc_dh : DataStore T (DH T RS RC ZC CK) :=
  dh_store config TypeToString Fqdn unmarshal_config NewRR NewPrivateKey KeyTag Sign.
Abbreviation handle := (HandleRequest (S:=DH T RS RC ZC CK * O) unicode_lower Fqdn geoip LogSourceLocation KeyTag Sign map_order).
Abbreviation locate := (locate_source geoip LogSourceLocation).


(** The same for a whole test case: one that expects these records, in the order of
    their texts, passes. [reply] leaves a response as it is when there is no OPT record
    and it fits into a packet. *)
Variable reply : Query → Msg → Msg.
Context {rr_String : RR → string} {Sort : list RR → list RR} `{!Sorter rr_String Sort}.
Abbreviation verify :=
  (DefaultApplyAndVerify (S:=DH T RS RC ZC CK * O) unicode_lower Fqdn geoip LogSourceLocation KeyTag Sign map_order reply Sort).

Lemma documented_case_passes s0 s o zone l e k :
  DefaultInitialize TypeToString tc s0 = (Some (Ok ()), s) →
  zones (dh_zoneCache s0) = ∅ → cache_expired (time:=time) config s0 →
  entry_of tc zone l e → (∀ e', entry_of tc zone l e' → e' = e) → documents_kept tc e →
  (∀ json now, config_of tc zone json → DnsSec (parsed zone json now) = false) →
  CNAME_Empty (entry_value tc (le_CNAME e)) = true → (l = "@" ∨ NS_Empty (entry_value tc (le_NS e)) = true) →
  zone ≠ empty_str →
  let c := case_context (T:=T) Fqdn k in
  raw c = name_of l zone →
  (∀ zn, zn ∈ Zones tc → encloses zn (raw c) → (String.length zn ≤ String.length zone)%nat) →
  let rrs := entry_answer Fqdn geoip tc e (raw c) (QType c) (SourceIp c) (Nanosecond o).1 in
  rrs ≠ [] → Forall (λ a, non_nil a = true) rrs → (∀ m, reply (Case_Msg Fqdn k) m = m) →
  TestCases tc = [k] → Case_Rcode k = dns.RcodeSuccess →
  Case_Answer k = Sort rrs → Case_Ns k = [] → Case_Extra k = [] →
  (verify (TestCases tc) (s, o)).1 = Passed.
Proof.
  intros Hinit Hzc Hck He Honly Hkept Hcfg Hcn Hns Hne c Hq Hmax rrs Hrrs Hnil Hreply -> Hrc Ha Hn Hx.
  pose proof (DefaultInitialize_initialized (rstr:=rstr) (rset:=rset) TypeToString tc Set_works
    Clear_empties SMembers_works type_str_no_colon tc_plain s0 s Hinit) as Hi.
  destruct (initialized_answered (rstr:=rstr) (rset:=rset) (time:=time) (zones:=zones) unicode_lower Fqdn geoip TypeToString
    unmarshal_config NewRR NewPrivateKey KeyTag Sign map_order tc config SMembers_works Get_works type_str_no_colon
    type_str_inj tc_plain LogSourceLocation s0 s o zone l e c Hi Hzc Hck He Honly Hkept Hcfg Hcn Hns Hne Hq Hmax Hrrs)
    as (z & _ & Hrun).
  cbn [DefaultApplyAndVerify]. rewrite run_bind. fold c.
  match type of Hrun with (?h _).1 = _ => destruct (h (s, o)) as [st s2] eqn:E end. cbn [fst snd] in *. subst st.
  match goal with |- (match (?h _).1 with _ => _ end _).1 = _ => assert (h (s, o) = (Some (append_Answer rrs
    (set_zone z (DomainId (Zone.Config z)) false (locate c))), s2)) as -> by exact E end.
  cbn [fst snd]. rewrite Hreply. assert (SortAndCheck Sort (Response (append_Answer rrs
    (set_zone z (DomainId (Zone.Config z)) false (locate c)))) k = fine) as ->; [|done].
  assert (Hempty : Sort [] = []) by (apply Permutation_nil; symmetry; apply (law_Sort_perm (rr_String:=rr_String))).
  apply (SortAndCheck_spec rr_String _). unfold Response, append_Answer, set_Answer, set_sections, set_zone.
  cbn [Request.Rcode MsgAnswer MsgNs MsgExtra Res Answer Authority Additional].
  assert (Hl : Res (locate c) = dns.RcodeSuccess ∧ Answer (locate c) = [] ∧ Authority (locate c) = [] ∧ Additional (locate c) = [])
    by (unfold locate_source; by destruct LogSourceLocation).
  destruct Hl as (-> & -> & -> & ->). rewrite Ha, Hn, Hx, Hempty. cbn [app].
  split_and!; [done| |try constructor..].
  assert (Hall : Forall (λ a, non_nil a = true) (Sort rrs)) by by rewrite (law_Sort_perm (rr_String:=rr_String)).
  revert Hall. fold rrs. generalize (Sort rrs) as sorted. intros sorted.
  induction 1; constructor; [by apply agrees_refl|done].
Qed.
End documents_answered.
