(* ===== verification/PerfGen.v ===== *)
(** * The generator of load: [tools/perf/gen/gen.go]

    It fills redis with zones of random names through the data handler, and writes
    [query.txt], a line for each name with the answer that is expected, and a zone
    file for each zone. The random sources are the class [Rand]. The loop of
    [RandomString] skips values by chance; it has fuel, and
    [RandomString_letters] says what the sources must give for it to end. *)
From S2P Require Import Prelude GoStrings DnsTypes GoText Redis Radix Zone Store DataHandler Config.
Local Open Scope Z_scope.

(** ** [RandomString] *)
Class Rand (G : Type) := {
  Int63 : M G Z;         (* of [src] *)
  Intn : Z → M G Z;      (* of the global source *)
  rand_Int : M G Z;
}.

Definition letterBytes : string := "abcdefghijklmnopqrstuvwxyz".
Definition letterIdxBits : Z := 6.
Definition letterIdxMask : Z := Z.shiftl 1 letterIdxBits - 1.
Definition letterIdxMax : Z := 63 / letterIdxBits.
Definition suffix : string := ".tst.".

(** Why the generator did not finish: a string is still being drawn, or a file cannot
    be created. *)
Inductive GenStop := StillDrawing | CannotCreate (file : string).

Section random.
Context {G : Type} `{!Rand G}.

Fixpoint RandomString_loop (fuel : nat) (b : list byte) (i cache remain : Z) : M G (res GenStop string) :=
  if i <? 0 then mret (Ok (str b)) else
  match fuel with
  | O => mret (Err StillDrawing)
  | S fuel =>
    drawn ← (if remain =? 0 then v ← Int63; mret (v, letterIdxMax) else mret (cache, remain));
    let '(cache, remain) := (drawn : Z * Z) in
    let idx := Z.land cache letterIdxMask in
    let next := RandomString_loop fuel in
    match bytes letterBytes !! Z.to_nat idx with
    | Some letter => next (<[Z.to_nat i := letter]> b) (i - 1) (Z.shiftr cache letterIdxBits) (remain - 1)
    | None => next b i (Z.shiftr cache letterIdxBits) (remain - 1)
    end
  end.
Definition RandomString (fuel : nat) (n : nat) : M G (res GenStop string) :=
  cache ← Int63;
  RandomString_loop fuel (replicate n "000"%char) (Z.of_nat n - 1) cache letterIdxMax.

(** *** What it returns

    The letters that a value stands for, low digits first, and those of [k] values. *)
Definition digit (v : Z) (j : nat) : Z := Z.land (Z.shiftr v (letterIdxBits * Z.of_nat j)) letterIdxMask.
Definition letters_of (v : Z) (j : nat) : list byte :=
  omap (λ j, bytes letterBytes !! Z.to_nat (digit v j)) (seq j (Z.to_nat letterIdxMax - j)).
Fixpoint drawn (k : nat) (g : G) : list byte * G :=
  match k with
  | O => ([], g)
  | S k => let '(v, g1) := Int63 g in let '(l, g2) := drawn k g1 in (letters_of v 0 ++ l, g2)
  end.

Lemma letters_of_step v j :
  (j < 10)%nat →
  letters_of v j = match bytes letterBytes !! Z.to_nat (digit v j) with Some b => [b] | None => [] end
                   ++ letters_of v (S j).
Proof.
  intros Hj. unfold letters_of. change (Z.to_nat letterIdxMax) with 10%nat.
  replace (10 - j)%nat with (S (10 - S j)) by lia. cbn [seq omap list_omap]. by destruct (_ !! _).
Qed.
Lemma letters_of_end v : letters_of v 10 = [].
Proof. done. Qed.
Lemma digit_shift v j : Z.land (Z.shiftr v (6 * Z.of_nat j)) letterIdxMask = digit v j.
Proof. done. Qed.
Lemma shift_next v j : Z.shiftr (Z.shiftr v (6 * Z.of_nat j)) letterIdxBits = Z.shiftr v (6 * Z.of_nat (S j)).
Proof. rewrite Z.shiftr_shiftr by (unfold letterIdxBits; lia). f_equal. unfold letterIdxBits. lia. Qed.

(** Where the loop is: at digit [j] of [v], with [i] letters missing and [k] more values
    to come, none of them to spare. *)
Definition needed (v : Z) (j k i : nat) (g : G) : Prop :=
  k = 0%nat ∨ (length (letters_of v j ++ (drawn (pred k) g).1) < i)%nat.

Lemma loop_redraw fuel b i cache g :
  0 ≤ i →
  RandomString_loop (S fuel) b i cache 0 g
  = RandomString_loop (S fuel) b i (Int63 g).1 letterIdxMax (Int63 g).2.
Proof.
  intros Hi. cbn [RandomString_loop]. rewrite (proj2 (Z.ltb_ge i 0)) by done. rewrite !run_bind.
  cbn [Z.eqb mret M_ret fst snd]. rewrite run_bind. by destruct (Int63 g).
Qed.
Lemma loop_digit fuel b i v j g :
  (j < 10)%nat →
  RandomString_loop (S fuel) b (Z.of_nat (S i) - 1) (Z.shiftr v (6 * Z.of_nat j)) (Z.of_nat (10 - j)) g
  = match bytes letterBytes !! Z.to_nat (digit v j) with
    | Some l => RandomString_loop fuel (<[i := l]> b) (Z.of_nat i - 1) (Z.shiftr v (6 * Z.of_nat (S j))) (Z.of_nat (10 - S j)) g
    | None => RandomString_loop fuel b (Z.of_nat (S i) - 1) (Z.shiftr v (6 * Z.of_nat (S j))) (Z.of_nat (10 - S j)) g
    end.
Proof.
  intros Hj. cbn [RandomString_loop]. rewrite (proj2 (Z.ltb_ge _ 0)) by lia. rewrite run_bind.
  rewrite (proj2 (Z.eqb_neq _ 0)) by lia. cbn [mret M_ret fst snd]. rewrite shift_next, digit_shift.
  replace (Z.of_nat (10 - j) - 1) with (Z.of_nat (10 - S j)) by lia. replace (Z.of_nat (S i) - 1) with (Z.of_nat i) by lia.
  rewrite Nat2Z.id. by case_match.
Qed.

Lemma RandomString_loop_letters fuel k v j i acc g :
  (j ≤ 10)%nat → (10 * k + (10 - j) ≤ fuel)%nat → needed v j k i g →
  let ls := letters_of v j ++ (drawn k g).1 in
  (i ≤ length ls)%nat →
  RandomString_loop fuel (replicate i "000"%char ++ acc) (Z.of_nat i - 1) (Z.shiftr v (6 * Z.of_nat j)) (Z.of_nat (10 - j)) g
  = (Ok (str (reverse (take i ls) ++ acc)), (drawn k g).2).
Proof.
  revert k v j i acc g. induction fuel as [|fuel IH]; intros k v j i acc g Hj Hf Hn ls Hi.
  { assert (k = 0%nat) as -> by lia. assert (j = 10%nat) as -> by lia. simpl in Hi. assert (i = 0%nat) as -> by lia. done. }
  assert (Hdigit : ∀ k v j i acc g, (j < 10)%nat → (10 * k + (10 - j) ≤ S fuel)%nat → needed v j k (S i) g →
    (S i ≤ length (letters_of v j ++ (drawn k g).1))%nat →
    RandomString_loop (S fuel) (replicate (S i) "000"%char ++ acc) (Z.of_nat (S i) - 1) (Z.shiftr v (6 * Z.of_nat j)) (Z.of_nat (10 - j)) g
    = (Ok (str (reverse (take (S i) (letters_of v j ++ (drawn k g).1)) ++ acc)), (drawn k g).2)).
  { clear -IH. intros k v j i acc g Hj Hf Hn Hi. rewrite loop_digit by done.
    unfold needed in Hn. rewrite letters_of_step in * by done.
    destruct (bytes letterBytes !! Z.to_nat (digit v j)) as [l|] eqn:El.
    - replace (<[i:=l]> (replicate (S i) "000"%char ++ acc)) with (replicate i "000"%char ++ l :: acc).
      2:{ rewrite replicate_S_end, <-app_assoc. rewrite insert_app_r_alt by by rewrite length_replicate.
          by rewrite length_replicate, Nat.sub_diag. }
      rewrite (IH k v (S j) i (l :: acc) g) by (simpl in *; unfold needed; lia). simpl. by rewrite reverse_cons, <-app_assoc.
    - by rewrite (IH k v (S j) (S i) acc g) by (simpl in *; unfold needed; lia). }
  destruct i as [|i].
  { assert (k = 0%nat) as -> by (destruct Hn; lia). by destruct fuel. }
  destruct (decide (j = 10%nat)) as [->|]; [|apply Hdigit; (done || lia)].
  unfold ls in *. rewrite letters_of_end in *. simpl in Hi. destruct k as [|k]; [simpl in Hi; lia|].
  rewrite loop_redraw by lia. cbn [drawn] in *. unfold needed in Hn. destruct (Int63 g) as [v' g1] eqn:E. cbn [fst snd] in *.
  specialize (Hdigit k v' 0%nat i acc g1). cbn [Z.of_nat Z.mul] in Hdigit. rewrite Z.shiftr_0_r in Hdigit.
  destruct (drawn k g1) as [l g2] eqn:Ed. cbn [fst snd] in *. apply Hdigit; [lia|lia| |done].
  destruct k as [|k]; [by left|right]. destruct Hn as [|Hn]; [done|]. cbn [pred drawn] in *.
  rewrite letters_of_end, E in Hn. simpl in Hn. by destruct (drawn k g1).
Qed.

(** C39. The string is the first [n] letters that the source gives, from the last to the
    first; no value is drawn that is not needed, except the first. The loop ends as
    soon as [k] values have [n] letters among them. *)
Theorem RandomString_letters fuel n k g :
  (10 * k ≤ fuel)%nat → (n ≤ length (drawn k g).1)%nat → (0 < k)%nat →
  (k = 1 ∨ length (drawn (k - 1) g).1 < n)%nat →
  RandomString fuel n g = (Ok (str (reverse (take n (drawn k g).1))), (drawn k g).2).
Proof.
  intros Hf Hn Hk Hmin. unfold RandomString. rewrite run_bind. destruct k as [|k]; [lia|].
  cbn [drawn] in *. destruct (Int63 g) as [v g1] eqn:E. cbn [fst snd].
  pose proof (RandomString_loop_letters fuel k v 0 n [] g1) as HL. cbv zeta in HL.
  rewrite !app_nil_r in HL. cbn [Z.of_nat Z.mul] in HL. rewrite Z.shiftr_0_r in HL.
  destruct (drawn k g1) as [l g2] eqn:Ed. cbn [fst snd] in *. apply HL; [lia|lia| |done].
  destruct k as [|k]; [by left|right]. destruct Hmin as [?|Hmin]; [lia|]. simpl in Hmin. rewrite E in Hmin.
  cbn [pred]. by destruct (drawn k g1).
Qed.

(** Whatever the fuel, what it returns has the length and is made of letters. *)
Definition letters (s : string) : Prop := Forall (λ b, b ∈ bytes letterBytes) (bytes s).

Lemma loop_returns fuel i acc cache remain g s :
  (RandomString_loop fuel (replicate i "000"%char ++ acc) (Z.of_nat i - 1) cache remain g).1 = Ok s →
  Forall (λ b, b ∈ bytes letterBytes) acc → letters s ∧ length (bytes s) = (i + length acc)%nat.
Proof.
  revert i acc cache remain g. induction fuel as [|fuel IH]; intros i acc cache remain g; cbn [RandomString_loop];
    (destruct (Z.ltb_spec (Z.of_nat i - 1) 0) as [Hi|Hi];
     [assert (i = 0%nat) as -> by lia; intros [= <-] Ha; unfold letters; rewrite bytes_str; done|]); [done|].
  rewrite run_bind. match goal with |- context [(if ?t then ?m1 else ?m2) g] =>
    destruct ((if t then m1 else m2) g) as [[cache' remain'] g'] end.
  cbn [fst snd]. destruct (bytes letterBytes !! _) as [l|] eqn:El; [|apply IH].
  destruct i as [|i]; [lia|]. replace (Z.of_nat (S i) - 1) with (Z.of_nat i) by lia. rewrite Nat2Z.id.
  replace (<[i:=l]> (replicate (S i) "000"%char ++ acc)) with (replicate i "000"%char ++ l :: acc).
  2:{ rewrite replicate_S_end, <-app_assoc. rewrite insert_app_r_alt by by rewrite length_replicate.
      by rewrite length_replicate, Nat.sub_diag. }
  intros Hs Ha. destruct (IH _ _ _ _ _ Hs) as [Hl Hn]; [constructor; [by eapply list_elem_of_lookup_2|done]|].
  split; [done|]. simpl in Hn. lia.
Qed.
Lemma RandomString_returns fuel n g s :
  (RandomString fuel n g).1 = Ok s → letters s ∧ length (bytes s) = n.
Proof.
  unfold RandomString. rewrite run_bind. intros Hs.
  pose proof (loop_returns fuel n [] (Int63 g).1 letterIdxMax (Int63 g).2 s) as HL.
  rewrite app_nil_r, Nat.add_0_r in HL. by apply HL.
Qed.
Lemma letter_word b : b ∈ bytes letterBytes → (N_of_ascii b < 128)%N ∧ isSpace (N_of_ascii b) = false ∧ b ≠ dot ∧ b ≠ colon.
Proof.
  assert (Hall : Forall (λ b, (N_of_ascii b < 128)%N ∧ isSpace (N_of_ascii b) = false ∧ b ≠ dot ∧ b ≠ colon) (bytes letterBytes))
    by by apply (bool_decide_unpack _).
  rewrite Forall_forall in Hall. apply Hall.
Qed.
Lemma letters_word s : letters s → word s.
Proof. intros Hs. eapply Forall_impl; [exact Hs|]. intros b Hb%letter_word. tauto. Qed.
End random.

(** ** [main] *)

(** The documents for the data handler. *)
Definition json_a (ip : string) : string :=
  "{" +:+ quoted "a" +:+ ":{" +:+ quoted "ttl" +:+ ":300, " +:+ quoted "records" +:+ ":[{" +:+ quoted "ip" +:+ ":"
  +:+ quoted ip +:+ "}]}}".
Definition json_cname (host : string) : string :=
  "{" +:+ quoted "cname" +:+ ":{" +:+ quoted "ttl" +:+ ":300, " +:+ quoted "host" +:+ ":" +:+ quoted host +:+ "}}".
Definition json_txt (txt : string) : string :=
  "{" +:+ quoted "txt" +:+ ":{" +:+ quoted "ttl" +:+ ":300, " +:+ String dquote "records:{" +:+ quoted "text" +:+ ":"
  +:+ quoted txt +:+ "}" +:+ String dquote "}}".

(** The lines of [query.txt] and of a zone file. *)
Definition query_line (location zoneName : string) (t rcode : Z) (answer : string) : string :=
  location +:+ "." +:+ zoneName +:+ " " +:+ Itoa t +:+ " " +:+ Itoa rcode +:+ answer +:+ line_end.
Definition zone_header (zoneName : string) : string :=
  "$ORIGIN " +:+ zoneName +:+ line_end
  +:+ "$TTL 300" +:+ line_end +:+ line_end
  +:+ "@       SOA ns1 hostmaster (" +:+ line_end
  +:+ "1      ; serial" +:+ line_end
  +:+ "7200   ; refresh" +:+ line_end
  +:+ "30M    ; retry" +:+ line_end
  +:+ "3D     ; expire" +:+ line_end
  +:+ "900    ; ncache" +:+ line_end
  +:+ ")" +:+ line_end
  +:+ "@ NS ns1." +:+ zoneName +:+ line_end
  +:+ "ns1 A 1.2.3.4" +:+ line_end +:+ line_end.

(** The configuration of the data handler; the address of redis is a flag. *)
Definition gen_storage (addr : string) : StorageConfig := {|
  sc_ZoneCacheSize := 10000; sc_ZoneCacheTimeout := 60; sc_ZoneReload := 1;
  sc_RecordCacheSize := 1000000; sc_RecordCacheTimeout := 60;
  sc_Redis := {|
    Address := addr; rc_Net := "tcp"; rc_DB := 0; Password := empty_str;
    rc_Prefix := empty_str; rc_Suffix := empty_str;
    rc_Connection := {| MaxIdleConnections := 10; MaxActiveConnections := 10; ConnectTimeout := 600;
      ReadTimeout := 600; IdleKeepAlive := 6000; MaxKeepAlive := 6000; WaitForConnection := true |} |};
  sc_MinTTL := 5; sc_MaxTTL := 300 |}.

(** What is left when [main] returns at its end. *)
Record Generated := { query_txt : string; zone_files : list (string * string) }.
(** The flags. *)
Record GenFlags := { fl_zones : Z; fl_entries : Z; fl_type : string; fl_addr : string }.

Section main.
Context {G : Type} `{!Rand G} {T : Type → Type} `{!IRadix T} {RS RC ZC CK : Type}.
Context `{!RedisOps RS, !JsonDocs}.
Variable TypeToString : Z → string.
Variable Create : string → bool.  (* whether os.Create succeeds *)
Variable fuel : nat.
Variable flags : GenFlags.
Abbreviation DHS := (DH T RS RC ZC CK).
Abbreviation config := (handler_config (gen_storage (fl_addr flags))).
Abbreviation S := (G * DHS)%type.

Definition on_rand {A} (m : M G A) : M S A := λ s, let '(a, g) := m s.1 in (a, (g, s.2)).
Definition on_dh {A} (m : M DHS A) : M S A := λ s, let '(a, d) := m s.2 in (a, (s.1, d)).
Definition random_string (n : nat) : M S (res GenStop string) := on_rand (RandomString fuel n).
(** Errors of the data handler are dropped. *)
Definition set_location (zone location json : string) : M S (res StoreError ()) :=
  on_dh (SetLocationFromJson config TypeToString zone location json).

(** [fmt.Sprintf("%d.%d.%d.%d", rand.Intn(256), ...)] *)
Definition random_ip : M S string :=
  a ← on_rand (Intn 256); b ← on_rand (Intn 256); c ← on_rand (Intn 256); d ← on_rand (Intn 256);
  mret (Itoa a +:+ "." +:+ Itoa b +:+ "." +:+ Itoa c +:+ "." +:+ Itoa d).

(** One pass of the loop over the entries: what it adds to [query.txt] and to the zone
    file. *)
Definition gen_entry (zoneName : string) : M S (res GenStop (string * string)) :=
  if decide (fl_type flags = "cname") then
    must location1 ← random_string 15;
    must location2 ← random_string 15;
    _ ← set_location zoneName location1 (json_cname (location2 +:+ "." +:+ zoneName +:+ "."));
    ip ← random_ip;
    _ ← set_location zoneName location2 (json_a ip);
    mret (Ok (query_line location1 zoneName dns.TypeA dns.RcodeSuccess (" " +:+ ip),
              location1 +:+ " CNAME " +:+ location2 +:+ line_end +:+ location2 +:+ " A " +:+ ip +:+ line_end))
  else if decide (fl_type flags = "txt") then
    must location ← random_string 15;
    must txt ← random_string 200;
    _ ← set_location zoneName location (json_txt txt);
    mret (Ok (query_line location zoneName dns.TypeTXT dns.RcodeSuccess (" " +:+ txt),
              location +:+ " TXT " +:+ quoted txt))
  else if decide (fl_type flags = "nxdomain") then
    must location ← random_string 15;
    mret (Ok (query_line location zoneName dns.TypeA dns.RcodeNameError empty_str, empty_str))
  else
    must location ← random_string 15;
    ip ← random_ip;
    _ ← set_location zoneName location (json_a ip);
    mret (Ok (query_line location zoneName dns.TypeA dns.RcodeSuccess (" " +:+ ip),
              location +:+ " A " +:+ ip +:+ line_end)).

Fixpoint gen_entries (zoneName : string) (n : nat) : M S (res GenStop (string * string)) :=
  match n with
  | O => mret (Ok (empty_str, empty_str))
  | Datatypes.S n =>
    must e ← gen_entry zoneName;
    must es ← gen_entries zoneName n;
    mret (Ok (e.1 +:+ es.1, e.2 +:+ es.2))
  end.

(** The loop over the zones. *)
Fixpoint gen_zones (n : nat) : M S (res GenStop Generated) :=
  match n with
  | O => mret (Ok {| query_txt := empty_str; zone_files := [] |})
  | Datatypes.S n =>
    must name ← random_string 15;
    let zoneName := name +:+ suffix in
    let file := "../" +:+ zoneName in
    if negb (Create file) then mret (Err (CannotCreate file)) else
    _ ← on_dh (EnableZone zoneName);
    must es ← gen_entries zoneName (Z.to_nat (fl_entries flags));
    must zs ← gen_zones n;
    mret (Ok {| query_txt := es.1 +:+ query_txt zs;
                zone_files := (file, zone_header zoneName +:+ es.2) :: zone_files zs |})
  end.

(** After [NewDataHandler]. *)
Definition gen_main : M S (res GenStop Generated) :=
  _ ← on_dh Clear;
  if negb (Create "../query.txt") then mret (Err (CannotCreate "../query.txt"))
  else gen_zones (Z.to_nat (fl_zones flags)).
End main.
