(* ===== verification/PerfBulk.v ===== *)
(** * The load test: [tools/perf/bulk/bulk.go]

    It reads the lines of [query.txt], asks a server for names among them, chosen at
    random, and compares the answers with those expected. The exchange over the
    network is a parameter; what is printed is a list of reports (without the
    progress, every million queries). *)
From S2P Require Import Prelude GoStrings DnsTypes GoText PerfGen.
Local Open Scope Z_scope.

Record query := { queryAddr : string; queryType : Z; resultCode : Z; queryResult : string }.

(** [fmt.Sscan(line, &q.queryAddr, &q.queryType, &q.resultCode, &q.queryResult)] on a
    zero value: the scan stops at the first operand that cannot be read. *)
Definition Sscan_query (line : string) : query :=
  match scan_string (text line) with
  | None => {| queryAddr := empty_str; queryType := 0; resultCode := 0; queryResult := empty_str |}
  | Some (addr, l) =>
    match scan_int l with
    | None => {| queryAddr := addr; queryType := 0; resultCode := 0; queryResult := empty_str |}
    | Some (t, l) =>
      match scan_int l with
      | None => {| queryAddr := addr; queryType := t; resultCode := 0; queryResult := empty_str |}
      | Some (code, l) =>
        {| queryAddr := addr; queryType := t; resultCode := code;
           queryResult := match scan_string l with Some (answer, _) => answer | None => empty_str end |}
      end
    end
  end.
Definition read_queries (content : string) : list query := Sscan_query <$> read_lines content.

(** What is printed for one query. *)
Inductive report :=
| ExchangeError (err : string) (q : query)
| BadResponse (rcode : Z)
| EmptyResponse
| IncorrectAnswer (expected got : string).

(** After a response: the loop goes on (with a report, or none), ends, or panics at a
    type assertion or an index. *)
Inductive verdict := Next (r : option report) | Stops (r : report) | Panics.
Definition check (q : query) (rcode : Z) (answer : list RR) : verdict :=
  if negb (rcode =? resultCode q) then Stops (BadResponse rcode)
  else if negb (resultCode q =? dns.RcodeSuccess) then Next None
  else match answer with
  | [] => Stops EmptyResponse
  | r :: _ =>
    let t := queryType q `mod` 2 ^ 16 in
    if t =? dns.TypeA then
      match Data r with
      | RD_A a =>
        Next (if bool_decide (IP_String a = queryResult q) then None
              else Some (IncorrectAnswer (queryResult q) (IP_String a)))
      | _ => Panics
      end
    else if t =? dns.TypeTXT then
      match Data r with
      | RD_TXT (txt :: _) =>
        Next (if bool_decide (txt = queryResult q) then None else Some (IncorrectAnswer (queryResult q) txt))
      | _ => Panics
      end
    else Next None
  end.

(** How [main] ended, with what it printed: a division by zero, a panic, or the total
    time. *)
Inductive ending := NotOpened | Panicked (printed : list report) | Finished (printed : list report) (duration : Z).

Section bulk.
Context {N : Type} `{!Rand N}.
(** The response code, the answer section and the time it took. *)
Variable Exchange : string → Z → M N (res string (Z * list RR * Z)).
Variable queries : list query.

Fixpoint bulk_loop (n : nat) (printed : list report) (duration : Z) : M N ending :=
  match n with
  | O => mret (Finished printed duration)
  | S n =>
    k ← rand_Int;
    match queries !! Z.to_nat (k `mod` Z.of_nat (length queries)) with
    | None => mret (Panicked printed)
    | Some q =>
      r ← Exchange (queryAddr q) (queryType q `mod` 2 ^ 16);
      match r with
      | Err e => bulk_loop n (printed ++ [ExchangeError e q]) duration
      | Ok (rcode, answer, rtt) =>
        let duration' := if resultCode q =? dns.RcodeSuccess then wrap64 (duration + rtt) else duration in
        match check q rcode answer with
        | Next None => bulk_loop n printed duration'
        | Next (Some r) => bulk_loop n (printed ++ [r]) duration'
        | Stops r => mret (Finished (printed ++ [r]) duration)
        | Panics => mret (Panicked printed)
        end
      end
    end
  end.
End bulk.

(** [-num] is [num]; the file is what [os.Open] finds. *)
Definition bulk_main {N} `{!Rand N} (Exchange : string → Z → M N (res string (Z * list RR * Z)))
    (file : option string) (num : Z) : M N ending :=
  match file with
  | None => mret NotOpened
  | Some content => bulk_loop Exchange (read_queries content) (Z.to_nat num) [] 0
  end.

(** ** What the generator writes is read back *)
Lemma scan_int_A rest : scan_int (text (" 1 " +:+ rest)) = Some (dns.TypeA, text (" " +:+ rest)).
Proof. reflexivity. Qed.
Lemma scan_int_TXT rest : scan_int (text (" 16 " +:+ rest)) = Some (dns.TypeTXT, text (" " +:+ rest)).
Proof. reflexivity. Qed.
Lemma scan_int_0 rest : scan_int (text (" 0 " +:+ rest)) = Some (dns.RcodeSuccess, text (" " +:+ rest)).
Proof. reflexivity. Qed.
Lemma scan_int_3 : scan_int (text (" 3" +:+ line_end)) = Some (dns.RcodeNameError, text line_end).
Proof. reflexivity. Qed.

Lemma scan_line addr t answer :
  word addr → addr ≠ empty_str → word answer → answer ≠ empty_str → t = dns.TypeA ∨ t = dns.TypeTXT →
  Sscan_query (addr +:+ " " +:+ Itoa t +:+ " " +:+ Itoa dns.RcodeSuccess +:+ " " +:+ answer +:+ line_end)
  = {| queryAddr := addr; queryType := t; resultCode := dns.RcodeSuccess; queryResult := answer |}.
Proof.
  intros Ha Hne Hw Hne' Ht. unfold Sscan_query. rewrite scan_word; [|done|done|by intros r [= <-]].
  assert (scan_int (text (" " +:+ Itoa t +:+ " " +:+ Itoa dns.RcodeSuccess +:+ " " +:+ answer +:+ line_end))
          = Some (t, text (" 0 " +:+ answer +:+ line_end))) as -> by (destruct Ht as [-> | ->]; reflexivity).
  rewrite scan_int_0, scan_string_space, scan_word; [done..|by intros r [= <-]].
Qed.
Lemma scan_nxdomain_line addr :
  word addr → addr ≠ empty_str →
  Sscan_query (addr +:+ " " +:+ Itoa dns.TypeA +:+ " " +:+ Itoa dns.RcodeNameError +:+ line_end)
  = {| queryAddr := addr; queryType := dns.TypeA; resultCode := dns.RcodeNameError; queryResult := empty_str |}.
Proof.
  intros Ha Hne. unfold Sscan_query. rewrite scan_word; [|done|done|by intros r [= <-]]. reflexivity.
Qed.

(** ** Where the comparison fails *)

(** A name with an alias: the first record of a correct answer is the CNAME, and the
    load test panics on it. *)
Lemma check_cname q r rest target :
  resultCode q = dns.RcodeSuccess → queryType q = dns.TypeA → Data r = RD_CNAME target →
  check q dns.RcodeSuccess (r :: rest) = Panics.
Proof. unfold check. intros -> -> ->. done. Qed.

(** A wrong address is reported, and the test goes on: the [break] after the report
    leaves the [switch] only. *)
Lemma check_incorrect q r rest a :
  resultCode q = dns.RcodeSuccess → queryType q = dns.TypeA → Data r = RD_A a → IP_String a ≠ queryResult q →
  check q dns.RcodeSuccess (r :: rest) = Next (Some (IncorrectAnswer (queryResult q) (IP_String a))).
Proof. unfold check. intros -> -> -> Ha. cbn. by rewrite bool_decide_false. Qed.
