(* ===== verification/PerfEndToEnd.v ===== *)
(** * A load test from end to end: [tools/perf] and the resolver

    The generator ([PerfGen]) writes zones of addresses to redis and the file
    [query.txt]; a resolver starts over that redis; the load test ([PerfBulk]) reads the
    file and compares the answers. What the generator writes is the documents of a test
    case ([TestCase]), so that [EndToEnd] applies to it. *)
From S2P Require Import Prelude GoStrings DnsTypes GoText Redis Radix Zone Geo IpSelect Dnssec Store.
From S2P Require Import Request Handler HandlerFacts HandlerRun DataHandler DataHandlerFacts Updater Config.
From S2P Require Import TestCase EndToEnd PerfGen PerfBulk.
Local Open Scope Z_scope.

Class RandLaws (G : Type) `{!Rand G} : Prop := {
  law_Intn n g : 0 < n → 0 ≤ (Intn n g).1 < n;
}.

(** ** What was drawn

    For each zone its name and its entries: a location and four octets. *)
Definition zone_of (name : string) : string := name +:+ suffix.
Abbreviation planned := (string * (string * list byte))%type.
Abbreviation plan := (list (string * list (string * list byte))).
Definition flat (p : plan) : list planned := p ≫= λ z, pair z.1 <$> z.2.
Definition address_of (e : planned) : string := e.2.1 +:+ "." +:+ zone_of e.1.
Definition query_of (e : planned) : query := {|
  queryAddr := address_of e; queryType := dns.TypeA; resultCode := dns.RcodeSuccess;
  queryResult := dotted e.2.2 |}.
Definition line_of (e : planned) : string :=
  query_line e.2.1 (zone_of e.1) dns.TypeA dns.RcodeSuccess (" " +:+ dotted e.2.2).
Definition concat_lines (ls : list string) : string := foldr String.append empty_str ls.

Definition drawn_name (s : string) : Prop := letters s ∧ length (bytes s) = 15%nat.
Definition drawn_entry (e : string * list byte) : Prop := drawn_name e.1 ∧ length e.2 = 4%nat.
Definition drawn_plan (p : plan) : Prop := Forall (λ z, drawn_name z.1 ∧ Forall drawn_entry z.2) p.

Lemma concat_lines_app l1 l2 : concat_lines (l1 ++ l2) = concat_lines l1 +:+ concat_lines l2.
Proof. induction l1 as [|s l1 IH]; [done|]. simpl. by rewrite IH, string_app_assoc. Qed.
Lemma elem_of_flat p e : e ∈ flat p ↔ ∃ es, (e.1, es) ∈ p ∧ e.2 ∈ es.
Proof.
  unfold flat. rewrite list_elem_of_bind. split.
  - intros ([z es] & Hin & Hz). apply list_elem_of_fmap in Hin as (x & -> & Hx). by exists es.
  - intros (es & Hp & He). exists (e.1, es). split; [|done]. apply list_elem_of_fmap. exists e.2. by destruct e.
Qed.
Lemma drawn_flat p e : drawn_plan p → e ∈ flat p → drawn_name e.1 ∧ drawn_entry e.2.
Proof.
  unfold drawn_plan. rewrite Forall_forall. intros Hp (es & Hes & He)%elem_of_flat.
  destruct (Hp _ Hes) as [Hn Hall]. rewrite Forall_forall in Hall. by split; [|apply Hall].
Qed.

(** *** Its texts *)
Lemma length_bytes s : length (bytes s) = String.length s.
Proof. induction s; simpl; by f_equal. Qed.
Lemma byte_text_word b : word (byte_text b).
Proof. by destruct b as [[] [] [] [] [] [] [] []]; apply (bool_decide_unpack _). Qed.
Lemma byte_text_nonempty b : byte_text b ≠ empty_str.
Proof. by destruct b as [[] [] [] [] [] [] [] []]. Qed.
Lemma byte_text_Itoa a : 0 ≤ a < 256 → byte_text (ascii_of_N (Z.to_N a)) = Itoa a.
Proof.
  intros Ha. unfold byte_text, Itoa. rewrite N_ascii_embedding by lia.
  destruct a as [|a|a]; [done|done|lia].
Qed.
Lemma dotted_word l : word (dotted l).
Proof.
  destruct l as [|a [|b [|c [|d [|]]]]]; try by apply (bool_decide_unpack _).
  simpl. rewrite !word_app. split_and!; try apply byte_text_word; by apply (bool_decide_unpack _).
Qed.
Lemma dotted_nonempty l : length l = 4%nat → dotted l ≠ empty_str.
Proof.
  destruct l as [|a [|b [|c [|d [|]]]]]; try done. intros _ E. simpl in E.
  pose proof (byte_text_nonempty a) as Ha. by destruct (byte_text a).
Qed.
Lemma IP_String_dotted l : length l = 4%nat → IP_String (Some (str (v4InV6Prefix ++ l))) = dotted l.
Proof.
  intros Hl. unfold IP_String.
  change (default empty_str (Some (str (v4InV6Prefix ++ l)))) with (str (v4InV6Prefix ++ l)). rewrite bytes_str.
  destruct l as [|a [|b [|c [|d [|]]]]]; try done.
Qed.
Lemma address_word e : drawn_name e.1 → drawn_name e.2.1 → word (address_of e).
Proof.
  intros [Hz _] [Hl _]. unfold address_of, zone_of. rewrite !word_app.
  split_and!; try (by apply letters_word); by apply (bool_decide_unpack _).
Qed.
Lemma address_nonempty e : address_of e ≠ empty_str.
Proof. unfold address_of. by destruct e.2.1. Qed.

Lemma line_scanned e : drawn_name e.1 → drawn_entry e.2 → Sscan_query (line_of e) = query_of e.
Proof.
  intros Hz [Hl H4]. unfold line_of, query_line, query_of.
  pose proof (scan_line (address_of e) dns.TypeA (dotted e.2.2)) as Hs. unfold address_of in *.
  rewrite !string_app_assoc in *. apply Hs; [|by destruct e.2.1|apply dotted_word|by apply dotted_nonempty|by left].
  exact (address_word e Hz Hl).
Qed.

(** *** As the documents of a test case *)
Definition commands (es : list (string * list byte)) : list (list string) :=
  (λ e, [e.1; json_a (dotted e.2)]) <$> es.
Definition gen_case (addr : string) (p : plan) : TestCase := {|
  tc_Name := empty_str; Description := empty_str; Enabled := true;
  RedisDataConfig := gen_storage addr; HandlerConfig := DefaultHandlerTestConfig;
  Zones := zone_of <$> p.*1; ZoneConfigs := []; Entries := commands <$> p.*2; TestCases := [] |}.

(** The record set that a document stands for: the TTL and one address, in the form
    that [net.ParseIP] gives. *)
Definition a_set (l : list byte) : IP_RRSet := {|
  IP_Generic := {| TtlValue := 300 |};
  IP_FilterConfig := IP_FilterConfig zero_IP_RRSet; IP_HealthCheckConfig := IP_HealthCheckConfig zero_IP_RRSet;
  IP_Data := [{| IP_Weight := 0; IP_Ip := Some (str (v4InV6Prefix ++ l)); IP_Country := []; IP_ASN := [] |}] |}.
Definition a_entry (l : list byte) : locationEntry := {|
  le_A := Some (a_set l); le_AAAA := None; le_CNAME := None; le_TXT := None; le_NS := None;
  le_MX := None; le_SRV := None; le_CAA := None; le_PTR := None; le_TLSA := None; le_DS := None;
  le_ANAME := None |}.
(** The JSON library reads the documents of the generator, and reads back the record
    sets that it writes. *)
Class JsonAddresses `{!JsonDocs} : Prop := {
  law_document l : length l = 4%nat → Unmarshal (json_a (dotted l)) = Ok (a_entry l);
  law_kept l : length l = 4%nat →
    ∃ json, Marshal (a_set l) = Ok json ∧ str_empty json = false ∧ Unmarshal json = Ok (a_set l);
}.

(** ** The generator *)
Section generated.
Context {G : Type} `{!Rand G, !RandLaws G} {T : Type → Type} `{!IRadix T} {RS RC ZC CK : Type}.
Context `{!RedisOps RS, !JsonDocs, !JsonAddresses}.
Context {rstr : RS → string → option string} {rset : RS → string → gset string}.
Context `{!RedisSpec RS rstr rset}.
Variable TypeToString : Z → string.
Variable Create : string → bool.
Variable fuel : nat.
Variable flags : GenFlags.
Abbreviation DHS := (DH T RS RC ZC CK).
Abbreviation config := (handler_config (gen_storage (fl_addr flags))).
Abbreviation wrote := (writes (rstr:=rstr) (rset:=rset)).
Implicit Types s : G * DHS.

Hypothesis Set_works : ∀ k v rs, (redis_Set k v rs).1 = Ok ().
Hypothesis SAdd_works : ∀ k m rs, (redis_SAdd k m rs).1 = Ok ().
(** [-type a], or none of the others. *)
Hypothesis addresses : fl_type flags ∉ ["cname"; "txt"; "nxdomain"].

Lemma random_ip_dotted s :
  ∃ l g, length l = 4%nat ∧ random_ip s = (dotted l, (g, s.2)).
Proof.
  destruct s as [g d]. unfold random_ip, on_rand.
  assert (HI : ∀ g, ∃ b g', Intn 256 g = (Z.of_N (N_of_ascii b), g') ∧ Itoa (Z.of_N (N_of_ascii b)) = byte_text b).
  { intros g1. pose proof (law_Intn 256 g1 ltac:(lia)) as Hr. destruct (Intn 256 g1) as [a g2]. simpl in Hr.
    exists (ascii_of_N (Z.to_N a)), g2. rewrite byte_text_Itoa, N_ascii_embedding, Z2N.id by lia. done. }
  destruct (HI g) as (a & g1 & E1 & T1), (HI g1) as (b & g2 & E2 & T2), (HI g2) as (c & g3 & E3 & T3),
    (HI g3) as (e & g4 & E4 & T4).
  exists [a; b; c; e], g4. split; [done|]. rewrite run_bind. cbn [fst snd]. rewrite E1. cbn [fst snd].
  rewrite run_bind. cbn [fst snd]. rewrite E2. cbn [fst snd]. rewrite run_bind. cbn [fst snd]. rewrite E3. cbn [fst snd].
  rewrite run_bind. cbn [fst snd]. rewrite E4. cbn [fst snd mret M_ret]. by rewrite T1, T2, T3, T4.
Qed.

(** A run of the generator's monad that cannot fail. *)
Lemma run_must {A B} (m : M (G * DHS) (res GenStop A)) (k : A → M (G * DHS) (res GenStop B)) s b s' :
  (must x ← m; k x) s = (Ok b, s') → ∃ a s1, m s = (Ok a, s1) ∧ k a s1 = (Ok b, s').
Proof. rewrite run_bind. destruct (m s) as [[a|e] s1]; [by eauto|done]. Qed.
Lemma random_string_Ok n s x s' :
  random_string fuel n s = (Ok x, s') → letters x ∧ length (bytes x) = n ∧ s'.2 = s.2.
Proof.
  unfold random_string, on_rand. destruct (RandomString fuel n s.1) as [r g] eqn:E. intros [= -> <-].
  split_and!; [| |done]; apply (RandomString_returns fuel n s.1); by rewrite E.
Qed.

(** What the documents of a zone do to redis, for any test case with this configuration. *)
Definition documents_wrote (zone : string) (es : list (string * list byte)) (d d' : DHS) : Prop :=
  ∀ tc, RedisDataConfig tc = gen_storage (fl_addr flags) →
    wrote (commands es ≫= cmd_writes TypeToString tc zone) (commands es ≫= cmd_adds zone) d d'.

Lemma set_location_wrote zone l o s :
  length o = 4%nat →
  documents_wrote zone [(l, o)] s.2 (set_location TypeToString flags zone l (json_a (dotted o)) s).2.2.
Proof.
  intros Ho tc Hc. pose proof (law_document o Ho) as Hu. unfold set_location, on_dh.
  assert (He : (EnableLocation zone l s.2).1 = Ok ()).
  { unfold EnableLocation, redis. pose proof (SAdd_works (zoneLocationsKey zone) l (dh_redis s.2)).
    by destruct (redis_SAdd _ _ _). }
  pose proof (SetLocationFromJson_run config TypeToString zone l _ _ s.2 Hu He) as Hrun.
  pose proof (cmd_wrote TypeToString tc Set_works (rstr:=rstr) (rset:=rset) zone l (json_a (dotted o))
    [l; json_a (dotted o)] s.2 eq_refl eq_refl) as Hw.
  rewrite Hc, Hrun in Hw. rewrite Hrun. unfold commands. csimpl. rewrite !app_nil_r. exact (Hw eq_refl).
Qed.

Lemma gen_entry_wrote name s q s' :
  gen_entry TypeToString fuel flags (zone_of name) s = (Ok q, s') →
  ∃ e, drawn_entry e ∧ q.1 = line_of (name, e) ∧ documents_wrote (zone_of name) [e] s.2 s'.2.
Proof.
  unfold gen_entry. rewrite !decide_False by set_solver. intros Hrun.
  apply run_must in Hrun as (l & s1 & (Hl & Hn & E1)%random_string_Ok & Hrun).
  rewrite run_bind in Hrun. destruct (random_ip_dotted s1) as (o & g & Ho & E2). rewrite E2 in Hrun. cbn [fst snd] in Hrun.
  rewrite run_bind in Hrun. pose proof (set_location_wrote (zone_of name) l o (g, s1.2) Ho) as Hw.
  destruct (set_location _ _ _ _ _ _) as [r s2]. cbn [fst snd mret M_ret] in *. injection Hrun as <- <-.
  exists (l, o). split; [by split|]. split; [done|]. by rewrite <-E1.
Qed.

Lemma gen_entries_wrote name n s q s' :
  gen_entries TypeToString fuel flags (zone_of name) n s = (Ok q, s') →
  ∃ es, length es = n ∧ Forall drawn_entry es ∧ q.1 = concat_lines (line_of ∘ pair name <$> es)
    ∧ documents_wrote (zone_of name) es s.2 s'.2.
Proof.
  revert s q s'. induction n as [|n IH]; intros s q s'.
  { intros [= <- <-]. exists []. split_and!; [done..|]. intros tc _. apply writes_refl. }
  intros (q1 & s1 & H1 & (qs & s2 & H2 & [= <- <-])%run_must)%run_must.
  apply gen_entry_wrote in H1 as (e & He & E1 & W1). apply IH in H2 as (es & Hn & Hes & E2 & W2).
  exists (e :: es). split_and!; [by rewrite <-Hn|by constructor|csimpl; by rewrite E1, E2|].
  intros tc Hc. pose proof (writes_trans _ _ _ _ _ _ _ (W1 tc Hc) (W2 tc Hc)) as W. unfold commands in *. csimpl in W. csimpl.
  by rewrite !app_nil_r in W.
Qed.

Lemma EnableZone_works zone (d : DHS) : (EnableZone zone d).1 = Ok ().
Proof.
  unfold EnableZone, redis. rewrite run_bind. cbn.
  pose proof (SAdd_works (zoneLocationsKey zone) "@" (dh_redis d)).
  destruct (redis_SAdd (zoneLocationsKey zone) "@" (dh_redis d)) as [r rs]. simpl in *. subst r. cbn.
  pose proof (SAdd_works zonesKey zone rs). by destruct (redis_SAdd _ _ rs).
Qed.

Lemma gen_zones_wrote n s gd s' :
  gen_zones TypeToString Create fuel flags n s = (Ok gd, s') →
  ∃ p, length p = n ∧ drawn_plan p ∧ Forall (λ z, length z.2 = Z.to_nat (fl_entries flags)) p
    ∧ query_txt gd = concat_lines (line_of <$> flat p)
    ∧ ∀ tc i, RedisDataConfig tc = gen_storage (fl_addr flags) → ZoneConfigs tc = [] →
      (∀ j es, p.*2 !! j = Some es → Entries tc !! (i + j)%nat = Some (commands es)) →
      wrote (zones_writes TypeToString tc i (zone_of <$> p.*1)) (zones_adds tc i (zone_of <$> p.*1)) s.2 s'.2.
Proof.
  revert s gd s'. induction n as [|n IH]; intros s gd s'.
  { intros [= <- <-]. exists []. split_and!; try done; [by constructor|]. intros tc i _ _ _. apply writes_refl. }
  intros (name & s1 & (Hl & Hn & E1)%random_string_Ok & Hrun)%run_must. cbv zeta in Hrun.
  destruct (negb (Create _)); [done|]. rewrite run_bind in Hrun. change (name +:+ suffix) with (zone_of name) in Hrun.
  pose proof (EnableZone_wrote (rstr:=rstr) (rset:=rset) (zone_of name) s1.2 (EnableZone_works _ _)) as W1.
  unfold on_dh in Hrun. destruct (EnableZone (zone_of name) s1.2) as [r d]. cbn [fst snd] in *.
  apply run_must in Hrun as (qs & s2 & H2 & (gs & s3 & H3 & [= <- <-])%run_must).
  destruct (IH _ _ _ H3) as (p & Hp & Hd & Hlen & Eq & W3).
  destruct (gen_entries_wrote _ _ _ _ _ H2) as (es & Hes & Hde & Ee & W2).
  exists ((name, es) :: p). split_and!; [by rewrite <-Hp|by constructor; [split|]|by constructor| |].
  { cbn [query_txt]. rewrite Ee, Eq. unfold flat. csimpl. rewrite fmap_app, concat_lines_app.
    by rewrite <-list_fmap_compose. }
  intros tc i Hc Hnc He. csimpl. unfold zone_writes, zone_adds.
  assert (E0 : Entries tc !! i = Some (commands es)) by (rewrite <-(He 0%nat es eq_refl); by rewrite Nat.add_0_r).
  rewrite E0, Hnc. change (([] : list string) !! i) with (None : option string). cbn [default from_option id].
  rewrite app_nil_r, <-E1. refine (writes_trans [] _ _ _ _ _ _ W1 _).
  refine (writes_trans _ _ _ _ _ _ _ (W2 tc Hc) (W3 tc (S i) Hc Hnc _)).
  intros j es' Hj. rewrite <-(He (Datatypes.S j) es' Hj). f_equal. lia.
Qed.

(** [Clear] works, too. *)
Hypothesis Clear_empties : ∀ rs, ∃ rs', redis_Del "*" rs = (Ok (), rs') ∧ ∀ k, rstr rs' k = None ∧ rset rs' k = ∅.

(** A finished run: the file has a line for every name drawn, and redis the documents. *)
Lemma generated_documents s gd s' :
  gen_main TypeToString Create fuel flags s = (Ok gd, s') →
  ∃ p, length p = Z.to_nat (fl_zones flags) ∧ drawn_plan p
    ∧ Forall (λ z, length z.2 = Z.to_nat (fl_entries flags)) p
    ∧ read_queries (query_txt gd) = query_of <$> flat p
    ∧ holds_documents (rstr:=rstr) (rset:=rset) TypeToString (gen_case (fl_addr flags) p) (dh_redis s'.2).
Proof.
  unfold gen_main. rewrite run_bind. unfold on_dh, Clear, redis.
  destruct (Clear_empties (dh_redis s.2)) as (rs & E & Hclear). rewrite E. cbn [fst snd].
  destruct (negb (Create "../query.txt")); [done|].
  intros (p & Hp & Hd & Hlen & Eq & W)%gen_zones_wrote. exists p. split_and!; [done..| |].
  - rewrite Eq. assert (Hf : ∀ e, e ∈ flat p → drawn_name e.1 ∧ drawn_entry e.2) by (intros e; by apply drawn_flat).
    clear -Hf. unfold read_queries. induction (flat p) as [|e l IH]; [done|]. csimpl.
    destruct (Hf e) as [Hz He]; [set_solver|]. rewrite <-IH by (intros; apply Hf; set_solver).
    assert (line_of e = (address_of e +:+ " 1 0 " +:+ dotted e.2.2) +:+ line_end) as El.
    { unfold line_of, query_line, address_of. by rewrite !string_app_assoc. }
    rewrite <-(line_scanned e Hz He), El, string_app_assoc, read_lines_cons; [done|].
    rewrite !one_line_app. split_and!; [|by apply (bool_decide_unpack _)|apply word_one_line, dotted_word].
    apply word_one_line, address_word; [done|apply He].
  - eapply (wrote_documents TypeToString (gen_case (fl_addr flags) p) (rstr:=rstr) (rset:=rset)); [apply (W (gen_case (fl_addr flags) p) 0%nat); [done..|]|exact Hclear].
    intros j es Hj. cbn [Entries gen_case Nat.add]. by rewrite list_lookup_fmap, Hj.
Qed.
End generated.

(** ** The resolver's answers *)
Section answered.
Context {T : Type → Type} `{IRadixLaws T} {RS RC ZC CK : Type}.
Context `{!RedisOps RS, !Cache RC AnyRRSet, !Cache ZC (Zone T), !Clock CK, !JsonDocs, !JsonAddresses}.
Context {rstr : RS → string → option string} {rset : RS → string → gset string}.
Context `{!RedisSpec RS rstr rset}.
Context {time : CK → Z} `{!ClockLaws CK time}.
Context {zones : ZC → gmap string (Zone T)} `{!CacheLaws ZC (Zone T) zones}.
Context {O F : Type} `{!Outside O, !Float64 F}.
Variable unicode_lower : string → string.
Variable Fqdn : string → string.
Variable geoip : GeoIp F.
Variable TypeToString : Z → string.
Variable unmarshal_config : string → ZoneConfig → ZoneConfig.
Variable NewRR : string → res string (option RR).
Variable NewPrivateKey : RR → string → res string string.
Variable KeyTag : RR → Z.
Variable Sign : RR → string → list RR → option RR.
Variable map_order : gmap RRSetKey (list RR) → list (RRSetKey * list RR).
Variable rconfig : DataHandlerConfig.
Variable LogSourceLocation : bool.
Abbreviation DHS := (DH T RS RC ZC CK).
#[local] Instance resolver_dh : DataStore T DHS :=
  dh_store rconfig TypeToString Fqdn unmarshal_config NewRR NewPrivateKey KeyTag Sign.
Abbreviation handle := (HandleRequest (S:=DHS * O) unicode_lower Fqdn geoip LogSourceLocation KeyTag Sign map_order).

(** A resolver that has just started on what redis holds. *)
Definition started (rs : RS) (rc : RC) (zc : ZC) (ck : CK) : DHS := data (NewDataHandler rs rc zc ck).

(** A question as it comes over the network, and what comes back when each question is
    asked to such a resolver. *)
Definition request (client : IP) (addr : string) (t : Z) : RequestContext T :=
  NewRequestContext {| Question := [(addr, t)]; Opt := None |} client t false.
Definition served {N} (s : DHS) (client : N → IP) (outside : N → O) (delay : N → Z)
  (addr : string) (t : Z) : M N (res string (Z * list RR * Z)) := λ n,
  (match (handle (request (client n) addr t) (s, outside n)).1 with
   | Some c => Ok (Res c, Answer c, delay n)
   | None => Err "no response"
   end, n).

Hypothesis SMembers_works : ∀ k rs, is_ok (redis_SMembers k rs).1 = true.
Hypothesis Get_works : ∀ k rs e, (redis_Get k rs).1 = Err e → e = ErrNil.
Hypothesis type_str_no_colon : ∀ t, t ∈ record_types → no_colon (type_string TypeToString t).
Hypothesis type_str_inj : ∀ t t', t ∈ record_types → t' ∈ record_types →
  type_string TypeToString t = type_string TypeToString t' → t = t'.

(** *** Names that were drawn *)
Section drawn.
Variables (addr : string) (p : plan).
Hypothesis p_drawn : drawn_plan p.
Hypothesis distinct : NoDup (address_of <$> flat p).
Abbreviation tc := (gen_case addr p).

Lemma lower_letters x : letters x → lower_byte <$> bytes x = bytes x.
Proof.
  unfold letters. assert (Hall : Forall (λ b, lower_byte b = b) (bytes letterBytes)) by by apply (bool_decide_unpack _).
  rewrite Forall_forall in Hall. induction 1 as [|b l Hb _ IH]; [done|]. csimpl. by rewrite IH, Hall.
Qed.
Lemma raw_name_drawn client e t :
  drawn_name e.1 → drawn_name e.2.1 → raw_name unicode_lower (request client (address_of e) t) = address_of e.
Proof.
  intros Hz Hl. unfold raw_name, RawName. cbn. unfold ToLower.
  rewrite bool_decide_true by by apply word_ascii, address_word. destruct Hz as [Hz _], Hl as [Hl _].
  apply bytes_inj. unfold address_of, zone_of. rewrite bytes_str, !bytes_app, !fmap_app.
  by rewrite (lower_letters e.2.1), (lower_letters e.1).
Qed.

Lemma plan_zone zn : zn ∈ Zones tc ↔ ∃ z, z ∈ p ∧ zn = zone_of z.1.
Proof.
  cbn [Zones gen_case]. rewrite list_elem_of_fmap. setoid_rewrite list_elem_of_fmap. split.
  - intros (n & -> & z & -> & Hz). by exists z.
  - intros (z & Hz & ->). exists z.1. split; [done|]. by exists z.
Qed.
Lemma plan_names z : z ∈ p → drawn_name z.1 ∧ ∀ e, e ∈ z.2 → drawn_entry e.
Proof.
  unfold drawn_plan in p_drawn. rewrite Forall_forall in p_drawn. intros Hz. destruct (p_drawn z Hz) as [Hn He].
  rewrite Forall_forall in He. done.
Qed.
Lemma zone_length zn : zn ∈ Zones tc → String.length zn = 20%nat.
Proof.
  intros (z & Hz & ->)%plan_zone. destruct (plan_names z Hz) as [[_ Hn] _]. unfold zone_of.
  by rewrite <-length_bytes, bytes_app, length_app, Hn.
Qed.

(** The documents, as [EndToEnd] takes them. *)
Lemma plan_entry_of zn l o :
  entry_of tc zn l o → ∃ e, e ∈ flat p ∧ zn = zone_of e.1 ∧ l = e.2.1 ∧ o = a_entry e.2.2.
Proof.
  intros (i & cmds & cmd & doc & Hz & Hc & Hcmd & Hd0 & Hd1 & Hu). cbn [Zones Entries gen_case] in Hz, Hc.
  rewrite !list_lookup_fmap in Hz. rewrite !list_lookup_fmap in Hc. destruct (p !! i) as [[n es]|] eqn:Hi; [|done]. cbn in Hz, Hc. simplify_eq.
  apply list_elem_of_fmap in Hcmd as ([l' o'] & -> & He). cbn in Hd0, Hd1. simplify_eq.
  assert (Hp : (n, es) ∈ p) by by eapply list_elem_of_lookup_2.
  exists (n, (l, o')). split_and!; try done; [apply elem_of_flat; by exists es|].
  destruct (plan_names _ Hp) as [_ Hd]. destruct (Hd _ He) as [_ H4]. rewrite law_document in Hu by done. by injection Hu.
Qed.
Lemma plan_has e : e ∈ flat p → entry_of tc (zone_of e.1) e.2.1 (a_entry e.2.2).
Proof.
  intros He. pose proof (drawn_flat p e p_drawn He) as [_ [_ H4]]. apply elem_of_flat in He as (es & Hp & He).
  apply list_elem_of_lookup_1 in Hp as [i Hi]. exists i, (commands es), [e.2.1; json_a (dotted e.2.2)], (json_a (dotted e.2.2)).
  cbn [Zones Entries gen_case]. rewrite !list_lookup_fmap, Hi. split_and!; try done; [|by apply law_document].
  apply list_elem_of_fmap. by exists e.2.
Qed.
Lemma plan_only e o : e ∈ flat p → entry_of tc (zone_of e.1) e.2.1 o → o = a_entry e.2.2.
Proof.
  intros He (e' & He' & Hz & Hl & ->)%plan_entry_of. assert (e' = e) as ->; [|done].
  apply list_elem_of_lookup_1 in He as [i Hi], He' as [j Hj].
  assert (i = j) as <-; [|congruence]. apply (NoDup_lookup _ i j (address_of e) distinct);
    rewrite list_lookup_fmap, ?Hi, ?Hj; cbn; [done|]. unfold address_of. by rewrite Hl, Hz.
Qed.
Lemma plan_plain : plain tc.
Proof.
  assert (Hname : ∀ x, drawn_name x → plain_name x).
  { intros x [Hx _]. split; [by apply word_ascii, letters_word|].
    unfold no_colon. unfold letters in Hx. rewrite Forall_forall in Hx.
    intros Hc. by apply Hx, letter_word in Hc as (_ & _ & _ & ?). }
  assert (Hzone : ∀ zn, zn ∈ Zones tc → plain_name zn).
  { intros zn (z & Hz & ->)%plan_zone. destruct (plan_names z Hz) as [[Ha Hc]%Hname _].
    split; unfold zone_of; [apply ascii7_app; split; [done|by apply (bool_decide_unpack _)]|].
    unfold no_colon in *. rewrite bytes_app, elem_of_app. intros [?|Hs]; [done|]. revert Hs. by apply (bool_decide_unpack _). }
  split; [done|]. intros zn l [->|(i & cmds & cmd & Hz & Hc & Hcmd & Hd0)]; [split; by apply (bool_decide_unpack _)|].
  cbn [Zones Entries gen_case] in Hz, Hc.
  rewrite !list_lookup_fmap in Hz. rewrite !list_lookup_fmap in Hc. destruct (p !! i) as [[n es]|] eqn:Hi; [|done]. cbn in Hz, Hc. simplify_eq.
  apply list_elem_of_fmap in Hcmd as ([l' o'] & -> & He). cbn in Hd0. simplify_eq.
  destruct (plan_names (n, es)) as [_ Hd]; [by eapply list_elem_of_lookup_2|]. apply Hname. by apply (Hd _ He).
Qed.

(** The address is answered. *)
Lemma drawn_answered rs rc zc ck e client o :
  holds_documents (rstr:=rstr) (rset:=rset) TypeToString tc rs → zones zc = ∅ → RecordCacheTimeout rconfig < time ck →
  e ∈ flat p →
  ∃ c, (handle (request client (address_of e) dns.TypeA) (started rs rc zc ck, o)).1 = Some c
    ∧ Res c = dns.RcodeSuccess
    ∧ Answer c = generateA (address_of e) 300 [Some (str (v4InV6Prefix ++ e.2.2))].
Proof.
  intros Hdoc Hzc Hck He. pose proof (drawn_flat p e p_drawn He) as [Hz [Hl H4]].
  pose proof (raw_name_drawn client e dns.TypeA Hz Hl) as Hraw. set (c0 := request client (address_of e) dns.TypeA) in *.
  set (s0 := {| dh_redis := rs; dh_zones := New; dh_recordCache := rc; dh_zoneCache := zc; dh_clock := ck |} : DHS).
  pose proof (LoadZones_initialized TypeToString tc (rstr:=rstr) (rset:=rset) SMembers_works type_str_no_colon plan_plain s0 Hdoc) as Hi.
  assert (Hans : entry_answer Fqdn geoip tc (a_entry e.2.2) (address_of e) dns.TypeA (SourceIp c0) (Nanosecond o).1
                 = generateA (address_of e) 300 [Some (str (v4InV6Prefix ++ e.2.2))]).
  { unfold entry_answer. cbn [Z.eqb dns.TypeA]. rewrite filtered_plain by (by apply (bool_decide_unpack _)). done. }
  destruct (initialized_answered (rstr:=rstr) (rset:=rset) (time:=time) (zones:=zones) unicode_lower Fqdn geoip TypeToString
    unmarshal_config NewRR NewPrivateKey KeyTag Sign map_order tc rconfig SMembers_works Get_works type_str_no_colon
    type_str_inj plan_plain LogSourceLocation s0 (LoadZones s0).2 o (zone_of e.1) e.2.1 (a_entry e.2.2) c0)
    as (z & _ & Hrun); try done.
  - by apply plan_has.
  - intros e'. by apply plan_only.
  - split_and!; try done. unfold kept. cbn. apply (law_kept e.2.2 H4).
  - intros json now (i & _ & Hc). done.
  - by right.
  - unfold zone_of. by destruct e.1.
  - rewrite Hraw. unfold name_of. rewrite decide_False; [done|]. intros E. destruct Hl as [_ Hn]. by rewrite E in Hn.
  - intros zn Hzn _. rewrite (zone_length zn Hzn), (zone_length (zone_of e.1)); [done|].
    by destruct (entry_of_label _ _ _ _ (plan_has e He)).
  - rewrite Hraw in Hrun. change (QType c0) with dns.TypeA in Hrun. rewrite Hans in Hrun.
    eexists. split; [exact Hrun|]. unfold locate_source. by destruct LogSourceLocation.
Qed.
End drawn.

(** ** The load test *)
Context {G N : Type} `{!Rand G, !RandLaws G, !Rand N}.
Variable Create : string → bool.
Variable fuel : nat.
Variable flags : GenFlags.
Hypothesis Set_works : ∀ k v rs, (redis_Set k v rs).1 = Ok ().
Hypothesis SAdd_works : ∀ k m rs, (redis_SAdd k m rs).1 = Ok ().
Hypothesis Clear_works : ∀ rs, ∃ rs', redis_Del "*" rs = (Ok (), rs') ∧ ∀ k, rstr rs' k = None ∧ rset rs' k = ∅.

Lemma bulk_all_pass (Exchange : string → Z → M N (res string (Z * list RR * Z))) qs k printed d n :
  qs ≠ [] →
  (∀ q, q ∈ qs → ∀ n, ∃ rcode answer rtt n',
    Exchange (queryAddr q) (queryType q `mod` 2 ^ 16) n = (Ok (rcode, answer, rtt), n')
    ∧ check q rcode answer = Next None) →
  ∃ d' n', bulk_loop Exchange qs k printed d n = (Finished printed d', n').
Proof.
  intros Hne Hq. revert d n. induction k as [|k IH]; intros d n; cbn [bulk_loop]; [by exists d, n|].
  rewrite run_bind. set (i := Z.to_nat _).
  assert (Hi : (i < length qs)%nat).
  { assert (0 < Z.of_nat (length qs)) by (destruct qs; [done|simpl; lia]).
    pose proof (Z.mod_pos_bound (rand_Int n).1 (Z.of_nat (length qs))). lia. }
  destruct (lookup_lt_is_Some_2 qs i Hi) as [q Eq]. rewrite Eq, run_bind.
  destruct (Hq q (list_elem_of_lookup_2 _ _ _ Eq) (rand_Int n).2) as (rcode & answer & rtt & n' & -> & Hc).
  cbn [fst snd]. rewrite Hc. apply IH.
Qed.

End answered.
