(* ===== verification/QuerySource.v ===== *)
(** * The sources of queries: [tools/query/query] and [tools/query/source]

    A source is the class [QueryGenerator], which [main] uses ([QueryTool]). One source
    dumps the names that redis holds, through a data handler; the other reads a file
    and draws its lines from [rand.Zipf] (the class [Zipf]). *)
From S2P Require Import Prelude GoStrings DnsTypes GoText Redis Radix Zone Store DataHandler DataHandlerFacts Config EndToEnd.
Local Open Scope Z_scope.

Module query.
Record Query := { QName : string; QType : string }.
End query.

(** [GetQuery]: [None] is a panic. *)
Class QueryGenerator (G : Type) := {
  gen_Init : G → G;
  gen_Count : G → Z;
  gen_GetQuery : G → option (query.Query * G);
}.

(** ** [source/file.go] *)
Class Zipf (Zf : Type) := { zipf_Uint64 : Zf → Z * Zf }.
Record FileQueryGenerator (Zf : Type) := { file_queries : list query.Query; file_count : Z; file_zipf : Zf }.
Arguments file_queries {Zf}. Arguments file_count {Zf}. Arguments file_zipf {Zf}.

(** What [bufio.Scanner] gives with [ScanLines]: the lines without their ends; a last
    line without an end counts, and a line that fills the buffer ends the scan. *)
Definition MaxScanTokenSize : Z := 64 * 1024.
Definition dropCR (l : list byte) : list byte :=
  match last l with Some b => if decide (b = "013"%char) then removelast l else l | None => l end.
Fixpoint scanned (ls : list (list byte)) : list string :=
  match ls with
  | [] => []
  | [l] => if decide (l = []) then [] else
           if Z.of_nat (length l) <? MaxScanTokenSize then [str (dropCR l)] else []
  | l :: ls => if Z.of_nat (length l) <? MaxScanTokenSize then str (dropCR l) :: scanned ls else []
  end.
Definition scan_lines (content : string) : list string := scanned (split_on newline (bytes content)).

(** [fmt.Sscanf(line, "%s%s", &q.QName, &q.QType)] on a zero value, and whether it
    returned no error. *)
Definition Sscanf_query (line : string) : query.Query * bool :=
  match scan_string (text line) with
  | None => ({| query.QName := empty_str; query.QType := empty_str |}, false)
  | Some (name, l) =>
    match scan_string l with
    | None => ({| query.QName := name; query.QType := empty_str |}, false)
    | Some (t, _) => ({| query.QName := name; query.QType := t |}, true)
    end
  end.

(** A file that cannot be opened has no lines ([os.Open]'s error is dropped);
    [NewZipf] is [rand.NewZipf] with the other arguments of the source, [imax] the
    greatest value it gives. The lines for which an error is printed come first. *)
Definition NewFileQueryGenerator {Zf} (NewZipf : Z → Zf) (file : option string) (count : Z)
  : list string * FileQueryGenerator Zf :=
  let lines := scan_lines (default empty_str file) in
  let queries := (λ line, (Sscanf_query line).1) <$> lines in
  (filter (λ line, (Sscanf_query line).2 = false) lines,
   {| file_queries := queries; file_count := count;
      file_zipf := NewZipf ((Z.of_nat (length queries) - 1) `mod` 2 ^ 64) |}).

Definition file_GetQuery {Zf} `{!Zipf Zf} (g : FileQueryGenerator Zf) : option (query.Query * FileQueryGenerator Zf) :=
  let '(z, zf) := zipf_Uint64 (file_zipf g) in
  match file_queries g !! Z.to_nat z with
  | Some q => Some (q, {| file_queries := file_queries g; file_count := file_count g; file_zipf := zf |})
  | None => None
  end.
#[export] Instance FileQueryGenerator_source {Zf} `{!Zipf Zf} : QueryGenerator (FileQueryGenerator Zf) := {
  gen_Init g := g; gen_Count := file_count; gen_GetQuery := file_GetQuery }.

(** ** [source/redis.go] *)
Record RedisDumpQueryGenerator := { dump_redisAddress : string; dump_queries : list query.Query; dump_pos : nat }.

Definition dump_storage (addr : string) : StorageConfig := {|
  sc_ZoneCacheSize := 10000; sc_ZoneCacheTimeout := 60; sc_ZoneReload := 1;
  sc_RecordCacheSize := 1000000; sc_RecordCacheTimeout := 60;
  sc_Redis := {|
    Address := addr; rc_Net := "tcp"; rc_DB := 0; Password := empty_str;
    rc_Prefix := empty_str; rc_Suffix := "_redis2";
    rc_Connection := {| MaxIdleConnections := 10; MaxActiveConnections := 10; ConnectTimeout := 500;
      ReadTimeout := 500; IdleKeepAlive := 30; MaxKeepAlive := 0; WaitForConnection := false |} |};
  sc_MinTTL := 5; sc_MaxTTL := 300 |}.

Definition dump_types : list string :=
  ["A"; "AAAA"; "CNAME"; "NS"; "MX"; "SRV"; "TXT"; "PTR"; "CAA"; "TLSA"; "SOA"; "DNSKEY"].
Definition dump_qname (location zone : string) : string :=
  if decide (location = "@") then zone else location +:+ "." +:+ zone.
Definition dump_location (zone location : string) : list query.Query :=
  (λ t, {| query.QName := dump_qname location zone; query.QType := t |}) <$> dump_types.

Section dump.
Context {T : Type → Type} `{!IRadix T} {RS RC ZC CK : Type}.
Context `{!RedisOps RS, !Cache ZC (Zone T), !Clock CK}.
Variable Fqdn : string → string.
Variable unmarshal_config : string → ZoneConfig → ZoneConfig.
Variable NewRR : string → res string (option RR).
Variable NewPrivateKey : RR → string → res string string.
Variable KeyTag : RR → Z.
Variable Sign : RR → string → list RR → option RR.
Variable addr : string.
Abbreviation DHS := (DH T RS RC ZC CK).
Abbreviation locations_of :=
  (GetZoneLocations (handler_config (dump_storage addr)) Fqdn unmarshal_config NewRR NewPrivateKey KeyTag Sign (RC:=RC)).

Fixpoint dump_zones (zones : list string) (queries : list query.Query) : M DHS (option (list query.Query)) :=
  match zones with
  | [] => mret (Some queries)
  | zone :: zones =>
    locations ← locations_of zone;
    match locations with
    | None => mret None
    | Some locations => dump_zones zones (queries ++ (locations ≫= dump_location zone))
    end
  end.
(** After [NewDataHandler]. [None]: a panic of [GetZone]. *)
Definition NewRedisDumpQueryGenerator : M DHS (option RedisDumpQueryGenerator) :=
  zones ← GetZones;
  queries ← dump_zones zones [];
  mret ((λ q, {| dump_redisAddress := empty_str; dump_queries := q; dump_pos := 0 |}) <$> queries).
End dump.

Definition dump_GetQuery (g : RedisDumpQueryGenerator) : option (query.Query * RedisDumpQueryGenerator) :=
  match dump_queries g !! dump_pos g with
  | Some q => Some (q, {| dump_redisAddress := dump_redisAddress g; dump_queries := dump_queries g;
                          dump_pos := S (dump_pos g) |})
  | None => None
  end.
#[export] Instance RedisDumpQueryGenerator_source : QueryGenerator RedisDumpQueryGenerator := {
  gen_Init g := g; gen_Count g := Z.of_nat (length (dump_queries g)); gen_GetQuery := dump_GetQuery }.

(** ** What a source gives *)

(** The first [n] queries of a source. *)
Fixpoint taken {G} `{!QueryGenerator G} (n : nat) (g : G) : option (list query.Query * G) :=
  match n with
  | O => Some ([], g)
  | S n =>
    match gen_GetQuery g with
    | None => None
    | Some (q, g) =>
      match taken n g with
      | None => None
      | Some (qs, g) => Some (q :: qs, g)
      end
    end
  end.

(** A source keeps its promise when it can be asked [Count] times, and asking does not
    change [Count]. *)
Definition keeps_promise {G} `{!QueryGenerator G} (g : G) : Prop :=
  ∃ qs g', taken (Z.to_nat (gen_Count g)) g = Some (qs, g').

Lemma dump_taken n g :
  (dump_pos g + n ≤ length (dump_queries g))%nat →
  taken n g = Some (take n (drop (dump_pos g) (dump_queries g)),
                    {| dump_redisAddress := dump_redisAddress g; dump_queries := dump_queries g;
                       dump_pos := dump_pos g + n |}).
Proof.
  revert g. induction n as [|n IH]; intros g Hn.
  - simpl. rewrite Nat.add_0_r. by destruct g.
  - cbn [taken gen_GetQuery RedisDumpQueryGenerator_source]. unfold dump_GetQuery.
    destruct (lookup_lt_is_Some_2 (dump_queries g) (dump_pos g)) as [q Hq]; [lia|]. rewrite Hq.
    rewrite IH by (cbn; lia). cbn. rewrite (drop_S _ q _ Hq). cbn. do 3 f_equal. lia.
Qed.

(** A dump that was just made gives its queries once each, in order, and panics when
    one more is asked for. *)
Theorem dump_gives_all g :
  dump_pos g = 0%nat →
  taken (Z.to_nat (gen_Count g)) g =
    Some (dump_queries g, {| dump_redisAddress := dump_redisAddress g; dump_queries := dump_queries g;
                             dump_pos := length (dump_queries g) |})
  ∧ taken (S (Z.to_nat (gen_Count g))) g = None.
Proof.
  intros Hp. cbn [gen_Count RedisDumpQueryGenerator_source]. rewrite Nat2Z.id.
  assert (Ht : ∀ n g, taken (S n) g = match taken n g with
    | Some (qs, g) => match gen_GetQuery g with Some (q, g) => Some (qs ++ [q], g) | None => None end
    | None => None end).
  { clear. induction n as [|n IH]; intros g; [cbn; by destruct (dump_GetQuery g) as [[??]|]|].
    cbn [taken] in *. destruct (gen_GetQuery g) as [[q g']|]; [|done]. rewrite IH.
    destruct (taken n g') as [[qs g2]|]; [|done]. by destruct (gen_GetQuery g2) as [[??]|]. }
  rewrite Ht. rewrite dump_taken by lia. rewrite Hp. cbn [drop Nat.add].
  rewrite take_ge by done. split; [done|]. cbn. unfold dump_GetQuery. cbn.
  by rewrite lookup_ge_None_2.
Qed.

Class ZipfLaws (Zf : Type) `{!Zipf Zf} (zipf_imax : Zf → Z) : Prop := {
  law_zipf zf : 0 ≤ (zipf_Uint64 zf).1 ≤ zipf_imax zf ∧ zipf_imax (zipf_Uint64 zf).2 = zipf_imax zf;
}.

Section file.
Context {Zf : Type} {zipf_imax : Zf → Z} `{ZipfLaws Zf zipf_imax}.
Variable NewZipf : Z → Zf.
Hypothesis NewZipf_imax : ∀ imax, zipf_imax (NewZipf imax) = imax.

Lemma file_taken n (g : FileQueryGenerator Zf) :
  zipf_imax (file_zipf g) < Z.of_nat (length (file_queries g)) →
  ∃ qs g', taken n g = Some (qs, g') ∧ length qs = n ∧ ∀ q, q ∈ qs → q ∈ file_queries g.
Proof.
  revert g. induction n as [|n IH]; intros g Hlt; [exists [], g; set_solver|].
  cbn [taken gen_GetQuery FileQueryGenerator_source]. unfold file_GetQuery.
  pose proof (law_zipf (file_zipf g)) as [Hz He]. destruct (zipf_Uint64 (file_zipf g)) as [z zf]. cbn [fst snd] in *.
  destruct (lookup_lt_is_Some_2 (file_queries g) (Z.to_nat z)) as [q Hq]; [lia|]. rewrite Hq.
  edestruct IH as (qs & g' & Ht & Hl & Hin); [|rewrite Ht]; [cbn; by rewrite He|].
  exists (q :: qs), g'. split_and!; [done|simpl; lia|]. intros x [->|Hx]%elem_of_cons; [by eapply list_elem_of_lookup_2|].
  by apply Hin.
Qed.

(** A file with a line in it can be asked any number of times, and what it gives is
    what its lines say. One without lines, or that is not there, makes the first
    [GetQuery] panic. *)
Theorem file_queries_given file count n :
  let g := (NewFileQueryGenerator NewZipf file count).2 in
  let lines := scan_lines (default empty_str file) in
  Z.of_nat (length lines) < 2 ^ 64 →
  (lines ≠ [] → ∃ qs g', taken n g = Some (qs, g') ∧ length qs = n
     ∧ ∀ q, q ∈ qs → ∃ line, line ∈ lines ∧ q = (Sscanf_query line).1)
  ∧ (lines = [] → gen_GetQuery g = None).
Proof.
  intros g lines Hlen. split.
  - intros Hne. destruct (file_taken n g) as (qs & g' & Ht & Hl & Hin).
    + unfold g, NewFileQueryGenerator. cbn. rewrite NewZipf_imax, length_fmap. fold lines.
      destruct lines; [done|]. cbn [length] in *. rewrite Z.mod_small; lia.
    + exists qs, g'. split_and!; [done..|]. intros q Hq%Hin. unfold g, NewFileQueryGenerator in Hq. cbn in Hq.
      apply list_elem_of_fmap in Hq as (line & -> & Hline). by exists line.
  - intros Hnil. cbn [gen_GetQuery FileQueryGenerator_source]. unfold file_GetQuery, g, NewFileQueryGenerator.
    cbn. fold lines. rewrite Hnil. cbn. by destruct (zipf_Uint64 _).
Qed.
End file.

(** ** What is dumped *)
Section dumped.
Context {T : Type → Type} `{IRadixLaws T} {RS RC ZC CK : Type}.
Context `{!RedisOps RS, !Cache RC AnyRRSet, !Cache ZC (Zone T), !Clock CK}.
Context {rstr : RS → string → option string} {rset : RS → string → gset string}.
Context `{!RedisSpec RS rstr rset}.
Context {time : CK → Z} `{!ClockLaws CK time}.
Context {zones : ZC → gmap string (Zone T)} `{!CacheLaws ZC (Zone T) zones}.
Variable Fqdn : string → string.
Variable unmarshal_config : string → ZoneConfig → ZoneConfig.
Variable NewRR : string → res string (option RR).
Variable NewPrivateKey : RR → string → res string string.
Variable KeyTag : RR → Z.
Variable Sign : RR → string → list RR → option RR.
Variable addr : string.
Abbreviation DHS := (DH T RS RC ZC CK).
Hypothesis SMembers_works : ∀ k rs, is_ok (redis_SMembers k rs).1 = true.
Hypothesis Get_works : ∀ k rs e, (redis_Get k rs).1 = Err e → e = ErrNil.
Abbreviation dump := (dump_zones Fqdn unmarshal_config NewRR NewPrivateKey KeyTag Sign addr (RC:=RC) (RS:=RS) (CK:=CK) (ZC:=ZC)).
Abbreviation config_in rs zone now :=
  (ZoneConfigFromJson Fqdn unmarshal_config zone (default empty_str (rstr rs (zoneConfigKey zone))) now).

Lemma dump_zones_run zs queries (s : DHS) :
  NoDup zs → (∀ zone, zone ∈ zs → zones (dh_zoneCache s) !! zone = None) →
  (∀ zone now, zone ∈ zs → DnsSec (config_in (dh_redis s) zone now) = false) →
  ∃ qs s', dump zs queries s = (Some (queries ++ qs), s')
    ∧ ∀ q, q ∈ qs ↔ ∃ zone l, zone ∈ zs ∧ l ∈ rset (dh_redis s) (zoneLocationsKey zone) ∧ q ∈ dump_location zone l.
Proof.
  intros Hnd. revert queries s. induction Hnd as [|zone zs Hni Hnd IH]; intros queries s Hz Hsec.
  - exists [], s. rewrite app_nil_r. split; [done|]. set_solver.
  - cbn [dump_zones]. unfold GetZoneLocations at 1. rewrite !run_bind.
    assert (Hmiss : ∀ zn, zn ∈ zone :: zs → (cache_Get (V:=Zone T) zn (dh_zoneCache s)).1 = None).
    { intros zn Hzn. pose proof (law_cache_Get (V:=Zone T) zn (dh_zoneCache s)) as [_ Hg].
      destruct (cache_Get zn (dh_zoneCache s)).1 as [z|]; [|done]. specialize (Hg z eq_refl). rewrite Hz in Hg; done. }
    destruct (GetZone_first (rset:=rset) (rstr:=rstr) (zones:=zones) (time:=time) Fqdn unmarshal_config NewRR NewPrivateKey
      KeyTag Sign (handler_config (dump_storage addr)) SMembers_works Get_works zone _ s (Hmiss zone (list_elem_of_here _ _)) eq_refl)
      as (z & s1 & -> & Hname & _ & _ & Hlocs & _ & Hstr & _ & Hset & Hcache); [intros now; apply Hsec, list_elem_of_here|].
    cbn [fst snd mret M_ret].
    destruct (IH (queries ++ (LocationsList z ≫= dump_location zone)) s1) as (qs & s' & -> & Hqs).
    + intros zn Hzn. destruct (zones (dh_zoneCache s1) !! zn) as [z'|] eqn:E; [|done].
      apply (lookup_weaken _ _ _ _ E) in Hcache. rewrite lookup_insert_ne in Hcache by naive_solver.
      rewrite Hz in Hcache by by apply list_elem_of_further. done.
    + intros zn now Hzn. rewrite Hstr. by apply Hsec, list_elem_of_further.
    + exists ((LocationsList z ≫= dump_location zone) ++ qs), s'. rewrite (assoc_L (++)). split; [done|].
      intros q. rewrite elem_of_app, Hqs, list_elem_of_bind. setoid_rewrite Hlocs. setoid_rewrite Hset.
      setoid_rewrite elem_of_cons. split.
      * intros [(l & ? & ?)|(zn & l & ? & ? & ?)]; [exists zone, l; tauto|exists zn, l; tauto].
      * intros (zn & l & [->|?] & ? & ?); [left; by exists l|right; by exists zn, l].
Qed.

End dumped.
