(* ===== verification/QueryTool.v ===== *)
(** * What is done with a query: [tools/query/tool]

    [CompareTool] asks two servers and compares their answers with the comparison of
    the tests ([TestHelpers]); [BenchTool] times one server. The exchange over the
    network is a parameter, as are the numbers of package dns for the names of types. *)
From Stdlib Require Import Field String.
From S2P Require Import Prelude GoStrings DnsTypes Radix Zone Geo Request TestHelpers QuerySource.
Local Open Scope Z_scope.

(** What is kept of a response: its question section and the rest. *)
Record Response := { resp_Question : list (string * Z); resp_Msg : Msg }.

Section question.
Variable StringToType : string → option Z.
(** [m.SetQuestion(q.QName, dns.StringToType[q.QType])] *)
Definition question (q : query.Query) : Request.Query := {|
  Question := [(query.QName q, default 0 (StringToType (query.QType q)))]; Opt := None |}.
End question.

(** ** [tool/compare.go] *)
Record CompareTool := { server1Address : string; server2Address : string }.
Definition NewCompareTool (s1 s2 : string) : CompareTool := {| server1Address := s1; server2Address := s2 |}.

Section compare.
Context {W NetErr : Type} `{!EqDecision NetErr}.
Variable StringToType : string → option Z.
(** The response and its round trip time. Two values of [NetErr] are equal when the
    interface values are. *)
Variable Exchange : Request.Query → string → M W (res NetErr (Response * Z)).
Variable Sort : list RR → list RR.

Inductive Difference :=
| ErrorsDiffer (q : query.Query) (err1 err2 : option NetErr)
| AnswersDiffer (q : query.Query) (err : TestError).

Definition expected_of (resp : Response) (question : string * Z) : Case := {|
  Desc := empty_str; Qname := question.1; Qtype := question.2; Case_Rcode := Rcode (resp_Msg resp); Case_Do := false;
  Case_Answer := Sort (MsgAnswer (resp_Msg resp)); Case_Ns := Sort (MsgNs (resp_Msg resp));
  Case_Extra := Sort (MsgExtra (resp_Msg resp)) |}.
(** What is printed; [None] is a panic. *)
Definition compared (q : query.Query) (resp1 resp2 : Response) : option (list Difference) :=
  match resp_Question resp1 with
  | [] => None
  | question :: _ =>
    match SortAndCheck Sort (resp_Msg resp2) (expected_of resp1 question) with
    | None => None
    | Some None => Some []
    | Some (Some err) => Some [AnswersDiffer q err]
    end
  end.
Definition CompareTool_Act (t : CompareTool) (q : query.Query) : M W (option (list Difference)) :=
  let m := question StringToType q in
  r1 ← Exchange m (server1Address t);
  r2 ← Exchange m (server2Address t);
  mret match r1, r2 with
       | Err e1, Err e2 => if decide (e1 = e2) then Some [] else Some [ErrorsDiffer q (Some e1) (Some e2)]
       | Err e1, Ok _ => Some [ErrorsDiffer q (Some e1) None]
       | Ok _, Err e2 => Some [ErrorsDiffer q None (Some e2)]
       | Ok (resp1, _), Ok (resp2, _) => compared q resp1 resp2
       end.

(** *** When nothing is printed *)
Context {rr_String : RR → string} `{!Sorter rr_String Sort}.

(** Two responses that the tool finds no difference between. *)
Record answers_agree (r1 r2 : Msg) : Prop := {
  aa_Rcode : Rcode r2 = Rcode r1;
  aa_Answer : Forall2 agrees (Sort (MsgAnswer r2)) (Sort (MsgAnswer r1));
  aa_Ns : Forall2 agrees (Sort (MsgNs r2)) (Sort (MsgNs r1));
  aa_Extra : Forall2 agrees (Sort (MsgExtra r2)) (Sort (MsgExtra r1));
}.
Lemma compared_silent q resp1 resp2 :
  compared q resp1 resp2 = Some [] ↔ resp_Question resp1 ≠ [] ∧ answers_agree (resp_Msg resp1) (resp_Msg resp2).
Proof.
  unfold compared. destruct (resp_Question resp1) as [|qu ?]; [split; [done|by intros [? _]]|].
  pose proof (SortAndCheck_spec rr_String Sort (resp_Msg resp2) (expected_of resp1 qu)) as Hs. cbn in Hs.
  assert (Ha : answers_agree (resp_Msg resp1) (resp_Msg resp2) ↔
    SortAndCheck Sort (resp_Msg resp2) (expected_of resp1 qu) = fine)
    by (rewrite Hs; split; [intros []; by split_and!|intros (? & ? & ? & ?); by split]).
  rewrite Ha. unfold fine. destruct (SortAndCheck _ _ _) as [[err|]|]; split; try done; try by intros [_ ?].
Qed.

(** C28. Nothing is printed for a query exactly when both servers failed with the same error
    value, or both answered and their answers agree. *)
Theorem CompareTool_silent t q w :
  let r1 := Exchange (question StringToType q) (server1Address t) w in
  let r2 := Exchange (question StringToType q) (server2Address t) r1.2 in
  (CompareTool_Act t q w).1 = Some [] ↔
  (∃ e, r1.1 = Err e ∧ r2.1 = Err e)
  ∨ ∃ resp1 rtt1 resp2 rtt2, r1.1 = Ok (resp1, rtt1) ∧ r2.1 = Ok (resp2, rtt2)
      ∧ resp_Question resp1 ≠ [] ∧ answers_agree (resp_Msg resp1) (resp_Msg resp2).
Proof.
  intros r1 r2. unfold CompareTool_Act. rewrite run_bind. fold r1. rewrite run_bind. fold r2. cbn [mret M_ret fst].
  destruct (r1.1) as [[resp1 rtt1]|e1], (r2.1) as [[resp2 rtt2]|e2]; [rewrite compared_silent| | |case_decide]; naive_solver.
Qed.

(** Servers that give the same records, in any order, are not reported: the texts of
    the records must tell them apart, and none may be a nil pointer. *)
Theorem CompareTool_same_answers t q w resp1 rtt1 resp2 rtt2 w1 w2 :
  Exchange (question StringToType q) (server1Address t) w = (Ok (resp1, rtt1), w1) →
  Exchange (question StringToType q) (server2Address t) w1 = (Ok (resp2, rtt2), w2) →
  let m1 := resp_Msg resp1 in let m2 := resp_Msg resp2 in
  resp_Question resp1 ≠ [] →
  Rcode m1 = Rcode m2 → MsgAnswer m1 ≡ₚ MsgAnswer m2 → MsgNs m1 ≡ₚ MsgNs m2 → MsgExtra m1 ≡ₚ MsgExtra m2 →
  let all := MsgAnswer m1 ++ MsgNs m1 ++ MsgExtra m1 in
  (∀ a b, a ∈ all → b ∈ all → rr_String a = rr_String b → a = b) → Forall (λ a, non_nil a = true) all →
  CompareTool_Act t q w = (Some [], w2).
Proof.
  intros E1 E2 m1 m2 Hq Hc Ha Hn He all Hinj Hnil. unfold CompareTool_Act. rewrite run_bind, E1. cbn [fst snd].
  rewrite run_bind, E2. cbn [fst snd mret M_ret]. f_equal. unfold compared.
  destruct (resp_Question resp1) as [|qu ?]; [done|].
  pose proof (same_answers_pass rr_String Sort m1 m2 (expected_of resp1 qu) Hc Ha Hn He Hinj Hnil) as Hp.
  unfold m2 in Hp. by rewrite Hp.
Qed.
End compare.

(** ** [tool/bench.go] *)
Record BenchTool (F : Type) := {
  bench_count : Z; totalTime : Z; bench_min : Z; bench_max : Z; mean : F; stdev : F; serverAddress : string }.
Arguments bench_count {F}. Arguments totalTime {F}. Arguments bench_min {F}. Arguments bench_max {F}.
Arguments mean {F}. Arguments stdev {F}. Arguments serverAddress {F}.

Section bench.
Context {F : Type} `{!Float64 F}.

Definition NewBenchTool (serverAddress : string) : BenchTool F := {|
  bench_count := 0; totalTime := 0; bench_min := 1000; bench_max := 0; mean := f_of_Z 0; stdev := f_of_Z 0;
  serverAddress := serverAddress |}.

(** [rtt.Seconds()] *)
Definition Seconds (d : Z) : F :=
  f_add (f_of_Z (d `quot` 1000000000)) (f_div (f_of_Z (d `rem` 1000000000)) (f_of_Z 1000000000)).
(** What is done under the mutex. *)
Definition bench_add (x : F) (rtt : Z) (t : BenchTool F) : BenchTool F :=
  let prevMean := mean t in
  let count := wrap64 (bench_count t + 1) in
  let mean' := f_add (mean t) (f_div (f_sub x (mean t)) (f_of_Z count)) in
  {| bench_count := count; mean := mean';
     stdev := f_add (stdev t) (f_mul (f_sub x mean') (f_sub x prevMean));
     bench_min := if rtt <? bench_min t then rtt else bench_min t;
     bench_max := if rtt >? bench_max t then rtt else bench_max t;
     totalTime := wrap64 (totalTime t + rtt); serverAddress := serverAddress t |}.
Definition bench_record (rtt : Z) (t : BenchTool F) : BenchTool F := bench_add (Seconds rtt) rtt t.

Section act.
Context {W NetErr : Type}.
Variable StringToType : string → option Z.
(** The error, if any; the round trip time is given in either case. *)
Variable Exchange : Request.Query → string → M W (option NetErr * Z).
(** The error that is printed, and the tool. *)
Definition BenchTool_Act (q : query.Query) (t : BenchTool F) : M W (option NetErr * BenchTool F) :=
  r ← Exchange (question StringToType q) (serverAddress t);
  mret (r.1, bench_record r.2 t).
End act.

(** The numbers that [Result] prints: the times in nanoseconds, the mean in
    microseconds, and what it calls the standard deviation in milliseconds. *)
Record BenchResult := { res_total : Z; res_min : Z; res_max : Z; res_mean : F; res_stdev : F }.
Definition BenchTool_Result (t : BenchTool F) : BenchResult := {|
  res_total := totalTime t; res_min := bench_min t; res_max := bench_max t;
  res_mean := f_mul (mean t) (f_of_Z 1000000); res_stdev := f_mul (stdev t) (f_of_Z 1000) |}.

(** The mutex makes a run of any number of threads a sequence of these. *)
Definition benched (rtts : list Z) (t : BenchTool F) : BenchTool F := foldl (λ t rtt, bench_record rtt t) t rtts.
End bench.
Arguments BenchResult F : clear implicits.

(** *** What is measured *)
Section measured.
Context {F : Type} `{!Float64 F}.
Implicit Type t : BenchTool F.

Lemma benched_ints rtts t :
  0 ≤ bench_count t → bench_count t + Z.of_nat (length rtts) < 2 ^ 63 → is_int64 (totalTime t) →
  bench_count (benched rtts t) = bench_count t + Z.of_nat (length rtts)
  ∧ totalTime (benched rtts t) = wrap64 (totalTime t + foldr Z.add 0 rtts)
  ∧ bench_min (benched rtts t) = foldr Z.min (bench_min t) rtts
  ∧ bench_max (benched rtts t) = foldr Z.max (bench_max t) rtts.
Proof.
  revert t. induction rtts as [|rtt rtts IH]; intros t H0 Hlen Ht.
  - cbn. rewrite !Z.add_0_r. by rewrite wrap64_id.
  - cbn [length] in Hlen. change (benched (rtt :: rtts) t) with (benched rtts (bench_record rtt t)).
    assert (Hc : bench_count (bench_record rtt t) = bench_count t + 1) by (cbn; apply wrap64_id; unfold is_int64; lia).
    edestruct (IH (bench_record rtt t)) as (-> & -> & -> & ->); [rewrite Hc; lia..|apply wrap64_range|].
    rewrite Hc. cbn [totalTime bench_min bench_max bench_record bench_add foldr length]. split_and!; [lia|..].
    + rewrite wrap64_add. f_equal. lia.
    + clear. generalize (bench_min t). intros m. replace (if rtt <? m then rtt else m) with (Z.min rtt m) by (destruct (Z.ltb_spec rtt m); lia).
      induction rtts; cbn; lia.
    + clear. generalize (bench_max t). intros m. replace (if rtt >? m then rtt else m) with (Z.max rtt m)
        by (destruct (Z.gtb_spec rtt m); lia).
      induction rtts; cbn; lia.
Qed.

(** The whole numbers of a run, whatever the order of its round trips: the number of
    queries, the sum of the times, the longest, and the shortest or 1 microsecond, where
    [min] starts: above that it is never the shortest that is printed. *)
Theorem bench_result addr rtts :
  Z.of_nat (length rtts) < 2 ^ 63 →
  let t := benched rtts (NewBenchTool addr) in
  bench_count t = Z.of_nat (length rtts)
  ∧ res_total (BenchTool_Result t) = wrap64 (foldr Z.add 0 rtts)
  ∧ res_max (BenchTool_Result t) = foldr Z.max 0 rtts
  ∧ res_min (BenchTool_Result t) = foldr Z.min 1000 rtts
  ∧ (Forall (λ rtt, 1000 < rtt) rtts → res_min (BenchTool_Result t) = 1000).
Proof.
  intros Hlen t. destruct (benched_ints rtts (NewBenchTool addr)) as (Hc & Ht & Hmin & Hmax); [done| |by split|].
  { cbn. lia. }
  cbn -[benched] in *. fold t in Hc, Ht, Hmin, Hmax. split_and!; try done.
  rewrite Hmin. clear. induction 1; cbn in *; lia.
Qed.

(** *** The mean and the deviation, if the arithmetic were exact *)
Section exact.
Variables (opp inv : F → F).
Hypothesis exact : field_theory (f_of_Z 0) (f_of_Z 1) f_add f_mul f_sub opp f_div inv (=).
Hypothesis of_Z_add : ∀ a b, f_of_Z (F:=F) (a + b) = f_add (f_of_Z a) (f_of_Z b).
Hypothesis of_Z_pos : ∀ n, 0 < n → f_of_Z (F:=F) n ≠ f_of_Z 0.
Add Field exact_field : exact.

Definition total (xs : list F) : F := foldr f_add (f_of_Z 0) xs.
(** The sum of the squares of the distances to [m]. *)
Definition deviations (m : F) (xs : list F) : F := total ((λ x, f_mul (f_sub x m) (f_sub x m)) <$> xs).

Lemma total_app l1 l2 : total (l1 ++ l2) = f_add (total l1) (total l2).
Proof. unfold total. induction l1 as [|x l1 IH]; cbn; [|rewrite IH]; ring. Qed.
Lemma deviations_expand m xs :
  deviations m xs = f_add (f_sub (deviations (f_of_Z 0) xs) (f_mul (f_add m m) (total xs)))
                          (f_mul (f_of_Z (Z.of_nat (length xs))) (f_mul m m)).
Proof.
  unfold deviations, total. induction xs as [|x xs IH]; cbn [fmap list_fmap foldr length].
  - change (Z.of_nat 0) with 0. ring.
  - rewrite IH, Nat2Z.inj_succ, <-Z.add_1_r, of_Z_add. ring.
Qed.

End exact.
End measured.
