(* ===== verification/QueryRun.v ===== *)
(** * The query tool as a whole: [tools/query/query.go]

    [main] queues every query of a source ([QuerySource]) to a pool of workers
    ([WorkerPool]) whose handler counts the query and gives it to a tool ([QueryTool]);
    it then adds up the counts, once a second, until they are all there. The loop of
    [main], the goroutines of the pool and the two halves of a handler are the steps of
    a relation; the counts are read one at a time while workers go on. A tool is assumed
    to return from [Act]. The sleeps have no step of their own. *)
From S2P Require Import Prelude WorkerPool QuerySource.
Local Open Scope Z_scope.

(** ** The flags *)
Record QueryFlags := {
  fl_source : string; fl_tool : string; fl_s1 : string; fl_s2 : string; fl_source_address : string;
  fl_threads : Z; fl_max_queries : Z }.
Definition default_flags : QueryFlags := {|
  fl_source := "redis"; fl_tool := "bench"; fl_s1 := "localhost:1053"; fl_s2 := "localhost:2053";
  fl_source_address := "localhost:6379"; fl_threads := 10; fl_max_queries := 1000000 |}.
Inductive SourceChoice := FromRedis (addr : string) | FromFile (path : string) (count : Z).
Inductive ToolChoice := Compare (s1 s2 : string) | Bench (s1 : string).
Inductive InvalidFlag := InvalidSource (s : string) | InvalidTool (s : string).
(** The source is made before the tool is looked at. *)
Definition choose (fl : QueryFlags) : res InvalidFlag (SourceChoice * ToolChoice) :=
  let source :=
    if decide (fl_source fl = "redis") then Some (FromRedis (fl_source_address fl))
    else if decide (fl_source fl = "file") then Some (FromFile (fl_source_address fl) (fl_max_queries fl))
    else None in
  match source with
  | None => Err (InvalidSource (fl_source fl))
  | Some source =>
    if decide (fl_tool fl = "compare") then Ok (source, Compare (fl_s1 fl) (fl_s2 fl))
    else if decide (fl_tool fl = "bench") then Ok (source, Bench (fl_s1 fl))
    else Err (InvalidTool (fl_tool fl))
  end.

Section query_run.
Context {G : Type} `{!QueryGenerator G}.
Variable maxWorkers : nat.
Definition maxWaitingJobs : nat := Z.to_nat 10000.
Abbreviation pool_step := (step (Job:=query.Query) maxWaitingJobs maxWorkers).

(** Where [main] is. *)
Inductive main_at :=
| Queueing (i : Z)               (* at [i < g.Count()] *)
| Testing (total : Z)            (* at [totalCount != g.Count()] *)
| Summing (k : nat) (total : Z)  (* in the range over [count], before index [k] *)
| Reporting                      (* before the prints and [t.Result()] *)
| Returned
| Panicked.                      (* in [GetQuery] *)
#[export] Instance main_at_eq_dec : EqDecision main_at.
Proof. solve_decision. Defined.

(** [begun]: the workers whose handler has counted its query and is in [Act]. The sum
    cannot overflow: it is at most the number of queries. *)
Record run := {
  generator : G; pool : Dispatcher (Job:=query.Query); count : list Z; begun : list nat; at_ : main_at }.
Definition with_main (s : run) (m : main_at) : run := {|
  generator := generator s; pool := pool s; count := count s; begun := begun s; at_ := m |}.
Definition with_pool (s : run) d : run := {|
  generator := generator s; pool := d; count := count s; begun := begun s; at_ := at_ s |}.

(** After [dispatcher.Run()]. *)
Definition start (g : G) : run := {|
  generator := g; pool := Run (Nat.iter maxWorkers AddWorker NewDispatcher); count := replicate maxWorkers 0;
  begun := []; at_ := Queueing 0 |}.

(** When [main] has returned, or panicked, the process is over. *)
Definition alive (s : run) : Prop := at_ s ≠ Returned ∧ at_ s ≠ Panicked.

Inductive main_step (s : run) : run → Prop :=
| queue i q g :
    at_ s = Queueing i → i < gen_Count (generator s) → gen_GetQuery (generator s) = Some (q, g) →
    main_step s {| generator := g; pool := Queue q (pool s); count := count s; begun := begun s;
                  at_ := Queueing (i + 1) |}
| queue_panics i :
    at_ s = Queueing i → i < gen_Count (generator s) → gen_GetQuery (generator s) = None →
    main_step s (with_main s Panicked)
| all_queued i :
    at_ s = Queueing i → ¬ i < gen_Count (generator s) → main_step s (with_main s (Testing 0))
| sum_again total :
    at_ s = Testing total → total ≠ gen_Count (generator s) → main_step s (with_main s (Summing 0 0))
| sum_next k total c :
    at_ s = Summing k total → count s !! k = Some c → main_step s (with_main s (Summing (S k) (total + c)))
| sum_end k total :
    at_ s = Summing k total → count s !! k = None → main_step s (with_main s (Testing total))
| enough total :
    at_ s = Testing total → total = gen_Count (generator s) → main_step s (with_main s Reporting)
| report :
    at_ s = Reporting → main_step s (with_main s Returned)
| pool_goes_on d : (* but for the end of a handler *)
    alive s → pool_step (pool s) d → handled d = handled (pool s) → main_step s (with_pool s d)
| handler_counts w j : (* count[worker.Id]++ *)
    alive s → WorkerList (pool s) !! w = Some (Running j) → w ∉ begun s →
    main_step s {| generator := generator s; pool := pool s; count := alter (Z.add 1) w (count s);
                  begun := w :: begun s; at_ := at_ s |}
| handler_ends b1 w b2 j : (* t.Act returns *)
    alive s → begun s = b1 ++ w :: b2 → WorkerList (pool s) !! w = Some (Running j) →
    main_step s {| generator := generator s;
                  pool := with_handled (with_workers (pool s) (WorkerPool (pool s))
                            (<[w := Announcing]> (WorkerList (pool s)))) (handled (pool s) ++ [(j, w)]);
                  count := count s; begun := b1 ++ b2; at_ := at_ s |}.

Definition reached (g : G) (s : run) : Prop := rtc main_step (start g) s.
End query_run.
Arguments run G : clear implicits.

(** A source does not change [Count]. *)
Class SourceLaws (G : Type) `{!QueryGenerator G} : Prop := {
  law_Count g q g' : gen_GetQuery g = Some (q, g') → gen_Count g' = gen_Count g;
}.
#[export] Instance dump_laws : SourceLaws RedisDumpQueryGenerator.
Proof. split. intros g q g'. cbn. unfold dump_GetQuery. case_match; [|done]. by intros [= _ <-]. Qed.
#[export] Instance file_laws {Zf} `{!Zipf Zf} : SourceLaws (FileQueryGenerator Zf).
Proof.
  split. intros g q g'. cbn. unfold file_GetQuery. destruct (zipf_Uint64 _). case_match; [|done]. by intros [= _ <-].
Qed.

(** ** Workers that are in a handler *)
Section busy.
Context {Job : Type}.
Implicit Types (ws : list (phase (Job:=Job))) (d : Dispatcher (Job:=Job)).

Definition is_running (p : phase (Job:=Job)) : bool := match p with Running _ => true | _ => false end.
Definition busy ws : list nat := filter (λ w, is_running <$> ws !! w = Some true) (seq 0 (length ws)).

Lemma busy_app ws p : busy (ws ++ [p]) = busy ws ++ (if is_running p then [length ws] else []).
Proof.
  unfold busy. rewrite length_app. cbn [length]. rewrite seq_app, filter_app. cbn [seq Nat.add]. f_equal.
  - apply filter_ext_in. intros w Hw%elem_of_seq. rewrite lookup_app_l by lia. done.
  - cbn [filter list_filter]. rewrite lookup_app_r by lia. rewrite Nat.sub_diag. cbn.
    destruct (is_running p); case_decide; naive_solver.
Qed.
Lemma busy_length ws : length (busy ws) = length (running ws).
Proof.
  induction ws as [|p ws IH] using rev_ind; [done|]. unfold running in *. rewrite busy_app, omap_app, !length_app, IH.
  f_equal. by destruct p.
Qed.
Lemma elem_of_busy ws w : w ∈ busy ws ↔ ∃ j, ws !! w = Some (Running j).
Proof.
  unfold busy. rewrite list_elem_of_filter, elem_of_seq. split.
  - intros [Hr _]. destruct (ws !! w) as [[]|]; naive_solver.
  - intros [j Hj]. split; [by rewrite Hj|]. apply lookup_lt_Some in Hj. lia.
Qed.
Lemma busy_bound ws b :
  NoDup b → (∀ w, w ∈ b → w ∈ busy ws) → (length b ≤ length (running ws))%nat.
Proof. intros Hnd Hb. rewrite <-busy_length. by apply submseteq_length, NoDup_submseteq. Qed.
Lemma busy_all ws b :
  NoDup b → (∀ w, w ∈ b → w ∈ busy ws) → (length (running ws) ≤ length b)%nat → ∀ w, w ∈ busy ws → w ∈ b.
Proof.
  intros Hnd Hb Hl w. rewrite <-busy_length in Hl.
  assert (b ≡ₚ busy ws) as ->; [|done]. apply submseteq_length_Permutation; [by apply NoDup_submseteq|done].
Qed.

(** A step of the pool leaves a running worker to its handler, but for the end of it. *)
Lemma step_running n m d d' w j :
  step n m d d' → handled d' = handled d → WorkerList d !! w = Some (Running j) →
  WorkerList d' !! w = Some (Running j).
Proof.
  intros Hs Hh Hw. destruct Hs as [| | | |l1 j' v l2 E Hv|v Hv|l1 j' l2 v E Hv|v j' Hv| |v E Hv]; cbn in *; try done;
    try (rewrite list_lookup_insert_ne; [done|congruence]).
  by apply app_eq_self_l in Hh || (apply (f_equal length) in Hh; rewrite length_app in Hh; cbn in Hh; lia).
Qed.
End busy.

(** ** Invariant *)
Definition zsum (l : list Z) : Z := foldr Z.add 0 l.
Lemma zsum_app l1 l2 : zsum (l1 ++ l2) = zsum l1 + zsum l2.
Proof. unfold zsum. induction l1; cbn; lia. Qed.
Lemma zsum_alter w l : (w < length l)%nat → zsum (alter (Z.add 1) w l) = 1 + zsum l.
Proof.
  revert w. unfold zsum. induction l as [|x l IH]; intros [|w] Hw; cbn in *; try lia. specialize (IH w). lia.
Qed.
Lemma zsum_take_alter k w l : zsum (take k l) ≤ zsum (take k (alter (Z.add 1) w l)).
Proof.
  revert k w. unfold zsum. induction l as [|x l IH]; intros [|k] [|w]; cbn; try lia.
  all: rewrite ?take_nil; try (specialize (IH k w); cbn in *; lia).
Qed.
Lemma zsum_take_S k l c : l !! k = Some c → zsum (take (S k) l) = zsum (take k l) + c.
Proof. intros Hk. rewrite (take_S_r _ _ _ Hk), zsum_app. cbn. lia. Qed.
Lemma zsum_nonneg l : Forall (Z.le 0) l → 0 ≤ zsum l.
Proof. unfold zsum. induction 1; cbn; lia. Qed.

Section invariant.
Context {G : Type} `{!QueryGenerator G, !SourceLaws G}.
Variable maxWorkers : nat.
Abbreviation queued s := (Z.of_nat (length (submitted (pool s)))).

Record run_inv (c : Z) (s : run G) : Prop := {
  ri_Count : gen_Count (generator s) = c;
  ri_pool : runs_to maxWaitingJobs maxWorkers maxWorkers (pool s);
  ri_quit : quit (pool s) = false;
  ri_len : length (count s) = maxWorkers;
  ri_nonneg : Forall (Z.le 0) (count s);
  ri_NoDup : NoDup (begun s);
  ri_begun : ∀ w, w ∈ begun s → w ∈ busy (WorkerList (pool s));
  ri_sum : zsum (count s) = Z.of_nat (length (handled (pool s)) + length (begun s));
  ri_main : match at_ s with
            | Queueing i => 0 ≤ i ∧ queued s = i ∧ i ≤ Z.max 0 c
            | Testing t => queued s = Z.max 0 c ∧ 0 ≤ t ≤ zsum (count s)
            | Summing k t => queued s = Z.max 0 c ∧ 0 ≤ t ≤ zsum (take k (count s))
            | Reporting | Returned => queued s = Z.max 0 c ∧ 0 ≤ c ≤ zsum (count s)
            | Panicked => True
            end;
}.

Lemma pool_size c s : run_inv c s → length (WorkerList (pool s)) = maxWorkers.
Proof. intros [_ Hp _ _ _ _ _ _ _]. by destruct (inv_control _ _ (runs_inv _ _ _ _ Hp)). Qed.
(** What the pool holds of the queries. *)
Lemma pool_holds c s :
  run_inv c s →
  length (submitted (pool s)) =
    (length (queueing (pool s)) + length (JobQueue (pool s)) + length (assigning (pool s)) + length (sending (pool s))
     + length (running (WorkerList (pool s))) + length (handled (pool s)))%nat.
Proof.
  intros [_ Hp _ _ _ _ _ _ _]. pose proof (inv_jobs _ _ (runs_inv _ _ _ _ Hp)) as Hc. unfold conserved in Hc.
  rewrite Hc, !length_app, !length_fmap. lia.
Qed.

Lemma start_inv g : run_inv (gen_Count g) (start maxWorkers g).
Proof.
  unfold start. split; cbn [generator pool count begun at_]; rewrite ?workers_start; cbn; try done.
  - rewrite <-workers_start. apply run_start.
  - apply length_replicate.
  - by apply Forall_replicate.
  - constructor.
  - set_solver.
  - assert (Hz : ∀ n, zsum (replicate n 0) = 0) by (induction n; [done|by cbn in *]). by rewrite Hz.
  - lia.
Qed.

Lemma main_step_inv c s s' : main_step maxWorkers s s' → run_inv c s → run_inv c s'.
Proof.
  intros Hs Hi. pose proof (pool_size _ _ Hi) as Hsize. destruct Hi as [HC Hp Hq Hl Hn Hnd Hb Hsum Hm].
  destruct Hs as [i q g E Hlt Eg|i E Hlt Eg|i E Hge|t E Hne|k t x E Hk|k t E Hk|t E ->|E|d Ha Hd Hh|w j Ha Hw Hni|b1 w b2 j Ha Eb Hw];
    try rewrite E in Hm.
  - split; cbn -[zsum]; try done; [by rewrite (law_Count _ _ _ Eg)|by apply run_Queue|]. rewrite length_app. cbn -[zsum]. lia.
  - by split.
  - split; cbn -[zsum]; try done. pose proof (zsum_nonneg _ Hn). lia.
  - split; cbn -[zsum take]; try done. rewrite take_0. change (zsum []) with 0. lia.
  - split; cbn -[zsum take]; try done. rewrite (zsum_take_S _ _ _ Hk). rewrite Forall_forall in Hn.
    pose proof (Hn x (list_elem_of_lookup_2 _ _ _ Hk)). lia.
  - split; cbn -[zsum]; try done. rewrite take_ge in Hm by by apply lookup_ge_None. done.
  - split; cbn -[zsum]; try done. lia.
  - by split.
  - destruct (step_constant _ _ _ _ Hd) as [Hsub Hquit]. split; cbn -[zsum]; rewrite ?Hsub, ?Hquit, ?Hh; try done.
    + by eapply run_step.
    + intros w Hw%Hb. apply elem_of_busy in Hw as [j Hw]. apply elem_of_busy. exists j. by eapply step_running.
  - pose proof (lookup_lt_Some _ _ _ Hw) as Hlt. split; cbn -[zsum]; try done.
    + by rewrite length_alter.
    + clear -Hn. revert w. induction Hn; intros [|w]; cbn; constructor; try done; lia.
    + by constructor.
    + intros v [->|Hv]%elem_of_cons; [apply elem_of_busy; eauto|by apply Hb].
    + rewrite zsum_alter by lia. lia.
    + rewrite zsum_alter by lia. destruct (at_ s) as [|t|k t| | |]; try done; try lia.
      pose proof (zsum_take_alter k w (count s)). lia.
  - rewrite Eb in Hnd, Hb, Hsum. apply NoDup_app in Hnd as (H1 & H2 & H3). apply NoDup_cons in H3 as [H4 H5].
    split; cbn -[zsum]; try done.
    + eapply run_step; [done|]. by apply finish.
    + apply NoDup_app. split_and!; [done| |done]. intros v Hv Hv2. by apply (H2 v Hv), list_elem_of_further.
    + intros v Hv. assert (v ≠ w) as Hvw.
      { intros ->. apply elem_of_app in Hv as [Hv|Hv]; [|done]. by apply (H2 w Hv), list_elem_of_here. }
      assert (v ∈ busy (WorkerList (pool s))) as [j' Hj]%elem_of_busy by (apply Hb; set_solver).
      apply elem_of_busy. exists j'. by rewrite list_lookup_insert_ne.
    + rewrite Hsum, !length_app. cbn -[zsum]. lia.
Qed.
Lemma steps_inv c s s' : rtc (main_step maxWorkers) s s' → run_inv c s → run_inv c s'.
Proof. induction 1; [done|]. eauto using main_step_inv. Qed.
Lemma reached_inv g s : reached maxWorkers g s → run_inv (gen_Count g) s.
Proof. intros Hr. eapply steps_inv; [exact Hr|]. apply start_inv. Qed.

(** *** When the result is printed *)

(** C29. Every query of the source has then been given to a worker, and every handler has at
    least begun: nothing is left in the queue, and a worker that is in its handler is in
    [Act]. A count below zero never gets there. *)
Theorem reported_after_all_begun g s :
  reached maxWorkers g s → at_ s = Reporting ∨ at_ s = Returned →
  0 ≤ gen_Count g
  ∧ queued s = gen_Count g
  ∧ queueing (pool s) = [] ∧ JobQueue (pool s) = [] ∧ assigning (pool s) = [] ∧ sending (pool s) = []
  ∧ (∀ w j, WorkerList (pool s) !! w = Some (Running j) → w ∈ begun s)
  ∧ submitted (pool s) ≡ₚ running (WorkerList (pool s)) ++ (handled (pool s)).*1.
Proof.
  intros Hr Hat. pose proof (reached_inv g s Hr) as Hi. pose proof (pool_holds _ _ Hi) as Hh.
  destruct Hi as [HC Hp Hq Hl Hn Hnd Hb Hsum Hm].
  assert (queued s = Z.max 0 (gen_Count g) ∧ 0 ≤ gen_Count g ≤ zsum (count s)) as [Hs Hc] by (by destruct Hat as [E|E]; rewrite E in Hm).
  pose proof (busy_bound _ _ Hnd Hb) as Hbound.
  assert (Hempty : ∀ A (l : list A), length l = 0%nat → l = []) by (by intros A []).
  assert (queueing (pool s) = []) as Eq by (apply Hempty; lia).
  assert (JobQueue (pool s) = []) as Ej by (apply Hempty; lia).
  assert (assigning (pool s) = []) as Ea by (apply Hempty; lia).
  assert (sending (pool s) = []) as Es by (apply Hempty; lia).
  split_and!; try done; try lia.
  - intros w j Hw. apply (busy_all (WorkerList (pool s))); try done; [lia|]. apply elem_of_busy. by exists j.
  - pose proof (inv_jobs _ _ (runs_inv _ _ _ _ Hp)) as Hj. unfold conserved in Hj. by rewrite Eq, Ej, Ea, Es in Hj.
Qed.

(** Without workers nothing is ever printed, unless there is nothing to ask. *)
Lemma no_workers g s :
  maxWorkers = 0%nat → reached maxWorkers g s → gen_Count g ≠ 0 → at_ s ≠ Reporting ∧ at_ s ≠ Returned.
Proof.
  intros H0 Hr HC. pose proof (reached_inv g s Hr) as Hi. destruct Hi as [_ _ _ Hl _ _ _ _ Hm].
  destruct (count s) as [|]; [|cbn in Hl; lia]. cbn in Hm. split; intros E; rewrite E in Hm; lia.
Qed.

(** *** It can always be printed *)
Lemma taken_cons n g qs g' :
  taken (S n) g = Some (qs, g') →
  ∃ q g1 qs', gen_GetQuery g = Some (q, g1) ∧ taken n g1 = Some (qs', g') ∧ qs = q :: qs'.
Proof.
  cbn. destruct (gen_GetQuery g) as [[q g1]|]; [|done]. destruct (taken n g1) as [[qs' g2]|] eqn:E; [|done].
  intros [= <- <-]. by exists q, g1, qs'.
Qed.
(** The rest of the queries can be drawn. *)
Definition can_queue (c : Z) (s : run G) : Prop :=
  match at_ s with
  | Queueing i => is_Some (taken (Z.to_nat (c - i)) (generator s))
  | Panicked => False
  | _ => True
  end.
Lemma main_step_can_queue c s s' : gen_Count (generator s) = c → main_step maxWorkers s s' → can_queue c s → can_queue c s'.
Proof.
  intros HC Hs. unfold can_queue.
  destruct Hs as [i q g E Hlt Eg|i E Hlt Eg|i E Hge|t E Hne|k t x E Hk|k t E Hk|t E ->|E|d Ha Hd Hh|w j Ha Hw Hni|b1 w b2 j Ha Eb Hw];
    cbn -[taken]; try rewrite E; try done.
  - replace (Z.to_nat (c - i)) with (S (Z.to_nat (c - (i + 1)))) by lia.
    intros [[qs g'] (q' & g1 & qs' & E1 & E2 & _)%taken_cons]. rewrite Eg in E1. injection E1 as <- <-. by rewrite E2.
  - replace (Z.to_nat (c - i)) with (S (Z.to_nat (c - (i + 1)))) by lia.
    intros [[qs g'] (q' & g1 & qs' & E1 & _)%taken_cons]. congruence.
Qed.
Lemma steps_can_queue c s s' :
  rtc (main_step maxWorkers) s s' → run_inv c s → can_queue c s → can_queue c s'.
Proof.
  induction 1 as [|s s1 s2 Hs _ IH]; [done|]. intros Hi Hc. apply IH; [by eapply main_step_inv|].
  eapply main_step_can_queue; [apply (ri_Count _ _ Hi)|done..].
Qed.

Lemma sum_all c s k t :
  at_ s = Summing k t → run_inv c s → (k ≤ length (count s))%nat →
  rtc (main_step maxWorkers) s (with_main s (Testing (t + zsum (drop k (count s))))).
Proof.
  remember (length (count s) - k)%nat as m eqn:Em. revert s k t Em. induction m as [|m IH]; intros s k t Em Hat Hi Hk.
  - rewrite drop_ge by lia. cbn. rewrite Z.add_0_r. apply rtc_once. apply (sum_end maxWorkers s k); [done|].
    apply lookup_ge_None. lia.
  - destruct (lookup_lt_is_Some_2 (count s) k) as [x Hx]; [lia|].
    pose proof (sum_next maxWorkers s k t x Hat Hx) as Hs. eapply rtc_l; [exact Hs|].
    rewrite (drop_S _ _ _ Hx). cbn [zsum foldr]. fold (zsum (drop (S k) (count s))). rewrite Z.add_assoc.
    apply (IH (with_main s (Summing (S k) (t + x)))); cbn; [lia|done| |lia]. by eapply main_step_inv.
Qed.
Lemma queue_all c s i :
  at_ s = Queueing i → run_inv c s → can_queue c s → ∃ s', rtc (main_step maxWorkers) s s' ∧ at_ s' = Testing 0.
Proof.
  remember (Z.to_nat (c - i)) as m eqn:Em. revert s i Em. induction m as [|m IH]; intros s i Em Hat Hi Hc.
  - eexists. split; [apply rtc_once, (all_queued maxWorkers s i); [done|]|done]. rewrite (ri_Count _ _ Hi). lia.
  - pose proof Hc as Hc'. unfold can_queue in Hc'. rewrite Hat, <-Em in Hc'.
    destruct Hc' as [[qs g'] (q & g1 & qs' & Eq & _)%taken_cons].
    assert (Hs := queue maxWorkers s i q g1 Hat ltac:(rewrite (ri_Count _ _ Hi); lia) Eq).
    match type of Hs with main_step _ _ ?s1 => destruct (IH s1 (i + 1)) as (s' & Hr & Ha) end.
    + lia.
    + done.
    + by eapply main_step_inv.
    + eapply main_step_can_queue; [apply (ri_Count _ _ Hi)|exact Hs|done].
    + exists s'. split; [by eapply rtc_l|done].
Qed.
(** [main] can go on to a test of the sum. *)
Lemma to_test c s :
  alive s → at_ s ≠ Reporting → run_inv c s → can_queue c s → ∃ s' t, rtc (main_step maxWorkers) s s' ∧ at_ s' = Testing t.
Proof.
  intros [Hr Hp] Hrep Hi Hc. destruct (at_ s) as [i|t|k t| | |] eqn:E; try done.
  - destruct (queue_all c s i E Hi Hc) as (s' & ? & ?). by exists s', 0.
  - by exists s, t.
  - destruct (decide (k ≤ length (count s))%nat).
    + eexists _, _. split; [by eapply sum_all|done].
    + eexists _, t. split; [apply rtc_once, (sum_end maxWorkers s k); [done|]|done]. apply lookup_ge_None. lia.
Qed.

(** What the pool can do, the program can do. *)
Lemma pool_step_runs c s d :
  alive s → run_inv c s → step maxWaitingJobs maxWorkers (pool s) d →
  ∃ s', rtc (main_step maxWorkers) s s' ∧ pool s' = d ∧ at_ s' = at_ s.
Proof.
  intros Ha Hi Hd. destruct (step_handled _ _ _ _ Hd) as [Hh|_].
  { eexists. split; [apply rtc_once; by apply pool_goes_on|done]. }
  inversion Hd as [| | | | | | |w j Hw| |]; subst d; try (eexists; split; [apply rtc_once; by apply pool_goes_on|done]).
  destruct (decide (w ∈ begun s)) as [Hin|Hni].
  - destruct (list_elem_of_split _ _ Hin) as (b1 & b2 & Eb).
    pose proof (handler_ends maxWorkers s b1 w b2 j Ha Eb Hw) as He.
    eexists. split; [by apply rtc_once|done].
  - pose proof (handler_counts maxWorkers s w j Ha Hw Hni) as Hc.
    match type of Hc with main_step _ _ ?s1 =>
      pose proof (handler_ends maxWorkers s1 [] w (begun s) j Ha eq_refl Hw) as He end.
    eexists. split; [eapply rtc_l; [exact Hc|]; by apply rtc_once|done].
Qed.
Lemma pool_steps_run c s d :
  alive s → run_inv c s → rtc (step maxWaitingJobs maxWorkers) (pool s) d →
  ∃ s', rtc (main_step maxWorkers) s s' ∧ pool s' = d ∧ at_ s' = at_ s.
Proof.
  intros Ha Hi Hd. remember (pool s) as d0 eqn:E. revert s E Ha Hi. induction Hd as [d|d0 d1 d2 Hd _ IH]; intros s -> Ha Hi.
  - by exists s.
  - destruct (pool_step_runs c s d1 Ha Hi Hd) as (s1 & Hs1 & Hp1 & Hm1).
    destruct (IH s1) as (s2 & Hs2 & ? & ?); [done| |by eapply steps_inv|].
    + unfold alive in *. by rewrite Hm1.
    + exists s2. split_and!; [by etrans|done|congruence].
Qed.

(** C18. With at least one worker, and a source that keeps its promise, the tool can come to
    its end from wherever it is, with every query done. *)
Theorem can_finish g s :
  (1 ≤ maxWorkers)%nat → 0 ≤ gen_Count g → keeps_promise g → reached maxWorkers g s →
  ∃ s', rtc (main_step maxWorkers) s s' ∧ at_ s' = Returned
    ∧ (at_ s ≠ Reporting → at_ s ≠ Returned → submitted (pool s') ≡ₚ (handled (pool s')).*1).
Proof.
  intros Hn HC (qs & g' & Hqs) Hr. pose proof (reached_inv g s Hr) as Hi.
  assert (can_queue (gen_Count g) s) as Hcq.
  { eapply steps_can_queue; [exact Hr|apply start_inv|]. cbn. by rewrite Z.sub_0_r, Hqs. }
  destruct (decide (at_ s = Returned)) as [Hret|Hret]; [by exists s|].
  destruct (decide (at_ s = Reporting)) as [Hrep|Hrep].
  { eexists. split; [apply rtc_once; by apply report|]. done. }
  assert (alive s) as Ha. { split; [done|]. intros E. unfold can_queue in Hcq. by rewrite E in Hcq. }
  destruct (to_test _ s Ha Hrep Hi Hcq) as (s1 & t & Hs1 & Ht).
  pose proof (steps_inv _ _ _ Hs1 Hi) as Hi1.
  destruct (can_handle_all maxWaitingJobs maxWorkers maxWorkers (pool s1) ltac:(lia) (ri_pool _ _ Hi1) (ri_quit _ _ Hi1))
    as (d & Hd & Hrun & Hall).
  destruct (pool_steps_run (gen_Count g) s1 d) as (s2 & Hs2 & Hp2 & Hm2); [unfold alive; by rewrite Ht|done|done|].
  pose proof (steps_inv _ _ _ Hs2 Hi1) as Hi2. rewrite Ht in Hm2.
  assert (zsum (count s2) = gen_Count g) as Hz.
  { pose proof (busy_bound _ _ (ri_NoDup _ _ Hi2) (ri_begun _ _ Hi2)) as Hb. pose proof (ri_main _ _ Hi2) as Hm.
    rewrite Hm2 in Hm. rewrite (ri_sum _ _ Hi2). rewrite Hp2, Hrun in Hb. cbn in Hb.
    apply Permutation_length in Hall. rewrite length_fmap in Hall. rewrite Hp2 in *. lia. }
  assert (∃ s3, rtc (main_step maxWorkers) s2 s3 ∧ at_ s3 = Testing (gen_Count g) ∧ pool s3 = pool s2
                ∧ generator s3 = generator s2) as (s3 & Hs3 & Hm3 & Hp3 & Hg3).
  { destruct (decide (t = gen_Count g)) as [->|Hne]; [by exists s2|].
    assert (Hs : main_step maxWorkers s2 (with_main s2 (Summing 0 0)))
      by (eapply sum_again; [exact Hm2|by rewrite (ri_Count _ _ Hi2)]).
    eexists. split; [eapply rtc_l; [exact Hs|]; eapply sum_all; [done|by eapply main_step_inv|cbn; lia]|].
    cbn [at_ with_main count pool generator]. by rewrite drop_0, Hz. }
  eexists. split; [|split; [|intros _ _]].
  - etrans; [exact Hs1|]. etrans; [exact Hs2|]. etrans; [exact Hs3|].
    eapply rtc_l; [eapply enough; [exact Hm3|by rewrite Hg3, (ri_Count _ _ Hi2)]|].
    apply rtc_once. by eapply report.
  - done.
  - cbn. by rewrite Hp3, Hp2.
Qed.
End invariant.

(** A worker counts its query before it asks, so that the result may be printed, and the
    program be over, while every query is still unanswered; between the two are the
    sleeps of a second, less than the time a query has. *)
Theorem reported_before_answer {G} `{!QueryGenerator G, !SourceLaws G} (g g' : G) q :
  gen_Count g = 1 → gen_GetQuery g = Some (q, g') →
  ∃ s, reached 1 g s ∧ at_ s = Returned ∧ submitted (pool s) = [q] ∧ handled (pool s) = [].
Proof.
  intros HC Hq. pose proof (law_Count _ _ _ Hq) as HC'. rewrite HC in HC'. unfold reached, start. cbn [Nat.iter AddWorker].
  assert (H0 : (0 < maxWaitingJobs)%nat) by (unfold maxWaitingJobs; lia).
  assert (Hstep : ∀ s1 s2 (P : run G → Prop), main_step 1 s1 s2 →
    (∃ s, rtc (main_step 1) s2 s ∧ P s) → ∃ s, rtc (main_step 1) s1 s ∧ P s).
  { intros s1 s2 P Hs (s & Hr & Hp). exists s. split; [by eapply rtc_l|done]. }
  eapply Hstep; [eapply queue; cbn; [done|lia|exact Hq]|]. cbn.
  eapply Hstep; [eapply all_queued; cbn; [done|lia]|]. cbn.
  eapply Hstep; [eapply pool_goes_on; [done|apply (enqueue _ _ _ [] q []); cbn; [done|lia]|done]|]. cbn.
  eapply Hstep; [eapply pool_goes_on; [done|by apply (dispatch _ _ _ q [])|done]|]. cbn.
  eapply Hstep; [eapply pool_goes_on; [done|apply (announce _ _ _ 0%nat); cbn; [done|lia]|done]|]. cbn.
  eapply Hstep; [eapply pool_goes_on; [done|by apply (pick _ _ _ [] q [] 0%nat [])|done]|]. cbn.
  eapply Hstep; [eapply pool_goes_on; [done|by apply (send _ _ _ [] q 0%nat [])|done]|]. cbn.
  eapply Hstep; [eapply (handler_counts _ _ 0%nat q); cbn; [done|done|set_solver]|]. cbn.
  eapply Hstep; [eapply sum_again; cbn; [done|lia]|]. cbn.
  eapply Hstep; [by eapply sum_next|]. cbn.
  eapply Hstep; [by eapply sum_end|]. cbn.
  eapply Hstep; [eapply enough; cbn; [done|lia]|]. cbn.
  eapply Hstep; [by eapply report|]. cbn.
  eexists. split; [apply rtc_refl|done].
Qed.
