(* ===== verification/Health.v ===== *)
(** * Health checks: [internal/storage/stat_handler.go], [internal/healthcheck/healthcheck.go]

    The status of an address counts its recent successes (positive) or failures
    (negative) up to two bounds; it is kept in redis under the host and the
    address, with a cache in front. What the network does during a check is the
    record [Network]; the JSON documents are parameters. [Transfer] walks over the
    zones of the data handler and keeps the items of their addresses. *)
From S2P Require Import Prelude GoStrings Redis Radix DnsTypes Zone Store DataHandler DataHandlerFacts.
Local Open Scope Z_scope.

Record HealthCheckItem := {
  Protocol : string; Uri : string; Port : Z; Status : Z; LastCheck : Z; Timeout : Z;
  UpCount : Z; DownCount : Z; hc_Enable : bool; hc_DomainId : string; Host : string; Ip : string;
  Error : option string;
}.

(** Assignments to the fields of an item. *)
Definition with_status (st : Z) (i : HealthCheckItem) : HealthCheckItem := {|
  Protocol := Protocol i; Uri := Uri i; Port := Port i; Status := st; LastCheck := LastCheck i;
  Timeout := Timeout i; UpCount := UpCount i; DownCount := DownCount i; hc_Enable := hc_Enable i;
  hc_DomainId := hc_DomainId i; Host := Host i; Ip := Ip i; Error := Error i |}.
Definition with_check (now : Z) (err : option string) (i : HealthCheckItem) : HealthCheckItem := {|
  Protocol := Protocol i; Uri := Uri i; Port := Port i; Status := Status i; LastCheck := now;
  Timeout := Timeout i; UpCount := UpCount i; DownCount := DownCount i; hc_Enable := hc_Enable i;
  hc_DomainId := hc_DomainId i; Host := Host i; Ip := Ip i; Error := err |}.
Definition with_down_count (d : Z) (i : HealthCheckItem) : HealthCheckItem := {|
  Protocol := Protocol i; Uri := Uri i; Port := Port i; Status := Status i; LastCheck := LastCheck i;
  Timeout := Timeout i; UpCount := UpCount i; DownCount := d; hc_Enable := hc_Enable i;
  hc_DomainId := hc_DomainId i; Host := Host i; Ip := Ip i; Error := Error i |}.

(** ** Status *)
Definition statusDown (item : HealthCheckItem) : HealthCheckItem :=
  if Status item <=? 0 then
    let st := wrap64 (Status item - 1) in
    with_status (if st <? DownCount item then DownCount item else st) item
  else with_status (-1) item.
Definition statusUp (item : HealthCheckItem) : HealthCheckItem :=
  if Status item >=? 0 then
    let st := wrap64 (Status item + 1) in
    with_status (if st >? UpCount item then UpCount item else st) item
  else with_status 1 item.

(** ** The stat handler *)
Definition statPrefix : string := "z42:healthcheck:".
Definition item_key (host ip : string) : string := host +:+ ":" +:+ ip.

Record SH (RS SC : Type) := { sh_redis : RS; sh_cache : SC }.
Arguments sh_redis {RS SC}. Arguments sh_cache {RS SC}.

Section StatHandler.
Context {RS SC : Type} `{!RedisOps RS, !Cache SC HealthCheckItem}.
(** [jsoniter.Marshal], and what [jsoniter.Unmarshal] leaves in a new item: its
    error is ignored. *)
Variable Marshal_item : HealthCheckItem → res string string.
Variable Unmarshal_item : string → HealthCheckItem.
Abbreviation SHS := (SH RS SC).

Definition sh_on_redis {A} (m : M RS A) : M SHS A := λ s,
  let '(a, r) := m (sh_redis s) in (a, {| sh_redis := r; sh_cache := sh_cache s |}).
Definition sh_on_cache {A} (f : SC → A * SC) : M SHS A := λ s,
  let '(a, c) := f (sh_cache s) in (a, {| sh_redis := sh_redis s; sh_cache := c |}).

Definition GetActiveHealthcheckItems : M SHS (res RedisError (list string)) :=
  must itemKeys ← sh_on_redis (redis_GetKeys (statPrefix +:+ "*"));
  mret (Ok ((λ k, TrimPrefix k statPrefix) <$> itemKeys)).

Definition negate_down_count (item : HealthCheckItem) : HealthCheckItem :=
  if DownCount item >? 0 then with_down_count (wrap64 (- DownCount item)) item else item.
Definition GetHealthcheckItem (key : string) : M SHS (res RedisError HealthCheckItem) :=
  must itemStr ← sh_on_redis (redis_Get (statPrefix +:+ key));
  mret (Ok (negate_down_count (Unmarshal_item itemStr))).

(** The error of redis is not returned. *)
Definition SetHealthcheckItem (item : HealthCheckItem) : M SHS (res string ()) :=
  match Marshal_item item with
  | Err e => mret (Err e)
  | Ok itemStr =>
    _ ← sh_on_redis (redis_Set (statPrefix +:+ item_key (Host item) (Ip item)) itemStr);
    mret (Ok ())
  end.
Definition SetHealthcheckItemExpiration (key : string) (lifespan : Z) : M SHS (res RedisError ()) :=
  sh_on_redis (redis_Expire (statPrefix +:+ key) lifespan).

Definition GetHealthStatus (domain ip : string) : M SHS Z :=
  let key := item_key domain ip in
  val ← sh_on_cache (cache_Get key);
  match (val : option HealthCheckItem) with
  | Some item => mret (Status item)
  | None =>
    r ← GetHealthcheckItem key;
    match r with
    | Err _ => mret 0
    | Ok item => _ ← sh_on_cache (λ c, ((), cache_Set key item c)); mret (Status item)
    end
  end.

(** The message handler of [NewStatHandler]: the key it evicts from the cache. *)
Definition evicted_key (channel : string) : string := TrimLeft channel statPrefix.
Definition on_stat_event (channel : string) : M SHS () :=
  sh_on_cache (λ c, ((), cache_Del (V:=HealthCheckItem) (evicted_key channel) c)).
Definition sh_Clear : M SHS (res RedisError ()) := sh_on_redis (redis_Del "*").

(** ** Checks *)

(** What the network does during one check. [exchange] covers the deadline, the
    echo message with the identifier, the address and the parsing of the answer. *)
Record Network := {
  NewRequest_err : string → option string;                       (* method HEAD *)
  client_Do : string → string → string → Z → res string Z;       (* url, TLS name, Host, timeout *)
  ListenPacket_err : option string;
  exchange : Z → list Z → Z → res string (Z * string);  (* ID, address, timeout; type and rendering *)
}.
Variable ParseIP : string → option (list Z).  (* net.ParseIP: 16 bytes *)
Variable EchoReply : Z.                       (* ipv4.ICMPTypeEchoReply *)

Definition http_ok (StatusCode : Z) : bool := bool_decide (StatusCode ∈ [200; 302; 301]).
Definition httpCheck (net : Network) (url host : string) (timeout : Z) : option string :=
  match NewRequest_err net url with
  | Some err => Some err
  | None =>
    match client_Do net url host (TrimRight host ".") timeout with
    | Err err => Some err
    | Ok StatusCode =>
      if http_ok StatusCode then None
      else Some ("invalid http status code : " +:+ Itoa StatusCode)
    end
  end.

(** [binary.BigEndian.Uint32], which needs four bytes. *)
Definition Uint32 (b : list Z) : option Z :=
  match b with
  | b0 :: b1 :: b2 :: b3 :: _ => Some (((b0 * 256 + b1) * 256 + b2) * 256 + b3)
  | _ => None
  end.
(** The outer [None] is a panic: the address is not one. *)
Definition pingCheck (net : Network) (ip : string) (timeout : Z) : option (option string) :=
  match ListenPacket_err net with
  | Some err => Some (Some err)
  | None =>
    let addr := default [] (ParseIP ip) in
    match Uint32 addr with
    | None => None
    | Some id =>
      match exchange net id addr timeout with
      | Err err => Some (Some err)
      | Ok (Type_, shown) => if Type_ =? EchoReply then Some None
                             else Some (Some ("got " +:+ shown +:+ "; want echo reply"))
      end
    end
  end.

(** The switch on the protocol. *)
Definition check (net : Network) (item : HealthCheckItem) : option (option string) :=
  let timeout := wrap64 (Timeout item * 1000000) in
  if bool_decide (Protocol item = "http") || bool_decide (Protocol item = "https") then
    Some (httpCheck net (Protocol item +:+ "://" +:+ Ip item +:+ Uri item) (Host item) timeout)
  else if bool_decide (Protocol item = "ping") || bool_decide (Protocol item = "icmp") then
    pingCheck net (Ip item) timeout
  else Some None.

(** [HandleHealthCheck]: one job of a worker; [now] is [time.Now()]. *)
Definition HandleHealthCheck (net : Network) (now : Z) (item : HealthCheckItem)
  : M SHS (option ()) :=
  match check net item with
  | None => mret None
  | Some err =>
    let item := match err with None => statusUp item | Some _ => statusDown item end in
    _ ← SetHealthcheckItem (with_check now err item); mret (Some ())
  end.

(** One tick of [Start]: the items to queue; [since] is [time.Since]. *)
Fixpoint due_items (checkInterval : Z) (since : Z → Z) (itemKeys : list string)
  : M SHS (list HealthCheckItem) :=
  match itemKeys with
  | [] => mret []
  | itemKey :: itemKeys =>
    r ← GetHealthcheckItem itemKey;
    rest ← due_items checkInterval since itemKeys;
    mret match r with
         | Ok item => if since (LastCheck item) >? checkInterval then item :: rest else rest
         | Err _ => rest
         end
  end.

(** ** [Transfer]: the items of the addresses of one record set *)
Definition itemsEqual (item1 item2 : HealthCheckItem) : bool :=
  bool_decide (Ip item1 = Ip item2) && bool_decide (Uri item1 = Uri item2)
  && bool_decide (Port item1 = Port item2) && bool_decide (Protocol item1 = Protocol item2)
  && bool_decide (hc_Enable item1 = hc_Enable item2) && bool_decide (UpCount item1 = UpCount item2)
  && bool_decide (DownCount item1 = DownCount item2) && bool_decide (Timeout item1 = Timeout item2).

Variable IP_String : IP → string.  (* net.IP.String *)

Definition new_item (domainId fqdn : string) (rrset : IP_RRSet) (ip : IP_RR) : HealthCheckItem :=
  let hc := IP_HealthCheckConfig rrset in {|
  Protocol := HC_Protocol hc; Uri := HC_Uri hc; Port := HC_Port hc; Status := 0; LastCheck := 0;
  Timeout := HC_Timeout hc; UpCount := HC_UpCount hc; DownCount := HC_DownCount hc;
  hc_Enable := HC_Enable hc; hc_DomainId := domainId; Host := fqdn; Ip := IP_String (IP_Ip ip);
  Error := None |}.

Definition transfer_ip (updateInterval : Z) (domainId fqdn : string) (rrset : IP_RRSet) (ip : IP_RR)
  : M SHS () :=
  let key := item_key fqdn (IP_String (IP_Ip ip)) in
  let newItem := new_item domainId fqdn rrset ip in
  oldItem ← GetHealthcheckItem key;
  _ ← (match oldItem with
       | Ok old => if itemsEqual old newItem then mret (Ok ()) else SetHealthcheckItem newItem
       | Err _ => SetHealthcheckItem newItem
       end);
  _ ← SetHealthcheckItemExpiration key updateInterval;
  mret ().
Fixpoint transfer_ips (updateInterval : Z) (domainId fqdn : string) (rrset : IP_RRSet)
    (ips : list IP_RR) : M SHS () :=
  match ips with
  | [] => mret ()
  | ip :: ips => _ ← transfer_ip updateInterval domainId fqdn rrset ip;
                 transfer_ips updateInterval domainId fqdn rrset ips
  end.
Definition transfer_set (updateInterval : Z) (domain domainId subdomain : string) (rrset : IP_RRSet)
  : M SHS () :=
  if HC_Enable (IP_HealthCheckConfig rrset)
  then transfer_ips updateInterval domainId (subdomain +:+ "." +:+ domain) rrset (IP_Data rrset)
  else mret ().

(** ** [FilterHealthcheck]

    The loops over the mask: each white address is looked up by its status. The
    mask has one entry per address. *)
Fixpoint min_status (qname : string) (ms : list (Z * IP_RR)) (min : Z) : M SHS Z :=
  match ms with
  | [] => mret min
  | (x, ip) :: ms =>
    if x =? IpMaskWhite then
      status ← GetHealthStatus qname (IP_String (IP_Ip ip));
      min_status qname ms (if status >? min then status else min)
    else min_status qname ms min
  end.
Definition threshold (upCount downCount min : Z) : Z :=
  if (min <? wrap64 (upCount - 1)) && (min >? downCount) then wrap64 (downCount + 1) else min.
Fixpoint mask_below (qname : string) (ms : list (Z * IP_RR)) (min : Z) : M SHS (list Z) :=
  match ms with
  | [] => mret []
  | (x, ip) :: ms =>
    x' ← (if x =? IpMaskWhite then
            status ← GetHealthStatus qname (IP_String (IP_Ip ip));
            mret (if status <? min then IpMaskBlack else x)
          else mret IpMaskBlack);
    rest ← mask_below qname ms min;
    mret (x' :: rest)
  end.

Definition FilterHealthcheck (enable : bool) (qname : string) (rrset : IP_RRSet) (mask : list Z)
  : M SHS (list Z) :=
  if negb enable then mret mask else
  let hc := IP_HealthCheckConfig rrset in
  min ← min_status qname (zip mask (IP_Data rrset)) (HC_DownCount hc);
  mask_below qname (zip mask (IP_Data rrset)) (threshold (HC_UpCount hc) (HC_DownCount hc) min).
End StatHandler.

(** ** [Transfer]

    The goroutine walks over the locations of every zone, for ever; before each
    location it waits for the limiter or for [quit]. [ticks] is the number of
    limiter ticks it takes before it sees [quit]. *)
Inductive walk := WalkPanic | WalkQuit | WalkOn (ticks : nat).

Section Transfer.
Context {T : Type → Type} `{!IRadix T} {RS RC ZC CK SRS SC : Type}.
Context `{!RedisOps RS, !Cache RC AnyRRSet, !Cache ZC (Zone T), !Clock CK, !JsonDocs}.
Context `{!RedisOps SRS, !Cache SC HealthCheckItem}.
Variable config : DataHandlerConfig.
Variable TypeToString : Z → string.
Variable Fqdn : string → string.
Variable unmarshal_config : string → ZoneConfig → ZoneConfig.
Variable NewRR : string → res string (option RR).
Variable NewPrivateKey : RR → string → res string string.
Variable KeyTag : RR → Z.
Variable Sign : RR → string → list RR → option RR.
Variable Marshal_item : HealthCheckItem → res string string.
Variable Unmarshal_item : string → HealthCheckItem.
Variable IP_String : IP → string.
Variable updateInterval : Z.
Abbreviation DHS := (DH T RS RC ZC CK).
Abbreviation ST := (DHS * SH SRS SC)%type.
Abbreviation get_zone_config :=
  (GetZoneConfig config Fqdn unmarshal_config NewRR NewPrivateKey KeyTag Sign).
Abbreviation get_zone_locations :=
  (GetZoneLocations config Fqdn unmarshal_config NewRR NewPrivateKey KeyTag Sign).

(** [None] is the panic of [GetZone]. *)
Definition getDomainId (zone : string) : M DHS (option string) :=
  cfg ← get_zone_config zone;
  mret match cfg with
       | None => None
       | Some (Err _) => Some empty_str
       | Some (Ok c) => Some (DomainId c)
       end.

Definition transfer_subdomain (domain domainId subdomain : string) : M ST () :=
  a ← on_fst (dh_A config TypeToString domain subdomain);
  aaaa ← on_fst (dh_AAAA config TypeToString domain subdomain);
  match a, aaaa with
  | Ok a, Ok aaaa =>
    let transfer := transfer_set Marshal_item Unmarshal_item IP_String updateInterval
                      domain domainId subdomain in
    _ ← on_snd (transfer a);
    on_snd (transfer aaaa)
  | _, _ => mret ()
  end.
Fixpoint transfer_subdomains (ticks : nat) (domain domainId : string) (subdomains : list string)
  : M ST walk :=
  match subdomains with
  | [] => mret (WalkOn ticks)
  | subdomain :: subdomains =>
    match ticks with
    | O => mret WalkQuit
    | S ticks =>
      _ ← transfer_subdomain domain domainId subdomain;
      transfer_subdomains ticks domain domainId subdomains
    end
  end.
Fixpoint transfer_domains (ticks : nat) (domains : list string) : M ST walk :=
  match domains with
  | [] => mret (WalkOn ticks)
  | domain :: domains =>
    domainId ← on_fst (getDomainId domain);
    subdomains ← on_fst (get_zone_locations domain);
    match (domainId : option string), (subdomains : option (list string)) with
    | Some domainId, Some subdomains =>
      r ← transfer_subdomains ticks domain domainId subdomains;
      match r with
      | WalkOn ticks => transfer_domains ticks domains
      | _ => mret r
      end
    | _, _ => mret WalkPanic
    end
  end.
(** [fuel] bounds the number of walks over all zones; [WalkOn] is a loop that has
    not ended. *)
Fixpoint Transfer (fuel ticks : nat) : M ST walk :=
  match fuel with
  | O => mret (WalkOn ticks)
  | S fuel =>
    domains ← on_fst GetZones;
    r ← transfer_domains ticks domains;
    match r with
    | WalkOn ticks => Transfer fuel ticks
    | _ => mret r
    end
  end.
End Transfer.

(** ** Theorems *)
Section facts.
Context {RS SC : Type} `{!RedisOps RS, !Cache SC HealthCheckItem}.
Context {rstr : RS → string → option string} {rset : RS → string → gset string}.
Context `{!RedisSpec RS rstr rset}.
Context {contents : SC → gmap string HealthCheckItem} `{!CacheLaws SC HealthCheckItem contents}.
Variable Marshal_item : HealthCheckItem → res string string.
Variable Unmarshal_item : string → HealthCheckItem.
Variable ParseIP : string → option (list Z).
Variable EchoReply : Z.
Variable IP_String : IP → string.
Abbreviation SHS := (SH RS SC).
Abbreviation get_item := (GetHealthcheckItem (SC:=SC) (RS:=RS) Unmarshal_item).
Abbreviation get_status := (GetHealthStatus (SC:=SC) (RS:=RS) Unmarshal_item).
Abbreviation handle := (HandleHealthCheck (SC:=SC) (RS:=RS) Marshal_item ParseIP EchoReply).

(** *** Streaks of equal verdicts *)
Definition verdict (up : bool) : HealthCheckItem → HealthCheckItem :=
  if up then statusUp else statusDown.
(** The status after [k] equal verdicts. *)
Definition streak (up : bool) (k up_count down_count st : Z) : Z :=
  if up then Z.min up_count (Z.max st 0 + k) else Z.max down_count (Z.min st 0 - k).

Lemma verdict_status up i :
  1 ≤ UpCount i < 2 ^ 63 → - 2 ^ 63 ≤ DownCount i ≤ -1 →
  - 2 ^ 63 < Status i < 2 ^ 63 - 1 →
  Status (verdict up i) = streak up 1 (UpCount i) (DownCount i) (Status i).
Proof.
  intros HU HD HS. unfold verdict, streak, statusUp, statusDown. destruct up.
  - destruct (Z.geb_spec (Status i) 0); simpl; [|lia].
    rewrite wrap64_id by (unfold is_int64; lia). destruct (Z.gtb_spec (Status i + 1) (UpCount i)); lia.
  - destruct (Z.leb_spec (Status i) 0); simpl; [|lia].
    rewrite wrap64_id by (unfold is_int64; lia). destruct (Z.ltb_spec (Status i - 1) (DownCount i)); lia.
Qed.
Lemma streak_next up k U D st :
  1 ≤ U → D ≤ -1 → 1 ≤ k → streak up 1 U D (streak up k U D st) = streak up (k + 1) U D st.
Proof. intros. unfold streak. destruct up; lia. Qed.

(** The checks of one key: each loads the item from redis, as [Start] does, and
    hands it to a worker. *)
Definition check_once (key : string) (job : Network * Z) : M SHS () :=
  r ← get_item key;
  match r with
  | Ok item => _ ← handle job.1 job.2 item; mret ()
  | Err _ => mret ()
  end.
Fixpoint check_all (key : string) (jobs : list (Network * Z)) : M SHS () :=
  match jobs with
  | [] => mret ()
  | job :: jobs => _ ← check_once key job; check_all key jobs
  end.

Lemma verdict_with up i : verdict up i = with_status (Status (verdict up i)) i.
Proof. unfold verdict, statusUp, statusDown. destruct up; by case_match. Qed.

(** Redis answers every read and performs every write. *)
Hypothesis redis_answers : ∀ k s e, (redis_Get k s).1 = Err e → e = ErrNil.
Hypothesis redis_works : ∀ k v s, (redis_Set k v s).1 = Ok ().

Lemma get_item_run key j (s : SHS) :
  rstr (sh_redis s) (statPrefix +:+ key) = Some j →
  let r := get_item key s in
  r.1 = Ok (negate_down_count (Unmarshal_item j))
  ∧ (∀ k, rstr (sh_redis r.2) k = rstr (sh_redis s) k) ∧ sh_cache r.2 = sh_cache s.
Proof.
  intros Hj. cbv zeta. unfold GetHealthcheckItem, sh_on_redis. rewrite run_bind.
  pose proof (spec_Get (statPrefix +:+ key) (sh_redis s)) as Hg.
  pose proof (redis_answers (statPrefix +:+ key) (sh_redis s)) as Ha.
  destruct (redis_Get _ _) as [[v|e] rs]; destruct Hg as [Hsame Hg]; cbn [fst snd] in *.
  - rewrite Hj in Hg. injection Hg as ->. split_and!; [done| |done]. intros k. apply Hsame.
  - rewrite (Ha e) in Hg by done. congruence.
Qed.

Lemma set_item_run i j (s : SHS) :
  Marshal_item i = Ok j →
  rstr (sh_redis (SetHealthcheckItem Marshal_item i s).2) (statPrefix +:+ item_key (Host i) (Ip i))
  = Some j.
Proof.
  intros Hm. unfold SetHealthcheckItem, sh_on_redis. rewrite Hm, run_bind.
  pose proof (spec_Set (statPrefix +:+ item_key (Host i) (Ip i)) j (sh_redis s)) as Hs.
  pose proof (redis_works (statPrefix +:+ item_key (Host i) (Ip i)) j (sh_redis s)) as Hw.
  destruct (redis_Set _ _ _) as [x rs]. by apply Hs.
Qed.

(** [item] with another status, time and error. *)
Definition checked (item : HealthCheckItem) (st now : Z) (err : option string) : HealthCheckItem :=
  with_check now err (with_status st item).
(** JSON keeps an item but for its error, which is not part of the document. *)
Definition json_keeps (item : HealthCheckItem) (now : Z) : Prop :=
  ∀ st err, ∃ j, Marshal_item (checked item st now err) = Ok j
                 ∧ Unmarshal_item j = checked item st now None.
Definition stored_status (key : string) (s : SHS) (item : HealthCheckItem) (st : Z) : Prop :=
  ∃ j now, rstr (sh_redis s) (statPrefix +:+ key) = Some j
           ∧ Unmarshal_item j = checked item st now None.
Definition agrees (up : bool) (item : HealthCheckItem) (job : Network * Z) : Prop :=
  json_keeps item job.2
  ∧ ∃ err, check ParseIP EchoReply job.1 item = Some err ∧ bool_decide (err = None) = up.

Section streaks.
Variables (up : bool) (item : HealthCheckItem).
Hypothesis up_bounds : 1 ≤ UpCount item < 2 ^ 63 - 1.
Hypothesis down_bounds : - 2 ^ 63 < DownCount item ≤ -1.
Abbreviation key := (item_key (Host item) (Ip item)).
Abbreviation next k st := (streak up k (UpCount item) (DownCount item) st).

Lemma check_once_run job st s :
  - 2 ^ 63 < st < 2 ^ 63 - 1 → stored_status key s item st → agrees up item job →
  stored_status key (check_once key job s).2 item (next 1 st).
Proof.
  intros Hst (j & now & Hj & Hu) (Hjson & err & Hc & Hup). unfold check_once. rewrite run_bind.
  destruct (get_item_run key j s Hj) as (E & Hk & _).
  destruct (get_item key s) as [r s1]. cbn [fst snd] in *. subst r.
  assert (En : negate_down_count (checked item st now None) = checked item st now None).
  { unfold negate_down_count. simpl. destruct (Z.gtb_spec (DownCount item) 0); [lia|done]. }
  rewrite Hu, En, run_bind. cbn [fst snd mret M_ret]. unfold HandleHealthCheck.
  change (check ParseIP EchoReply job.1 (checked item st now None))
    with (check ParseIP EchoReply job.1 item). rewrite Hc, run_bind.
  set (i := checked item st now None).
  assert (Ev : match err with None => statusUp i | Some _ => statusDown i end = verdict up i).
  { subst up. case_bool_decide; [by subst err|by destruct err]. }
  rewrite Ev, verdict_with, (verdict_status up i) by (simpl; lia).
  change (with_check job.2 err (with_status (next 1 st) i)) with (checked item (next 1 st) job.2 err).
  destruct (Hjson (next 1 st) err) as (j' & Hm & Hu'). exists j', job.2. split; [|done].
  by apply (set_item_run (checked item (next 1 st) job.2 err)).
Qed.

Lemma next_range k st : 1 ≤ k → - 2 ^ 63 < next k st < 2 ^ 63 - 1.
Proof. unfold streak. destruct up; lia. Qed.

Lemma check_all_run jobs k st s :
  1 ≤ k → stored_status key s item (next k st) → Forall (agrees up item) jobs →
  stored_status key (check_all key jobs s).2 item (next (k + Z.of_nat (length jobs)) st).
Proof.
  intros Hk Hs Hjobs. revert k s Hk Hs. induction Hjobs as [|job jobs Hjob Hjobs IH]; intros k s Hk Hs.
  - by rewrite Z.add_0_r.
  - cbn [check_all length]. rewrite run_bind.
    replace (k + Z.of_nat (S (length jobs))) with (k + 1 + Z.of_nat (length jobs)) by lia.
    apply IH; [lia|]. rewrite <-streak_next by lia. apply check_once_run; auto using next_range.
Qed.

(** C31. The status counts the verdicts: after [k > 0] checks in a row with the same
    verdict the stored status is [k] successes above 0 (or above the successes
    before) up to [UpCount], or [k] failures below 0 down to [DownCount], whatever
    the network did and the clock showed. *)
Theorem checks_streak jobs st s :
  jobs ≠ [] → - 2 ^ 63 < st < 2 ^ 63 - 1 →
  stored_status key s item st → Forall (agrees up item) jobs →
  stored_status key (check_all key jobs s).2 item (next (Z.of_nat (length jobs)) st).
Proof.
  intros Hne Hst Hs Hjobs. destruct Hjobs as [|job jobs Hjob Hjobs]; [done|].
  cbn [check_all length]. rewrite run_bind.
  replace (Z.of_nat (S (length jobs))) with (1 + Z.of_nat (length jobs)) by lia.
  apply check_all_run; [lia| |done]. by apply check_once_run.
Qed.
End streaks.

(** *** What [Transfer] does to the status *)
Hypothesis expire_keeps : ∀ k d s k', 0 < d → rstr (redis_Expire k d s).2 k' = rstr s k'.

Lemma same_bool `{!EqDecision A} (x : A) : bool_decide (x = x) = true.
Proof. by apply bool_decide_eq_true. Qed.
Lemma itemsEqual_checked i st now :
  is_int64 (DownCount i) → itemsEqual (negate_down_count (checked i st now None)) i = bool_decide (DownCount i ≤ 0).
Proof.
  intros HD. unfold itemsEqual, negate_down_count. destruct (Z.gtb_spec (DownCount (checked i st now None)) 0) as [Hd|Hd];
    simpl in *; rewrite !same_bool; simpl.
  - rewrite bool_decide_eq_false_2, bool_decide_eq_false_2; [done|lia|].
    unfold is_int64 in HD. rewrite wrap64_id by (unfold is_int64; lia). lia.
  - by rewrite bool_decide_eq_true_2 by lia.
Qed.

(** A walk over an address whose item redis has as it was transferred before, with
    the status [st] of the checks since: the item stays as it is, unless its
    [DownCount] is positive; then the status is lost and starts again at 0. *)
Theorem transfer_ip_spec updateInterval domainId fqdn rrset ip st now j (s : SHS) :
  let i := new_item IP_String domainId fqdn rrset ip in
  let key := statPrefix +:+ item_key fqdn (Ip i) in
  let s' := (transfer_ip Marshal_item Unmarshal_item IP_String updateInterval domainId fqdn rrset ip s).2 in
  0 < updateInterval → is_int64 (DownCount i) → json_keeps i 0 →
  rstr (sh_redis s) key = Some j → Unmarshal_item j = checked i st now None →
  if bool_decide (DownCount i ≤ 0) then rstr (sh_redis s') key = Some j
  else ∃ j', rstr (sh_redis s') key = Some j' ∧ Unmarshal_item j' = i ∧ Status i = 0.
Proof.
  cbv zeta. set (i := new_item _ _ _ _ _). intros Hu HD Hjson Hj Hi. unfold transfer_ip.
  fold i. change (IP_String (IP_Ip ip)) with (Ip i).
  set (key := statPrefix +:+ item_key fqdn (Ip i)) in *. rewrite run_bind.
  destruct (get_item_run (item_key fqdn (Ip i)) j s Hj) as (E & Hk & _).
  destruct (get_item (item_key fqdn (Ip i)) s) as [r s1]. cbn [fst snd] in *. subst r.
  rewrite Hi, itemsEqual_checked by done. rewrite run_bind.
  assert (Hexp : ∀ s2 : SHS, rstr (sh_redis ((_ ← SetHealthcheckItemExpiration (item_key fqdn (Ip i)) updateInterval;
                                mret ()) s2).2) key = rstr (sh_redis s2) key).
  { intros s2. rewrite run_bind. unfold SetHealthcheckItemExpiration, sh_on_redis. cbn [fst snd mret M_ret].
    rewrite <-(expire_keeps key updateInterval (sh_redis s2) key Hu). fold key.
    by destruct (redis_Expire key updateInterval (sh_redis s2)). }
  rewrite Hexp. case_bool_decide; [by rewrite <-Hj, <-Hk|].
  destruct (Hjson 0 None) as (j' & Hm & Hu'). exists j'. split_and!; [|done..].
  by apply (set_item_run i).
Qed.

(** *** The filter *)
Section filter.
Variable st : string → Z.

(** Redis and the cache agree on the status [st key] of every key. *)
Definition settled (s : SHS) : Prop :=
  map_Forall (λ key i, Status i = st key) (contents (sh_cache s))
  ∧ ∀ key, match rstr (sh_redis s) (statPrefix +:+ key) with
           | Some j => Status (Unmarshal_item j) = st key
           | None => st key = 0
           end.

Lemma status_negate i : Status (negate_down_count i) = Status i.
Proof. unfold negate_down_count. by case_match. Qed.

Lemma sh_Get_keeps key :
  keeping settled (sh_on_cache (cache_Get key))
    (λ o, ∀ i : HealthCheckItem, o = Some i → Status i = st key).
Proof.
  intros s [Hc Hr]. unfold sh_on_cache.
  pose proof (law_cache_Get (V:=HealthCheckItem) key (sh_cache s)) as [Hsub Hv].
  destruct (cache_Get _ _) as [o c]. simpl in *. split; [|by intros i E; eapply (Hc key), Hv].
  split; [by eapply map_Forall_subseteq|done].
Qed.
Lemma get_item_keeps key :
  keeping settled (get_item key)
    (λ r, match r with Ok i => Status i = st key | Err _ => st key = 0 end).
Proof.
  intros s [Hc Hr]. pose proof (Hr key) as Hst. unfold GetHealthcheckItem, sh_on_redis.
  rewrite run_bind. set (k := statPrefix +:+ key) in *.
  pose proof (spec_Get k (sh_redis s)) as Hg. pose proof (redis_answers k (sh_redis s)) as Ha.
  destruct (redis_Get k (sh_redis s)) as [r rs]. destruct Hg as [Hsame Hg]. cbn [fst snd] in *.
  assert (Hset : settled {| sh_redis := rs; sh_cache := sh_cache s |}).
  { split; [done|]. intros key'. simpl. rewrite (proj1 (Hsame _)). apply Hr. }
  destruct r as [v|e]; split; try done.
  - rewrite Hg in Hst. simpl. by rewrite status_negate.
  - rewrite (Ha e) in Hg by done. by rewrite Hg in Hst.
Qed.
Lemma sh_Set_keeps key (i : HealthCheckItem) :
  Status i = st key → keeping settled (sh_on_cache (λ c, ((), cache_Set key i c))) (λ _, True).
Proof.
  intros Hi s [Hc Hr]. split; [|done]. split; [|done]. simpl.
  eapply map_Forall_subseteq; [by apply map_Forall_insert_2|]. apply law_cache_Set.
Qed.

Lemma GetHealthStatus_keeps domain ip :
  keeping settled (get_status domain ip) (λ x, x = st (item_key domain ip)).
Proof.
  unfold GetHealthStatus. cbv zeta. eapply keeping_bind; [apply sh_Get_keeps|].
  intros [i|] Hi; [by apply keeping_ret, Hi|].
  eapply keeping_bind; [apply get_item_keeps|]. intros [i|e] Hr; [|by apply keeping_ret].
  apply keeping_any; [by apply sh_Set_keeps|]. intros _. by apply keeping_ret.
Qed.

(** What the loops compute. *)
Abbreviation status_of qname ip := (st (item_key qname (IP_String (IP_Ip ip)))).
Definition best (qname : string) (ms : list (Z * IP_RR)) (min : Z) : Z :=
  foldl (λ m p, if p.1 =? IpMaskWhite then Z.max m (status_of qname p.2) else m) min ms.
Definition remains (qname : string) (min : Z) (p : Z * IP_RR) : Z :=
  if (p.1 =? IpMaskWhite) && (min <=? status_of qname p.2) then IpMaskWhite else IpMaskBlack.

Lemma min_status_keeps qname ms min :
  keeping settled (min_status Unmarshal_item IP_String qname ms min) (λ x, x = best qname ms min).
Proof.
  revert min. induction ms as [|[x ip] ms IH]; intros min; simpl; [by apply keeping_ret|].
  destruct (x =? IpMaskWhite); [|apply IH].
  eapply keeping_bind; [apply GetHealthStatus_keeps|]. intros a ->.
  replace (Z.max min _) with (if status_of qname ip >? min then status_of qname ip else min); [apply IH|].
  destruct (Z.gtb_spec (status_of qname ip) min); lia.
Qed.
Lemma mask_below_keeps qname ms min :
  keeping settled (mask_below Unmarshal_item IP_String qname ms min)
    (λ l, l = remains qname min <$> ms).
Proof.
  induction ms as [|[x ip] ms IH]; simpl; [by apply keeping_ret|].
  eapply (keeping_bind _ _ _ (λ x', x' = remains qname min (x, ip))).
  - unfold remains. simpl. destruct (Z.eqb_spec x IpMaskWhite) as [->|Hx]; [|by apply keeping_ret].
    eapply keeping_bind; [apply GetHealthStatus_keeps|]. intros a ->. apply keeping_ret. simpl.
    destruct (Z.ltb_spec (status_of qname ip) min), (Z.leb_spec min (status_of qname ip)); lia || done.
  - intros x' ->. eapply keeping_bind; [apply IH|]. intros l ->. by apply keeping_ret.
Qed.

Lemma best_ge qname ms min : min ≤ best qname ms min.
Proof.
  unfold best. revert min. induction ms as [|p ms IH]; intros min; simpl; [lia|].
  case_match; [|apply IH]. etransitivity; [|apply IH]. lia.
Qed.
Lemma best_upper qname ms min ip :
  (IpMaskWhite, ip) ∈ ms → status_of qname ip ≤ best qname ms min.
Proof.
  unfold best. revert min. induction ms as [|p ms IH]; intros min; [by intros ?%elem_of_nil|].
  intros [<-|Hin]%elem_of_cons; cbn [foldl fst snd]; [rewrite Z.eqb_refl|by apply IH].
  etransitivity; [|apply best_ge]. lia.
Qed.
Lemma best_attained qname ms min :
  best qname ms min = min ∨ ∃ ip, (IpMaskWhite, ip) ∈ ms ∧ best qname ms min = status_of qname ip.
Proof.
  unfold best. revert min. induction ms as [|[x ip] ms IH]; intros min; simpl; [by left|].
  destruct (Z.eqb_spec x IpMaskWhite) as [->|].
  - destruct (IH (Z.max min (status_of qname ip))) as [E|(ip' & Hin & E)].
    + rewrite E. destruct (Z.max_spec min (status_of qname ip)) as [[_ ->]|[_ ->]]; [right|by left].
      exists ip. split; [left|done].
    + right. exists ip'. split; [by right|done].
  - destruct (IH min) as [E|(ip' & Hin & E)]; [by left|]. right. exists ip'. split; [by right|done].
Qed.

(** C24. The filter keeps the healthy addresses: with settled statuses it keeps
    exactly the white addresses whose status reaches a cutoff. The cutoff is the
    best white status when that one is up ([UpCount - 1] or more), one above
    [DownCount] when the best address is between the bounds, and [DownCount] when
    none is above it; so, of white addresses with statuses within the bounds, at
    least one is kept. *)
Theorem FilterHealthcheck_spec qname (rrset : IP_RRSet) mask :
  let hc := IP_HealthCheckConfig rrset in
  let D := HC_DownCount hc in let U := HC_UpCount hc in
  let ms := zip mask (IP_Data rrset) in
  - 2 ^ 63 < U < 2 ^ 63 → - 2 ^ 63 ≤ D < 2 ^ 63 - 1 → (length mask ≤ length (IP_Data rrset))%nat →
  ∀ s, settled s →
  let r := (FilterHealthcheck Unmarshal_item IP_String true qname rrset mask s).1 in
  let top := best qname ms D in
  let cutoff := if (D <? top) && (top <? U - 1) then D + 1 else top in
  r = remains qname cutoff <$> ms
  ∧ ((∃ ip, (IpMaskWhite, ip) ∈ ms ∧ D ≤ status_of qname ip) →
     ∃ i ip, r !! i = Some IpMaskWhite ∧ ms !! i = Some (IpMaskWhite, ip)).
Proof.
  intros hc D U ms HU HD Hlen s Hs r top cutoff.
  assert (Ecut : threshold U D top = cutoff).
  { unfold threshold, cutoff. rewrite !wrap64_id by (unfold is_int64; lia).
    destruct (Z.ltb_spec top (U - 1)), (Z.gtb_spec top D), (Z.ltb_spec D top); lia || done. }
  assert (Er : r = remains qname cutoff <$> ms).
  { unfold r, FilterHealthcheck. cbv zeta. cbn [negb].
    refine (proj2 (keeping_bind settled _ _ _ (λ l, l = remains qname cutoff <$> ms)
              (min_status_keeps qname ms D) _ s Hs)).
    intros a ->. fold hc D U ms top. rewrite Ecut. apply mask_below_keeps. }
  split; [done|]. intros (ip & Hin & Hst).
  assert (Hip : ∃ ip, (IpMaskWhite, ip) ∈ ms ∧ cutoff ≤ status_of qname ip).
  { pose proof (best_upper qname ms D ip Hin). pose proof (best_ge qname ms D).
    destruct (best_attained qname ms D) as [E|(ip' & Hin' & E)].
    - exists ip. split; [done|]. unfold cutoff. case_match; unfold top in *; lia.
    - exists ip'. split; [done|]. unfold cutoff. fold top in E. rewrite <-E.
      destruct (Z.ltb_spec D top), (Z.ltb_spec top (U - 1)); simpl; lia. }
  destruct Hip as (ip' & [i Hi]%list_elem_of_lookup & Hc). exists i, ip'. split; [|done].
  rewrite Er, list_lookup_fmap, Hi. simpl. f_equal. unfold remains. cbn [fst snd].
  by rewrite Z.eqb_refl, (proj2 (Z.leb_le _ _) Hc).
Qed.
End filter.

(** *** Events *)

(** The handler of stat events evicts the key of the event only if the key starts
    with none of the characters of the prefix: otherwise another key is evicted,
    and the changed status stays in the cache. *)
Theorem evicted_key_spec key :
  evicted_key (statPrefix +:+ key) = key
  ↔ ∀ b, head (bytes key) = Some b → b ∉ bytes statPrefix.
Proof.
  unfold evicted_key, TrimLeft. rewrite bytes_app.
  assert (Hdrop : ∀ cut p l, p ⊆ cut → drop_in cut (p ++ l) = drop_in cut l).
  { clear. intros cut p l Hp. induction p as [|b p IH]; [done|]. cbn.
    rewrite bool_decide_eq_true_2 by set_solver. apply IH. set_solver. }
  rewrite Hdrop by done.
  assert (Hlen : ∀ cut l, (length (drop_in cut l) ≤ length l)%nat).
  { clear. intros cut l. induction l as [|b l IH]; simpl; [lia|]. case_match; simpl; lia. }
  split.
  - intros E b Hb Hin. apply (f_equal (λ s, length (bytes s))) in E. rewrite bytes_str in E.
    destruct (bytes key) as [|b' l]; [done|]. injection Hb as ->. cbn [drop_in] in E.
    rewrite bool_decide_eq_true_2 in E by done.
    pose proof (Hlen (bytes statPrefix) l). cbn [length] in E. lia.
  - intros Hb. rewrite <-(str_bytes key) at 2. f_equal. destruct (bytes key) as [|b l]; [done|].
    cbn [drop_in]. by rewrite bool_decide_eq_false_2 by by apply Hb.
Qed.
End facts.

Section transfer_facts.
Context {T : Type → Type} `{!IRadix T} {RS RC ZC CK SRS SC : Type}.
Context `{!RedisOps RS, !Cache RC AnyRRSet, !Cache ZC (Zone T), !Clock CK, !JsonDocs}.
Context `{!RedisOps SRS, !Cache SC HealthCheckItem}.
Context {rstr : RS → string → option string} {rset : RS → string → gset string}.
Context `{!RedisSpec RS rstr rset}.
Variable config : DataHandlerConfig.
Variable TypeToString : Z → string.
Variable Fqdn : string → string.
Variable unmarshal_config : string → ZoneConfig → ZoneConfig.
Variable NewRR : string → res string (option RR).
Variable NewPrivateKey : RR → string → res string string.
Variable KeyTag : RR → Z.
Variable Sign : RR → string → list RR → option RR.
Variable Marshal_item : HealthCheckItem → res string string.
Variable Unmarshal_item : string → HealthCheckItem.
Variable IP_String : IP → string.
Variable updateInterval : Z.

Lemma GetZones_empty (s : DH T RS RC ZC CK) :
  rset (dh_redis s) zonesKey = ∅ →
  (GetZones s).1 = [] ∧ rset (dh_redis (GetZones s).2) zonesKey = ∅.
Proof.
  intros Hs. unfold GetZones, redis. rewrite run_bind.
  pose proof (spec_SMembers zonesKey (dh_redis s)) as Hm.
  destruct (redis_SMembers _ _) as [r rs]. destruct Hm as [Hsame Hm]. cbn.
  rewrite (proj2 (Hsame _)), Hs in *. split; [|done]. destruct r as [l|e]; [|done].
  destruct l as [|x l]; [done|]. exfalso. destruct Hm as [_ Hm]. specialize (Hm x).
  set_solver.
Qed.

(** While redis has no zone, [Transfer] walks over the empty list of zones again
    and again without ever looking at [quit]: no number of walks ends it, so
    [ShutDown] waits for ever. *)
Theorem Transfer_spins fuel ticks (s : DH T RS RC ZC CK * SH SRS SC) :
  rset (dh_redis s.1) zonesKey = ∅ →
  (Transfer config TypeToString Fqdn unmarshal_config NewRR NewPrivateKey KeyTag Sign
     Marshal_item Unmarshal_item IP_String updateInterval fuel ticks s).1 = WalkOn ticks.
Proof.
  revert s. induction fuel as [|fuel IH]; intros [s o] Hs; [done|]. cbn [Transfer].
  rewrite run_bind. unfold on_fst. cbn [fst snd].
  destruct (GetZones_empty s Hs) as [E Hs']. destruct (GetZones s) as [zs s1].
  cbn [fst snd] in *. subst zs. cbn [transfer_domains]. rewrite run_bind. cbn [fst snd mret M_ret].
  by apply IH.
Qed.
End transfer_facts.
