(* ===== verification/HealthService.v ===== *)
(** * The health checker as a whole: [Healthcheck] with its goroutines

    [NewHealthcheck], [Start], [Transfer] and [ShutDown] share a worker pool, the
    channel [quit], a wait group and the handlers of data and status. Each runs as
    a sequence of steps that interleave with those of the pool; a worker's handler
    is [HandleHealthCheck]. The step relation follows the loops statement by
    statement where they wait or touch redis. *)
From S2P Require Import Prelude GoStrings Redis Radix DnsTypes Zone Store DataHandler Config Health.
From S2P Require WorkerPool.

Section service.
Context {T : Type → Type} `{!IRadix T} {RS RC ZC CK SRS SC : Type}.
Context `{!RedisOps RS, !Cache RC AnyRRSet, !Cache ZC (Zone T), !Clock CK, !JsonDocs}.
Context `{!RedisOps SRS, !Cache SC HealthCheckItem}.
Variable data_config : DataHandlerConfig.
Variable TypeToString : Z → string.
Variable Fqdn : string → string.
Variable unmarshal_config : string → ZoneConfig → ZoneConfig.
Variable NewRR : string → res string (option RR).
Variable NewPrivateKey : RR → string → res string string.
Variable KeyTag : RR → Z.
Variable Sign : RR → string → list RR → option RR.
Variable Marshal_item : HealthCheckItem → res string string.
Variable Unmarshal_item : string → HealthCheckItem.
Variable IP_String : IP → string.
Variable ParseIP : string → option (list Z).
Variable EchoReply : Z.
Variable config : HealthConfig.

Abbreviation DHS := (DH T RS RC ZC CK).
Abbreviation SHS := (SH SRS SC).
Abbreviation Pool := (WorkerPool.Dispatcher (Job:=HealthCheckItem)).
Abbreviation updateInterval := (Seconds (hl_UpdateInterval config)).
Abbreviation checkInterval := (Seconds (hl_CheckInterval config)).
Abbreviation workers := (Z.to_nat (hl_MaxRequests config)).
Abbreviation pool_step :=
  (WorkerPool.step (Z.to_nat (hl_MaxPendingRequests config)) workers).
Abbreviation handle := (HandleHealthCheck (SC:=SC) (RS:=SRS) Marshal_item ParseIP EchoReply).
Abbreviation domain_id := (getDomainId data_config Fqdn unmarshal_config NewRR NewPrivateKey KeyTag Sign).
Abbreviation zone_locations :=
  (GetZoneLocations data_config Fqdn unmarshal_config NewRR NewPrivateKey KeyTag Sign).
Abbreviation transfer_one :=
  (transfer_subdomain data_config TypeToString Marshal_item Unmarshal_item IP_String updateInterval).

(** Where the loop of [Start] is: before reading the keys, or in its select. *)
Inductive starter := NotStarted | Loading | Selecting (itemKeys : list string) | StartReturned.
(** Where [Transfer] is: at [GetZones], with domains left, or with locations of a
    domain left. *)
Inductive transferrer :=
| NoTransfer | Top | Domains (l : list string)
| Subdomains (domain domainId : string) (subs domains : list string) | TransferReturned.
(** Where the caller of [ShutDown] is. *)
Inductive closer := NotCalled | StoppingPool | Waiting | ShutReturned.

Record Service := {
  dispatcher : Pool; start_at : starter; transfer_at : transferrer; shut_at : closer;
  h_quit : bool;   (* quit is closed *)
  quitWG : nat;
  data : DHS; stat : SHS;
}.

(** [NewHealthcheck] with [Enable] set: without it no operation does anything. *)
Definition NewHealthcheck (redisData : DHS) (redisStat : SHS) : Service := {|
  dispatcher := Nat.iter workers WorkerPool.AddWorker WorkerPool.NewDispatcher;
  start_at := NotStarted; transfer_at := NoTransfer; shut_at := NotCalled; h_quit := false;
  quitWG := 0; data := redisData; stat := redisStat |}.

(** Assignments. *)
Definition set_pool (p : Pool) (s : Service) : Service := {|
  dispatcher := p; start_at := start_at s; transfer_at := transfer_at s; shut_at := shut_at s;
  h_quit := h_quit s; quitWG := quitWG s; data := data s; stat := stat s |}.
Definition set_start (a : starter) (s : Service) : Service := {|
  dispatcher := dispatcher s; start_at := a; transfer_at := transfer_at s; shut_at := shut_at s;
  h_quit := h_quit s; quitWG := quitWG s; data := data s; stat := stat s |}.
Definition set_transfer (a : transferrer) (s : Service) : Service := {|
  dispatcher := dispatcher s; start_at := start_at s; transfer_at := a; shut_at := shut_at s;
  h_quit := h_quit s; quitWG := quitWG s; data := data s; stat := stat s |}.
Definition set_shut (a : closer) (q : bool) (wg : nat) (s : Service) : Service := {|
  dispatcher := dispatcher s; start_at := start_at s; transfer_at := transfer_at s; shut_at := a;
  h_quit := q; quitWG := wg; data := data s; stat := stat s |}.
Definition set_handlers (d : DHS) (st : SHS) (s : Service) : Service := {|
  dispatcher := dispatcher s; start_at := start_at s; transfer_at := transfer_at s; shut_at := shut_at s;
  h_quit := h_quit s; quitWG := quitWG s; data := d; stat := st |}.

(** [h.dispatcher.Queue(item)] for each. *)
Definition queue_all (items : list HealthCheckItem) (p : Pool) : Pool :=
  foldl (λ p i, WorkerPool.Queue i p) p items.

(** The beginning of [Start], up to its loop. *)
Definition call_Start (s : Service) : Service :=
  set_start Loading (set_transfer Top (set_pool (WorkerPool.Run (dispatcher s)) s)).

Inductive step (s : Service) : Service → Prop :=
| pool_goes_on p : (* an operation of the pool that ends no handler *)
    pool_step (dispatcher s) p → WorkerPool.handled p = WorkerPool.handled (dispatcher s) →
    step s (set_pool p s)
| handler_returns p item w net now st : (* HandleHealthCheck ran, without a panic *)
    pool_step (dispatcher s) p → WorkerPool.handled p = WorkerPool.handled (dispatcher s) ++ [(item, w)] →
    handle net now item (stat s) = (Some (), st) →
    step s (set_handlers (data s) st (set_pool p s))
| load_keys r st : (* itemKeys, err := h.redisStat.GetActiveHealthcheckItems() *)
    start_at s = Loading → GetActiveHealthcheckItems (stat s) = (r, st) →
    step s (set_start (Selecting (from_ok [] r)) (set_handlers (data s) st s))
| tick keys since items st : (* case <-ticker.C *)
    start_at s = Selecting keys → due_items Unmarshal_item checkInterval since keys (stat s) = (items, st) →
    step s (set_start Loading (set_pool (queue_all items (dispatcher s)) (set_handlers (data s) st s)))
| start_quits keys : (* case <-h.quit *)
    start_at s = Selecting keys → h_quit s = true →
    step s (set_start StartReturned (set_shut (shut_at s) (h_quit s) (pred (quitWG s)) s))
| get_zones l d :
    transfer_at s = Top → GetZones (data s) = (l, d) →
    step s (set_transfer (Domains l) (set_handlers d (stat s) s))
| no_domains :
    transfer_at s = Domains [] → step s (set_transfer Top s)
| next_domain domain l id subs d1 d2 :
    transfer_at s = Domains (domain :: l) → domain_id domain (data s) = (Some id, d1) →
    zone_locations domain d1 = (Some subs, d2) →
    step s (set_transfer (Subdomains domain id subs l) (set_handlers d2 (stat s) s))
| no_subdomains domain id l :
    transfer_at s = Subdomains domain id [] l → step s (set_transfer (Domains l) s)
| next_subdomain domain id sub subs l d st : (* case <-limiter *)
    transfer_at s = Subdomains domain id (sub :: subs) l →
    transfer_one domain id sub (data s, stat s) = ((), (d, st)) →
    step s (set_transfer (Subdomains domain id subs l) (set_handlers d st s))
| transfer_quits domain id sub subs l : (* case <-h.quit *)
    transfer_at s = Subdomains domain id (sub :: subs) l → h_quit s = true →
    step s (set_transfer TransferReturned (set_shut (shut_at s) (h_quit s) (pred (quitWG s)) s))
| call_ShutDown p : (* h.dispatcher.Stop() *)
    shut_at s = NotCalled → WorkerPool.Stop (dispatcher s) = Some p →
    step s (set_shut StoppingPool (h_quit s) (quitWG s) (set_pool p s))
| close_quit :
    shut_at s = StoppingPool → WorkerPool.ctl (dispatcher s) = WorkerPool.Ended →
    step s (set_shut Waiting true (quitWG s + 2) s)
| shutdown_returns :
    shut_at s = Waiting → quitWG s = 0%nat → step s (set_shut ShutReturned (h_quit s) 0 s).

(** The runs of a service; [calls_start] is whether the program calls [Start], which
    [cmd/healthchecker] does not. *)
Definition launch (calls_start : bool) (d : DHS) (st : SHS) : Service :=
  let h := NewHealthcheck d st in if calls_start then call_Start h else h.
Definition runs (calls_start : bool) (d : DHS) (st : SHS) (s : Service) : Prop :=
  rtc step (launch calls_start d st) s.

(** ** Theorems *)
Section one_run.
Variables (d0 : DHS) (st0 : SHS).

Lemma queue_all_quit items (p : Pool) : WorkerPool.quit (queue_all items p) = WorkerPool.quit p.
Proof. revert p. induction items as [|i items IH]; intros p; [done|]. apply (IH (WorkerPool.Queue i p)). Qed.
Lemma queue_all_ctl items (p : Pool) : WorkerPool.ctl (queue_all items p) = WorkerPool.ctl p.
Proof. revert p. induction items as [|i items IH]; intros p; [done|]. apply (IH (WorkerPool.Queue i p)). Qed.

(** *** A service that is never started *)
Definition asleep (s : Service) : Prop :=
  WorkerPool.unstarted (dispatcher s) ∧ start_at s = NotStarted ∧ transfer_at s = NoTransfer
  ∧ (shut_at s = NotCalled ∨ shut_at s = StoppingPool) ∧ data s = d0 ∧ stat s = st0.
Lemma asleep_step s s' : asleep s → step s s' → asleep s'.
Proof.
  intros (Hp & Hs & Ht & Hc & Hd & Hst) Hnext.
  assert (Hun : ∀ p, pool_step (dispatcher s) p → WorkerPool.unstarted p)
    by (intros p; by apply WorkerPool.unstarted_step).
  destruct Hnext as [p Hstep _|p i w net now st Hstep Hh|r st E|keys since items st E|keys E|l d E|E
    |dom l id subs d1 d2 E|dom id l E|dom id sub subs l d st E|dom id sub subs l E|p E Hstop|E He|E];
    try congruence.
  - split; [by eapply Hun|done].
  - specialize (Hun _ Hstep). destruct Hp as (_ & _ & _ & _ & Hh0), Hun as (_ & _ & _ & _ & Hh1).
    rewrite Hh0, Hh1 in Hh. by destruct i, w.
  - split_and!; try done; cbn; [by eapply WorkerPool.unstarted_Stop|by right].
  - destruct Hp as (Hctl & _). congruence.
  - destruct Hc; congruence.
Qed.

(** The health checker as it is: [main] makes the service and never calls [Start].
    No check is ever made, redis is never touched, and once [SIGINT] or [SIGHUP]
    makes it shut down the service, it waits for ever. *)
Theorem never_started s :
  runs false d0 st0 s →
  WorkerPool.handled (dispatcher s) = [] ∧ data s = d0 ∧ stat s = st0 ∧ shut_at s ≠ ShutReturned.
Proof.
  intros Hr. assert (asleep s) as (Hp & _ & _ & Hc & Hd & Hst).
  { unfold runs in Hr. remember (launch false d0 st0) as s0 eqn:E0.
    assert (asleep s0) as H0 by (subst; split_and!; try done; [apply WorkerPool.unstarted_created|by left]).
    clear E0. induction Hr; [done|]. eauto using asleep_step. }
  destruct Hp as (_ & _ & _ & _ & Hh). split_and!; [done..|]. by destruct Hc as [->| ->].
Qed.

(** *** A service that was started *)
Definition runs_pool (p : Pool) : Prop :=
  WorkerPool.runs_to (Z.to_nat (hl_MaxPendingRequests config)) workers workers p.
Definition count (b : bool) : nat := if b then 1 else 0.
Definition start_live (s : Service) : bool := match start_at s with StartReturned => false | _ => true end.
Definition transfer_live (s : Service) : bool :=
  match transfer_at s with TransferReturned => false | _ => true end.
Record awake (s : Service) : Prop := {
  awake_pool : runs_pool (dispatcher s);
  awake_start : start_at s ≠ NotStarted;
  awake_stop : WorkerPool.quit (dispatcher s) = match shut_at s with NotCalled => false | _ => true end;
  awake_quit :
    match shut_at s with
    | NotCalled | StoppingPool => h_quit s = false ∧ quitWG s = 0%nat
                                  ∧ start_live s = true ∧ transfer_live s = true
    | Waiting => h_quit s = true ∧ quitWG s = (count (start_live s) + count (transfer_live s))%nat
    | ShutReturned => start_live s = false ∧ transfer_live s = false
    end }.

Lemma queue_all_runs items p : runs_pool p → runs_pool (queue_all items p).
Proof. revert p. induction items as [|i items IH]; intros p Hp; [done|]. by apply IH, WorkerPool.run_Queue. Qed.

Lemma awake_launch : awake (launch true d0 st0).
Proof.
  split; [apply WorkerPool.run_start|done| |done].
  change (WorkerPool.quit (Nat.iter workers (WorkerPool.AddWorker (Job:=HealthCheckItem)) WorkerPool.NewDispatcher) = false).
  by rewrite WorkerPool.workers_created.
Qed.
Lemma awake_step s s' : awake s → step s s' → awake s'.
Proof.
  intros [Hp Hs Hq Hc] Hnext. pose proof (WorkerPool.step_constant (Job:=HealthCheckItem)) as Hconst.
  destruct Hnext as [p Hstep _|p i w net now st Hstep Hh|r st E|keys since items st E|keys E Eq|l d E|E
    |dom l id subs d1 d2 E|dom id l E|dom id sub subs l d st E|dom id sub subs l E Eq|p E Hstop|E He|E Ew].
  all: unfold start_live, transfer_live in *; split; cbn in *; try done.
  all: try (by eapply WorkerPool.run_step).
  all: try (by erewrite (proj2 (Hconst _ _ _ _ Hstep))).
  all: try (rewrite E in Hc; cbn in Hc).
  all: try done.
  - by apply queue_all_runs.
  - by rewrite queue_all_quit.
  - destruct (shut_at s); [destruct Hc as [Hf _]; congruence..| |].
    + destruct Hc as [? ->]. split; [done|]. unfold start_live, transfer_live. cbn. by destruct (transfer_at s).
    + by destruct Hc.
  - destruct (shut_at s); [destruct Hc as [Hf _]; congruence..| |].
    + destruct Hc as [? ->]. split; [done|]. unfold start_live, transfer_live. cbn. by destruct (start_at s).
    + by destruct Hc.
  - by eapply WorkerPool.run_Stop.
  - unfold WorkerPool.Stop in Hstop. case_match; [done|]. by injection Hstop as <-.
  - by rewrite E in Hq.
  - split; [done|]. destruct Hc as (_ & -> & Hsl & Htl). unfold start_live, transfer_live. cbn. by rewrite Hsl, Htl.
  - by rewrite E in Hq.
  - destruct Hc as [_ Hc]. rewrite Ew in Hc. unfold start_live, transfer_live. cbn.
    by destruct (start_at s), (transfer_at s).
Qed.
Lemma runs_awake s : runs true d0 st0 s → awake s.
Proof.
  unfold runs. pose proof awake_launch as H0. remember (launch true d0 st0) as s0 eqn:E0. clear E0.
  induction 1; [done|]. eauto using awake_step.
Qed.

(** A step of the pool is a step of the service: a network that fails every check
    makes any handler return. *)
Definition dead_network : Network := {|
  NewRequest_err := λ _, Some "down"; client_Do := λ _ _ _ _, Err "down";
  ListenPacket_err := Some "down"; exchange := λ _ _ _, Err "down" |}.
Lemma handle_returns item st : ∃ st', handle dead_network 0 item st = (Some (), st').
Proof.
  assert (∃ err, check ParseIP EchoReply dead_network item = Some err) as [err E].
  { unfold check, httpCheck, pingCheck. cbn. repeat case_match; eauto. }
  unfold HandleHealthCheck. rewrite E, run_bind. eauto.
Qed.
Definition same_control (s s' : Service) : Prop :=
  start_at s' = start_at s ∧ transfer_at s' = transfer_at s ∧ shut_at s' = shut_at s
  ∧ h_quit s' = h_quit s ∧ quitWG s' = quitWG s.
Lemma pool_lift s p :
  pool_step (dispatcher s) p → ∃ s', step s s' ∧ dispatcher s' = p ∧ same_control s s'.
Proof.
  intros Hp. destruct (WorkerPool.step_handled _ _ _ _ Hp) as [Hh|(j & w & Hh)].
  - eexists. split; [by apply pool_goes_on|]. by split_and!.
  - destruct (handle_returns j (stat s)) as [st' E]. eexists. split; [by eapply handler_returns|]. by split_and!.
Qed.
Lemma pool_lifts p p' s :
  rtc pool_step p p' → dispatcher s = p → ∃ s', rtc step s s' ∧ dispatcher s' = p' ∧ same_control s s'.
Proof.
  intros Hr. revert s. induction Hr as [p|p p1 p2 Hs Hr IH]; intros s <-.
  - exists s. by split_and!.
  - destruct (pool_lift s p1 Hs) as (s1 & H1 & Hd & Hc). destruct (IH s1 Hd) as (s2 & H2 & Hd2 & Hc2).
    exists s2. split; [by eapply rtc_l|]. split; [done|].
    destruct Hc as (? & ? & ? & ? & ?), Hc2 as (? & ? & ? & ? & ?). split_and!; congruence.
Qed.

(** The loop of [Start] can always come back to its select, or has ended. *)
Lemma start_selects s :
  start_at s ≠ NotStarted →
  ∃ s', rtc step s s' ∧ (start_at s' = StartReturned ∨ ∃ keys, start_at s' = Selecting keys)
        ∧ start_live s' = start_live s
        ∧ dispatcher s' = dispatcher s ∧ transfer_at s' = transfer_at s ∧ shut_at s' = shut_at s
        ∧ h_quit s' = h_quit s ∧ quitWG s' = quitWG s.
Proof.
  intros Hs. destruct (start_at s) as [| |keys|] eqn:E; [done| | |].
  - destruct (GetActiveHealthcheckItems (stat s)) as [r st] eqn:Er. eexists.
    split; [apply rtc_once; by eapply load_keys|]. unfold start_live. rewrite E. cbn. split_and!; eauto.
  - exists s. split_and!; eauto. apply rtc_refl.
  - exists s. split_and!; eauto. apply rtc_refl.
Qed.

(** Where [Transfer] looks at [quit]. *)
Definition at_location (a : transferrer) : Prop :=
  match a with Subdomains _ _ (_ :: _) _ | TransferReturned => True | _ => False end.

(** Once [quit] is closed the loop of [Start] can end, and so can the caller of
    [ShutDown] if [Transfer] is before a location. *)
Lemma waiting_ends s :
  awake s → shut_at s = Waiting →
  ∃ s', rtc step s s' ∧ start_at s' = StartReturned ∧ (at_location (transfer_at s) → shut_at s' = ShutReturned).
Proof.
  intros Ha Hsh. destruct (start_selects s (awake_start _ Ha)) as (s1 & H1 & Hs1 & Hl1 & Hd1 & Ht1 & Hh1 & Hq1 & Hw1).
  destruct Ha as [_ _ _ Hq]. rewrite Hsh in Hq. destruct Hq as [Hq Hw].
  assert (∃ s2, rtc step s s2 ∧ start_at s2 = StartReturned ∧ transfer_at s2 = transfer_at s
    ∧ shut_at s2 = Waiting ∧ h_quit s2 = true ∧ quitWG s2 = count (transfer_live s)) as (s2 & H2 & Hs2 & Ht2 & Hh2 & Hq2 & Hw2).
  { unfold start_live in *. destruct Hs1 as [E|[keys E]]; rewrite E in Hl1; rewrite <-Hl1 in Hw; cbn in Hw.
    - exists s1. split_and!; congruence.
    - eexists. split; [eapply rtc_r; [exact H1|eapply start_quits; [exact E|congruence]]|].
      cbn. rewrite Hw1, Hw. split_and!; first [done|congruence]. }
  destruct (decide (transfer_live s = false)) as [El|El].
  - exists (set_shut ShutReturned (h_quit s2) 0 s2). split; [|done].
    eapply rtc_r; [exact H2|]. apply shutdown_returns; [done|]. by rewrite Hw2, El.
  - destruct (transfer_at s) as [| |l|dom id [|sub subs] l|] eqn:Et; try (by exists s2; cbn).
    + eexists. split; [|split; [|intros _]].
      * eapply rtc_r; [eapply rtc_r; [exact H2|by eapply transfer_quits]|]. apply shutdown_returns; [done|].
        cbn. rewrite Hw2. unfold transfer_live. by rewrite Et.
      * done.
      * done.
    + unfold transfer_live in El. by rewrite Et in El.
Qed.

(** C17. The health checker when [Start] is called: the pool loses no job and does none
    twice, and from the time [ShutDown] is called it is always possible that the
    pool stops, [Start] returns, and, when [Transfer] is before a location or has
    returned, that [ShutDown] returns. *)
Theorem service_stops s :
  runs true d0 st0 s →
  (WorkerPool.conserved (dispatcher s)
   ∧ (WorkerPool.handled (dispatcher s)).*1 ⊆+ WorkerPool.submitted (dispatcher s))
  ∧ (shut_at s ≠ NotCalled → shut_at s ≠ ShutReturned →
     ∃ s', rtc step s s' ∧ start_at s' = StartReturned
           ∧ (at_location (transfer_at s) → shut_at s' = ShutReturned)).
Proof.
  intros Hr. apply runs_awake in Hr as Ha. split; [|intros Hn Hn'].
  - pose proof (WorkerPool.inv_jobs _ _ (WorkerPool.runs_inv _ _ _ _ (awake_pool _ Ha))) as Hj.
    split; [done|by apply WorkerPool.conserved_handled].
  - destruct (shut_at s) eqn:Esh; [done| |by apply waiting_ends|done].
    pose proof (awake_stop _ Ha) as Hq. rewrite Esh in Hq.
    destruct (WorkerPool.stopping_ends _ _ workers (dispatcher s) ltac:(done) (awake_pool _ Ha) Hq) as (p & Hp & He).
    destruct (pool_lifts _ _ s Hp eq_refl) as (s1 & H1 & Hd1 & Hc1). destruct Hc1 as (Es1 & Et1 & Eh1 & Eq1 & Ew1).
    assert (step s1 (set_shut Waiting true (quitWG s1 + 2) s1)) as H2 by (apply close_quit; congruence).
    assert (Ha2 : awake (set_shut Waiting true (quitWG s1 + 2) s1)).
    { apply runs_awake. eapply rtc_r; [eapply rtc_trans; [exact Hr|exact H1]|exact H2]. }
    destruct (waiting_ends _ Ha2 eq_refl) as (s3 & H3 & Hs3 & Ht3). exists s3.
    split; [eapply rtc_trans; [exact H1|]; by eapply rtc_l|]. split; [done|]. intros Hl. apply Ht3. cbn. by rewrite Et1.
Qed.
End one_run.
End service.

(** ** The program: [cmd/healthchecker] *)
Section program.
Context {T : Type → Type} {RS RC ZC CK SRS SC : Type}.
Abbreviation DHS := (DH T RS RC ZC CK).
Abbreviation SHS := (SH SRS SC).
Variable Decode : string → HealthcheckerConfig → HealthcheckerConfig * option string.
Variable Build : LoggerConfig → option string.
Variable NewDataHandler : StorageConfig → DHS.
Variable NewStatHandler : StatHandlerConfig → SHS.

(** [Start] of the program: the error of [LoadConfig] is dropped, so it goes on with
    what the decoder left of the configuration before; [None] is the panic when a
    logger cannot be built. There is no service unless it is enabled. The state is
    the object behind the default configuration. *)
Definition hk_Start (file : res string string) : M HealthcheckerConfig (option (option Service)) :=
  _ ← healthchecker_LoadConfig (λ _, file) Decode empty_str;
  cfg ← ((λ c, (c, c)) : M HealthcheckerConfig HealthcheckerConfig);
  mret match Build (requestLoggerConfig "dns_healthcheck"), Build (eventLoggerConfig "stacktrace") with
  | None, None =>
    let d := NewDataHandler (hk_RedisData cfg) in
    let st := NewStatHandler (hk_RedisStat cfg) in
    Some (if hl_Enable (hk_Healthcheck cfg) then Some (NewHealthcheck (hk_Healthcheck cfg) d st) else None)
  | _, _ => None
  end.

(** What it makes is a service that [never_started] is about. *)
Lemma hk_Start_launch file c h :
  (hk_Start file c).1 = Some (Some h) →
  let cfg := (hk_Start file c).2 in
  h = launch (hk_Healthcheck cfg) false (NewDataHandler (hk_RedisData cfg)) (NewStatHandler (hk_RedisStat cfg)).
Proof.
  unfold hk_Start. rewrite !run_bind. cbn [fst snd mret M_ret].
  destruct (Build (requestLoggerConfig "dns_healthcheck")); [done|]. destruct (Build (eventLoggerConfig "stacktrace")); [done|].
  destruct (hl_Enable _); [|done]. by intros [= <-].
Qed.
End program.
