(* ===== verification/HealthMain.v ===== *)
(** * The health checker's process: [cmd/healthchecker/healthchecker.go]

    [main] starts the service ([HealthService]), waits for signals, shuts the service
    down and starts it again or returns. The steps of the service interleave with those
    of [main]. The command line and the signals are those of [Resolver]. The http server
    for profiles is left out. *)
From S2P Require Import Prelude GoStrings Redis Radix DnsTypes Zone Store DataHandler Config Health HealthService.
From S2P Require WorkerPool Resolver.

Section process.
Context {T : Type → Type} `{!IRadix T} {RS RC ZC CK SRS SC : Type}.
Context `{!RedisOps RS, !Cache RC AnyRRSet, !Cache ZC (Zone T), !Clock CK, !JsonDocs}.
Context `{!RedisOps SRS, !Cache SC HealthCheckItem}.
Variable TypeToString : Z → string.
Variable Fqdn : string → string.
Variable unmarshal_config : string → ZoneConfig → ZoneConfig.
Variable NewRR : string → res string (option RR).
Variable NewPrivateKey : RR → string → res string string.
Variable KeyTag : RR → Z.
Variable Sign : RR → string → list RR → option RR.
Variable Marshal_item : HealthCheckItem → res string string.
Variable Unmarshal_item : string → HealthCheckItem.
Variable IP_String : IP → string.
Variable ParseIP : string → option (list Z).
Variable EchoReply : Z.
Variable Decode : string → HealthcheckerConfig → HealthcheckerConfig * option string.
Variable Build : LoggerConfig → option string.
Variable NewDataHandler : StorageConfig → DH T RS RC ZC CK.
Variable NewStatHandler : StatHandlerConfig → SH SRS SC.
Variable MarshalIndent : HealthcheckerConfig → res string string.
Abbreviation Service := (Service (T:=T) (RS:=RS) (RC:=RC) (ZC:=ZC) (CK:=CK) (SRS:=SRS) (SC:=SC)).
Abbreviation start_with := (hk_Start Decode Build NewDataHandler NewStatHandler).
(** A step of the service that the configuration [c] has made. *)
Abbreviation service_step c :=
  (HealthService.step (handler_config (hk_RedisData c)) TypeToString Fqdn unmarshal_config NewRR NewPrivateKey KeyTag Sign
    Marshal_item Unmarshal_item IP_String ParseIP EchoReply (hk_Healthcheck c)).

(** Where [main] is: waiting for a signal, in [Stop], or at its end. *)
Inductive hk_at := Listening | InStop (sig : Resolver.Signal) | Exited | Died.
(** [hk_config] is the object behind [healthcheckerDefaultConfig]; there is no service
    when it is not enabled. *)
Record HkProcess := { hk_config : HealthcheckerConfig; hk_service : option Service; hk_main_at : hk_at }.

Definition hk_started (r : option (option Service) * HealthcheckerConfig) : HkProcess :=
  match r with
  | (None, c) => {| hk_config := c; hk_service := None; hk_main_at := Died |}
  | (Some h, c) => {| hk_config := c; hk_service := h; hk_main_at := Listening |}
  end.
Definition at_main (p : HkProcess) (a : hk_at) : HkProcess := {|
  hk_config := hk_config p; hk_service := hk_service p; hk_main_at := a |}.
Definition with_service (p : HkProcess) (h : Service) (a : hk_at) : HkProcess := {|
  hk_config := hk_config p; hk_service := Some h; hk_main_at := a |}.

Inductive hk_step (p : HkProcess) : HkProcess → Prop :=
| service_goes_on h h' : (* but for a call of ShutDown *)
    (hk_main_at p = Listening ∨ ∃ sig : Resolver.Signal, hk_main_at p = InStop sig) → hk_service p = Some h →
    service_step (hk_config p) h h' → (shut_at h = NotCalled → shut_at h' = NotCalled) →
    hk_step p (with_service p h' (hk_main_at p))
| signal_enabled (sig : Resolver.Signal) h pool : (* healthChecker.ShutDown(), which stops the pool first *)
    hk_main_at p = Listening → hk_service p = Some h → WorkerPool.Stop (dispatcher h) = Some pool →
    hk_step p (with_service p (set_shut StoppingPool (h_quit h) (quitWG h) (set_pool pool h)) (InStop sig))
| signal_enabled_panics h : (* close of a closed channel *)
    hk_main_at p = Listening → hk_service p = Some h → WorkerPool.Stop (dispatcher h) = None →
    hk_step p (at_main p Died)
| signal_disabled (sig : Resolver.Signal) : (* ShutDown returns at once *)
    hk_main_at p = Listening → hk_service p = None → hk_step p (at_main p (InStop sig))
| stopped_exit : (* the two handlers are shut down, and main returns *)
    hk_main_at p = InStop Resolver.SIGINT → (∀ h, hk_service p = Some h → shut_at h = ShutReturned) →
    hk_step p (at_main p Exited)
| stopped_restart file : (* ... and Start *)
    hk_main_at p = InStop (Resolver.SIGHUP file) → (∀ h, hk_service p = Some h → shut_at h = ShutReturned) →
    hk_step p (hk_started (start_with file (hk_config p))).

(** [main]: with [-t] it calls [Verify], which does nothing. *)
Inductive HkOutcome := HkVerified | HkGenerated (write : option (string * string)) | HkRuns (p : HkProcess).
Definition hk_main (flags : Resolver.Flags) (file : res string string) : HkOutcome :=
  if Resolver.flag_t flags then HkVerified
  else match Resolver.flag_g flags with
  | Some g => HkGenerated (match MarshalIndent healthcheckerDefaultConfig with Ok data => Some (g, data) | Err _ => None end)
  | None => HkRuns (hk_started (start_with file healthcheckerDefaultConfig))
  end.

(** ** What signals do *)

(** The service of a process that has one was made by [NewHealthcheck] and is never
    started, and [main] has called [ShutDown] once when it is in [Stop]. *)
Definition hk_ok (p : HkProcess) : Prop :=
  match hk_service p with
  | None => True
  | Some h =>
    asleep (NewDataHandler (hk_RedisData (hk_config p))) (NewStatHandler (hk_RedisStat (hk_config p))) h
    ∧ match hk_main_at p with
      | Listening => shut_at h = NotCalled ∧ WorkerPool.quit (dispatcher h) = false
      | InStop _ => shut_at h = StoppingPool
      | Exited | Died => False
      end
  end.

Lemma started_ok file c : hk_ok (hk_started (start_with file c)).
Proof.
  destruct (start_with file c) as [[[h|]|] c'] eqn:E; [|done..].
  pose proof (hk_Start_launch Decode Build NewDataHandler NewStatHandler file c h) as Hl. rewrite E in Hl. rewrite (Hl eq_refl).
  cbn -[NewHealthcheck]. unfold launch, NewHealthcheck. rewrite WorkerPool.workers_created. cbn. split; [|done].
  split_and!; try done; [|by left]. split_and!; try done. cbn. by rewrite length_replicate.
Qed.
Lemma asleep_service_step c (d : DH T RS RC ZC CK) (st : SH SRS SC) (h h' : Service) :
  asleep d st h → service_step c h h' → (shut_at h = NotCalled → shut_at h' = NotCalled) →
  shut_at h' = shut_at h ∧ WorkerPool.quit (dispatcher h') = WorkerPool.quit (dispatcher h).
Proof.
  intros (Hp & Hs & Ht & Hc & _ & _) Hstep Hcall.
  destruct Hstep as [p Hstep _|p i w net now st' Hstep Hh|r st' E|keys since items st' E|keys E|l d' E|E
    |dom l id subs d1 d2 E|dom id l E|dom id sub subs l d' st' E|dom id sub subs l E|p E Hstop|E He|E];
    try congruence; cbn in *; try (by destruct (WorkerPool.step_constant _ _ _ _ Hstep) as [_ ->]).
  - by specialize (Hcall E).
  - destruct Hp as (Hctl & _). congruence.
  - destruct Hc; congruence.
Qed.
Lemma hk_step_ok p p' : hk_step p p' → hk_ok p → hk_ok p'.
Proof.
  intros Hs Hp. unfold hk_ok in *. destruct Hs as [h h' Ha Eh Hstep Hcall|sig h pool Ha Eh Hstop|h Ha Eh Hstop|sig Ha Eh|Ha Hsh|file Ha Hsh].
  - rewrite Eh in Hp. destruct Hp as [Hsl Hm]. cbn. split; [by eapply asleep_step|].
    destruct (asleep_service_step _ _ _ _ _ Hsl Hstep Hcall) as [-> ->]. done.
  - rewrite Eh, Ha in Hp. destruct Hp as [(Hu & H2) [Hc _]]. cbn. split; [|done].
    split; [by eapply WorkerPool.unstarted_Stop|]. destruct H2 as (? & ? & _ & ? & ?). split_and!; try done. by right.
  - rewrite Eh, Ha in Hp. destruct Hp as [_ [_ Hq]]. unfold WorkerPool.Stop in Hstop. by rewrite Hq in Hstop.
  - cbn. by rewrite Eh.
  - cbn. destruct (hk_service p) as [h|]; [|done]. rewrite Ha in Hp. rewrite (Hsh h eq_refl) in Hp. by destruct Hp.
  - apply started_ok.
Qed.

(** The runs of the program. *)
Definition hk_reached (file : res string string) (p : HkProcess) : Prop :=
  rtc hk_step (hk_started (start_with file healthcheckerDefaultConfig)) p.
Lemma hk_reached_ok file p : hk_reached file p → hk_ok p.
Proof.
  unfold hk_reached. pose proof (started_ok file healthcheckerDefaultConfig) as H0. intros Hr. revert H0.
  induction Hr; [done|]. eauto using hk_step_ok.
Qed.

(** An enabled service holds its process for ever. *)
Lemma hk_enabled_steps p p' h :
  hk_ok p → hk_service p = Some h → rtc hk_step p p' →
  ∃ h', hk_service p' = Some h' ∧ hk_config p' = hk_config p ∧ hk_ok p'
    ∧ ∀ sig, hk_main_at p = InStop sig → hk_main_at p' = InStop sig.
Proof.
  intros Hp Eh Hr. revert h Hp Eh. induction Hr as [p|p p1 p2 Hs _ IH]; intros h Hp Eh; [by exists h|].
  pose proof (hk_step_ok _ _ Hs Hp) as Hp1.
  assert (∃ h1, hk_service p1 = Some h1 ∧ hk_config p1 = hk_config p ∧ ∀ sig, hk_main_at p = InStop sig → hk_main_at p1 = InStop sig)
    as (h1 & Eh1 & Ec1 & Hm1).
  { unfold hk_ok in Hp. rewrite Eh in Hp. destruct Hp as [_ Hp].
    destruct Hs as [h0 h' Ha Eh0 Hstep Hcall|sig h0 pool Ha Eh0 Hstop|h0 Ha Eh0 Hstop|sig Ha Eh0|Ha Hsh|file Ha Hsh]; cbn.
    - by exists h'.
    - eexists. split_and!; [done..|]. congruence.
    - exists h. split_and!; [done..|]. congruence.
    - congruence.
    - rewrite Ha in Hp. by rewrite (Hsh h Eh) in Hp.
    - rewrite Ha in Hp. by rewrite (Hsh h Eh) in Hp. }
  destruct (IH h1 Hp1 Eh1) as (h2 & ? & ? & ? & Hm2). exists h2. split_and!; [done|congruence|done|].
  intros sig E. by apply Hm2, Hm1.
Qed.

End process.
