(* ===== verification/Sql.v ===== *)
(** * The MySQL database behind the API: statements, schema and what a server promises

    [internal/api/database] talks to MySQL in a handful of statement forms. They
    are data here, with the tables, unique indexes and foreign keys of
    [scripts/schema.sql]; [eval] and [apply] give their documented meaning on the
    rows of the tables. The driver and the server are the class [MySQL]: a call
    fails or does what the statement means ([MySQLLaws]). *)
From S2P Require Import Prelude GoStrings.
Local Open Scope Z_scope.

Inductive table := TUser | TZone | TLocation | TRecordSet | TVerification.
#[export] Instance table_eq_dec : EqDecision table.
Proof. solve_decision. Defined.

Inductive value := VStr (s : string) | VBool (b : bool) | VNull.
#[export] Instance value_eq_dec : EqDecision value.
Proof. solve_decision. Defined.
Abbreviation Row := (gmap string value).
Definition DB := table → list Row.
Definition column (c : string) (r : Row) : value := default VNull (r !! c).

(** ** The schema *)
Definition unique_indexes (t : table) : list (list string) :=
  match t with
  | TUser => [["Id"]; ["Email"]]
  | TZone => [["Id"]; ["Name"]]
  | TLocation => [["Id"]; ["Zone_Id"; "Name"]]
  | TRecordSet => [["Id"]; ["Type"; "Location_Id"]]
  | TVerification => [["Code"]]
  end.
(** The foreign keys that refer to the column [Id] of a table, deleted in cascade. *)
Definition children (t : table) : list (table * string) :=
  match t with
  | TUser => [(TZone, "User_Id"); (TVerification, "User_Id")]
  | TZone => [(TLocation, "Zone_Id")]
  | TLocation => [(TRecordSet, "Location_Id")]
  | TRecordSet | TVerification => []
  end.
(** No chain of foreign keys is longer. *)
Definition schema_depth : nat := 4.

(** ** Statements *)
Inductive cond := Equals (col : string) (v : value) | Like (col pattern : string).
Inductive source :=
| From (t : table)
| LeftJoin (t1 t2 : table) (col1 col2 : string).  (* columns of [t2] are read under [joined] *)
Inductive query :=
| Select (cols : list string) (from : source) (wh : list cond)
         (order : option string) (limit : option (Z * Z)).
Inductive exec :=
| Insert (t : table) (row : list (string * value))
| Update (t : table) (sets : list (string * value)) (wh : list cond)
| Delete (t : table) (wh : list cond).

Definition joined (col : string) : string := "join." +:+ col.

(** ** Their meaning

    The collation of the columns (which by default ignores case), LIKE patterns
    and the normal form of the JSON column are the server's. *)
Record Engine := {
  same : string → string → bool;
  like : string → string → bool;
  before : string → string → bool;
  json_normal : string → string;
}.
Section meaning.
Variable engine : Engine.

Definition same_value (v w : value) : bool :=
  match v, w with
  | VStr s, VStr s' => same engine s s'
  | VBool b, VBool b' => Bool.eqb b b'
  | _, _ => false
  end.
Definition holds (r : Row) (c : cond) : bool :=
  match c with
  | Equals col v => same_value (column col r) v
  | Like col p => match column col r with VStr s => like engine s p | _ => false end
  end.
Definition matches (wh : list cond) (r : Row) : bool := forallb (holds r) wh.

Definition prefixed (r : Row) : Row := kmap joined r.
Definition source_rows (db : DB) (f : source) : list Row :=
  match f with
  | From t => db t
  | LeftJoin t1 t2 c1 c2 =>
    r1 ← db t1;
    match List.filter (λ r2, same_value (column c1 r1) (column c2 r2)) (db t2) with
    | [] => [r1]
    | rs => (λ r2, r1 ∪ prefixed r2) <$> rs
    end
  end.

Definition row_before (col : string) (r r' : Row) : Prop :=
  match column col r, column col r' with
  | VStr s, VStr s' => before engine s s' = true
  | _, _ => True
  end.
#[export] Instance row_before_dec col r r' : Decision (row_before col r r').
Proof. unfold row_before. destruct (column col r), (column col r'); apply _. Defined.

Definition eval (db : DB) (q : query) : list (list value) :=
  match q with
  | Select cols from wh order limit =>
    let rows := List.filter (matches wh) (source_rows db from) in
    let rows := match order with
                | Some col => merge_sort (row_before col) rows
                | None => rows
                end in
    let rows := match limit with
                | Some (start, count) => take (Z.to_nat count) (drop (Z.to_nat start) rows)
                | None => rows
                end in
    (λ r, (λ c, column c r) <$> cols) <$> rows
  end.
(** A negative LIMIT is a syntax error. *)
Definition valid (q : query) : bool :=
  match q with
  | Select _ _ _ _ (Some (start, count)) => (0 <=? start) && (0 <=? count)
  | _ => true
  end.

Definition set_table (t : table) (rows : list Row) (db : DB) : DB :=
  λ t', if decide (t = t') then rows else db t'.
Definition normal (c : string) (v : value) : value :=
  match v with VStr s => if decide (c = "Value") then VStr (json_normal engine s) else v | _ => v end.
Definition assign (sets : list (string * value)) (r : Row) : Row :=
  foldl (λ r cv, <[cv.1 := normal cv.1 cv.2]> r) r sets.

(** Rows of [t] are deleted, and with them the rows that refer to them. *)
Fixpoint delete_where (depth : nat) (t : table) (gone : Row → bool) (db : DB) : DB :=
  let ids := column "Id" <$> List.filter gone (db t) in
  let db := set_table t (List.filter (λ r, negb (gone r)) (db t)) db in
  match depth with
  | O => db
  | S depth =>
    foldl (λ db tc, delete_where depth tc.1 (λ r, bool_decide (column tc.2 r ∈ ids)) db)
      db (children t)
  end.

Definition apply (st : exec) (db : DB) : DB :=
  match st with
  | Insert t row => set_table t (db t ++ [assign row ∅]) db
  | Update t sets wh => set_table t ((λ r, if matches wh r then assign sets r else r) <$> db t) db
  | Delete t wh => delete_where schema_depth t (matches wh) db
  end.

(** A row that a unique index excludes. *)
Definition clash (t : table) (r r' : Row) : bool :=
  existsb (λ cols, forallb (λ c, same_value (column c r) (column c r')) cols) (unique_indexes t).
Definition duplicate (st : exec) (db : DB) : bool :=
  match st with
  | Insert t row => existsb (clash t (assign row ∅)) (db t)
  | _ => false
  end.
(** The rows an UPDATE or DELETE selects. *)
Definition selected (st : exec) (db : DB) : list Row :=
  match st with
  | Insert t row => [assign row ∅]
  | Update t _ wh | Delete t wh => List.filter (matches wh) (db t)
  end.
End meaning.

(** ** The server and its driver *)
Inductive SqlError := ErrNoRows | MySQLError (number : Z) | DriverError (msg : string).
#[export] Instance SqlError_eq_dec : EqDecision SqlError.
Proof. solve_decision. Defined.

(** [db.QueryRow(...)] with the row it scans, [db.Query(...)] with the rows of the
    [rows.Next] loop, and [db.Exec(...)] with the rows affected. *)
Class MySQL (S : Type) := {
  sql_QueryRow : query → M S (res SqlError (list value));
  sql_Query : query → M S (res SqlError (list (list value)));
  sql_Exec : exec → M S (res SqlError Z);
}.

(** [tables] is what the database holds. The rows of [sql_Query] may end early: the
    source never asks for the error of the loop. A statement that the server
    rejects changes nothing; when the connection fails it may have been done. *)
Class MySQLLaws (S : Type) `{!MySQL S} (engine : Engine) (tables : S → DB) : Prop := {
  law_QueryRow q s :
    let '(r, s') := sql_QueryRow q s in
    tables s' = tables s
    ∧ match r with
      | Ok row => row ∈ eval engine (tables s) q
      | Err ErrNoRows => eval engine (tables s) q = []
      | Err e => e ≠ MySQLError 1062  (* a duplicate entry is an error of writing *)
      end;
  law_Query q s :
    let '(r, s') := sql_Query q s in
    tables s' = tables s
    ∧ match r with
      | Ok rows => valid q = true ∧ rows `prefix_of` eval engine (tables s) q
      | Err e => e ≠ ErrNoRows
      end;
  law_Exec st s :
    let '(r, s') := sql_Exec st s in
    match r with
    | Ok n =>
      duplicate engine st (tables s) = false ∧ tables s' = apply engine st (tables s)
      ∧ 0 ≤ n ≤ Z.of_nat (length (selected engine st (tables s)))
      ∧ match st with
        | Delete _ _ => n = Z.of_nat (length (selected engine st (tables s)))
        | _ => True
        end
    | Err (MySQLError e) =>
      tables s' = tables s ∧ (e = 1062 → duplicate engine st (tables s) = true)
    | Err ErrNoRows => False
    | Err (DriverError _) =>
      tables s' = tables s
      ∨ (duplicate engine st (tables s) = false ∧ tables s' = apply engine st (tables s))
    end;
  law_same : Equivalence (λ x y, same engine x y = true);
}.
