(* ===== verification/Database.v ===== *)
(** * The API's database: [internal/api/database]

    Users, their zones, the locations and record sets of the zones: every method
    of [db.go] over the statements of [Sql.v], with the ownership checks of
    [authorization.go]. The UUIDs, the random source and bcrypt are parameters. *)
From S2P Require Import Prelude GoStrings Sql.
Local Open Scope Z_scope.

Definition ObjectId : Type := string.
Definition EmptyObjectId : ObjectId := empty_str.

Record User := { u_Id : ObjectId; u_Email : string; u_Password : string; u_Status : string }.
Record Zone := {
  z_Id : ObjectId; z_Name : string; z_Enabled : bool; z_Dnssec : bool; z_CNameFlattening : bool;
}.
Record Location := { l_Id : ObjectId; l_Name : string; l_Enabled : bool }.
Record RecordSet := { r_Id : ObjectId; r_Type : string; r_Value : string; r_Enabled : bool }.

Definition UserStatusActive : string := "active".
Definition UserStatusDisabled : string := "disabled".
Definition UserStatusPending : string := "pending".
Definition VerificationTypeSignup : string := "signup".
Definition SupportedTypes : list string :=
  ["a"; "aaaa"; "cname"; "txt"; "ns"; "mx"; "srv"; "caa"; "ptr"; "tlsa"; "ds"; "aname"].

Inductive DbError :=
| ErrDuplicateEntry | ErrNotFound | ErrInvalid | ErrUnauthorized
| ErrSql (e : SqlError) | ErrHash (msg : string) | ErrUnknownVerification.
#[export] Instance DbError_eq_dec : EqDecision DbError.
Proof. solve_decision. Defined.

(** [uuid.New().String()], [src.Int63()] and bcrypt, whose salt is random. *)
Class Entropy (S : Type) := {
  NewObjectId : M S ObjectId;
  Int63 : M S Z;
  HashPassword : string → M S (res string string);
  CheckPasswordHash : string → string → bool;
}.

Definition parseError (e : SqlError) : DbError :=
  match e with
  | MySQLError n => if n =? 1062 then ErrDuplicateEntry else ErrSql e
  | ErrNoRows => ErrNotFound
  | DriverError _ => ErrSql e
  end.
Definition rtypeValid (rtype : string) : bool :=
  if bool_decide (rtype = empty_str) then false else existsb (λ t, bool_decide (rtype = t)) SupportedTypes.

(** [row.Scan(...)] into the variables of a method. *)
Definition scan_failed {A} : res SqlError A := Err (DriverError "scan").
Definition scan_string (row : list value) : res SqlError string :=
  match row with [VStr s] => Ok s | _ => scan_failed end.
Definition scan_user (row : list value) : res SqlError User :=
  match row with
  | [VStr i; VStr e; VStr p; VStr s] => Ok {| u_Id := i; u_Email := e; u_Password := p; u_Status := s |}
  | _ => scan_failed
  end.
Definition scan_zone (row : list value) : res SqlError Zone :=
  match row with
  | [VStr i; VStr n; VBool c; VBool d; VBool e] =>
    Ok {| z_Id := i; z_Name := n; z_Enabled := e; z_Dnssec := d; z_CNameFlattening := c |}
  | _ => scan_failed
  end.
Definition scan_location (row : list value) : res SqlError Location :=
  match row with
  | [VStr i; VStr n; VBool e] => Ok {| l_Id := i; l_Name := n; l_Enabled := e |}
  | _ => scan_failed
  end.
Definition scan_rset (row : list value) : res SqlError RecordSet :=
  match row with
  | [VStr i; VStr t; VStr v; VBool e] => Ok {| r_Id := i; r_Type := t; r_Value := v; r_Enabled := e |}
  | _ => scan_failed
  end.

Definition letterBytes : string := "0123456789abcdefghijklmnopqrstuvwxyzABCDEFGHIJKLMNOPQRSTUVWXYZ".
Definition letterIdxBits : Z := 6.
Definition letterIdxMask : Z := Z.shiftl 1 letterIdxBits - 1.
Definition letterIdxMax : Z := 63 / letterIdxBits.

(** [if err == sql.ErrNoRows { return ErrNotFound }; return err] *)
Definition no_rows_not_found {A} (r : res SqlError A) : res DbError A :=
  match r with Ok a => Ok a | Err ErrNoRows => Err ErrNotFound | Err e => Err (ErrSql e) end.
(** [if err == from { return to }; return err] *)
Definition turn {A} (from to : DbError) (r : res DbError A) : res DbError A :=
  match r with Err e => if decide (e = from) then Err to else Err e | Ok a => Ok a end.

Section DataBase.
Context {S : Type} `{!MySQL S, !Entropy S}.

(** The loop of [randomString]: [n] bytes are still to be set before [b]. Values
    that are no index of a letter are skipped, so the loop has no fixed bound:
    [None] is a loop that has not ended after [fuel] rounds. *)
Fixpoint random_loop (fuel n : nat) (cache remain : Z) (b : list byte) : M S (option string) :=
  match n with
  | O => mret (Some (str b))
  | Datatypes.S n' =>
    match fuel with
    | O => mret None
    | Datatypes.S fuel =>
      cr ← (if remain =? 0 then c ← Int63; mret (c, letterIdxMax) else mret (cache, remain));
      let '(cache, remain) := (cr : Z * Z) in
      let idx := Z.land cache letterIdxMask in
      match bytes letterBytes !! Z.to_nat idx with
      | Some l => random_loop fuel n' (Z.shiftr cache letterIdxBits) (remain - 1) (l :: b)
      | None => random_loop fuel n (Z.shiftr cache letterIdxBits) (remain - 1) b
      end
    end
  end.
Definition randomString (fuel n : nat) : M S (option string) :=
  cache ← Int63; random_loop fuel n cache letterIdxMax [].

(** [db.QueryRow(q).Scan(...)] and [db.Query(q)] with its loop. *)
Definition query_row {A} (q : query) (scan : list value → res SqlError A) : M S (res SqlError A) :=
  r ← sql_QueryRow q; mret (r ≫= scan).
Definition query_strings (q : query) : M S (res SqlError (list string)) :=
  r ← sql_Query q; mret (r ≫= map_res scan_string).
Definition sql_err {A} (r : res SqlError A) : res DbError A :=
  match r with Ok a => Ok a | Err e => Err (ErrSql e) end.
Definition parsed {A} (r : res SqlError A) : res DbError A :=
  match r with Ok a => Ok a | Err e => Err (parseError e) end.
Definition execute (st : exec) : M S (res DbError Z) := sql_err <$> sql_Exec st.
Definition execute_parsed (st : exec) : M S (res DbError Z) := parsed <$> sql_Exec st.
(** [if rows == 0 { return 0, ErrNotFound }] *)
Definition found (rows : Z) : res DbError Z := if rows =? 0 then Err ErrNotFound else Ok rows.

Definition db_Clear : M S (res DbError ()) :=
  must _ ← execute (Delete TUser []); mret (Ok ()).

(** ** Users *)
Definition AddUser (u : User) : M S (res DbError ObjectId) :=
  hash ← HashPassword (u_Password u);
  match hash with
  | Err e => mret (Err (ErrHash e))
  | Ok hash =>
    id ← NewObjectId;
    must _ ← execute_parsed (Insert TUser [("Id", VStr id); ("Email", VStr (u_Email u));
                               ("Password", VStr hash); ("Status", VStr (u_Status u))]);
    mret (Ok id)
  end.
Definition GetUser (name : string) : M S (res DbError User) :=
  parsed <$> query_row (Select ["Id"; "Email"; "Password"; "Status"] (From TUser)
                          [Equals "Email" (VStr name)] None None) scan_user.
(** [fuel] is that of [randomString]. *)
Definition AddVerification (fuel : nat) (name verificationType : string)
  : M S (option (res DbError string)) :=
  u ← GetUser name;
  match turn ErrNotFound ErrInvalid u with
  | Err e => mret (Some (Err e))
  | Ok u =>
    code ← randomString fuel 50;
    match code with
    | None => mret None
    | Some code =>
      Some <$> (must _ ← execute (Insert TVerification
                  [("Code", VStr code); ("Type", VStr verificationType); ("User_Id", VStr (u_Id u))]);
                mret (Ok code))
    end
  end.
Definition Verify (code : string) : M S (res DbError ()) :=
  r ← query_row (Select [joined "Id"; "Type"] (LeftJoin TVerification TUser "User_Id" "Id")
                   [Equals "Code" (VStr code)] None None)
        (λ row, match row with [VStr i; VStr t] => Ok (i, t) | _ => scan_failed end);
  match parsed r with
  | Err e => mret (Err e)
  | Ok (userId, verificationType) =>
    if bool_decide (verificationType = VerificationTypeSignup) then
      must _ ← execute_parsed (Update TUser [("Status", VStr UserStatusActive)]
                                 [Equals "Id" (VStr userId)]);
      must _ ← execute_parsed (Delete TVerification [Equals "Code" (VStr code)]);
      mret (Ok ())
    else mret (Err ErrUnknownVerification)
  end.
Definition DeleteUser (name : string) : M S (res DbError Z) :=
  must rows ← execute_parsed (Delete TUser [Equals "Email" (VStr name)]); mret (found rows).

(** ** Authorization *)
Definition isZoneOwner (user zone : string) : M S (res DbError ()) :=
  must userID ← sql_err <$> query_row (Select ["Id"] (From TUser) [Equals "Email" (VStr user)]
                                         None None) scan_string;
  must ownerID ← no_rows_not_found <$> query_row (Select ["User_Id"] (From TZone)
                                        [Equals "Name" (VStr zone)] None None) scan_string;
  mret (if bool_decide (userID = ownerID) then Ok () else Err ErrUnauthorized).

Definition canGetZone := isZoneOwner.
Definition canUpdateZone := isZoneOwner.
Definition canDeleteZone := isZoneOwner.
(** The checks of locations and record sets do not use the location or the type. *)
Definition owner_of_parent (user zone : string) : M S (res DbError ()) :=
  turn ErrNotFound ErrInvalid <$> isZoneOwner user zone.
Definition canAddLocation (user zone location : string) := owner_of_parent user zone.
Definition canGetLocations (user zone : string) := owner_of_parent user zone.
Definition canGetLocation (user zone location : string) := owner_of_parent user zone.
Definition canUpdateLocation (user zone location : string) := owner_of_parent user zone.
Definition canDeleteLocation (user zone location : string) := owner_of_parent user zone.
Definition canAddRecordSet (user zone location rtype : string) := owner_of_parent user zone.
Definition canGetRecordSets (user zone location : string) := owner_of_parent user zone.
Definition canGetRecordSet (user zone location rtype : string) := owner_of_parent user zone.
Definition canUpdateRecordSet (user zone location rtype : string) := owner_of_parent user zone.
Definition canDeleteRecordSet (user zone location rtype : string) := owner_of_parent user zone.

(** ** Zones *)
Definition getZoneOwner (zone : string) : M S (res DbError ObjectId) :=
  r ← query_row (Select ["User_Id"] (From TZone) [Equals "Name" (VStr zone)] None None) scan_string;
  mret match r with
       | Ok userId => Ok userId
       | Err ErrNoRows => Ok EmptyObjectId
       | Err e => Err (ErrSql e)
       end.
Definition AddZone (user : string) (z : Zone) : M S (res DbError ObjectId) :=
  must u ← turn ErrNotFound ErrInvalid <$> GetUser user;
  must owner ← getZoneOwner (z_Name z);
  if bool_decide (owner = EmptyObjectId) then
    id ← NewObjectId;
    must _ ← execute_parsed (Insert TZone
      [("Id", VStr id); ("Name", VStr (z_Name z)); ("CNameFlattening", VBool (z_CNameFlattening z));
       ("Dnssec", VBool (z_Dnssec z)); ("Enabled", VBool (z_Enabled z)); ("User_Id", VStr (u_Id u))]);
    mret (Ok id)
  else if bool_decide (owner = u_Id u) then mret (Err ErrDuplicateEntry)
  else mret (Err ErrInvalid).
Definition db_like (q : string) : string := "%" +:+ q +:+ "%".
Definition db_GetZones (user : string) (start count : Z) (q : string) : M S (res DbError (list string)) :=
  must u ← turn ErrNotFound ErrInvalid <$> GetUser user;
  sql_err <$> query_strings (Select ["Name"] (From TZone)
    [Equals "User_Id" (VStr (u_Id u)); Like "Name" (db_like q)] (Some "Name") (Some (start, count))).
Definition db_GetZone (user zone : string) : M S (res DbError Zone) :=
  must _ ← canGetZone user zone;
  parsed <$> query_row (Select ["Id"; "Name"; "CNameFlattening"; "Dnssec"; "Enabled"] (From TZone)
                          [Equals "Name" (VStr zone)] None None) scan_zone.
Definition UpdateZone (user : string) (z : Zone) : M S (res DbError Z) :=
  must _ ← canUpdateZone user (z_Name z);
  must _ ← db_GetZone user (z_Name z);
  execute (Update TZone [("Dnssec", VBool (z_Dnssec z)); ("CNameFlattening", VBool (z_CNameFlattening z));
                         ("Enabled", VBool (z_Enabled z))] [Equals "Name" (VStr (z_Name z))]).
Definition DeleteZone (user zone : string) : M S (res DbError Z) :=
  must _ ← canDeleteZone user zone;
  must rows ← execute_parsed (Delete TZone [Equals "Name" (VStr zone)]);
  mret (found rows).

(** ** Locations *)
Definition AddLocation (user zone : string) (l : Location) : M S (res DbError ObjectId) :=
  must _ ← canAddLocation user zone (l_Name l);
  must z ← turn ErrNotFound ErrInvalid <$> db_GetZone user zone;
  id ← NewObjectId;
  must _ ← execute_parsed (Insert TLocation
    [("Id", VStr id); ("Name", VStr (l_Name l)); ("Enabled", VBool (l_Enabled l)); ("Zone_Id", VStr (z_Id z))]);
  mret (Ok id).
Definition GetLocations (user zone : string) (start count : Z) (q : string)
  : M S (res DbError (list string)) :=
  must _ ← canGetLocations user zone;
  must z ← turn ErrNotFound ErrInvalid <$> db_GetZone user zone;
  sql_err <$> query_strings (Select ["Name"] (From TLocation)
    [Equals "Zone_Id" (VStr (z_Id z)); Like "Name" (db_like q)] (Some "Name") (Some (start, count))).
Definition GetLocation (user zone location : string) : M S (res DbError Location) :=
  must _ ← canGetLocation user zone location;
  must z ← turn ErrNotFound ErrInvalid <$> db_GetZone user zone;
  parsed <$> query_row (Select ["Id"; "Name"; "Enabled"] (From TLocation)
    [Equals "Zone_Id" (VStr (z_Id z)); Equals "Name" (VStr location)] None None) scan_location.
Definition UpdateLocation (user zone : string) (l : Location) : M S (res DbError Z) :=
  must _ ← canUpdateLocation user zone (l_Name l);
  must stored ← GetLocation user zone (l_Name l);
  execute_parsed (Update TLocation [("Enabled", VBool (l_Enabled l))] [Equals "Id" (VStr (l_Id stored))]).
Definition DeleteLocation (user zone location : string) : M S (res DbError Z) :=
  must _ ← canDeleteLocation user zone location;
  must stored ← GetLocation user zone location;
  must rows ← execute (Delete TLocation [Equals "Id" (VStr (l_Id stored))]);
  mret (found rows).

(** ** Record sets *)
Definition AddRecordSet (user zone location : string) (r : RecordSet) : M S (res DbError ObjectId) :=
  must _ ← canAddRecordSet user zone location (r_Type r);
  if negb (rtypeValid (r_Type r)) then mret (Err ErrInvalid) else
  must l ← turn ErrNotFound ErrInvalid <$> GetLocation user zone location;
  id ← NewObjectId;
  must _ ← execute_parsed (Insert TRecordSet
    [("Id", VStr id); ("Location_Id", VStr (l_Id l)); ("Type", VStr (r_Type r));
     ("Value", VStr (r_Value r)); ("Enabled", VBool (r_Enabled r))]);
  mret (Ok id).
Definition GetRecordSets (user zone location : string) : M S (res DbError (list string)) :=
  must _ ← canGetRecordSets user zone location;
  must l ← turn ErrNotFound ErrInvalid <$> GetLocation user zone location;
  sql_err <$> query_strings (Select ["Type"] (From TRecordSet) [Equals "Location_Id" (VStr (l_Id l))]
                               None None).
Definition GetRecordSet (user zone location rtype : string) : M S (res DbError RecordSet) :=
  if negb (rtypeValid rtype) then mret (Err ErrInvalid) else
  must _ ← canGetRecordSet user zone location rtype;
  must l ← turn ErrNotFound ErrInvalid <$> GetLocation user zone location;
  parsed <$> query_row (Select ["Id"; "Type"; "Value"; "Enabled"] (From TRecordSet)
    [Equals "Location_Id" (VStr (l_Id l)); Equals "Type" (VStr rtype)] None None) scan_rset.
Definition UpdateRecordSet (user zone location : string) (r : RecordSet) : M S (res DbError Z) :=
  if negb (rtypeValid (r_Type r)) then mret (Err ErrInvalid) else
  must _ ← canUpdateRecordSet user zone location (r_Type r);
  must stored ← GetRecordSet user zone location (r_Type r);
  execute (Update TRecordSet [("Value", VStr (r_Value r)); ("Enabled", VBool (r_Enabled r))]
             [Equals "Id" (VStr (r_Id stored))]).
Definition DeleteRecordSet (user zone location rtype : string) : M S (res DbError Z) :=
  if negb (rtypeValid rtype) then mret (Err ErrInvalid) else
  must _ ← canDeleteRecordSet user zone location rtype;
  must stored ← GetRecordSet user zone location rtype;
  must rows ← execute (Delete TRecordSet [Equals "Id" (VStr (r_Id stored))]);
  mret (found rows).
End DataBase.
