(* ===== verification/DatabaseFacts.v ===== *)
(** * Properties of the API's database

    Who may touch what: a zone, its locations and its record sets are only read and
    changed through the user that owns the zone. What is stored is read back. A
    user signs in only after the address is verified. *)
From S2P Require Import Prelude GoStrings Sql Database.
Local Open Scope Z_scope.

(** Identifiers, random numbers and hashes leave the tables alone; a hash is
    recognised as the hash of its password. *)
Class EntropyLaws (S : Type) `{!Entropy S} (tables : S → DB) : Prop := {
  law_NewObjectId s : tables (NewObjectId s).2 = tables s;
  law_Int63 s : tables (Int63 s).2 = tables s;
  law_HashPassword p s :
    tables (HashPassword p s).2 = tables s
    ∧ ∀ h, (HashPassword p s).1 = Ok h → CheckPasswordHash p h = true;
}.

Create HintDb refuses discriminated.
Create HintDb keeps discriminated.

Section facts.
Context {S : Type} `{!MySQL S, !Entropy S} {engine : Engine} {tables : S → DB}.
Context `{!MySQLLaws S engine tables, !EntropyLaws S tables}.

(** ** Computations that read *)
Definition reads {A} (m : M S A) (Q : DB → A → Prop) : Prop :=
  ∀ s, tables (m s).2 = tables s ∧ Q (tables s) (m s).1.
(** ... of which nothing more is said. *)
Abbreviation silent m := (reads m (λ _ _, True)).

Lemma reads_ret {A} (a : A) (Q : DB → A → Prop) : (∀ db, Q db a) → reads (mret a) Q.
Proof. by intros ? s. Qed.
Lemma reads_bind {A B} (m : M S A) (f : A → M S B) (P : DB → A → Prop) (Q : DB → B → Prop) :
  reads m P → (∀ a, reads (f a) (λ db b, P db a → Q db b)) → reads (m ≫= f) Q.
Proof.
  intros Hm Hf s. rewrite run_bind. destruct (Hm s) as [E HP]. destruct (Hf (m s).1 (m s).2) as [E' HQ].
  rewrite E in *. split; [done|]. by apply HQ.
Qed.
Lemma reads_fmap {A B} (f : A → B) (m : M S A) (Q : DB → B → Prop) :
  reads m (λ db a, Q db (f a)) → reads (f <$> m) Q.
Proof. intros Hm s. rewrite run_fmap. apply Hm. Qed.
Lemma reads_mono {A} (m : M S A) (P Q : DB → A → Prop) :
  reads m P → (∀ db a, P db a → Q db a) → reads m Q.
Proof. intros Hm HPQ s. destruct (Hm s). auto. Qed.

(** The rows a query without join selects. *)
Lemma eval_from cols t wh db row :
  row ∈ eval engine db (Select cols (From t) wh None None) ↔
  ∃ r, r ∈ db t ∧ matches engine wh r = true ∧ row = (λ c, column c r) <$> cols.
Proof.
  simpl. rewrite list_elem_of_fmap. split.
  - intros (r & -> & Hr%list_elem_of_In%filter_In). destruct Hr. exists r.
    split_and!; [by apply list_elem_of_In|done..].
  - intros (r & Hr & Hm & ->). exists r. split; [done|].
    apply list_elem_of_In, filter_In. by rewrite <-list_elem_of_In.
Qed.

Lemma query_row_reads {A} q (scan : list value → res SqlError A) :
  reads (query_row q scan)
    (λ db r, match r with
             | Ok a => ∃ row, row ∈ eval engine db q ∧ scan row = Ok a
             | Err ErrNoRows => (∀ row, scan row ≠ Err ErrNoRows) → eval engine db q = []
             | Err _ => True
             end).
Proof.
  intros s. unfold query_row. rewrite run_bind. pose proof (law_QueryRow q s) as H.
  destruct (sql_QueryRow q s) as [[row|e] s']; destruct H as [E H]; cbn [fst snd mret M_ret].
  - split; [done|]. cbn. destruct (scan row) as [a|e] eqn:Hs; [by exists row|].
    destruct e; try done. intros Hn. by apply Hn in Hs.
  - split; [done|]. cbn. by destruct e.
Qed.

(** ** Ownership *)
Definition matching (db : DB) (t : table) (col key : string) (r : Row) : Prop :=
  r ∈ db t ∧ holds engine r (Equals col (VStr key)) = true.
Definition owns (db : DB) (user zone : string) : Prop :=
  ∃ u z, matching db TUser "Email" user u ∧ matching db TZone "Name" zone z
         ∧ column "User_Id" z = column "Id" u.

Lemma owns_Exists db user zone :
  owns db user zone ↔
  Exists (λ u, holds engine u (Equals "Email" (VStr user)) = true
               ∧ Exists (λ z, holds engine z (Equals "Name" (VStr zone)) = true
                              ∧ column "User_Id" z = column "Id" u) (db TZone)) (db TUser).
Proof.
  rewrite Exists_exists. setoid_rewrite Exists_exists. unfold owns, matching. split.
  - intros (u & z & [Hu Hue] & [Hz Hzn] & E). exists u. split_and!; [done..|]. by exists z.
  - intros (u & Hu & Hue & z & Hz & Hzn & E). by exists u, z.
Qed.
#[export] Instance owns_dec db user zone : Decision (owns db user zone).
Proof.
  destruct (decide (Exists (λ u, holds engine u (Equals "Email" (VStr user)) = true
    ∧ Exists (λ z, holds engine z (Equals "Name" (VStr zone)) = true
                   ∧ column "User_Id" z = column "Id" u) (db TZone)) (db TUser))) as [H|H];
    [left; by apply owns_Exists|right; by rewrite owns_Exists].
Defined.

Lemma matches_one c (r : Row) : matches engine [c] r = holds engine r c.
Proof. unfold matches. simpl. by rewrite andb_true_r. Qed.

(** A column of a row of [t] found under a key. *)
Definition found_at (db : DB) (t : table) (key v col : string) (x : string) : Prop :=
  ∃ row, matching db t key v row ∧ column col row = VStr x.

Lemma query_column_reads {E} (conv : res SqlError string → res E string) col t key v :
  (∀ r x, conv r = Ok x → r = Ok x) →
  reads (conv <$> query_row (Select [col] (From t) [Equals key (VStr v)] None None) scan_string)
    (λ db r, ∀ x, r = Ok x → found_at db t key v col x).
Proof.
  intros Hconv. apply reads_fmap. eapply reads_mono; [apply query_row_reads|]. intros db r Hr x Hx.
  rewrite (Hconv _ _ Hx) in Hr. destruct Hr as (row & (r' & Hin & Hm & ->)%eval_from & Hs).
  exists r'. rewrite matches_one in Hm. split; [done|]. simpl in Hs.
  by destruct (column col r'); simplify_eq.
Qed.
Lemma sql_err_Ok {A} (r : res SqlError A) x : sql_err r = Ok x → r = Ok x.
Proof. destruct r; simpl; congruence. Qed.
Lemma no_rows_Ok {A} (r : res SqlError A) x : no_rows_not_found r = Ok x → r = Ok x.
Proof. destruct r as [|[]]; simpl; congruence. Qed.
Lemma turn_Ok {A} from to (r : res DbError A) x : turn from to r = Ok x → r = Ok x.
Proof. destruct r; simpl; [done|]. by case_decide. Qed.

(** A step that may return its error. *)
Lemma reads_must {A B} (m : M S (res DbError A)) (f : A → M S (res DbError B))
    (P : DB → res DbError A → Prop) (Q : DB → res DbError B → Prop) :
  reads m P → (∀ a, reads (f a) (λ db r, P db (Ok a) → Q db r)) → (∀ db e, P db (Err e) → Q db (Err e)) →
  reads (must a ← m; f a) Q.
Proof.
  intros Hm Hf He. eapply reads_bind; [done|]. intros [a|e]; [apply Hf|]. apply reads_ret. auto.
Qed.

Lemma isZoneOwner_reads user zone :
  reads (isZoneOwner user zone) (λ db r, r = Ok () → owns db user zone).
Proof.
  unfold isZoneOwner. eapply reads_must; [apply query_column_reads, sql_err_Ok| |done].
  intros userID. eapply reads_must; [apply query_column_reads, no_rows_Ok| |done].
  intros ownerID. apply reads_ret. intros db Hz Hu E. case_bool_decide as Eo; [|done]. subst ownerID.
  destruct (Hu _ eq_refl) as (u & Hu1 & Hu2), (Hz _ eq_refl) as (z & Hz1 & Hz2).
  exists u, z. by rewrite Hu2, Hz2.
Qed.
Lemma owner_of_parent_reads user zone :
  reads (owner_of_parent user zone) (λ db r, r = Ok () → owns db user zone).
Proof.
  apply reads_fmap. eapply reads_mono; [apply isZoneOwner_reads|].
  intros db r Hr E%turn_Ok. auto.
Qed.

(** ** Requests for a zone *)
Inductive zone_request :=
| RGetZone | RUpdateZone (z : Zone) | RDeleteZone
| RAddLocation (l : Location) | RGetLocations (start count : Z) (q : string)
| RGetLocation (location : string) | RUpdateLocation (l : Location) | RDeleteLocation (location : string)
| RAddRecordSet (location : string) (r : RecordSet) | RGetRecordSets (location : string)
| RGetRecordSet (location rtype : string) | RUpdateRecordSet (location : string) (r : RecordSet)
| RDeleteRecordSet (location rtype : string).

(** The zone of an update is named by its value, as the handler of the route does. *)
Definition renamed (zone : string) (z : Zone) : Zone := {|
  z_Id := z_Id z; z_Name := zone; z_Enabled := z_Enabled z; z_Dnssec := z_Dnssec z;
  z_CNameFlattening := z_CNameFlattening z |}.
Definition perform (user zone : string) (q : zone_request) : M S (option DbError) :=
  let err {A} (r : res DbError A) := match r with Ok _ => None | Err e => Some e end in
  match q with
  | RGetZone => err <$> db_GetZone user zone
  | RUpdateZone z => err <$> UpdateZone user (renamed zone z)
  | RDeleteZone => err <$> DeleteZone user zone
  | RAddLocation l => err <$> AddLocation user zone l
  | RGetLocations start count q => err <$> GetLocations user zone start count q
  | RGetLocation l => err <$> GetLocation user zone l
  | RUpdateLocation l => err <$> UpdateLocation user zone l
  | RDeleteLocation l => err <$> DeleteLocation user zone l
  | RAddRecordSet l r => err <$> AddRecordSet user zone l r
  | RGetRecordSets l => err <$> GetRecordSets user zone l
  | RGetRecordSet l t => err <$> GetRecordSet user zone l t
  | RUpdateRecordSet l r => err <$> UpdateRecordSet user zone l r
  | RDeleteRecordSet l t => err <$> DeleteRecordSet user zone l t
  end.

(** An operation that checks the owner first goes no further for anyone else. *)
Definition refuses {A} (user zone : string) (m : M S (res DbError A)) : Prop :=
  ∀ s, ¬ owns (tables s) user zone → tables (m s).2 = tables s ∧ is_ok (m s).1 = false.
Lemma refuses_after {A B} user zone (m : M S (res DbError A)) (f : A → M S (res DbError B)) :
  refuses user zone m → refuses user zone (must a ← m; f a).
Proof.
  intros Hm s Hs. rewrite run_bind. destruct (Hm s Hs) as [E Hr].
  by destruct (m s) as [[a|e] s'].
Qed.
Lemma refuses_reads {A} user zone (m : M S (res DbError A)) :
  reads m (λ db r, is_ok r = true → owns db user zone) → refuses user zone m.
Proof.
  intros Hm s Hs. destruct (Hm s) as [E H]. split; [done|]. destruct (is_ok (m s).1); [|done].
  by destruct Hs; apply H.
Qed.
Lemma refuses_isZoneOwner user zone : refuses user zone (isZoneOwner user zone).
Proof.
  apply refuses_reads. eapply reads_mono; [apply isZoneOwner_reads|].
  intros db [[]|e] Hr; [by intros _; apply Hr|done].
Qed.
Lemma refuses_owner_of_parent user zone : refuses user zone (owner_of_parent user zone).
Proof.
  apply refuses_reads. eapply reads_mono; [apply owner_of_parent_reads|].
  intros db [[]|e] Hr; [by intros _; apply Hr|done].
Qed.
Lemma refuses_invalid {A} user zone (b : bool) e (m : M S (res DbError A)) :
  refuses user zone m → refuses user zone (if b then mret (Err e) else m).
Proof. destruct b; [by intros _ s|done]. Qed.


Ltac refuse := intros; repeat first
  [apply refuses_invalid|apply refuses_after; first [apply refuses_isZoneOwner|apply refuses_owner_of_parent]].
Lemma refuses_db_GetZone user zone : refuses user zone (db_GetZone user zone).
Proof. unfold db_GetZone. refuse. Qed.
Lemma refuses_UpdateZone user zone z : z_Name z = zone → refuses user zone (UpdateZone user z).
Proof. intros <-. unfold UpdateZone. refuse. Qed.
Lemma refuses_DeleteZone user zone : refuses user zone (DeleteZone user zone).
Proof. unfold DeleteZone. refuse. Qed.
Lemma refuses_AddLocation user zone l : refuses user zone (AddLocation user zone l).
Proof. unfold AddLocation. refuse. Qed.
Lemma refuses_GetLocations user zone start count q : refuses user zone (GetLocations user zone start count q).
Proof. unfold GetLocations. refuse. Qed.
Lemma refuses_GetLocation user zone l : refuses user zone (GetLocation user zone l).
Proof. unfold GetLocation. refuse. Qed.
Lemma refuses_UpdateLocation user zone l : refuses user zone (UpdateLocation user zone l).
Proof. unfold UpdateLocation. refuse. Qed.
Lemma refuses_DeleteLocation user zone l : refuses user zone (DeleteLocation user zone l).
Proof. unfold DeleteLocation. refuse. Qed.
Lemma refuses_AddRecordSet user zone l r : refuses user zone (AddRecordSet user zone l r).
Proof. unfold AddRecordSet. refuse. Qed.
Lemma refuses_GetRecordSets user zone l : refuses user zone (GetRecordSets user zone l).
Proof. unfold GetRecordSets. refuse. Qed.
Lemma refuses_GetRecordSet user zone l t : refuses user zone (GetRecordSet user zone l t).
Proof. unfold GetRecordSet. refuse. Qed.
Lemma refuses_UpdateRecordSet user zone l r : refuses user zone (UpdateRecordSet user zone l r).
Proof. unfold UpdateRecordSet. refuse. Qed.
Lemma refuses_DeleteRecordSet user zone l t : refuses user zone (DeleteRecordSet user zone l t).
Proof. unfold DeleteRecordSet. refuse. Qed.
Hint Resolve refuses_db_GetZone refuses_UpdateZone refuses_DeleteZone refuses_AddLocation refuses_GetLocations refuses_GetLocation refuses_UpdateLocation refuses_DeleteLocation refuses_AddRecordSet refuses_GetRecordSets refuses_GetRecordSet refuses_UpdateRecordSet refuses_DeleteRecordSet : refuses.

(** Only the owner gets at a zone: for a user who does not own the zone (another
    user, or one that does not exist, or a zone that does not exist) every request
    for the zone, its locations and its record sets fails and leaves every table as
    it was, whatever the driver does. *)
Theorem foreign_zone_refused user zone q s :
  ¬ owns (tables s) user zone →
  tables (perform user zone q s).2 = tables s ∧ (perform user zone q s).1 ≠ None.
Proof.
  assert (Herr : ∀ A (m : M S (res DbError A)), refuses user zone m → ¬ owns (tables s) user zone →
    let m' := (λ r, match r with Ok _ => None | Err e => Some e end) <$> m in
    tables (m' s).2 = tables s ∧ (m' s).1 ≠ None).
  { intros A m Hm Hs. cbv zeta. rewrite run_fmap. destruct (Hm s Hs) as [E Hr].
    split; [done|]. by destruct (m s).1. }
  intros Hs. destruct q; apply Herr; auto with refuses.
Qed.

(** ** Requests that only read *)
Definition keeps {A} (m : M S A) : Prop := ∀ s, tables (m s).2 = tables s.
Lemma keeps_reads {A} (m : M S A) Q : reads m Q → keeps m.
Proof. intros Hm s. apply Hm. Qed.
Lemma keeps_bind {A B} (m : M S A) (f : A → M S B) : keeps m → (∀ a, keeps (f a)) → keeps (m ≫= f).
Proof. intros Hm Hf s. rewrite run_bind, Hf. apply Hm. Qed.
Lemma keeps_ret {A} (a : A) : keeps (mret a).
Proof. done. Qed.
Lemma keeps_fmap {A B} (f : A → B) (m : M S A) : keeps m → keeps (f <$> m).
Proof. intros Hm s. rewrite run_fmap. apply Hm. Qed.
Lemma keeps_must {A B} (m : M S (res DbError A)) (f : A → M S (res DbError B)) :
  keeps m → (∀ a, keeps (f a)) → keeps (must a ← m; f a).
Proof. intros Hm Hf. apply keeps_bind; [done|]. by intros [a|e]. Qed.
Lemma keeps_query_row {A} q (scan : list value → res SqlError A) : keeps (query_row q scan).
Proof. eapply keeps_reads, query_row_reads. Qed.
Lemma keeps_query_strings q : keeps (query_strings q).
Proof.
  apply keeps_bind; [|done]. intros s. pose proof (law_Query q s) as Hq.
  destruct (sql_Query q s) as [r s']. apply Hq.
Qed.
Lemma keeps_GetUser name : keeps (GetUser name).
Proof. apply keeps_fmap, keeps_query_row. Qed.
Lemma keeps_isZoneOwner user zone : keeps (isZoneOwner user zone).
Proof. eapply keeps_reads, isZoneOwner_reads. Qed.
Lemma keeps_owner_of_parent user zone : keeps (owner_of_parent user zone).
Proof. apply keeps_fmap, keeps_isZoneOwner. Qed.
Ltac keep := intros; repeat first
  [apply keeps_query_row|apply keeps_query_strings|apply keeps_isZoneOwner|apply keeps_owner_of_parent
  |apply keeps_GetUser|apply keeps_fmap|(apply keeps_must; [|intros ?])|apply keeps_ret
  |match goal with |- keeps (if _ then _ else _) => case_match end].
Lemma keeps_db_GetZones user start count q : keeps (db_GetZones user start count q).
Proof. unfold db_GetZones. keep. Qed.
Lemma keeps_db_GetZone user zone : keeps (db_GetZone user zone).
Proof. unfold db_GetZone. keep. Qed.
Lemma keeps_GetLocations user zone start count q : keeps (GetLocations user zone start count q).
Proof. unfold GetLocations, db_GetZone. keep. Qed.
Lemma keeps_GetLocation user zone l : keeps (GetLocation user zone l).
Proof. unfold GetLocation, db_GetZone. keep. Qed.
Lemma keeps_GetRecordSets user zone l : keeps (GetRecordSets user zone l).
Proof. unfold GetRecordSets, GetLocation, db_GetZone. keep. Qed.
Lemma keeps_GetRecordSet user zone l t : keeps (GetRecordSet user zone l t).
Proof. unfold GetRecordSet, GetLocation, db_GetZone. keep. Qed.

(** ** Insertions *)
Lemma same_refl x : same engine x x = true.
Proof. pose proof law_same as []. done. Qed.
Lemma holds_sym r c v : same_value engine (VStr v) (column c r) = holds engine r (Equals c (VStr v)).
Proof.
  simpl. destruct (column c r) as [s| |]; simpl; [|done..]. apply Bool.eq_iff_eq_true.
  pose proof law_same as [_ Hsym _]. split; apply Hsym.
Qed.

(** Names of columns that are not normalised. *)
Lemma normal_other c v : c ≠ "Value" → normal engine c v = v.
Proof. intros Hc. destruct v; simpl; [by rewrite decide_False|done..]. Qed.

Lemma clash_on t row cols r :
  cols ∈ unique_indexes t →
  Forall (λ c, same_value engine (column c row) (column c r) = true) cols →
  clash engine t row r = true.
Proof.
  intros Hc Hf. unfold clash. apply existsb_exists. exists cols. split; [by apply list_elem_of_In|].
  apply forallb_forall. intros c Hin. rewrite Forall_forall in Hf. apply Hf. by apply list_elem_of_In.
Qed.
(** A row that was inserted is the only one of its unique column. *)
Lemma inserted_only t sets c v db r :
  let row := assign engine sets ∅ in
  [c] ∈ unique_indexes t → column c row = VStr v →
  duplicate engine (Insert t sets) db = false →
  matching (apply engine (Insert t sets) db) t c v r → r = row.
Proof.
  intros row Hu Hv Hd [Hin Hh]. simpl in Hin. unfold set_table in Hin. rewrite decide_True in Hin by done.
  apply elem_of_app in Hin as [Hin|Hin]; [|by apply list_elem_of_singleton in Hin].
  exfalso. simpl in Hd. apply not_true_iff_false in Hd. apply Hd, existsb_exists. exists r.
  split; [by apply list_elem_of_In|]. apply (clash_on _ _ [c]); [done|]. constructor; [|done].
  change (assign engine sets ∅) with row. by rewrite Hv, holds_sym.
Qed.

Lemma execute_run {A} (conv : res SqlError Z → res DbError A) st s :
  (∀ e, is_ok (conv (Err e)) = false) →
  let x := (conv <$> sql_Exec st) s in
  is_ok x.1 = true →
  duplicate engine st (tables s) = false ∧ tables x.2 = apply engine st (tables s).
Proof.
  intros Hc. cbv zeta. rewrite run_fmap. pose proof (law_Exec st s) as H.
  destruct (sql_Exec st s) as [[n|e] s']; cbn [fst snd]; [by destruct H as (? & ? & _)|].
  by rewrite Hc.
Qed.

(** ** The row of a new user *)
Definition user_row (i e h st : string) : Row :=
  <["Status" := VStr st]> (<["Password" := VStr h]> (<["Email" := VStr e]> (<["Id" := VStr i]> ∅))).
(** The user with identifier [i] and address [e] is in the table only as this row. *)
Definition sole_user (db : DB) (i e h st : string) : Prop :=
  ∀ r, matching db TUser "Email" e r ∨ matching db TUser "Id" i r → r = user_row i e h st.

Lemma AddUser_run u s id :
  (AddUser u s).1 = Ok id →
  ∃ h, CheckPasswordHash (u_Password u) h = true
       ∧ sole_user (tables (AddUser u s).2) id (u_Email u) h (u_Status u).
Proof.
  unfold AddUser. rewrite run_bind. destruct (law_HashPassword (u_Password u) s) as [Eh Hh].
  destruct (HashPassword (u_Password u) s) as [[h|e] s1]; [|done]. cbn [fst snd] in *.
  rewrite run_bind. pose proof (law_NewObjectId (tables:=tables) s1) as Ei.
  destruct (NewObjectId s1) as [i s2]. cbn [fst snd] in *. rewrite run_bind.
  set (sets := [("Id", VStr i); ("Email", VStr (u_Email u)); ("Password", VStr h); ("Status", VStr (u_Status u))]).
  unfold execute_parsed. pose proof (execute_run parsed (Insert TUser sets) s2 (λ e, eq_refl)) as Hx.
  destruct ((parsed <$> sql_Exec (Insert TUser sets)) s2) as [[n|e] s3]; [|done]. cbn [fst snd mret M_ret].
  intros [= <-]. destruct (Hx eq_refl) as [Hd E]. cbn [fst snd] in E. exists h. split; [by apply Hh|].
  rewrite E. intros r Hr. change (user_row i (u_Email u) h (u_Status u)) with (assign engine sets ∅).
  destruct Hr as [Hr|Hr]; [apply (inserted_only TUser sets "Email" (u_Email u) (tables s2))
    |apply (inserted_only TUser sets "Id" i (tables s2))]; try done; by apply (bool_decide_unpack _).
Qed.

(** Looking a user up. *)
Lemma GetUser_reads name :
  reads (GetUser name) (λ db r, ∀ u, r = Ok u →
    ∃ row, matching db TUser "Email" name row
      ∧ [column "Id" row; column "Email" row; column "Password" row; column "Status" row]
        = [VStr (u_Id u); VStr (u_Email u); VStr (u_Password u); VStr (u_Status u)]).
Proof.
  apply reads_fmap. eapply reads_mono; [apply query_row_reads|]. intros db r Hr u Hu.
  destruct r as [u'|e]; [|done]. simpl in Hu. simplify_eq.
  destruct Hr as (row & (r & Hin & Hm & ->)%eval_from & Hs). exists r. rewrite matches_one in Hm.
  split; [done|]. simpl in Hs. repeat case_match; by simplify_eq.
Qed.
Lemma GetUser_sole i e h st s u :
  sole_user (tables s) i e h st → (GetUser e s).1 = Ok u →
  u = {| u_Id := i; u_Email := e; u_Password := h; u_Status := st |}.
Proof.
  intros Hs Hu. destruct (GetUser_reads e s) as [_ H]. destruct (H u Hu) as (row & Hm & E).
  rewrite (Hs row) in E by by left. destruct u as [i' e' h' st'].
  change ([VStr i; VStr e; VStr h; VStr st] = [VStr i'; VStr e'; VStr h'; VStr st']) in E. by simplify_eq.
Qed.

(** ** Verification *)
Definition code_row (code t i : string) : Row :=
  <["User_Id" := VStr i]> (<["Type" := VStr t]> (<["Code" := VStr code]> ∅)).
Definition sole_code (db : DB) (code t i : string) : Prop :=
  ∀ r, matching db TVerification "Code" code r → r = code_row code t i.

Lemma sole_user_eq db db' i e h st :
  db' TUser = db TUser → sole_user db i e h st → sole_user db' i e h st.
Proof. unfold sole_user, matching. by intros ->. Qed.

Lemma random_loop_reads fuel n cache remain b : silent (random_loop fuel n cache remain b).
Proof.
  revert n cache remain b. induction fuel as [|fuel IH]; intros [|n] cache remain b; cbn [random_loop];
    try by apply reads_ret.
  eapply (reads_bind _ _ (λ _ _, True)).
  - destruct (remain =? 0); [|by apply reads_ret]. eapply (reads_bind _ _ (λ _ _, True)).
    + intros s. split; [apply law_Int63|done].
    + intros c. by apply reads_ret.
  - intros [c r]. cbv zeta. destruct (bytes letterBytes !! _);
      (eapply reads_mono; [apply IH|]; intros; done).
Qed.
Lemma randomString_reads fuel n : silent (randomString fuel n).
Proof.
  unfold randomString. eapply (reads_bind _ _ (λ _ _, True)).
  - intros s. split; [apply law_Int63|done].
  - intros c. eapply reads_mono; [apply random_loop_reads|]. done.
Qed.

Lemma AddVerification_run fuel i e h st t s code :
  sole_user (tables s) i e h st → (AddVerification fuel e t s).1 = Some (Ok code) →
  sole_user (tables (AddVerification fuel e t s).2) i e h st
  ∧ sole_code (tables (AddVerification fuel e t s).2) code t i.
Proof.
  intros Hu. unfold AddVerification. rewrite run_bind.
  pose proof (GetUser_sole i e h st s) as Hg. destruct (GetUser_reads e s) as [Eu _].
  destruct (GetUser e s) as [[u|er] s1]; cbn [fst snd turn] in *.
  2:{ by case_decide. }
  rewrite (Hg u Hu eq_refl) in *. rewrite run_bind. destruct (randomString_reads fuel 50 s1) as [Er _].
  destruct (randomString fuel 50 s1) as [[c|] s2]; [|done]. cbn [fst snd u_Id] in *.
  rewrite run_fmap, run_bind.
  set (sets := [("Code", VStr c); ("Type", VStr t); ("User_Id", VStr i)]).
  unfold execute. pose proof (execute_run sql_err (Insert TVerification sets) s2 (λ e, eq_refl)) as Hx.
  destruct ((sql_err <$> sql_Exec (Insert TVerification sets)) s2) as [[n|er] s3]; [|done].
  cbn [fst snd mret M_ret]. intros [= <-]. destruct (Hx eq_refl) as [Hd E]. cbn [fst snd] in E.
  rewrite E. split.
  - eapply sole_user_eq; [|exact Hu]. simpl. unfold set_table. rewrite decide_False by done. congruence.
  - intros r Hr. change (code_row c t i) with (assign engine sets ∅).
    apply (inserted_only TVerification sets "Code" c (tables s2)); try done.
    by apply (bool_decide_unpack _).
Qed.

#[local] Instance joined_inj : Inj (=) (=) joined.
Proof. intros x y H. by apply string_app_inj_l in H. Qed.
(** What [Verify] reads: the user that the code was made for. *)
Lemma joined_row (code t i e h st : string) :
  let r := code_row code t i ∪ prefixed (user_row i e h st) in
  [column (joined "Id") r; column "Type" r] = [VStr i; VStr t].
Proof.
  cbv zeta. unfold column, prefixed. rewrite !(lookup_union).
  assert (Ej : ∀ c, kmap joined (user_row i e h st) !! joined c = user_row i e h st !! c)
    by (intros c; apply (lookup_kmap joined)).
  rewrite Ej. by destruct (kmap joined (user_row i e h st) !! "Type").
Qed.
(** A column that is not one of the joined table. *)
Lemma column_left r1 r2 c : (∀ c', c ≠ joined c') → column c (r1 ∪ prefixed r2) = column c r1.
Proof.
  intros Hc. unfold column, prefixed. rewrite lookup_union.
  assert (kmap joined r2 !! c = None) as ->.
  { apply (lookup_kmap_None joined). intros c' E. by destruct (Hc c'). }
  by destruct (r1 !! c).
Qed.

Lemma Verify_row db code t i e h st row :
  sole_user db i e h st → sole_code db code t i →
  row ∈ eval engine db (Select [joined "Id"; "Type"] (LeftJoin TVerification TUser "User_Id" "Id")
                          [Equals "Code" (VStr code)] None None) →
  row = [VStr i; VStr t] ∨ row = [VNull; VStr t].
Proof.
  intros Hu Hc Hrow. simpl in Hrow.
  apply list_elem_of_fmap in Hrow as (r & -> & Hr%list_elem_of_In%filter_In).
  destruct Hr as [Hr%list_elem_of_In Hm]. rewrite matches_one in Hm.
  apply list_elem_of_bind in Hr as (r1 & Hr & Hr1).
  destruct (List.filter _ (db TUser)) as [|r2 rs] eqn:Ef.
  - apply list_elem_of_singleton in Hr as ->. right. by rewrite (Hc r1) by done.
  - change (r ∈ (λ r2, r1 ∪ prefixed r2) <$> (r2 :: rs)) in Hr. rewrite <-Ef in Hr. clear Ef.
    apply list_elem_of_fmap in Hr as (r2' & -> & Hr2%list_elem_of_In%filter_In).
    destruct Hr2 as [Hr2%list_elem_of_In Hid].
    assert (E1 : r1 = code_row code t i).
    { apply Hc. split; [done|]. unfold holds in *. by rewrite column_left in Hm. }
    subst r1. change (column "User_Id" (code_row code t i)) with (VStr i) in Hid.
    rewrite holds_sym in Hid. rewrite (Hu r2') by by right. left.
    exact (joined_row code t i e h st).
Qed.

(** The user after the status is set. *)
Lemma activated db i e h st :
  sole_user db i e h st →
  sole_user (apply engine (Update TUser [("Status", VStr UserStatusActive)] [Equals "Id" (VStr i)]) db)
    i e h UserStatusActive.
Proof.
  intros Hs r Hr. simpl in Hr.
  assert (Hin : ∃ r0, r0 ∈ db TUser ∧ r = if matches engine [Equals "Id" (VStr i)] r0
                  then assign engine [("Status", VStr UserStatusActive)] r0 else r0).
  { destruct Hr as [[Hr _]|[Hr _]]; unfold set_table in Hr; rewrite decide_True in Hr by done;
      by apply list_elem_of_fmap in Hr as (r0 & -> & ?); exists r0. }
  destruct Hin as (r0 & Hin & ->). rewrite matches_one in *.
  destruct (holds engine r0 (Equals "Id" (VStr i))) eqn:Hid.
  - rewrite (Hs r0) by by right. unfold user_row. cbn. by rewrite insert_insert.
  - assert (E : r0 = user_row i e h st) by (apply Hs; destruct Hr as [[_ Hr]|[_ Hr]]; [left|right]; done).
    rewrite E in Hid. change (same engine i i = false) in Hid. by rewrite same_refl in Hid.
Qed.

Lemma Verify_run i e h st code s :
  sole_user (tables s) i e h st → sole_code (tables s) code VerificationTypeSignup i →
  (Verify code s).1 = Ok () →
  sole_user (tables (Verify code s).2) i e h UserStatusActive.
Proof.
  intros Hu Hc. unfold Verify. rewrite run_bind. set (q := Select _ _ _ _ _).
  set (scan := λ row : list value, _ : res SqlError (string * string)).
  destruct (query_row_reads q scan s) as [E Hq]. destruct (query_row q scan s) as [[[i' t]|er] s1];
    cbn [fst snd parsed] in *; [|done].
  destruct Hq as (row & Hrow & Hscan). eapply Verify_row in Hrow; [|done..].
  destruct Hrow as [-> | ->]; [|done]. simpl in Hscan. injection Hscan as <- <-.
  rewrite bool_decide_eq_true_2 by done. rewrite run_bind. unfold execute_parsed.
  set (st1 := Update _ _ _).
  pose proof (execute_run parsed st1 s1 (λ e, eq_refl)) as Hx.
  destruct ((parsed <$> sql_Exec st1) s1) as [[n|er] s2]; [|done]. cbn [fst snd] in *.
  destruct (Hx eq_refl) as [_ E2]. rewrite run_bind. set (st2 := Delete _ _).
  pose proof (execute_run parsed st2 s2 (λ e, eq_refl)) as Hy.
  destruct ((parsed <$> sql_Exec st2) s2) as [[m|er] s3]; [|done]. cbn [fst snd mret M_ret] in *.
  destruct (Hy eq_refl) as [_ E3]. intros _.
  apply (sole_user_eq (tables s2)); [by rewrite E3|]. rewrite E2, E. by eapply activated.
Qed.

(** ** New zones *)
Lemma getZoneOwner_reads zone :
  reads (getZoneOwner zone)
    (λ db r, r = Ok EmptyObjectId ∨ ∀ o, r = Ok o → found_at db TZone "Name" zone "User_Id" o).
Proof.
  unfold getZoneOwner. eapply reads_bind.
  { eapply reads_mono; [apply query_row_reads|]. intros db r Hr. exact Hr. }
  intros [o|[]]; apply reads_ret; intros db Hr; try (by left); right; try done.
  intros o' [= <-]. destruct Hr as (row & (r & Hin & Hm & ->)%eval_from & Hs).
  exists r. rewrite matches_one in Hm. split; [done|]. simpl in Hs. by destruct (column "User_Id" r); simplify_eq.
Qed.

(** A zone is created for its user and never taken from another: [AddZone] succeeds
    only if no zone of that name exists, and then the user owns the zone and no
    other table has changed; if the zone exists, whoever owns it, [AddZone] fails
    and changes nothing. *)
Theorem AddZone_spec user z s :
  let x := AddZone user z s in
  (∀ id, x.1 = Ok id →
     (∀ r, ¬ matching (tables s) TZone "Name" (z_Name z) r)
     ∧ owns (tables x.2) user (z_Name z) ∧ ∀ t, t ≠ TZone → tables x.2 t = tables s t)
  ∧ ((∃ r, matching (tables s) TZone "Name" (z_Name z) r) → is_ok x.1 = false ∧ tables x.2 = tables s).
Proof.
  cbv zeta. unfold AddZone. rewrite run_bind, run_fmap. destruct (GetUser_reads user s) as [E1 Hu].
  destruct (GetUser user s) as [[u|e] s1]; cbn [fst snd turn] in *; [|by case_decide].
  destruct (Hu u eq_refl) as (urow & Hurow & Eu). rewrite run_bind.
  destruct (getZoneOwner_reads (z_Name z) s1) as [E2 _].
  destruct (getZoneOwner (z_Name z) s1) as [[o|e] s2]; cbn [fst snd] in *; [|split; [done|intros _; split; [done|simpl; congruence]]].
  case_bool_decide; [|case_bool_decide; (split; [done|intros _; split; [done|simpl; congruence]])]. rewrite run_bind.
  pose proof (law_NewObjectId (tables:=tables) s2) as E3. destruct (NewObjectId s2) as [i s3].
  cbn [fst snd] in *. rewrite run_bind.
  set (sets := [("Id", VStr i); ("Name", VStr (z_Name z)); ("CNameFlattening", VBool (z_CNameFlattening z));
                ("Dnssec", VBool (z_Dnssec z)); ("Enabled", VBool (z_Enabled z)); ("User_Id", VStr (u_Id u))]).
  set (row := assign engine sets ∅).
  assert (Hdup : (∃ r, matching (tables s) TZone "Name" (z_Name z) r) →
    duplicate engine (Insert TZone sets) (tables s) = true).
  { intros (r & Hin & Hh). simpl. apply existsb_exists. exists r. split; [by apply list_elem_of_In|].
    apply (clash_on _ _ ["Name"]); [by apply (bool_decide_unpack _)|]. constructor; [|done].
    change (same_value engine (VStr (z_Name z)) (column "Name" r) = true). by rewrite holds_sym. }
  assert (E : tables s3 = tables s) by congruence. unfold execute_parsed. rewrite run_fmap.
  pose proof (law_Exec (Insert TZone sets) s3) as Hx. rewrite E in Hx.
  destruct (sql_Exec (Insert TZone sets) s3) as [[n|e] s4]; cbn [fst snd parsed mret M_ret].
  - destruct Hx as (Hd & Et & _). split; [|intros Hz; by rewrite Hdup in Hd]. intros ? _. split_and!.
    + intros r Hr. rewrite Hdup in Hd; [done|by exists r].
    + rewrite Et. simpl. exists urow, row. unfold matching, set_table in *.
      rewrite decide_False, decide_True by done. split_and!; [by apply Hurow|by apply Hurow| | |].
      * apply elem_of_app. right. by apply list_elem_of_singleton.
      * apply same_refl.
      * by injection Eu as ->.
    + intros t Ht. rewrite Et. simpl. unfold set_table. by rewrite decide_False.
  - split; [done|]. intros Hz. split; [done|]. apply Hdup in Hz.
    destruct e; [done|by destruct Hx|]. destruct Hx as [|[Hd _]]; [done|congruence].
Qed.
End facts.

#[export] Hint Resolve keeps_db_GetZones keeps_db_GetZone keeps_GetLocations keeps_GetLocation keeps_GetRecordSets
  keeps_GetRecordSet keeps_GetUser : keeps.
#[export] Hint Resolve refuses_db_GetZone refuses_UpdateZone refuses_DeleteZone refuses_AddLocation refuses_GetLocations refuses_GetLocation refuses_UpdateLocation refuses_DeleteLocation refuses_AddRecordSet refuses_GetRecordSets refuses_GetRecordSet refuses_UpdateRecordSet refuses_DeleteRecordSet : refuses.
