(* ===== verification/DatabaseIndex.v ===== *)
(** * The unique indexes of the API's database, and reading back what was stored

    Every statement of the program keeps the unique indexes of the schema: inserts
    are checked by the server, and no update sets an indexed column. So a name
    finds one row, a lookup repeated on the same tables gives the same answer, and
    what an Add method stored is what the Get method returns. *)
From S2P Require Import Prelude GoStrings Sql Database DatabaseFacts.
Local Open Scope Z_scope.

Create HintDb indexes discriminated.

Section facts.
Context {S : Type} `{!MySQL S, !Entropy S} {engine : Engine} {tables : S → DB}.
Context `{!MySQLLaws S engine tables, !EntropyLaws S tables}.

(** ** The invariant *)
Definition same_key (cols : list string) (r r' : Row) : bool :=
  forallb (λ c, same_value engine (column c r) (column c r')) cols.
Definition indexed (db : DB) : Prop :=
  ∀ t cols r r', cols ∈ unique_indexes t → r ∈ db t → r' ∈ db t → same_key cols r r' = true → r = r'.

(** An update of columns that no index contains. *)
Definition updates_freely (st : exec) : bool :=
  match st with
  | Update t sets _ =>
    forallb (λ cv, negb (existsb (λ cols, bool_decide (cv.1 ∈ cols)) (unique_indexes t))) sets
  | _ => true
  end.

Lemma same_value_sym v w : same_value engine v w = true → same_value engine w v = true.
Proof.
  destruct v, w; simpl; try done.
  - pose proof (law_same (engine:=engine)) as [_ Hsym _]. apply Hsym.
  - by rewrite !eqb_true_iff.
Qed.
Lemma same_key_sym cols r r' : same_key cols r r' = true → same_key cols r' r = true.
Proof. unfold same_key. rewrite !forallb_forall. intros Hk c Hc. apply same_value_sym; auto. Qed.
Lemma same_key_clash t cols r r' :
  cols ∈ unique_indexes t → same_key cols r r' = true → clash engine t r r' = true.
Proof. intros Hc Hk. apply existsb_exists. exists cols. split; [by apply list_elem_of_In|done]. Qed.

Lemma set_table_same t rows db : set_table t rows db t = rows.
Proof. unfold set_table. by rewrite decide_True. Qed.
Lemma set_table_other t t' rows db : t ≠ t' → set_table t rows db t' = db t'.
Proof. intros Ht. unfold set_table. by rewrite decide_False. Qed.

Lemma indexed_sub db db' : indexed db → (∀ t r, r ∈ db' t → r ∈ db t) → indexed db'.
Proof. intros Hi Hsub t cols r r' Hc Hr Hr'. apply (Hi t); auto. Qed.

Lemma indexed_insert t sets db :
  duplicate engine (Insert t sets) db = false → indexed db → indexed (apply engine (Insert t sets) db).
Proof.
  intros Hd Hi t' cols r r' Hc Hr Hr' Hk. cbn [apply] in *.
  destruct (decide (t = t')) as [<-|Ht]; [|rewrite set_table_other in Hr, Hr' by done; by eapply Hi].
  rewrite set_table_same in Hr, Hr'. set (row := assign engine sets ∅) in *.
  assert (Hnew : ∀ x, x ∈ db t → same_key cols row x = true → row = x).
  { intros x Hx Hk'. exfalso. apply not_true_iff_false in Hd. apply Hd. cbn [duplicate].
    apply existsb_exists. exists x. split; [by apply list_elem_of_In|]. by eapply same_key_clash. }
  apply elem_of_app in Hr as [Hr|Hr%list_elem_of_singleton], Hr' as [Hr'|Hr'%list_elem_of_singleton]; subst.
  - by eapply Hi.
  - symmetry. apply Hnew; [done|]. by apply same_key_sym.
  - by apply Hnew.
  - done.
Qed.

Lemma column_assign sets c r :
  Forall (λ cv : string * value, cv.1 ≠ c) sets → column c (assign engine sets r) = column c r.
Proof.
  unfold assign. intros Hf. revert r. induction Hf as [|[c' v] sets Hc _ IH]; intros r; [done|].
  cbn [foldl fst snd] in *. rewrite IH. unfold column. by rewrite lookup_insert_ne.
Qed.
Lemma indexed_update t sets wh db :
  updates_freely (Update t sets wh) = true → indexed db → indexed (apply engine (Update t sets wh) db).
Proof.
  intros Hf Hi t' cols r r' Hc Hr Hr' Hk. cbn [apply] in *.
  destruct (decide (t = t')) as [<-|Ht]; [|rewrite set_table_other in Hr, Hr' by done; by eapply Hi].
  rewrite set_table_same in Hr, Hr'. set (upd := λ r, if matches engine wh r then assign engine sets r else r) in *.
  apply list_elem_of_fmap in Hr as (x & -> & Hx), Hr' as (x' & -> & Hx').
  assert (Hcol : ∀ c y, c ∈ cols → column c (upd y) = column c y).
  { intros c y Hin. unfold upd. destruct (matches engine wh y); [|done]. apply column_assign.
    cbn [updates_freely] in Hf. rewrite forallb_forall in Hf. apply Forall_forall. intros [c' v] Hcv <-.
    apply list_elem_of_In in Hcv. specialize (Hf _ Hcv). apply negb_true_iff, not_true_iff_false in Hf.
    apply Hf, existsb_exists. exists cols. split; [by apply list_elem_of_In|]. by apply bool_decide_eq_true. }
  f_equal. apply (Hi t cols); [done..|]. unfold same_key in *. rewrite forallb_forall in *.
  intros c Hin. specialize (Hk c Hin). apply list_elem_of_In in Hin. by rewrite !Hcol in Hk.
Qed.

Lemma delete_where_sub depth t gone db t' r : r ∈ delete_where depth t gone db t' → r ∈ db t'.
Proof.
  revert t gone db t' r. induction depth as [|depth IH]; intros t gone db t' r Hr; cbn [delete_where] in Hr.
  all: assert (Hset : ∀ r, r ∈ set_table t (List.filter (λ r, negb (gone r)) (db t)) db t' → r ∈ db t').
  1,3: intros r0 Hr0; destruct (decide (t = t')) as [<-|Ht];
    [rewrite set_table_same in Hr0; apply list_elem_of_In, filter_In in Hr0 as [? _]; by apply list_elem_of_In
    |by rewrite set_table_other in Hr0 by done].
  - by apply Hset.
  - apply Hset. revert Hr. generalize (set_table t (List.filter (λ r, negb (gone r)) (db t)) db).
    induction (children t) as [|[tc col] cs IHc]; intros db' Hr; cbn [foldl] in Hr; [done|].
    apply IHc in Hr. by apply IH in Hr.
Qed.

Lemma indexed_apply st db :
  updates_freely st = true → duplicate engine st db = false → indexed db → indexed (apply engine st db).
Proof.
  intros Hf Hd Hi. destruct st as [t row|t sets wh|t wh]; [by apply indexed_insert|by apply indexed_update|].
  apply (indexed_sub db); [done|]. intros t' r. apply delete_where_sub.
Qed.

(** ** Every method keeps it *)
Definition preserves {A} (m : M S A) : Prop := ∀ s, indexed (tables s) → indexed (tables (m s).2).
Lemma preserves_keeps {A} (m : M S A) : keeps (tables:=tables) m → preserves m.
Proof. intros Hm s. by rewrite Hm. Qed.
Lemma preserves_bind {A B} (m : M S A) (f : A → M S B) :
  preserves m → (∀ a, preserves (f a)) → preserves (m ≫= f).
Proof. intros Hm Hf s Hs. rewrite run_bind. by apply Hf, Hm. Qed.
Lemma preserves_ret {A} (a : A) : preserves (mret a).
Proof. by intros s Hs. Qed.
Lemma preserves_fmap {A B} (f : A → B) (m : M S A) : preserves m → preserves (f <$> m).
Proof. intros Hm s Hs. rewrite run_fmap. by apply Hm. Qed.
Lemma preserves_must {A B} (m : M S (res DbError A)) (f : A → M S (res DbError B)) :
  preserves m → (∀ a, preserves (f a)) → preserves (must a ← m; f a).
Proof. intros Hm Hf. apply preserves_bind; [done|]. intros [a|e]; [apply Hf|apply preserves_ret]. Qed.
Lemma preserves_Exec st : updates_freely st = true → preserves (sql_Exec st).
Proof.
  intros Hf s Hs. pose proof (law_Exec st s) as Hx. destruct (sql_Exec st s) as [[n|e] s']; cbn [snd].
  - destruct Hx as (Hd & -> & _). by apply indexed_apply.
  - destruct e; [done|by destruct Hx as [-> _]|]. destruct Hx as [->|[Hd ->]]; [done|by apply indexed_apply].
Qed.
Lemma preserves_execute st : updates_freely st = true → preserves (execute st).
Proof. intros Hf. by apply preserves_fmap, preserves_Exec. Qed.
Lemma preserves_execute_parsed st : updates_freely st = true → preserves (execute_parsed st).
Proof. intros Hf. by apply preserves_fmap, preserves_Exec. Qed.
Lemma preserves_NewObjectId : preserves NewObjectId.
Proof. apply preserves_keeps. intros s. apply law_NewObjectId. Qed.
Lemma preserves_randomString fuel n : preserves (randomString fuel n).
Proof. eapply preserves_keeps, keeps_reads, randomString_reads. Qed.
Hint Resolve preserves_execute preserves_execute_parsed preserves_NewObjectId preserves_randomString : indexes.

Ltac preserve := intros; repeat first
  [progress eauto with indexes
  |apply preserves_keeps; solve [eauto with keeps]
  |apply preserves_keeps; solve [apply keeps_query_row|apply keeps_fmap, keeps_query_row
                                |apply keeps_isZoneOwner|apply keeps_owner_of_parent]
  |apply preserves_ret|apply preserves_fmap|(apply preserves_must; [|intros ?])
  |(apply preserves_bind; [|intros ?])
  |match goal with |- preserves (match ?x with _ => _ end) => destruct x end
  |match goal with |- preserves (let '(_, _) := ?x in _) => destruct x end].
Lemma preserves_AddUser u : preserves (AddUser u).
Proof.
  unfold AddUser. apply preserves_bind; [|preserve].
  apply preserves_keeps. intros s. apply law_HashPassword.
Qed.
Lemma preserves_AddVerification fuel name t : preserves (AddVerification fuel name t).
Proof. unfold AddVerification. preserve. Qed.
Lemma preserves_Verify code : preserves (Verify code).
Proof. unfold Verify. preserve. Qed.
Lemma preserves_DeleteUser name : preserves (DeleteUser name).
Proof. unfold DeleteUser. preserve. Qed.
Lemma preserves_db_Clear : preserves db_Clear.
Proof. unfold db_Clear. preserve. Qed.
Lemma preserves_AddZone user z : preserves (AddZone user z).
Proof. unfold AddZone, getZoneOwner. preserve. Qed.
Lemma preserves_UpdateZone user z : preserves (UpdateZone user z).
Proof. unfold UpdateZone. preserve. Qed.
Lemma preserves_DeleteZone user zone : preserves (DeleteZone user zone).
Proof. unfold DeleteZone. preserve. Qed.
Lemma preserves_AddLocation user zone l : preserves (AddLocation user zone l).
Proof. unfold AddLocation. preserve. Qed.
Lemma preserves_UpdateLocation user zone l : preserves (UpdateLocation user zone l).
Proof. unfold UpdateLocation. preserve. Qed.
Lemma preserves_DeleteLocation user zone l : preserves (DeleteLocation user zone l).
Proof. unfold DeleteLocation. preserve. Qed.
Lemma preserves_AddRecordSet user zone l r : preserves (AddRecordSet user zone l r).
Proof. unfold AddRecordSet. preserve. Qed.
Lemma preserves_UpdateRecordSet user zone l r : preserves (UpdateRecordSet user zone l r).
Proof. unfold UpdateRecordSet. preserve. Qed.
Lemma preserves_DeleteRecordSet user zone l t : preserves (DeleteRecordSet user zone l t).
Proof. unfold DeleteRecordSet. preserve. Qed.

(** ** A row found by a unique key *)
Definition key_value (wh : list cond) (c : string) : bool :=
  existsb (λ w, match w with Equals c' (VStr _) => bool_decide (c = c') | _ => false end) wh.
(** The conditions give a value to every column of some unique index. *)
Definition keyed (t : table) (wh : list cond) : bool := existsb (forallb (key_value wh)) (unique_indexes t).

Lemma same_value_trans v w w' :
  same_value engine w v = true → same_value engine w' v = true → same_value engine w w' = true.
Proof.
  pose proof (law_same (engine:=engine)) as [_ Hsym Htr]. destruct v, w, w'; simpl; try done.
  - intros H1 H2. eapply Htr; [exact H1|by apply Hsym].
  - rewrite !eqb_true_iff. congruence.
Qed.
Lemma one_row db t wh r r' :
  indexed db → keyed t wh = true → r ∈ db t → r' ∈ db t →
  matches engine wh r = true → matches engine wh r' = true → r = r'.
Proof.
  intros Hi (cols & Hcols & Hk)%existsb_exists Hr Hr' Hm Hm'. apply list_elem_of_In in Hcols.
  apply (Hi t cols); [done..|]. unfold same_key, matches in *. rewrite forallb_forall in *.
  intros c Hc. specialize (Hk c Hc). apply existsb_exists in Hk as (w & Hw & Hcw).
  destruct w as [c' [v| |]|]; try done. apply bool_decide_eq_true in Hcw as <-.
  exact (same_value_trans (VStr v) _ _ (Hm _ Hw) (Hm' _ Hw)).
Qed.

(** The answer of a lookup, or an error of the server: never that nothing is there. *)
Definition answers {E A} (sql : SqlError → E) (r : res E A) (a : A) : Prop :=
  r = Ok a ∨ ∃ e, e ≠ ErrNoRows ∧ e ≠ MySQLError 1062 ∧ r = Err (sql e).

Lemma query_finds {A} cols t wh (scan : list value → res SqlError A) r a s :
  indexed (tables s) → keyed t wh = true → r ∈ tables s t → matches engine wh r = true →
  scan ((λ c, column c r) <$> cols) = Ok a →
  answers id (query_row (Select cols (From t) wh None None) scan s).1 a.
Proof.
  intros Hi Hk Hr Hm Hs. unfold query_row. rewrite run_bind. set (q := Select _ _ _ _ _).
  pose proof (law_QueryRow q s) as Hq. destruct (sql_QueryRow q s) as [[row|e] s']; cbn [fst snd mret M_ret].
  - left. destruct Hq as [_ (r' & Hr' & Hm' & ->)%eval_from]. cbn.
    by rewrite <-(one_row (tables s) t wh r r').
  - right. exists e. destruct Hq as [_ Hq]. split_and!; [|by destruct e|done].
    intros ->. assert (Hin : (λ c, column c r) <$> cols ∈ eval engine (tables s) q).
    { apply eval_from. by exists r. }
    rewrite Hq in Hin. by apply not_elem_of_nil in Hin.
Qed.

(** The ways the program turns the result of a lookup into its own. *)
Definition converts {A} (conv : res SqlError A → res DbError A) : Prop :=
  (∀ a, conv (Ok a) = Ok a) ∧ (∀ r a, conv r = Ok a → r = Ok a)
  ∧ ∀ e, e ≠ ErrNoRows → e ≠ MySQLError 1062 → conv (Err e) = Err (ErrSql e).
Lemma converts_answers {A} (conv : res SqlError A → res DbError A) r a :
  converts conv → answers id r a → answers ErrSql (conv r) a.
Proof.
  intros (H1 & _ & H3) [->|(e & He & He' & ->)]; [left; apply H1|right]. exists e. split_and!; [done..|by apply H3].
Qed.
Lemma converts_sql_err {A} : converts (A:=A) sql_err.
Proof. split_and!; [done|intros [] ?; simpl; congruence|done]. Qed.
Lemma converts_no_rows {A} : converts (A:=A) no_rows_not_found.
Proof. split_and!; [done|intros [|[]] ?; simpl; congruence|by intros []]. Qed.
Lemma converts_parsed {A} : converts (A:=A) parsed.
Proof.
  split_and!; [done|intros [] ?; simpl; congruence|]. intros [|n|] He He'; cbn; [done| |done].
  destruct (n =? 1062) eqn:E; [|done]. apply Z.eqb_eq in E. congruence.
Qed.

Lemma lookup_finds {A} conv cols t wh (scan : list value → res SqlError A) r a s :
  converts conv → indexed (tables s) → keyed t wh = true → r ∈ tables s t → matches engine wh r = true →
  scan ((λ c, column c r) <$> cols) = Ok a →
  answers ErrSql ((conv <$> query_row (Select cols (From t) wh None None) scan) s).1 a.
Proof.
  intros Hc Hi Hk Hr Hm Hs. rewrite run_fmap. cbn [fst]. apply converts_answers; [done|].
  by apply (query_finds cols t wh scan r).
Qed.

(** ** Lookups asked again *)
(** A lookup that succeeded succeeds again, with the same answer, when the tables it
    reads are the same, unless the server fails. *)
Definition again (ts : list table) {A} (m : M S (res DbError A)) : Prop :=
  keeps (tables:=tables) m
  ∧ ∀ s s' a, indexed (tables s) → indexed (tables s') → (∀ t, t ∈ ts → tables s' t = tables s t) →
      (m s).1 = Ok a → answers ErrSql (m s').1 a.

Lemma again_query {A} ts conv cols t wh (scan : list value → res SqlError A) :
  converts conv → keyed t wh = true → t ∈ ts →
  again ts (conv <$> query_row (Select cols (From t) wh None None) scan).
Proof.
  intros Hc Hk Ht. split; [apply keeps_fmap, keeps_query_row|]. intros s s' a Hi Hi' Hts.
  rewrite run_fmap. cbn [fst]. intros Ha. apply Hc in Ha. set (q := Select _ _ _ _ _) in *.
  destruct (query_row_reads q scan s) as [_ Hq].
  rewrite Ha in Hq. destruct Hq as (row & (r & Hr & Hm & ->)%eval_from & Hs).
  apply (lookup_finds conv cols t wh scan r); [done..| |done|done]. by rewrite (Hts t Ht).
Qed.
Lemma again_must {A B} ts (m : M S (res DbError A)) (f : A → M S (res DbError B)) :
  again ts m → (∀ a, again ts (f a)) → again ts (must a ← m; f a).
Proof.
  intros [Hk Hm] Hf. split; [apply keeps_must; [done|]; intros a; apply Hf|].
  intros s s' b Hi Hi' Hts. rewrite !run_bind. destruct (m s).1 as [a|e] eqn:Ea; [|done]. intros Hb.
  destruct (Hm s s' a Hi Hi' Hts Ea) as [->|(e & He & He' & ->)]; [|right; by exists e].
  apply (Hf a) with (m s).2; rewrite ?Hk; done.
Qed.
Lemma again_turn {A} ts to (m : M S (res DbError A)) : again ts m → again ts (turn ErrNotFound to <$> m).
Proof.
  intros [Hk Hm]. split; [by apply keeps_fmap|]. intros s s' a Hi Hi' Hts. rewrite !run_fmap.
  intros Ha%turn_Ok. destruct (Hm s s' a Hi Hi' Hts Ha) as [E|(e & He & He' & E)]; cbn [fst]; rewrite E;
    [by left|right; by exists e].
Qed.
Lemma again_if {A} ts (b : bool) (a a' : res DbError A) :
  again ts (mret (M:=M S) (if b then a else a')).
Proof. split; [apply keeps_ret|]. intros s s' x Hi Hi' Hts Hx. by left. Qed.
Hint Resolve converts_sql_err converts_no_rows converts_parsed : indexes.

Ltac lookups := intros; repeat first
  [apply again_query; [auto with indexes|done|set_solver]|apply again_turn|apply again_if
  |(apply again_must; [|intros ?])].
Lemma again_isZoneOwner user zone : again [TUser; TZone] (isZoneOwner user zone).
Proof. unfold isZoneOwner. lookups. Qed.
Lemma again_owner_of_parent user zone : again [TUser; TZone] (owner_of_parent user zone).
Proof. apply again_turn, again_isZoneOwner. Qed.
Lemma again_db_GetZone user zone : again [TUser; TZone] (db_GetZone user zone).
Proof. apply again_must; [apply again_isZoneOwner|lookups]. Qed.
Lemma again_mono {A} ts ts' (m : M S (res DbError A)) :
  again ts m → (∀ t, t ∈ ts → t ∈ ts') → again ts' m.
Proof. intros [Hk Hm] Hts. split; [done|]. intros s s' a Hi Hi' Ht. apply Hm; auto. Qed.
Lemma again_GetLocation user zone l : again [TUser; TZone; TLocation] (GetLocation user zone l).
Proof.
  unfold GetLocation. apply again_must; [|intros _; apply again_must; [apply again_turn|lookups]];
    (eapply again_mono; [first [apply again_owner_of_parent|apply again_db_GetZone]|set_solver]).
Qed.

(** ** What was added is read back *)
Lemma must_Ok {A B} (m : M S (res DbError A)) (f : A → M S (res DbError B)) s b :
  ((must a ← m; f a) s).1 = Ok b →
  ∃ a, (m s).1 = Ok a ∧ (must a ← m; f a) s = f a (m s).2 ∧ (f a (m s).2).1 = Ok b.
Proof. rewrite run_bind. destruct (m s).1 as [a|e]; [|done]. intros Hb. by exists a. Qed.
Lemma answers_must {A B} (m : M S (res DbError A)) (f : A → M S (res DbError B)) s a b :
  answers ErrSql (m s).1 a → answers ErrSql (f a (m s).2).1 b → answers ErrSql ((must a ← m; f a) s).1 b.
Proof. rewrite run_bind. intros [->|(e & He & He' & ->)] Hf; [done|right; by exists e]. Qed.

(** Adding a row under a new identifier. *)
Definition add_row (t : table) (sets : ObjectId → list (string * value)) : M S (res DbError ObjectId) :=
  id ← NewObjectId; must _ ← execute_parsed (Insert t (sets id)); mret (Ok id).
Lemma add_row_run t sets s id :
  (add_row t sets s).1 = Ok id →
  duplicate engine (Insert t (sets id)) (tables s) = false
  ∧ tables (add_row t sets s).2 = apply engine (Insert t (sets id)) (tables s).
Proof.
  unfold add_row. rewrite run_bind. pose proof (law_NewObjectId (tables:=tables) s) as Ei.
  destruct (NewObjectId s) as [i s1]. cbn [fst snd] in *. intros (n & Hn & E & Hid)%must_Ok.
  rewrite E. cbn [fst snd mret M_ret] in *. injection Hid as ->. rewrite <-Ei.
  apply (execute_run parsed (Insert t (sets id)) s1 (λ e, eq_refl)). fold (execute_parsed (S:=S)).
  change (parsed <$> sql_Exec (Insert t (sets id))) with (execute_parsed (S:=S) (Insert t (sets id))).
  by rewrite Hn.
Qed.
(** The tables after it: the others are as they were. *)
Lemma added_row t sets s id s' :
  let row := assign engine (sets id) ∅ in
  indexed (tables s) → (add_row t sets s).1 = Ok id → tables s' = tables (add_row t sets s).2 →
  indexed (tables s') ∧ (∀ t', t ≠ t' → tables s' t' = tables s t')
  ∧ row ∈ tables s' t.
Proof.
  intros row Hi Hadd E. destruct (add_row_run t sets s id Hadd) as [Hd E']. rewrite E' in E.
  assert (Hi' : indexed (tables s')) by (rewrite E; by apply indexed_insert).
  split_and!; [done|intros t' Ht; rewrite E; by apply set_table_other|].
  rewrite E. cbn [apply]. rewrite set_table_same. apply elem_of_app. right. by apply list_elem_of_singleton.
Qed.

Lemma must_assoc {A B C} (m : M S (res DbError A)) (f : A → M S (res DbError B)) (g : B → M S (res DbError C)) s :
  (must b ← (must a ← m; f a); g b) s = (must a ← m; must b ← f a; g b) s.
Proof. rewrite !run_bind. destruct (m s) as [[a|e] s1]; cbn [fst snd]; by rewrite ?run_bind. Qed.
(** Adding below a parent and reading, both after the same lookups of the parent. *)
Lemma add_then_get {A B} ts (parent : M S (res DbError B)) t sets cols wh (scan : list value → res SqlError A)
    (a : B → ObjectId → A) s id s' :
  again ts parent → t ∉ ts → indexed (tables s) →
  ((must b ← parent; add_row t (sets b)) s).1 = Ok id →
  tables s' = tables ((must b ← parent; add_row t (sets b)) s).2 →
  (∀ b, keyed t (wh b) = true) → (∀ b, matches engine (wh b) (assign engine (sets b id) ∅) = true) →
  (∀ b, scan ((λ c, column c (assign engine (sets b id) ∅)) <$> cols) = Ok (a b id)) →
  ∃ b, answers ErrSql ((must b ← parent; parsed <$> query_row (Select cols (From t) (wh b) None None) scan) s').1
         (a b id).
Proof.
  intros [Hk Hag] Ht Hi (b & Hb & -> & Hadd)%must_Ok E Hkey Hm Hs. exists b.
  destruct (added_row t (sets b) (parent s).2 id s') as (Hi' & Hother & Hin);
    [by rewrite Hk|done..|].
  eapply answers_must; [apply (Hag s s'); [done..| |done]|].
  - intros t' Ht'. rewrite Hother by congruence. by rewrite Hk.
  - apply (lookup_finds parsed cols t (wh b) scan (assign engine (sets b id) ∅));
      rewrite ?Hk; auto with indexes.
Qed.

Definition location_parent (user zone : string) : M S (res DbError Zone) :=
  must _ ← owner_of_parent user zone; turn ErrNotFound ErrInvalid <$> db_GetZone user zone.
Definition record_set_parent (user zone location : string) : M S (res DbError Location) :=
  must _ ← owner_of_parent user zone; turn ErrNotFound ErrInvalid <$> GetLocation user zone location.
Lemma again_location_parent user zone : again [TUser; TZone] (location_parent user zone).
Proof. apply again_must; [apply again_owner_of_parent|intros _; apply again_turn, again_db_GetZone]. Qed.
Lemma again_record_set_parent user zone l : again [TUser; TZone; TLocation] (record_set_parent user zone l).
Proof.
  apply again_must; [|intros _; apply again_turn, again_GetLocation].
  eapply again_mono; [apply again_owner_of_parent|set_solver].
Qed.

Lemma AddLocation_reads_back user zone l s id s' :
  indexed (tables s) → (AddLocation user zone l s).1 = Ok id → tables s' = tables (AddLocation user zone l s).2 →
  answers ErrSql (GetLocation user zone (l_Name l) s').1
    {| l_Id := id; l_Name := l_Name l; l_Enabled := l_Enabled l |}.
Proof.
  intros Hi. unfold AddLocation, GetLocation, canAddLocation, canGetLocation. rewrite <-!must_assoc.
  intros Hadd E.
  destruct (add_then_get [TUser; TZone] (location_parent user zone) TLocation
    (λ z id, [("Id", VStr id); ("Name", VStr (l_Name l)); ("Enabled", VBool (l_Enabled l)); ("Zone_Id", VStr (z_Id z))])
    ["Id"; "Name"; "Enabled"] (λ z, [Equals "Zone_Id" (VStr (z_Id z)); Equals "Name" (VStr (l_Name l))]) scan_location
    (λ _ id, {| l_Id := id; l_Name := l_Name l; l_Enabled := l_Enabled l |}) s id s') as [b Hb];
    try done; [apply again_location_parent|by apply (bool_decide_unpack _)|].
  intros b. change (same engine (z_Id b) (z_Id b) && (same engine (l_Name l) (l_Name l) && true) = true).
  by rewrite !same_refl.
Qed.
Lemma AddRecordSet_reads_back user zone location r s id s' :
  indexed (tables s) → (AddRecordSet user zone location r s).1 = Ok id →
  tables s' = tables (AddRecordSet user zone location r s).2 →
  answers ErrSql (GetRecordSet user zone location (r_Type r) s').1
    {| r_Id := id; r_Type := r_Type r; r_Value := json_normal engine (r_Value r); r_Enabled := r_Enabled r |}.
Proof.
  intros Hi. unfold AddRecordSet, GetRecordSet, canAddRecordSet, canGetRecordSet.
  destruct (rtypeValid (r_Type r)); cbn [negb].
  2:{ by intros ([] & _ & _ & Hadd)%must_Ok. }
  rewrite <-!must_assoc. intros Hadd E.
  destruct (add_then_get [TUser; TZone; TLocation] (record_set_parent user zone location) TRecordSet
    (λ l id, [("Id", VStr id); ("Location_Id", VStr (l_Id l)); ("Type", VStr (r_Type r));
              ("Value", VStr (r_Value r)); ("Enabled", VBool (r_Enabled r))])
    ["Id"; "Type"; "Value"; "Enabled"] (λ l, [Equals "Location_Id" (VStr (l_Id l)); Equals "Type" (VStr (r_Type r))])
    scan_rset (λ _ id, {| r_Id := id; r_Type := r_Type r; r_Value := json_normal engine (r_Value r);
                          r_Enabled := r_Enabled r |}) s id s') as [b Hb];
    try done; [apply again_record_set_parent|by apply (bool_decide_unpack _)|].
  intros b. change (same engine (l_Id b) (l_Id b) && (same engine (r_Type r) (r_Type r) && true) = true).
  by rewrite !same_refl.
Qed.

Lemma AddZone_reads_back user z s id s' :
  indexed (tables s) → (AddZone user z s).1 = Ok id → tables s' = tables (AddZone user z s).2 →
  answers ErrSql (db_GetZone user (z_Name z) s').1
    {| z_Id := id; z_Name := z_Name z; z_Enabled := z_Enabled z; z_Dnssec := z_Dnssec z;
       z_CNameFlattening := z_CNameFlattening z |}.
Proof.
  intros Hi. unfold AddZone. intros Hadd E. apply must_Ok in Hadd as (u & Hu & Es & Hadd).
  pose proof (eq_trans E (f_equal (λ x, tables x.2) Es)) as E0. cbv beta in E0. clear E Es. rewrite run_fmap in Hu. apply turn_Ok in Hu.
  destruct (GetUser_reads (engine:=engine) (tables:=tables) user s) as [_ Hrow].
  destruct (Hrow u Hu) as (urow & [Hin Hmail] & Hcols). injection Hcols as Hid _ _ _.
  assert (E1 : tables ((turn ErrNotFound ErrInvalid <$> GetUser user) s).2 = tables s)
    by (apply keeps_fmap, keeps_GetUser).
  set (s1 := ((turn ErrNotFound ErrInvalid <$> GetUser user) s).2) in *.
  apply must_Ok in Hadd as (owner & _ & Es & Hadd). pose proof (eq_trans E0 (f_equal (λ x, tables x.2) Es)) as E. cbv beta in E. clear E0 Es.
  assert (E2 : tables (getZoneOwner (z_Name z) s1).2 = tables s)
    by (rewrite <-E1; eapply keeps_reads, getZoneOwner_reads).
  set (s2 := (getZoneOwner (z_Name z) s1).2) in *.
  destruct (bool_decide (owner = EmptyObjectId)); [|destruct (bool_decide (owner = u_Id u)); done].
  set (sets := λ id, [("Id", VStr id); ("Name", VStr (z_Name z)); ("CNameFlattening", VBool (z_CNameFlattening z));
       ("Dnssec", VBool (z_Dnssec z)); ("Enabled", VBool (z_Enabled z)); ("User_Id", VStr (u_Id u))]).
  destruct (added_row TZone sets s2 id s') as (Hi' & Hother & Hin'); [by rewrite E2|done..|].
  assert (Hname : matches engine [Equals "Name" (VStr (z_Name z))] (assign engine (sets id) ∅) = true).
  { change (same engine (z_Name z) (z_Name z) && true = true). by rewrite same_refl. }
  unfold db_GetZone, canGetZone, isZoneOwner. rewrite must_assoc.
  eapply (answers_must _ _ _ (u_Id u)).
  { apply (lookup_finds _ _ _ _ _ urow); rewrite ?matches_one; auto with indexes.
    - by rewrite Hother, E2.
    - cbn. by rewrite Hid. }
  rewrite must_assoc. set (q := sql_err <$> query_row _ _). assert (E3 : tables (q s').2 = tables s')
    by (apply keeps_fmap, keeps_query_row).
  eapply (answers_must _ _ _ (u_Id u)).
  { apply (lookup_finds _ _ _ _ _ (assign engine (sets id) ∅)); auto with indexes;
      [exact (eq_ind_r indexed Hi' E3)|exact (eq_ind_r (λ db, _ ∈ db TZone) Hin' E3)]. }
  set (q' := no_rows_not_found <$> query_row _ _). assert (E4 : tables (q' (q s').2).2 = tables s')
    by (rewrite <-E3; apply keeps_fmap, keeps_query_row).
  rewrite bool_decide_eq_true_2 by done. eapply answers_must; [by left|].
  apply (lookup_finds _ _ _ _ _ (assign engine (sets id) ∅)); auto with indexes;
    [exact (eq_ind_r indexed Hi' E4)|exact (eq_ind_r (λ db, _ ∈ db TZone) Hin' E4)].
Qed.
End facts.
#[export] Hint Resolve preserves_AddUser preserves_AddVerification preserves_Verify preserves_DeleteUser
  preserves_db_Clear preserves_AddZone preserves_UpdateZone preserves_DeleteZone preserves_AddLocation
  preserves_UpdateLocation preserves_DeleteLocation preserves_AddRecordSet preserves_UpdateRecordSet
  preserves_DeleteRecordSet : indexes.
