(* ===== verification/Api.v ===== *)
(** * The HTTP API: [internal/api/handlers]

    The handlers of [/zones] and [/auth] over the database of [Database.v]: guards,
    binding of the request, the call, and the response with its status code. gin's
    context and its bindings, the JWT library and the texts of errors are
    parameters; a handler's result [None] is a panic (gin answers it with 500). *)
From S2P Require Import Prelude GoStrings Redis DnsTypes Store Sql Database DatabaseFacts.
Local Open Scope Z_scope.

Module http.
Definition StatusOK : Z := 200.
Definition StatusCreated : Z := 201.
Definition StatusNoContent : Z := 204.
Definition StatusBadRequest : Z := 400.
Definition StatusUnauthorized : Z := 401.
Definition StatusForbidden : Z := 403.
Definition StatusNotFound : Z := 404.
Definition StatusConflict : Z := 409.
Definition StatusInternalServerError : Z := 500.
End http.

(** ** Requests and responses *)
Record IdentityData := { id_Id : ObjectId; id_Email : string }.
(** What a handler reads of [gin.Context]: the identity set by the middleware, and
    the parameters of the path. *)
Record Context := { Identity : option IdentityData; Param : string → string }.

Record ListRequest := { Start : Z; Count : Z; Q : string }.
Record NewZoneRequest := {
  nz_Name : string; nz_Enabled : bool; nz_Dnssec : bool; nz_CNameFlattening : bool }.
Record GetZoneResponse := {
  gz_Name : string; gz_Enabled : bool; gz_Dnssec : bool; gz_CNameFlattening : bool }.
Record UpdateZoneRequest := { uz_Enabled : bool; uz_Dnssec : bool; uz_CNameFlattening : bool }.
Record NewLocationRequest := { nl_Name : string; nl_Enabled : bool }.
Record GetLocationResponse := { gl_Enabled : bool }.
Record UpdateLocationRequest := { ul_Enabled : bool }.
Record NewRecordSetRequest := { nr_Type : string; nr_Value : string; nr_Enabled : bool }.
Record GetRecordSetResponse := { gr_Value : string; gr_Enabled : bool }.
Record UpdateRecordSetRequest := { ur_Value : string; ur_Enabled : bool }.

Record authenticationToken := { at_Code : Z; at_Token : string; at_Expire : string }.

Inductive Body :=
| BMessage (code : Z) (message : string)
| BList (l : list string)
| BZone (z : GetZoneResponse) | BLocation (l : GetLocationResponse) | BRecordSet (r : GetRecordSetResponse)
| BToken (t : authenticationToken)
| BEmpty.  (* a status alone *)
Record HttpResponse := { Code : Z; JSON : Body }.

Definition ErrorResponse (code : Z) (message : string) : HttpResponse :=
  {| Code := code; JSON := BMessage code message |}.
Definition SuccessResponse (code : Z) (message : string) : HttpResponse :=
  {| Code := code; JSON := BMessage code message |}.
Definition StatusFromError (err : DbError) : Z * string :=
  match err with
  | ErrInvalid => (http.StatusForbidden, "invalid request")
  | ErrDuplicateEntry => (http.StatusConflict, "duplicate entry")
  | ErrNotFound => (http.StatusNotFound, "entry not found")
  | ErrUnauthorized => (http.StatusUnauthorized, "authorization failed")
  | _ => (http.StatusInternalServerError, "internal error")
  end.
Definition db_error (err : DbError) : HttpResponse :=
  ErrorResponse (StatusFromError err).1 (StatusFromError err).2.

(** ** The handlers of zones *)
Section zone_handlers.
Context {S : Type} `{!MySQL S, !Entropy S}.
Abbreviation handler := (M S (option HttpResponse)).

Definition respond (r : HttpResponse) : handler := mret (Some r).
Definition extractUser (c : Context) : option string := id_Email <$> Identity c.

(** The guards the handlers start with. *)
Definition with_user (c : Context) (k : string → handler) : handler :=
  match extractUser c with
  | None => mret None
  | Some user =>
    if bool_decide (user = empty_str) then respond (ErrorResponse http.StatusBadRequest "user missing")
    else k user
  end.
Definition with_param (c : Context) (name : string) (k : string → handler) : handler :=
  let v := Param c name in
  if bool_decide (v = empty_str) then respond (ErrorResponse http.StatusBadRequest (name +:+ " missing"))
  else k v.
(** [ShouldBindJSON] and [ShouldBindQuery]; the error is its text. *)
Definition with_bound {R} (bound : res string R) (k : R → handler) : handler :=
  match bound with
  | Err e => respond (ErrorResponse http.StatusBadRequest e)
  | Ok r => k r
  end.
(** A call of the database, its error answered by [StatusFromError]. *)
Definition with_result {A} (m : M S (res DbError A)) (k : A → HttpResponse) : handler :=
  r ← m; mret (Some match r with Err e => db_error e | Ok a => k a end).
Definition created {A} (_ : A) : HttpResponse := SuccessResponse http.StatusCreated "successful".
Definition no_content {A} (_ : A) : HttpResponse := SuccessResponse http.StatusNoContent "successful".
Definition ok_json (b : Body) : HttpResponse := {| Code := http.StatusOK; JSON := b |}.

Definition getZones (c : Context) (bound : res string ListRequest) : handler :=
  with_user c (λ user, with_bound bound (λ req,
  with_result (db_GetZones user (Start req) (Count req) (Q req)) (λ zones, ok_json (BList zones)))).
Definition addZone (c : Context) (bound : res string NewZoneRequest) : handler :=
  with_user c (λ user, with_bound bound (λ z,
  let model := {| z_Id := EmptyObjectId; z_Name := nz_Name z; z_Enabled := nz_Enabled z;
                  z_Dnssec := nz_Dnssec z; z_CNameFlattening := nz_CNameFlattening z |} in
  with_result (AddZone user model) created)).
Definition getZone (c : Context) : handler :=
  with_user c (λ user, with_param c "zone" (λ zone,
  with_result (db_GetZone user zone) (λ z, ok_json (BZone
    {| gz_Name := z_Name z; gz_Enabled := z_Enabled z; gz_Dnssec := z_Dnssec z;
       gz_CNameFlattening := z_CNameFlattening z |})))).
Definition updateZone (c : Context) (bound : res string UpdateZoneRequest) : handler :=
  with_user c (λ user, with_param c "zone" (λ zone, with_bound bound (λ req,
  let z := {| z_Id := EmptyObjectId; z_Name := zone; z_Enabled := uz_Enabled req;
              z_Dnssec := uz_Dnssec req; z_CNameFlattening := uz_CNameFlattening req |} in
  with_result (UpdateZone user z) no_content))).
Definition deleteZone (c : Context) : handler :=
  with_user c (λ user, with_param c "zone" (λ zone, with_result (DeleteZone user zone) no_content)).

Definition getLocations (c : Context) (bound : res string ListRequest) : handler :=
  with_user c (λ user, with_param c "zone" (λ zone, with_bound bound (λ req,
  with_result (GetLocations user zone (Start req) (Count req) (Q req)) (λ l, ok_json (BList l))))).
Definition addLocation (c : Context) (bound : res string NewLocationRequest) : handler :=
  with_user c (λ user, with_param c "zone" (λ zone, with_bound bound (λ req,
  let model := {| l_Id := EmptyObjectId; l_Name := nl_Name req; l_Enabled := nl_Enabled req |} in
  with_result (AddLocation user zone model) created))).
Definition getLocation (c : Context) : handler :=
  with_user c (λ user, with_param c "zone" (λ zone, with_param c "location" (λ location,
  with_result (GetLocation user zone location) (λ l, ok_json (BLocation {| gl_Enabled := l_Enabled l |}))))).
Definition updateLocation (c : Context) (bound : res string UpdateLocationRequest) : handler :=
  with_user c (λ user, with_param c "zone" (λ zone, with_param c "location" (λ location,
  with_bound bound (λ req,
  let model := {| l_Id := EmptyObjectId; l_Name := location; l_Enabled := ul_Enabled req |} in
  with_result (UpdateLocation user zone model) no_content)))).
Definition deleteLocation (c : Context) : handler :=
  with_user c (λ user, with_param c "zone" (λ zone, with_param c "location" (λ location,
  with_result (DeleteLocation user zone location) no_content))).

Definition getRecordSets (c : Context) : handler :=
  with_user c (λ user, with_param c "zone" (λ zone, with_param c "location" (λ location,
  with_result (GetRecordSets user zone location) (λ l, ok_json (BList l))))).
Definition addRecordSet (c : Context) (bound : res string NewRecordSetRequest) : handler :=
  with_user c (λ user, with_param c "zone" (λ zone, with_param c "location" (λ location,
  with_bound bound (λ req,
  let model := {| r_Id := EmptyObjectId; r_Type := nr_Type req; r_Value := nr_Value req;
                  r_Enabled := nr_Enabled req |} in
  with_result (AddRecordSet user zone location model) created)))).
Definition getRecordSet (c : Context) : handler :=
  with_user c (λ user, with_param c "zone" (λ zone, with_param c "location" (λ location,
  with_param c "rtype" (λ rtype,
  with_result (GetRecordSet user zone location rtype) (λ r, ok_json (BRecordSet
    {| gr_Value := r_Value r; gr_Enabled := r_Enabled r |})))))).
Definition updateRecordSet (c : Context) (bound : res string UpdateRecordSetRequest) : handler :=
  with_user c (λ user, with_param c "zone" (λ zone, with_param c "location" (λ location,
  with_param c "rtype" (λ rtype, with_bound bound (λ req,
  let model := {| r_Id := EmptyObjectId; r_Type := rtype; r_Value := ur_Value req;
                  r_Enabled := ur_Enabled req |} in
  with_result (UpdateRecordSet user zone location model) no_content))))).
Definition deleteRecordSet (c : Context) : handler :=
  with_user c (λ user, with_param c "zone" (λ zone, with_param c "location" (λ location,
  with_param c "rtype" (λ rtype,
  with_result (DeleteRecordSet user zone location rtype) no_content)))).

(** [RegisterHandlers]: the routes below [/zones] with what their handlers bind. *)
Inductive route :=
| GET_zones (req : res string ListRequest) | POST_zones (req : res string NewZoneRequest)
| GET_zone | PUT_zone (req : res string UpdateZoneRequest) | DELETE_zone
| GET_locations (req : res string ListRequest) | POST_locations (req : res string NewLocationRequest)
| GET_location | PUT_location (req : res string UpdateLocationRequest) | DELETE_location
| GET_rrsets | POST_rrsets (req : res string NewRecordSetRequest)
| GET_rrset | PUT_rrset (req : res string UpdateRecordSetRequest) | DELETE_rrset.
Definition serve_zones (c : Context) (r : route) : handler :=
  match r with
  | GET_zones req => getZones c req | POST_zones req => addZone c req
  | GET_zone => getZone c | PUT_zone req => updateZone c req | DELETE_zone => deleteZone c
  | GET_locations req => getLocations c req | POST_locations req => addLocation c req
  | GET_location => getLocation c | PUT_location req => updateLocation c req
  | DELETE_location => deleteLocation c
  | GET_rrsets => getRecordSets c | POST_rrsets req => addRecordSet c req
  | GET_rrset => getRecordSet c | PUT_rrset req => updateRecordSet c req
  | DELETE_rrset => deleteRecordSet c
  end.
End zone_handlers.

(** ** The handlers of authentication *)
Inductive AuthError := ErrMissingLoginValues | ErrFailedAuthentication.
Record loginCredentials := { lc_Email : string; lc_Password : string }.
Record NewUser := { nu_Email : string; nu_Password : string }.

Definition IdentityKey : string := "identity".
Definition emailKey : string := "email".
(** [PayloadFunc] and [IdentityHandler]: the claims of a token. *)
Definition PayloadFunc (data : option IdentityData) : gmap string string :=
  match data with
  | Some v => <[emailKey := id_Email v]> (<[IdentityKey := id_Id v]> ∅)
  | None => ∅
  end.
(** [None] is the panic of an assertion on a missing claim. *)
Definition IdentityHandler (claims : gmap string string) : option IdentityData :=
  i ← claims !! IdentityKey; e ← claims !! emailKey; Some {| id_Id := i; id_Email := e |}.

Section auth_handlers.
Context {S R : Type} `{!MySQL S, !Entropy S}.
Variable Error_string : DbError → string.
Variable redis_error_string : RedisError → string.
(** [redis.XAdd] *)
Variable XAdd : string → StreamItem → M R (res RedisError string).
Abbreviation handler := (M (S * R) (option HttpResponse)).

Definition Authenticator (bound : res string loginCredentials) : M S (res AuthError IdentityData) :=
  match bound with
  | Err _ => mret (Err ErrMissingLoginValues)
  | Ok loginValues =>
    r ← GetUser (lc_Email loginValues);
    mret match r with
         | Err _ => Err ErrFailedAuthentication
         | Ok user =>
           if negb (bool_decide (u_Status user = UserStatusActive)) then Err ErrFailedAuthentication
           else if negb (CheckPasswordHash (lc_Password loginValues) (u_Password user))
           then Err ErrFailedAuthentication
           else Ok {| id_Id := u_Id user; id_Email := u_Email user |}
         end
  end.

Definition internal_error (msg : string) : option (option HttpResponse) :=
  Some (Some (ErrorResponse http.StatusInternalServerError msg)).

(** The outer [None]: the random code was not found within [fuel] rounds. *)
Definition signup (fuel : nat) (bound : res string NewUser) : M (S * R) (option (option HttpResponse)) :=
  match bound with
  | Err _ => mret (Some (Some (ErrorResponse http.StatusBadRequest "invalid input format")))
  | Ok u =>
    let model := {| u_Id := EmptyObjectId; u_Email := nu_Email u; u_Password := nu_Password u;
                    u_Status := UserStatusPending |} in
    r ← on_fst (AddUser model);
    match (r : res DbError ObjectId) with
    | Err e => mret (Some (Some (db_error e)))
    | Ok _ =>
      r ← on_fst (AddVerification fuel (nu_Email u) VerificationTypeSignup);
      match (r : option (res DbError string)) with
      | None => mret None
      | Some (Err e) => mret (internal_error (Error_string e))
      | Some (Ok code) =>
        r ← on_snd (XAdd "email_verification" {| ID := empty_str; Key := nu_Email u; Value := code |});
        mret match (r : res RedisError string) with
             | Err e => internal_error (redis_error_string e)
             | Ok _ => Some (Some (SuccessResponse http.StatusCreated "successful"))
             end
      end
    end
  end.
Definition verify (bound : res string string) : handler :=
  match bound with
  | Err _ => mret (Some (ErrorResponse http.StatusBadRequest "invalid code"))
  | Ok code =>
    r ← on_fst (Verify code);
    mret (Some match r with
               | Err e => ErrorResponse http.StatusInternalServerError (Error_string e)
               | Ok _ => SuccessResponse http.StatusNoContent "successful"
               end)
  end.
End auth_handlers.

(** ** Theorems *)
Lemma IdentityHandler_PayloadFunc v : IdentityHandler (PayloadFunc (Some v)) = Some v.
Proof. by destruct v. Qed.

Section facts.
Context {S : Type} `{!MySQL S, !Entropy S} {engine : Engine} {tables : S → DB}.
Context `{!MySQLLaws S engine tables, !EntropyLaws S tables}.

(** The routes of one zone. *)
Definition of_zone (r : route) : bool :=
  match r with GET_zones _ | POST_zones _ => false | _ => true end.
Definition failed (o : option HttpResponse) : Prop :=
  ∃ resp, o = Some resp ∧ http.StatusBadRequest ≤ Code resp.
(** A handler that only answers with an error and changes nothing. *)
Definition rejects (h : M S (option HttpResponse)) (s : S) : Prop :=
  tables (h s).2 = tables s ∧ failed (h s).1.

Lemma rejects_error code msg s :
  http.StatusBadRequest ≤ code → rejects (respond (ErrorResponse code msg)) s.
Proof. intros Hc. split; [done|]. by eexists. Qed.
Lemma rejects_param c name k s :
  rejects (k (Param c name)) s → rejects (with_param c name k) s.
Proof. intros Hk. unfold with_param. case_bool_decide; [by apply rejects_error|done]. Qed.
Lemma rejects_bound {R} (bound : res string R) k s :
  (∀ r, rejects (k r) s) → rejects (with_bound bound k) s.
Proof. intros Hk. destruct bound; [apply Hk|by apply rejects_error]. Qed.
Lemma rejects_user c id k s :
  Identity c = Some id → rejects (k (id_Email id)) s → rejects (with_user c k) s.
Proof.
  intros Hi Hk. unfold with_user, extractUser. rewrite Hi. simpl.
  case_bool_decide; [by apply rejects_error|done].
Qed.
Lemma rejects_result {A} user zone (m : M S (res DbError A)) k s :
  refuses (engine:=engine) (tables:=tables) user zone m → ¬ owns (engine:=engine) (tables s) user zone →
  rejects (with_result m k) s.
Proof.
  intros Hm Hs. unfold with_result, rejects. rewrite run_bind. destruct (Hm s Hs) as [E Hr].
  destruct (m s) as [[a|e] s1]; [done|]. split; [done|]. eexists. split; [done|].
  unfold http.StatusBadRequest. by destruct e.
Qed.

Lemma serve_zones_rejects c id r s :
  Identity c = Some id → of_zone r = true →
  ¬ owns (engine:=engine) (tables s) (id_Email id) (Param c "zone") → rejects (serve_zones c r) s.
Proof.
  intros Hi Hr Hs. destruct r; try done; eapply rejects_user; try exact Hi; repeat apply rejects_param;
    try (apply rejects_bound; intros); repeat apply rejects_param;
    eapply rejects_result; try exact Hs; auto with refuses.
Qed.

(** Requests that only ask. *)
Definition asks (r : route) : bool :=
  match r with
  | GET_zones _ | GET_zone | GET_locations _ | GET_location | GET_rrsets | GET_rrset => true
  | _ => false
  end.
Lemma keeps_result {A} (m : M S (res DbError A)) k :
  keeps (tables:=tables) m → keeps (tables:=tables) (with_result m k).
Proof. intros Hm. apply keeps_bind; [done|]. intros a. apply keeps_ret. Qed.
Lemma serve_zones_asks c r : asks r = true → keeps (tables:=tables) (serve_zones c r).
Proof.
  intros Hr. destruct r; try done; cbn [serve_zones];
    unfold getZones, getZone, getLocations, getLocation, getRecordSets, getRecordSet,
      with_user, with_param, with_bound;
    repeat case_match; try (by apply keeps_ret); apply keeps_result; eauto with keeps.
Qed.

(** The API protects zones: whoever is signed in, a request below a zone that the
    user does not own is answered with an error status and changes no table. *)
Theorem serve_zones_protects c id r s :
  Identity c = Some id → of_zone r = true →
  ¬ owns (engine:=engine) (tables s) (id_Email id) (Param c "zone") →
  tables (serve_zones c r s).2 = tables s
  ∧ ∃ resp, (serve_zones c r s).1 = Some resp ∧ http.StatusBadRequest ≤ Code resp.
Proof. apply serve_zones_rejects. Qed.

(** Signing in. *)
Definition login (email password : string) : M S (res AuthError IdentityData) :=
  Authenticator (Ok {| lc_Email := email; lc_Password := password |}).

Lemma login_run i e h st p s :
  sole_user (engine:=engine) (tables s) i e h st →
  (is_ok (login e p s).1 = true → st = UserStatusActive ∧ CheckPasswordHash p h = true)
  ∧ (st = UserStatusActive → CheckPasswordHash p h = true → is_ok (GetUser e s).1 = true →
     (login e p s).1 = Ok {| id_Id := i; id_Email := e |}).
Proof.
  intros Hs. unfold login, Authenticator. rewrite !run_bind. cbn [lc_Email lc_Password].
  pose proof (GetUser_sole (engine:=engine) (tables:=tables) i e h st s) as Hg.
  destruct (GetUser e s) as [[u|er] s1]; cbn [fst snd] in *; [|done].
  rewrite (Hg u Hs eq_refl). simpl. split.
  - case_bool_decide; [|done]. by destruct (CheckPasswordHash p h).
  - intros -> -> _. by rewrite bool_decide_eq_true_2.
Qed.

(** C13. Nobody signs in before the address is verified: after a user is added as
    pending no password is accepted, and after the code made for the user is
    verified exactly the passwords that fit the stored hash are, among them the
    one the user was added with, unless the database cannot be read. *)
Theorem signup_verify_login fuel u id code s :
  u_Status u = UserStatusPending →
  (AddUser u s).1 = Ok id →
  let s1 := (AddUser u s).2 in
  (AddVerification fuel (u_Email u) VerificationTypeSignup s1).1 = Some (Ok code) →
  let s2 := (AddVerification fuel (u_Email u) VerificationTypeSignup s1).2 in
  (Verify code s2).1 = Ok () →
  let s3 := (Verify code s2).2 in
  (∀ p, is_ok (login (u_Email u) p s1).1 = false ∧ is_ok (login (u_Email u) p s2).1 = false)
  ∧ (is_ok (GetUser (u_Email u) s3).1 = true →
     (login (u_Email u) (u_Password u) s3).1 = Ok {| id_Id := id; id_Email := u_Email u |})
  ∧ ∃ h, CheckPasswordHash (u_Password u) h = true
         ∧ ∀ p, is_ok (login (u_Email u) p s3).1 = true → CheckPasswordHash p h = true.
Proof.
  intros Hst Hadd s1 Hcode s2 Hver s3.
  destruct (AddUser_run (engine:=engine) (tables:=tables) u s id Hadd) as (h & Hh & Hu1).
  fold s1 in Hu1. rewrite Hst in Hu1.
  destruct (AddVerification_run (engine:=engine) (tables:=tables) fuel id (u_Email u) h _ _ s1 code Hu1 Hcode)
    as [Hu2 Hc2]. fold s2 in Hu2, Hc2.
  pose proof (Verify_run (engine:=engine) (tables:=tables) id (u_Email u) h _ code s2 Hu2 Hc2 Hver) as Hu3.
  fold s3 in Hu3.
  assert (Hpending : ∀ p s', sole_user (engine:=engine) (tables s') id (u_Email u) h UserStatusPending →
            is_ok (login (u_Email u) p s').1 = false).
  { intros p s' Hs'. destruct (login_run id (u_Email u) h _ p s' Hs') as [Hl _].
    destruct (is_ok _); [|done]. by destruct (Hl eq_refl). }
  split_and!; [by split; apply Hpending|by apply (login_run id (u_Email u) h UserStatusActive)|].
  exists h. split; [done|]. intros p. apply (login_run id (u_Email u) h UserStatusActive p s3 Hu3).
Qed.
End facts.
