(* ===== verification/ApiServer.v ===== *)
(** * The API server: [internal/api/server] and [cmd/api]

    The routes of the server over the handlers of [Api.v]: [ServeHTTP] finds the
    route of a request, checks its token where the group uses the middleware, runs
    the handler and answers a panic with 500. gin (the choice of a route, the
    bindings) is the class [Gin]; the JWT library is the class [Jwt], which calls
    the functions it is configured with in the order it documents: the middleware
    [IdentityHandler], the login [Authenticator], [PayloadFunc], [LoginResponse],
    and [Unauthorized] wherever it fails. *)
From S2P Require Import Prelude GoStrings Redis DnsTypes Store Sql Database DatabaseFacts DatabaseIndex Api Config.
Local Open Scope Z_scope.

(** ** gin and the JWT library *)
Class Gin (Rq : Type) := {
  Method : Rq → string;
  (** The first of the registered methods and paths that a request fits, with the
      parameters of its path. *)
  find_route : list (string * string) → Rq → option (nat * (string → string));
  (** Not found, or a redirection to the path with or without its last slash. *)
  no_route : Rq → HttpResponse;
  bind_ListRequest : Rq → res string ListRequest;
  bind_NewZone : Rq → res string NewZoneRequest;
  bind_UpdateZone : Rq → res string UpdateZoneRequest;
  bind_NewLocation : Rq → res string NewLocationRequest;
  bind_UpdateLocation : Rq → res string UpdateLocationRequest;
  bind_NewRecordSet : Rq → res string NewRecordSetRequest;
  bind_UpdateRecordSet : Rq → res string UpdateRecordSetRequest;
  bind_NewUser : Rq → res string NewUser;
  bind_verification : Rq → res string string;
  bind_loginCredentials : Rq → res string loginCredentials;
}.
(** A request only fits a route of its own method. *)
Class GinLaws (Rq : Type) `{!Gin Rq} : Prop := {
  law_find_route routes rq i ps :
    find_route routes rq = Some (i, ps) → ∃ path, routes !! i = Some (Method rq, path);
}.

(** Claims are those with string values. *)
Class Jwt (Rq : Type) := {
  (** The claims of the token a request brings, or the status and message it is
      rejected with. *)
  check_token : Rq → res (Z * string) (gmap string string);
  (** A token for claims, made at the time of a request, with its expiry. *)
  new_token : gmap string string → Rq → res string (string * string);
  renew_token : Rq → res string (string * string);
  auth_message : AuthError → string;
  (** The request brings this token before it expires. *)
  brings : Rq → string → Prop;
}.
Class JwtLaws (Rq : Type) `{!Jwt Rq} : Prop := {
  law_rejected rq code msg : check_token rq = Err (code, msg) → http.StatusBadRequest ≤ code;
  law_new_token claims rq token expire rq' :
    new_token claims rq = Ok (token, expire) → brings rq' token →
    ∃ claims', check_token rq' = Ok claims' ∧ claims ⊆ claims';
}.

(** ** Routes *)
Section routes.
Context {Rq : Type} `{!Gin Rq}.

Inductive endpoint :=
| ESignup | EVerify | ELogin | ELogout | ERefresh  (* the last behind the middleware *)
| EZones (r : Rq → route).                         (* all behind the middleware *)
Abbreviation registered := (string * string * endpoint)%type.

Definition auth_RegisterHandlers : list registered := [
  ("POST", "/signup", ESignup);
  ("POST", "/verify", EVerify);
  ("POST", "/login", ELogin);
  ("POST", "/logout", ELogout);
  ("GET", "/refresh_token", ERefresh)].
Definition zone_RegisterHandlers : list registered := [
  ("GET", empty_str, EZones (λ rq, GET_zones (bind_ListRequest rq)));
  ("POST", empty_str, EZones (λ rq, POST_zones (bind_NewZone rq)));
  ("GET", "/:zone", EZones (λ _, GET_zone));
  ("PUT", "/:zone", EZones (λ rq, PUT_zone (bind_UpdateZone rq)));
  ("DELETE", "/:zone", EZones (λ _, DELETE_zone));
  ("GET", "/:zone/locations", EZones (λ rq, GET_locations (bind_ListRequest rq)));
  ("POST", "/:zone/locations", EZones (λ rq, POST_locations (bind_NewLocation rq)));
  ("GET", "/:zone/locations/:location", EZones (λ _, GET_location));
  ("PUT", "/:zone/locations/:location", EZones (λ rq, PUT_location (bind_UpdateLocation rq)));
  ("DELETE", "/:zone/locations/:location", EZones (λ _, DELETE_location));
  ("GET", "/:zone/locations/:location/rrsets", EZones (λ _, GET_rrsets));
  ("POST", "/:zone/locations/:location/rrsets", EZones (λ rq, POST_rrsets (bind_NewRecordSet rq)));
  ("GET", "/:zone/locations/:location/rrsets/:rtype", EZones (λ _, GET_rrset));
  ("PUT", "/:zone/locations/:location/rrsets/:rtype", EZones (λ rq, PUT_rrset (bind_UpdateRecordSet rq)));
  ("DELETE", "/:zone/locations/:location/rrsets/:rtype", EZones (λ _, DELETE_rrset))].
Definition Group (prefix : string) (routes : list registered) : list registered :=
  (λ '(m, path, e), (m, prefix +:+ path, e)) <$> routes.
Definition router : list registered :=
  Group "/auth" auth_RegisterHandlers ++ Group "/zones" zone_RegisterHandlers.
(** The endpoint of a request and the parameters of its path. *)
Definition route_of (rq : Rq) : option (endpoint * (string → string)) :=
  '(i, ps) ← find_route (fst <$> router) rq; '(_, e) ← router !! i; Some (e, ps).
End routes.
Arguments endpoint : clear implicits.

(** ** Serving *)
Definition LoginResponse (token expire : string) : HttpResponse := {|
  Code := http.StatusOK;
  JSON := BToken {| at_Code := http.StatusOK; at_Token := token; at_Expire := expire |} |}.
Definition Unauthorized (code : Z) (message : string) : HttpResponse := ErrorResponse code message.
(** gin's recovery from a panic. *)
Definition recovered (o : option HttpResponse) : HttpResponse :=
  default {| Code := http.StatusInternalServerError; JSON := BEmpty |} o.

Section serve.
Context {Rq S R : Type} `{!Gin Rq, !Jwt Rq, !MySQL S, !Entropy S}.
Variable Error_string : DbError → string.
Variable redis_error_string : RedisError → string.
Variable XAdd : string → StreamItem → M R (res RedisError string).
(** [None] is a panic. *)
Abbreviation handler := (M (S * R) (option HttpResponse)).

Definition MiddlewareFunc (rq : Rq) (next : IdentityData → handler) : handler :=
  match check_token rq with
  | Err (code, message) => mret (Some (Unauthorized code message))
  | Ok claims => match IdentityHandler claims with Some id => next id | None => mret None end
  end.
Definition LoginHandler (rq : Rq) : handler :=
  data ← on_fst (Authenticator (bind_loginCredentials rq));
  mret (Some match (data : res AuthError IdentityData) with
  | Err e => Unauthorized http.StatusUnauthorized (auth_message e)
  | Ok v =>
    match new_token (PayloadFunc (Some v)) rq with
    | Err message => Unauthorized http.StatusUnauthorized message
    | Ok (token, expire) => LoginResponse token expire
    end
  end).
Definition LogoutHandler : handler := mret (Some (SuccessResponse http.StatusOK "logout successful")).
Definition RefreshHandler (rq : Rq) : handler :=
  mret (Some match renew_token rq with
  | Err message => Unauthorized http.StatusUnauthorized message
  | Ok (token, expire) => LoginResponse token expire
  end).

(** The outer [None] is that of [signup]: no random code within [fuel] rounds. *)
Definition serve_endpoint (fuel : nat) (rq : Rq) (e : endpoint Rq) (ps : string → string)
  : M (S * R) (option (option HttpResponse)) :=
  match e with
  | ESignup => signup Error_string redis_error_string XAdd fuel (bind_NewUser rq)
  | EVerify => Some <$> verify Error_string (bind_verification rq)
  | ELogin => Some <$> LoginHandler rq
  | ELogout => Some <$> LogoutHandler
  | ERefresh => Some <$> MiddlewareFunc rq (λ _, RefreshHandler rq)
  | EZones r =>
    Some <$> MiddlewareFunc rq (λ id, on_fst (serve_zones {| Identity := Some id; Param := ps |} (r rq)))
  end.
Definition ServeHTTP (fuel : nat) (rq : Rq) : M (S * R) (option HttpResponse) :=
  match route_of rq with
  | None => mret (Some (no_route rq))
  | Some (e, ps) => o ← serve_endpoint fuel rq e ps; mret (recovered <$> o)
  end.
End serve.

(** ** [NewServer] and [cmd/api] *)
Record HttpServer := {
  hs_Addr : string; hs_ReadTimeout : Z; hs_WriteTimeout : Z; hs_MaxHeaderBytes : Z }.
Definition api_NewServer (config : ApiServerConfig) : HttpServer := {|
  hs_Addr := BindAddress config;
  hs_ReadTimeout := Seconds (as_ReadTimeout config);
  hs_WriteTimeout := Seconds (as_WriteTimeout config);
  hs_MaxHeaderBytes := Z.shiftl 1 20 |}.
(** [main] up to [ListenAndServe]; [None] is its panic. *)
Definition api_main (Open : string → res string string) (Decode : string → ApiConfig → ApiConfig * option string)
    (Build : LoggerConfig → option string) (Connect : string → option string) (configFile : string)
    : option (Pool * HttpServer) :=
  let '(err, config) := api_LoadConfig Open Decode configFile apiDefaultConfig in
  match err, Build (eventLoggerConfig empty_str), Connect (DBConnectionString config) with
  | None, None, None => Some (NewRedis (ac_RedisConfig config), api_NewServer (ac_ServerConfig config))
  | _, _, _ => None
  end.

(** ** Theorems *)
Section facts.
Context {Rq S R : Type} `{!Gin Rq, !GinLaws Rq, !Jwt Rq, !JwtLaws Rq, !MySQL S, !Entropy S}.
Context {engine : Engine} {tables : S → DB} `{!MySQLLaws S engine tables, !EntropyLaws S tables}.
Variable Error_string : DbError → string.
Variable redis_error_string : RedisError → string.
Variable XAdd : string → StreamItem → M R (res RedisError string).
Abbreviation serves := (ServeHTTP (S:=S) Error_string redis_error_string XAdd).

(** The user that the token of a request names. *)
Definition signed_in (rq : Rq) (id : IdentityData) : Prop :=
  ∃ claims, check_token rq = Ok claims ∧ IdentityHandler claims = Some id.
(** Whoever is signed in may list and create zones; the routes of a zone are its
    owner's. *)
Definition may_use (db : DB) (rq : Rq) (r : Rq → route) (ps : string → string) : Prop :=
  ∃ id, signed_in rq id ∧ (of_zone (r rq) = true → owns (engine:=engine) db (id_Email id) (ps "zone")).

Lemma on_fst_run {A} (m : M S A) (s : S * R) : on_fst m s = ((m s.1).1, ((m s.1).2, s.2)).
Proof. destruct s as [a b]. unfold on_fst. simpl. by destruct (m a). Qed.

Lemma ServeHTTP_zones fuel rq r ps (s : S * R) :
  route_of rq = Some (EZones r, ps) →
  serves fuel rq s =
  match check_token rq with
  | Err (code, message) => (Some (Unauthorized code message), s)
  | Ok claims =>
    match IdentityHandler claims with
    | None => (Some (recovered None), s)
    | Some id =>
      let x := serve_zones {| Identity := Some id; Param := ps |} (r rq) s.1 in
      (Some (recovered x.1), (x.2, s.2))
    end
  end.
Proof.
  intros Hr. unfold ServeHTTP. rewrite Hr. cbn [serve_endpoint]. rewrite run_bind, run_fmap.
  unfold MiddlewareFunc. destruct (check_token rq) as [claims|[code msg]]; [|done].
  destruct (IdentityHandler claims) as [id|]; [|done]. by rewrite on_fst_run.
Qed.

Lemma ServeHTTP_refused fuel rq r ps (s : S * R) :
  route_of rq = Some (EZones r, ps) → ¬ may_use (tables s.1) rq r ps →
  tables (serves fuel rq s).2.1 = tables s.1
  ∧ (serves fuel rq s).2.2 = s.2
  ∧ ∃ resp, (serves fuel rq s).1 = Some resp ∧ http.StatusBadRequest ≤ Code resp.
Proof.
  intros Hr Hn. rewrite (ServeHTTP_zones fuel rq r ps s Hr).
  destruct (check_token rq) as [claims|[code msg]] eqn:Ht.
  2:{ split_and!; [done..|]. eexists. split; [done|]. by apply (law_rejected rq code msg). }
  destruct (IdentityHandler claims) as [id|] eqn:Hid.
  2:{ split_and!; [done..|]. by eexists. }
  assert (Hs : signed_in rq id) by by exists claims.
  assert (Hz : of_zone (r rq) = true ∧ ¬ owns (engine:=engine) (tables s.1) (id_Email id) (ps "zone")).
  { destruct (of_zone (r rq)) eqn:Hz; [split; [done|]|]; [intros Ho|];
      (destruct Hn; exists id; split; [done|]; congruence || done). }
  destruct Hz as [Hz Ho].
  destruct (serve_zones_rejects (engine:=engine) (tables:=tables) {| Identity := Some id; Param := ps |} id (r rq) s.1
    eq_refl Hz Ho) as (E & resp & Er & Hc).
  cbv zeta. cbn [fst snd]. split_and!; [done..|]. exists resp. by rewrite Er.
Qed.

(** Signing in reads the users. *)
Lemma keeps_Authenticator bound : keeps (tables:=tables) (Authenticator bound).
Proof.
  unfold Authenticator. destruct bound as [v|e]; [|by apply keeps_ret].
  apply keeps_bind; [eauto with keeps|]. intros a. apply keeps_ret.
Qed.
Lemma LoginHandler_run rq (s : S * R) :
  LoginHandler rq s =
  (Some match (Authenticator (bind_loginCredentials rq) s.1).1 with
   | Err e => Unauthorized http.StatusUnauthorized (auth_message e)
   | Ok v => match new_token (PayloadFunc (Some v)) rq with
             | Err message => Unauthorized http.StatusUnauthorized message
             | Ok (token, expire) => LoginResponse token expire
             end
   end, ((Authenticator (bind_loginCredentials rq) s.1).2, s.2)).
Proof. unfold LoginHandler. by rewrite run_bind, on_fst_run. Qed.

(** The registered routes of one method. *)
Lemma route_of_method rq e ps :
  route_of rq = Some (e, ps) → ∃ path, (Method rq, path, e) ∈ router.
Proof.
  unfold route_of. intros Hr. apply bind_Some in Hr as ([i ps'] & Hf & Hr).
  apply bind_Some in Hr as ([mp e'] & Hl & Hr). injection Hr as <- <-.
  destruct (law_find_route _ _ _ _ Hf) as (path & Hp). rewrite list_lookup_fmap, Hl in Hp.
  injection Hp as ->. exists path. by eapply list_elem_of_lookup_2.
Qed.
Lemma router_GET :
  Forall (λ '(m, _, e), m = "GET" → e = ERefresh ∨ ∃ r, e = EZones r ∧ ∀ rq, asks (r rq) = true)
    (router (Rq:=Rq)).
Proof.
  unfold router, Group. cbn [fmap list_fmap auth_RegisterHandlers zone_RegisterHandlers app].
  repeat apply Forall_cons_2; try (by apply Forall_nil_2); intros Hm; try discriminate Hm;
    first [by left|right; by eexists].
Qed.
Lemma route_of_GET rq e ps :
  route_of rq = Some (e, ps) → Method rq = "GET" →
  e = ERefresh ∨ ∃ r, e = EZones r ∧ ∀ rq, asks (r rq) = true.
Proof.
  intros (path & Hin)%route_of_method Hm. pose proof router_GET as Hall.
  rewrite Forall_forall in Hall. exact (Hall _ Hin Hm).
Qed.

(** C4. The server guards the tables: only three kinds of request change them, none of
    them a GET: signing up, verifying a code, and a request below [/zones] with a
    valid token, which for a zone, its locations and its record sets names the
    owner of the zone. Any other request below [/zones] is answered with an error
    status and changes nothing at all. *)
Theorem api_guards_tables fuel rq (s : S * R) :
  (tables (serves fuel rq s).2.1 ≠ tables s.1 →
     Method rq ≠ "GET"
     ∧ ∃ e ps, route_of rq = Some (e, ps)
       ∧ match e with
         | ESignup | EVerify => True
         | EZones r => may_use (tables s.1) rq r ps
         | _ => False
         end)
  ∧ (∀ r ps, route_of rq = Some (EZones r, ps) → ¬ may_use (tables s.1) rq r ps →
       tables (serves fuel rq s).2.1 = tables s.1 ∧ (serves fuel rq s).2.2 = s.2
       ∧ ∃ resp, (serves fuel rq s).1 = Some resp ∧ http.StatusBadRequest ≤ Code resp).
Proof.
  split; [|intros r ps; apply ServeHTTP_refused]. intros Hne.
  assert (Hget : Method rq ≠ "GET").
  { intros Hm. apply Hne. destruct (route_of rq) as [[e ps]|] eqn:Hr.
    2:{ unfold ServeHTTP. by rewrite Hr. }
    destruct (route_of_GET rq e ps Hr Hm) as [-> | (r & -> & Ha)].
    - unfold ServeHTTP. rewrite Hr. cbn [serve_endpoint]. rewrite run_bind, run_fmap.
      unfold MiddlewareFunc. destruct (check_token rq) as [claims|[]]; [|done].
      by destruct (IdentityHandler claims).
    - rewrite (ServeHTTP_zones fuel rq r ps s Hr). destruct (check_token rq) as [claims|[]]; [|done].
      destruct (IdentityHandler claims) as [id|]; [|done]. cbn [fst snd].
      by apply (serve_zones_asks (engine:=engine) (tables:=tables)). }
  split; [done|]. destruct (route_of rq) as [[e ps]|] eqn:Hr.
  2:{ destruct Hne. unfold ServeHTTP. by rewrite Hr. }
  exists e, ps. split; [done|].
  assert (Hrun : serves fuel rq s = (o ← serve_endpoint Error_string redis_error_string XAdd fuel rq e ps;
                                     mret (recovered <$> o)) s).
  { unfold ServeHTTP. by rewrite Hr. }
  rewrite Hrun, run_bind in Hne. destruct e as [| | | | |r]; try done; cbn [serve_endpoint] in Hne;
    rewrite ?run_fmap in Hne; cbn [fst snd mret M_ret] in Hne.
  - rewrite LoginHandler_run in Hne. apply Hne, keeps_Authenticator.
  - destruct Hne. unfold MiddlewareFunc. destruct (check_token rq) as [claims|[]]; [|done].
    by destruct (IdentityHandler claims).
  - unfold MiddlewareFunc in Hne. destruct (check_token rq) as [claims|[]] eqn:Ht; [|done].
    destruct (IdentityHandler claims) as [id|] eqn:Hid; [|done]. exists id. split; [by exists claims|].
    intros Hz. destruct (decide (owns (engine:=engine) (tables s.1) (id_Email id) (ps "zone"))) as [|Ho]; [done|].
    destruct Hne. rewrite on_fst_run. cbn [fst snd].
    by apply (serve_zones_rejects (engine:=engine) (tables:=tables) {| Identity := Some id; Param := ps |} id).
Qed.


(** ** Histories of requests *)
Abbreviation preserves' := (preserves (S:=S) (engine:=engine) (tables:=tables)).
Fixpoint serve_all (fuel : nat) (rqs : list Rq) : M (S * R) () :=
  match rqs with [] => mret () | rq :: rqs => _ ← serves fuel rq; serve_all fuel rqs end.

Lemma preserves_result {A} (m : M S (res DbError A)) k : preserves' m → preserves' (with_result m k).
Proof. intros Hm. apply preserves_bind; [done|]. intros a. apply preserves_ret. Qed.
Lemma preserves_serve_zones c r : preserves' (serve_zones c r).
Proof.
  destruct r; cbn [serve_zones];
    unfold getZones, addZone, getZone, updateZone, deleteZone, getLocations, addLocation, getLocation,
      updateLocation, deleteLocation, getRecordSets, addRecordSet, getRecordSet, updateRecordSet,
      deleteRecordSet, with_user, with_param, with_bound;
    repeat case_match; try (by apply preserves_ret); apply preserves_result;
    first [solve [eauto with indexes]|apply preserves_keeps; solve [eauto with keeps]].
Qed.

(** What a request does to the tables is done by one of the three. *)
Lemma ServeHTTP_preserves fuel rq (s : S * R) :
  indexed (engine:=engine) (tables s.1) → indexed (engine:=engine) (tables (serves fuel rq s).2.1).
Proof.
  intros Hi. unfold ServeHTTP. destruct (route_of rq) as [[e ps]|]; [|done]. rewrite run_bind. cbn [fst snd mret M_ret].
  destruct e as [| | | | |r]; cbn [serve_endpoint]; rewrite ?run_fmap; cbn [snd].
  - unfold signup. destruct (bind_NewUser rq) as [u|e]; [|done]. rewrite run_bind, on_fst_run. cbn [fst snd].
    set (m := AddUser _). assert (Hi1 : indexed (engine:=engine) (tables (m s.1).2)) by (by apply preserves_AddUser).
    destruct (m s.1) as [[i|e] s1]; [|done]. cbn [fst snd] in *. rewrite run_bind, on_fst_run. cbn [fst snd].
    set (m' := AddVerification _ _ _).
    assert (Hi2 : indexed (engine:=engine) (tables (m' s1).2)) by (by apply preserves_AddVerification).
    destruct (m' s1) as [[[code|e]|] s2]; [|done..]. cbn [fst snd] in *. rewrite run_bind.
    unfold on_snd. cbn. by destruct (XAdd _ _ _).
  - unfold verify. destruct (bind_verification rq) as [code|e]; [|done]. rewrite run_bind, on_fst_run.
    cbn [fst snd mret M_ret]. by apply preserves_Verify.
  - rewrite LoginHandler_run. cbn [snd fst]. by rewrite keeps_Authenticator.
  - done.
  - unfold MiddlewareFunc. destruct (check_token rq) as [claims|[]]; [|done]. by destruct (IdentityHandler claims).
  - unfold MiddlewareFunc. destruct (check_token rq) as [claims|[]]; [|done].
    destruct (IdentityHandler claims) as [id|]; [|done]. rewrite on_fst_run. by apply preserves_serve_zones.
Qed.
Lemma serve_all_preserves fuel rqs (s : S * R) :
  indexed (engine:=engine) (tables s.1) → indexed (engine:=engine) (tables (serve_all fuel rqs s).2.1).
Proof.
  revert s. induction rqs as [|rq rqs IH]; intros s Hi; [done|]. cbn [serve_all]. rewrite run_bind.
  by apply IH, ServeHTTP_preserves.
Qed.

(** ** What was posted is what is answered *)
(** Handlers get past a guard that did not answer. *)
Lemma with_user_past c k s resp :
  (with_user (S:=S) c k s).1 = Some resp → Code resp = http.StatusCreated →
  ∃ user, (with_user c k s) = k user s ∧ ∀ c' k', Identity c' = Identity c → with_user (S:=S) c' k' = k' user.
Proof.
  unfold with_user, extractUser. destruct (Identity c) as [id|]; [|done]. cbn.
  destruct (bool_decide (id_Email id = empty_str)) eqn:E.
  - by intros [= <-].
  - intros _ _. exists (id_Email id). split; [done|]. intros c' k' ->. cbn. by rewrite E.
Qed.
Lemma with_param_past c name k s resp :
  (with_param (S:=S) c name k s).1 = Some resp → Code resp = http.StatusCreated →
  Param c name ≠ empty_str ∧ with_param c name k s = k (Param c name) s.
Proof.
  unfold with_param. destruct (bool_decide (Param c name = empty_str)) eqn:E.
  - by intros [= <-].
  - apply bool_decide_eq_false in E. done.
Qed.
Lemma with_param_some c name k : Param c name ≠ empty_str → with_param (S:=S) c name k = k (Param c name).
Proof. intros Hn. unfold with_param. by rewrite bool_decide_eq_false_2. Qed.
Lemma created_Ok {A} (m : M S (res DbError A)) s resp :
  (with_result m created s).1 = Some resp → Code resp = http.StatusCreated →
  ∃ a, (m s).1 = Ok a ∧ tables (with_result m created s).2 = tables (m s).2.
Proof.
  unfold with_result. rewrite run_bind. cbn [fst snd mret M_ret]. destruct (m s).1 as [a|e]; [by exists a|].
  intros [= <-]. by destruct e.
Qed.
(** Answered with a value, or with 500. *)
Definition answered (o : option HttpResponse) (b : Body) : Prop :=
  o = Some {| Code := http.StatusOK; JSON := b |}
  ∨ o = Some (ErrorResponse http.StatusInternalServerError "internal error").
Lemma with_result_answers {A} (m : M S (res DbError A)) k s a :
  answers ErrSql (m s).1 a → answered (with_result m (λ x, ok_json (k x)) s).1 (k a).
Proof.
  unfold with_result. rewrite run_bind. intros [->|(e & He & _ & ->)]; [by left|]. right. cbn. by destruct e.
Qed.

(** C9. What is posted is what is answered: after any history of requests from an empty
    database, when the creation of a zone, a location or a record set is answered
    with 201, asking for it as the same user, as long as the tables are what that
    left, is answered with what was posted, the value of a record set as the
    database normalises it, or with 500 when the database fails. *)
Theorem posted_is_answered fuel rqs (s0 : S * R) c c' resp s' :
  (∀ t, tables s0.1 t = []) → let s := (serve_all fuel rqs s0).2.1 in
  Code resp = http.StatusCreated → Identity c' = Identity c →
  (∀ z, (addZone c (Ok z) s).1 = Some resp → tables s' = tables (addZone c (Ok z) s).2 →
     nz_Name z ≠ empty_str → Param c' "zone" = nz_Name z →
     answered (getZone c' s').1 (BZone {| gz_Name := nz_Name z; gz_Enabled := nz_Enabled z;
       gz_Dnssec := nz_Dnssec z; gz_CNameFlattening := nz_CNameFlattening z |}))
  ∧ (∀ l, (addLocation c (Ok l) s).1 = Some resp → tables s' = tables (addLocation c (Ok l) s).2 →
     nl_Name l ≠ empty_str → Param c' "zone" = Param c "zone" → Param c' "location" = nl_Name l →
     answered (getLocation c' s').1 (BLocation {| gl_Enabled := nl_Enabled l |}))
  ∧ ∀ r, (addRecordSet c (Ok r) s).1 = Some resp → tables s' = tables (addRecordSet c (Ok r) s).2 →
     nr_Type r ≠ empty_str → Param c' "zone" = Param c "zone" → Param c' "location" = Param c "location" →
     Param c' "rtype" = nr_Type r →
     answered (getRecordSet c' s').1
       (BRecordSet {| gr_Value := json_normal engine (nr_Value r); gr_Enabled := nr_Enabled r |}).
Proof.
  intros Hempty s Hcode Hid.
  assert (Hi : indexed (engine:=engine) (tables s)).
  { apply serve_all_preserves. intros t cols r r' _ Hr. rewrite Hempty in Hr. by apply not_elem_of_nil in Hr. }
  split_and!.
  - intros z Hadd E Hn Hz. unfold addZone, getZone in *.
    destruct (with_user_past _ _ _ _ Hadd Hcode) as (user & Eu & Hu). rewrite Eu in *. rewrite (Hu c') by done.
    cbn [with_bound] in *. destruct (created_Ok _ _ _ Hadd Hcode) as (id & Hok & Et).
    rewrite with_param_some by congruence. rewrite Hz. rewrite Et in E.
    exact (with_result_answers _ _ _ _ (AddZone_reads_back user _ _ id s' Hi Hok E)).
  - intros l Hadd E Hn Hz Hl. unfold addLocation, getLocation in *.
    destruct (with_user_past _ _ _ _ Hadd Hcode) as (user & Eu & Hu). rewrite Eu in *. rewrite (Hu c') by done.
    destruct (with_param_past _ _ _ _ _ Hadd Hcode) as [Hzn Ez]. rewrite Ez in *.
    cbn [with_bound] in *. destruct (created_Ok _ _ _ Hadd Hcode) as (id & Hok & Et).
    rewrite !with_param_some by congruence. rewrite Hz, Hl. rewrite Et in E.
    exact (with_result_answers _ _ _ _ (AddLocation_reads_back user _ _ _ id s' Hi Hok E)).
  - intros r Hadd E Hn Hz Hl Ht. unfold addRecordSet, getRecordSet in *.
    destruct (with_user_past _ _ _ _ Hadd Hcode) as (user & Eu & Hu). rewrite Eu in *. rewrite (Hu c') by done.
    destruct (with_param_past _ _ _ _ _ Hadd Hcode) as [Hzn Ez]. rewrite Ez in *.
    destruct (with_param_past _ _ _ _ _ Hadd Hcode) as [Hln El]. rewrite El in *.
    cbn [with_bound] in *. destruct (created_Ok _ _ _ Hadd Hcode) as (id & Hok & Et).
    rewrite !with_param_some by congruence. rewrite Hz, Hl, Ht. rewrite Et in E.
    exact (with_result_answers _ _ _ _ (AddRecordSet_reads_back user _ _ _ _ id s' Hi Hok E)).
Qed.
End facts.
