(* ===== verification/Examples.v ===== *)
(** * The theorems at work on a small zone

    A concrete zone [example.com.], the store that holds it (a [Snapshot]), a
    GeoIP database and a toy arithmetic stand for the parameters of the model;
    each lemma below instantiates one theorem of the development on them, with
    its hypotheses evaluated. *)
From S2P Require Import Prelude GoStrings Radix DnsTypes Zone Geo IpSelect Dnssec Store Request.
From S2P Require Import Handler HandlerFacts HandlerRun.
Local Open Scope Z_scope.

(** ** Parameters *)
Definition fqdn (s : string) : string := if HasPrefix (str (reverse (bytes s))) "." then s else s +:+ ".".
Definition lower_id (s : string) : string := s.

#[export] Instance z_float : Float64 Z := {
  f_of_Z := id; f_pi := 3; f_add := Z.add; f_sub := Z.sub; f_mul := Z.mul; f_div := Z.div;
  f_sin x := x; f_cos _ := 1; f_sqrt := Z.sqrt; f_atan2 x _ := x; f_ltb := Z.ltb; f_eqb := Z.eqb;
}.

Definition reader : Reader Z := {|
  Lookup_country ip := Ok (if decide (ip = Some "9.9.9.9") then "US" else "DE");
  Lookup_asn ip := Ok 64500;
  Lookup_location ip := Ok (10, 0);
  Decode_longitude _ := 20 |}.
Definition geo : GeoIp Z := {| enable := true; countryDB := Some reader; asnDB := Some reader |}.

Definition ip_rr (w : Z) (ip : string) (cs : list string) : IP_RR :=
  {| IP_Weight := w; IP_Ip := Some ip; IP_Country := cs; IP_ASN := [] |}.
Definition ttl300 : GenericRRSet := {| TtlValue := 300 |}.
Definition ip_set (order : string) (l : list IP_RR) : IP_RRSet := {|
  IP_Generic := ttl300;
  IP_FilterConfig := {| FC_Count := "multi"; FC_Order := order; FC_GeoFilter := "country" |};
  IP_HealthCheckConfig := IP_HealthCheckConfig zero_IP_RRSet;
  IP_Data := l |}.
Definition www_A : IP_RRSet := ip_set "weighted" [ip_rr 2 "1.1.1.1" ["DE"]; ip_rr 1 "2.2.2.2" ["DE"];
                                                  ip_rr 5 "3.3.3.3" ["US"]].

(** ** The zone *)
Definition locations : list string := ["@"; "www"; "*.wild"; "a.b"; "sub"; "loop1"; "loop2"; "alias"].
Definition soa_rr : RR := {| Header := inet "example.com." dns.TypeSOA 300;
  Data := RD_SOA "ns1.example.com." "hostmaster.example.com." 7 86400 7200 3600 300 |}.
Definition ex_zone : Zone AList.t :=
  NewZone fqdn (λ _ c, c) "example.com." locations empty_str 7.
Definition dnskey : RR := {| Header := inet "example.com." dns.TypeDNSKEY 300;
                             Data := RD_DNSKEY 256 3 13 "key" |}.
Definition zone_key : ZoneKey :=
  {| DnsKey := dnskey; PrivateKey := "priv"; KeyInception := 0; KeyExpiration := 100 |}.
Definition signed_zone : Zone AList.t := {|
  Name := Name ex_zone;
  Config := {| DomainId := empty_str; SOA := SOA (Config ex_zone); DnsSec := true;
               CnameFlattening := false |};
  LocationsTree := LocationsTree ex_zone; LocationsList := LocationsList ex_zone;
  ZSK := Some zone_key; KSK := Some zone_key; DnsKeySig := Some dnskey; CacheTimeout := 0 |}.

Definition cname_of (l : string) : string :=
  if decide (l = "loop1") then "loop2.example.com."
  else if decide (l = "loop2") then "loop1.example.com."
  else if decide (l = "alias") then "www.example.com." else empty_str.
Definition no_error {A} (a : A) : res StoreError A := Ok a.

Definition store : Snapshot AList.t := {|
  sn_FindZone q := if HasPrefix (str (reverse (bytes q))) (str (reverse (bytes "example.com.")))
                   then "example.com." else empty_str;
  sn_GetZone zn := if decide (zn = "example.com.") then Some signed_zone else None;
  sn_A _ l := Ok (if bool_decide (l = "www") || bool_decide (l = "*.wild")
                  then www_A else zero_IP_RRSet);
  sn_AAAA _ l := Ok zero_IP_RRSet;
  sn_CNAME _ l := Ok {| CNAME_Generic := ttl300; CNAME_Host := cname_of l |};
  sn_TXT _ l := Ok {| TXT_Generic := ttl300; TXT_Data := [] |};
  sn_NS _ l := Ok {| NS_Generic := ttl300;
                     NS_Data := if decide (l = "sub") then ["ns1.sub.example.com."] else [] |};
  sn_MX _ l := Ok {| MX_Generic := ttl300; MX_Data := [] |};
  sn_SRV _ l := Ok {| SRV_Generic := ttl300; SRV_Data := [] |};
  sn_CAA _ l := Ok {| CAA_Generic := ttl300; CAA_Data := [] |};
  sn_PTR _ l := Ok {| PTR_Generic := ttl300; PTR_Domain := empty_str |};
  sn_TLSA _ l := Ok {| TLSA_Generic := ttl300; TLSA_Data := [] |};
  sn_DS _ l := Ok {| DS_Generic := ttl300; DS_Data := [] |};
  sn_ANAME _ l := Ok {| ANAME_Generic := ttl300; ANAME_Location := empty_str |};
  sn_Nanosecond := 4;
  sn_Upstream _ _ := ([], dns.RcodeServerFailure) |}.

Definition query (name : string) (t : Z) (do : bool) : RequestContext AList.t :=
  NewRequestContext {| Question := [(name, t)]; Opt := None |} (Some "9.9.9.1") t do.

Definition sign (sig : RR) (key : string) (rrs : list RR) : option RR := Some sig.
Definition ask (name : string) (t : Z) (do : bool) : option (RequestContext AList.t) :=
  (HandleRequest (S:=Snapshot AList.t) lower_id fqdn geo true (λ _, 1) sign map_to_list
     (query name t do) store).1.

(** What the server answers. *)
Example ask_www : (Answer <$> ask "www.example.com." dns.TypeA false)
  = Some (generateA "www.example.com." 300 [Some "1.1.1.1"; Some "2.2.2.2"]).
Proof. vm_compute. reflexivity. Qed.
Example ask_missing : ((λ c, (Res c, length (Authority c))) <$> ask "x.example.com." dns.TypeA false)
  = Some (dns.RcodeNameError, 1%nat).
Proof. vm_compute. reflexivity. Qed.
Example ask_loop : ((λ c, (Res c, Answer c)) <$> ask "loop1.example.com." dns.TypeA false)
  = Some (dns.RcodeServerFailure, []).
Proof. vm_compute. reflexivity. Qed.
Example ask_signed : ((λ c, (Res c, length (Answer c))) <$> ask "www.example.com." dns.TypeA true)
  = Some (dns.RcodeSuccess, 3%nat).
Proof. vm_compute. reflexivity. Qed.

(** ** Witnesses *)

Lemma ex_zone_built : well_built ex_zone.
Proof. split; [reflexivity|]. by apply (bool_decide_unpack _). Qed.
Lemma signed_zone_built : well_built signed_zone.
Proof. split; [reflexivity|]. by apply (bool_decide_unpack _). Qed.

Lemma FindLocation_refines_witness :
  FindSpec locations "x.y.wild" "*.wild" WildCardMatch.
Proof.
  refine (proj1 (FindLocation_refines ex_zone "x.y.wild.example.com." "*.wild" WildCardMatch
                   ex_zone_built _ _) _).
  - vm_compute. discriminate.
  - by apply (bool_decide_unpack _).
  - vm_compute. reflexivity.
Defined.

Lemma NewZone_finds_locations_witness :
  FindLocation ex_zone ("a.b" +:+ String dot "example.com.") = ("a.b", ExactMatch).
Proof.
  apply (NewZone_finds_locations (T:=AList.t) fqdn (λ _ c, c) "example.com." locations empty_str 7 "a.b").
  - by apply (bool_decide_unpack _).
  - by apply (bool_decide_unpack _).
Defined.

Lemma GetSameCountry_spec_witness :
  ∃ x, (GetSameCountry geo (Some "9.9.9.1") (IP_Data www_A) (all_white 3)).1 !! 2%nat = Some x
       ∧ (x = IpMaskWhite ↔ accepts empty_str IP_Country "DE" (IP_Data www_A)
                              (ip_rr 5 "3.3.3.3" ["US"])).
Proof. apply (GetSameCountry_spec geo (Some "9.9.9.1") "DE"); vm_compute; reflexivity. Defined.

Lemma GetMinimumDistance_spec_witness :
  ∃ mask, GetMinimumDistance geo (Some "9.9.9.1") (IP_Data www_A) (all_white 3) = Some (mask, None)
    ∧ length mask = 3%nat.
Proof.
  destruct (GetMinimumDistance_spec geo (Some "9.9.9.1") (10, 20) (IP_Data www_A))
    as (mask & E & L & _); [vm_compute; reflexivity|].
  exists mask. split; [exact E|exact L].
Defined.

Lemma www_weights : good_weights (entries (all_white 3) www_A).
Proof. split; [repeat constructor; vm_compute; discriminate|vm_compute; reflexivity]. Qed.

Lemma orderIps_rotation_witness :
  ∃ k, (k < 3)%nat ∧ orderIps www_A (all_white 3) 4
    = drop k [Some "1.1.1.1"; Some "2.2.2.2"; Some "3.3.3.3"]
      ++ take k [Some "1.1.1.1"; Some "2.2.2.2"; Some "3.3.3.3"].
Proof.
  destruct (orderIps_rotation www_A (all_white 3) 4 www_weights) as [[E _]|(k & Hk & E)].
  - lia.
  - discriminate E.
  - exists k. split; [exact Hk|exact E].
Defined.

Lemma weighted_selection_proportional_witness :
  Z.of_nat (length (filter (λ ns, pick_index www_A (all_white 3) ns = Some 2%nat) (seqZ 0 8))) = 5.
Proof.
  apply (weighted_selection_proportional www_A (all_white 3) 2 (0, ip_rr 5 "3.3.3.3" ["US"]) www_weights);
    vm_compute; reflexivity.
Defined.


(** A store without state that always answers as [store] does. *)
#[export] Instance fixed_store : DataStore AList.t unit := {
  st_FindZone q := mret (sn_FindZone store q);
  st_GetZone q := mret (sn_GetZone store q);
  st_A z l := mret (sn_A store z l);
  st_AAAA z l := mret (sn_AAAA store z l);
  st_CNAME z l := mret (sn_CNAME store z l);
  st_TXT z l := mret (sn_TXT store z l);
  st_NS z l := mret (sn_NS store z l);
  st_MX z l := mret (sn_MX store z l);
  st_SRV z l := mret (sn_SRV store z l);
  st_CAA z l := mret (sn_CAA store z l);
  st_PTR z l := mret (sn_PTR store z l);
  st_TLSA z l := mret (sn_TLSA store z l);
  st_DS z l := mret (sn_DS store z l);
  st_ANAME z l := mret (sn_ANAME store z l);
}.
#[export] Instance fixed_outside : Outside unit := {
  Nanosecond := mret 4;
  UpstreamQuery _ _ := mret ([], dns.RcodeServerFailure);
}.
Definition holds_store (_ : unit) (d : Snapshot AList.t) : Prop := d = store.
#[export] Instance fixed_sim : StoreSim AList.t unit (Snapshot AList.t) holds_store.
Proof. by split; intros; intros [] d ->. Qed.
#[export] Instance fixed_outside_sim : OutsideSim unit (Snapshot AList.t) holds_store.
Proof. by split; intros; intros [] d ->. Qed.

Definition signed_query : RequestContext AList.t :=
  set_zone signed_zone empty_str true (query "www.example.com." dns.TypeTXT true).

Lemma HandleRequest_rcode_witness :
  post (HandleRequest (S:=unit) lower_id fqdn geo true (λ _, 1) sign map_to_list
          (query "x.example.com." dns.TypeA false))
    (λ oc, ∀ c', oc = Some c' → Res c' = dns.RcodeNotAuth ∨ rcode_ok c').
Proof. apply HandleRequest_rcode. reflexivity. Defined.

Lemma resolve_answer_chain_witness :
  post (resolve (S:=unit) lower_id fqdn geo ex_zone "example.com." false "alias.example.com."
          (query "alias.example.com." dns.TypeA false))
    (ends_with (λ c', chain_answer ex_zone "alias.example.com." (Answer c'))).
Proof. apply resolve_answer_chain. reflexivity. Defined.

Lemma resolve_answer_flat_witness :
  post (resolve (S:=unit) lower_id fqdn geo ex_zone "example.com." true "alias.example.com."
          (query "alias.example.com." dns.TypeA false))
    (ends_with (λ c', Forall (owned ex_zone "alias.example.com.") (Answer c'))).
Proof.
  apply (resolve_answer_flat lower_id fqdn geo ex_zone "example.com." "alias.example.com."
           (query "alias.example.com." dns.TypeA false)); [reflexivity|vm_compute; discriminate].
Defined.



Lemma resolve_simulates_witness :
  (resolve (S:=unit) lower_id fqdn geo ex_zone "example.com." false "www.example.com."
     (query "www.example.com." dns.TypeA false) ()).1
  = (resolve (S:=Snapshot AList.t) lower_id fqdn geo ex_zone "example.com." false "www.example.com."
       (query "www.example.com." dns.TypeA false) store).1.
Proof.
  apply (resolve_simulates holds_store lower_id fqdn geo ex_zone "example.com." false
           "www.example.com." (query "www.example.com." dns.TypeA false) () store eq_refl).
Defined.

(** ** CNAME chains *)
Lemma alias_hop :
  hop store ex_zone "example.com." "alias.example.com."
    {| CNAME_Generic := ttl300; CNAME_Host := "www.example.com." |}.
Proof. split_and!; [reflexivity..|]. exists "alias", ExactMatch. split; [reflexivity|split; [by left|reflexivity]]. Qed.
Lemma alias_hops :
  hops fqdn store ex_zone "example.com." 1 "alias.example.com."
    [{| Header := inet "alias.example.com." dns.TypeCNAME 300; Data := RD_CNAME "www.example.com." |}]
    "www.example.com.".
Proof.
  exact (hops_cons fqdn store ex_zone "example.com." 0 "alias.example.com." _ [] "www.example.com."
           alias_hop (hops_nil fqdn store ex_zone "example.com." "www.example.com.")).
Qed.

Lemma resolve_follows_chain_witness :
  resolve (S:=Snapshot AList.t) lower_id fqdn geo ex_zone "example.com." false "alias.example.com."
    (query "alias.example.com." dns.TypeA false) store
  = resolve_loop (S:=Snapshot AList.t) lower_id fqdn geo 10 ex_zone "example.com." false
      "www.example.com."
      (append_Answer [{| Header := inet "alias.example.com." dns.TypeCNAME 300;
                         Data := RD_CNAME "www.example.com." |}]
         (query "alias.example.com." dns.TypeA false)) store.
Proof.
  apply (resolve_follows_chain lower_id fqdn geo store 1 _ _ _ _ _ _ alias_hops);
    [lia|vm_compute; discriminate].
Defined.

Definition looping (q : string) : Prop := q = "loop1.example.com." ∨ q = "loop2.example.com.".
Lemma looping_hop q :
  looping q → ∃ cn, hop store ex_zone "example.com." q cn
    ∧ sn_FindZone store (CNAME_Host cn) = "example.com." ∧ looping (fqdn (CNAME_Host cn)).
Proof.
  intros [-> | ->].
  - exists {| CNAME_Generic := ttl300; CNAME_Host := "loop2.example.com." |}.
    split_and!; [|reflexivity|by right]. split_and!; [reflexivity..|].
    exists "loop1", ExactMatch. split; [reflexivity|split; [by left|reflexivity]].
  - exists {| CNAME_Generic := ttl300; CNAME_Host := "loop1.example.com." |}.
    split_and!; [|reflexivity|by left]. split_and!; [reflexivity..|].
    exists "loop2", ExactMatch. split; [reflexivity|split; [by left|reflexivity]].
Qed.

Lemma resolve_cname_cycle_witness :
  ∃ c', (resolve (S:=Snapshot AList.t) lower_id fqdn geo ex_zone "example.com." true
           "loop1.example.com." (query "loop1.example.com." dns.TypeA false) store).1 = Some c'
        ∧ Res c' = dns.RcodeServerFailure ∧ Answer c' = [].
Proof.
  apply (resolve_cname_cycle lower_id fqdn geo store looping _ _ _ _ _ looping_hop);
    [by left|vm_compute; discriminate].
Defined.

(** ** Responses by the content of the zone *)
Definition fs (q : string) : string := TrimSuffix q (String dot "example.com.").
Lemma find_spec q l m :
  q ≠ "example.com." → ascii7 q → FindLocation ex_zone q = (l, m) → FindSpec locations (fs q) l m.
Proof.
  intros Hne Ha E. pose proof (FindLocation_sound ex_zone q (fs q) ex_zone_built Hne eq_refl
    (ascii7_TrimSuffix _ _ Ha)) as Hs. by rewrite E in Hs.
Qed.

Definition no_cname : CNAME_RRSet := {| CNAME_Generic := ttl300; CNAME_Host := empty_str |}.
Definition no_ns : NS_RRSet := {| NS_Generic := ttl300; NS_Data := [] |}.
Definition no_aname : ANAME_RRSet := {| ANAME_Generic := ttl300; ANAME_Location := empty_str |}.

Lemma resolve_nxdomain_witness :
  ∃ c', (resolve (S:=Snapshot AList.t) lower_id fqdn geo ex_zone "example.com." false "x.b.example.com."
           (query "x.b.example.com." dns.TypeA false) store).1 = Some c'
        ∧ Res c' = dns.RcodeNameError.
Proof.
  destruct (resolve_nxdomain lower_id fqdn geo store ex_zone "example.com." "x.b.example.com."
              ex_zone_built) with (fl := false) (c := query "x.b.example.com." dns.TypeA false)
    as (c' & E & _ & _ & H).
  - reflexivity.
  - by apply (bool_decide_unpack _).
  - vm_compute. discriminate.
  - apply (find_spec "x.b.example.com."); [vm_compute; discriminate| |reflexivity].
    by apply (bool_decide_unpack _).
  - exists c'. split; [exact E|]. apply H.
Defined.

Lemma resolve_address_witness :
  (resolve (S:=Snapshot AList.t) lower_id fqdn geo ex_zone "example.com." false "z.wild.example.com."
     (query "z.wild.example.com." dns.TypeA false) store).1
  = Some (append_Answer (generateA "z.wild.example.com." 300 [Some "1.1.1.1"; Some "2.2.2.2"])
            (query "z.wild.example.com." dns.TypeA false)).
Proof.
  refine (resolve_address lower_id fqdn geo store ex_zone "example.com." "z.wild.example.com."
    ex_zone_built eq_refl _ _ false "*.wild" WildCardMatch no_cname no_ns www_A no_aname
    (query "z.wild.example.com." dns.TypeA false) _ (or_intror eq_refl)
    eq_refl eq_refl eq_refl eq_refl eq_refl eq_refl eq_refl eq_refl _).
  - by apply (bool_decide_unpack _).
  - vm_compute. discriminate.
  - apply (find_spec "z.wild.example.com."); [vm_compute; discriminate| |reflexivity].
    by apply (bool_decide_unpack _).
  - vm_compute. discriminate.
Defined.

Lemma resolve_nodata_witness :
  ∃ c', (resolve (S:=Snapshot AList.t) lower_id fqdn geo ex_zone "example.com." false "a.b.example.com."
           (query "a.b.example.com." dns.TypeA false) store).1 = Some c'
        ∧ Res c' = dns.RcodeSuccess ∧ Answer c' = []
        ∧ last (Authority c') = Some (SOA_Data (SOA (Config ex_zone))).
Proof.
  refine (resolve_nodata lower_id fqdn geo store ex_zone "example.com." "a.b.example.com."
    ex_zone_built eq_refl _ _ false "a.b" ExactMatch no_cname no_ns zero_IP_RRSet no_aname
    (query "a.b.example.com." dns.TypeA false) _ (or_introl eq_refl)
    eq_refl eq_refl eq_refl eq_refl eq_refl eq_refl eq_refl eq_refl eq_refl eq_refl).
  - by apply (bool_decide_unpack _).
  - vm_compute. discriminate.
  - apply (find_spec "a.b.example.com."); [vm_compute; discriminate| |reflexivity].
    by apply (bool_decide_unpack _).
Defined.

Lemma findCAA_fuel_enough_witness :
  findCAA_loop (S:=Snapshot AList.t) 100 ex_zone "x.a.b" store
  = findCAA_loop (S:=Snapshot AList.t) 3 ex_zone "x.a.b" store.
Proof.
  apply (findCAA_fuel_enough ex_zone ex_zone_built 100 "x.a.b" store).
  - by apply (bool_decide_unpack _).
  - vm_compute. lia.
Defined.

Lemma resolve_empty_nonterminal_witness :
  ∃ c', (resolve (S:=Snapshot AList.t) lower_id fqdn geo signed_zone "example.com." true "b.example.com."
           (set_zone signed_zone empty_str true (query "b.example.com." dns.TypeA true)) store).1 = Some c'
        ∧ Authority c' = [SOA_Data (SOA (Config signed_zone)); NSEC_rr "b.example.com." NsecBitmapZone 300].
Proof.
  destruct (resolve_empty_nonterminal lower_id fqdn geo store signed_zone "example.com." "b.example.com."
              signed_zone_built) with (fl := true)
      (c := set_zone signed_zone empty_str true (query "b.example.com." dns.TypeA true))
    as (c' & E & _ & _ & H).
  - reflexivity.
  - by apply (bool_decide_unpack _).
  - vm_compute. discriminate.
  - apply (find_spec "b.example.com."); [vm_compute; discriminate| |reflexivity].
    by apply (bool_decide_unpack _).
  - exists c'. split; [exact E|exact H].
Defined.
