(* ===== verification/ExamplesRedis.v ===== *)
(** * A redis server in memory, and the theorems on the client at work on it *)
From S2P Require Import Prelude GoStrings Redis.
Local Open Scope Z_scope.

(** ** A redis server in memory *)
Inductive reply := RStr (s : string) | RArr (l : list reply) | RNil | RInt (n : Z).
Definition type_error {A} : res RedisError A := Err (ErrReply "unexpected type").
Definition as_string (r : reply) : res RedisError string :=
  match r with RStr s => Ok s | RNil => Err ErrNil | _ => type_error end.
#[export] Instance mem_redigo : Redigo reply := {
  reply_String := as_string;
  reply_Strings r := match r with RArr l => map_res as_string l | _ => type_error end;
  reply_Values r := match r with RArr l => Ok l | _ => type_error end;
  reply_StringMap r := type_error;
  reply_Bool r := match r with RInt n => Ok (n =? 1) | _ => type_error end;
}.

Definition wrong_type : res RedisError reply := Err (ErrReply "WRONGTYPE").
Definition ok_reply (db : gmap string Entry) : res RedisError reply * gmap string Entry := (Ok (RStr "OK"), db).
Definition scan_page (x : gset string) (cursor : string) : reply :=
  match elements x with
  | a :: (_ :: _) as l =>
    if decide (cursor = "0") then RArr [RStr "1"; RArr [RStr a]]
    else RArr [RStr "0"; RArr (RStr <$> tail (elements x))]
  | l => RArr [RStr "0"; RArr (RStr <$> l)]
  end.
(** A pattern with one star. *)
Definition glob (pattern key : string) : bool :=
  match cut_at "*"%char (bytes pattern) with
  | Some (p, suf) =>
    match after_prefix p (bytes key) with
    | Some r => bool_decide (after_prefix (reverse suf) (reverse r) ≠ None)
    | None => false
    end
  | None => bool_decide (key = pattern)
  end.
Definition mem_command (cmd : string) (args : list string) (db : gmap string Entry)
  : res RedisError reply * gmap string Entry :=
  match args with
  | [k] => if decide (cmd = "GET") then
             match db !! k with
             | None => (Ok RNil, db) | Some (VString v) => (Ok (RStr v), db) | _ => (wrong_type, db)
             end
           else (type_error, db)
  | [k; m] =>
    if decide (cmd = "SET") then ok_reply (<[k := VString m]> db) else
    match set_at db k with
    | None => (wrong_type, db)
    | Some x =>
      if decide (cmd = "SADD") then ok_reply (<[k := VSet ({[m]} ∪ x)]> db)
      else if decide (cmd = "SREM") then ok_reply (<[k := VSet (x ∖ {[m]})]> db) else (type_error, db)
    end
  | k :: cursor :: _ =>
    match set_at db k with None => (wrong_type, db) | Some x => (Ok (scan_page x cursor), db) end
  | [] => (type_error, db)
  end.
Definition mem_do (cmd : string) (args : list string) (db : gmap string Entry)
  : res RedisError reply * gmap string Entry :=
  match cmd with
  | "DEL" => (Ok (RInt (Z.of_nat (length args))), foldr delete db args)
  | "SCAN" =>
    (Ok (RArr [RStr "0"; RArr (RStr <$> filter (λ k, glob (default empty_str (args !! 2%nat)) k = true)
                                 (elements (dom db)))]), db)
  | _ => mem_command cmd args db
  end%string.
#[export] Instance mem_server : Server (gmap string Entry) reply := { pool_Get := mret true; Do := mem_do }.

Lemma map_res_strings l : map_res as_string (RStr <$> l) = Ok l.
Proof. induction l as [|x l IH]; [done|]. csimpl. by rewrite IH. Qed.

Lemma parse_last l :
  (Ok (RArr [RStr "0"; RArr (RStr <$> l)]) : res RedisError reply) ≫= parse_page reply_Strings = Ok ("0", l).
Proof.
  unfold parse_page. simpl.
  pose proof (map_res_strings l) as E. unfold fmap in *. rewrite E. done.
Qed.

Lemma mem_sscan k (db : gmap string Entry) :
  ∃ r s', scan_run (λ cursor, Do "SSCAN" [k; cursor; "COUNT"; "100"]) reply_Strings 2 "0" db r s'
    ∧ s' = db ∧ match r with Ok x => set_at db k = Some x | Err _ => True end.
Proof.
  destruct (set_at db k) as [x|] eqn:E.
  2:{ eexists _, db. split; [apply (run_fail _ _ _ _ _ (ErrReply "WRONGTYPE") _ wrong_type); [|done]|done].
      simpl. by rewrite E. }
  exists (Ok x), db. split; [|done].
  assert (Ex : list_to_set (elements x) = x) by apply list_to_set_elements_L.
  destruct (elements x) as [|a [|b l]] eqn:El; rewrite <-Ex.
  - eapply run_last; [simpl; by rewrite E|]. unfold scan_page. by rewrite El.
  - eapply run_last; [simpl; by rewrite E|]. unfold scan_page. by rewrite El.
  - change (Ok (list_to_set (a :: b :: l)) : res RedisError (gset string))
      with (Ok ({[a]} ∪ list_to_set (b :: l)) : res RedisError (gset string)).
    replace ({[a]} : gset string) with (list_to_set [a] : gset string) by set_solver.
    apply (run_next _ _ 1 "0" db [a] "1" db (Ok (RArr [RStr "1"; RArr [RStr a]]))
             (Ok (list_to_set (b :: l))) db); [|done|by apply (bool_decide_unpack _)|].
    { simpl. rewrite E. unfold scan_page. by rewrite El. }
    eapply run_last; [simpl; rewrite E; unfold scan_page; rewrite El; reflexivity|].
    apply (parse_last (b :: l)).
Qed.
#[export] Instance mem_server_laws : ServerLaws (gmap string Entry) reply id 2.
Proof.
  split; try done.
  - intros k s. simpl. by destruct (s !! k) as [[]|].
  - intros k v s. simpl. split; [by rewrite delete_insert_eq|]. intros _. by rewrite lookup_insert_eq.
  - intros k m s. simpl. destruct (set_at s k) as [x|] eqn:E; [|done]. simpl.
    split; [by rewrite delete_insert_eq|]. intros _. exists x. by rewrite lookup_insert_eq.
  - intros k m s. simpl. destruct (set_at s k) as [x|] eqn:E; [|done]. simpl.
    split; [by rewrite delete_insert_eq|]. intros _. exists x. unfold set_at.
    by rewrite lookup_insert_eq.
  - intros k s. apply mem_sscan.
Qed.

Lemma glob_star p suf k : literal p → glob (p +:+ "*" +:+ suf) k = true ↔ ∃ m, k = p +:+ m +:+ suf.
Proof.
  intros Hp. unfold glob. rewrite !bytes_app. cbn [String.list_ascii_of_string app].
  assert (Hcut : cut_at "*"%char (bytes p ++ "*"%char :: bytes suf) = Some (bytes p, bytes suf)).
  { unfold literal in Hp. revert Hp. generalize (bytes p) as l. intros l.
    induction l as [|b l IH]; [done|]. intros [Hb Hl]%Forall_cons. simpl. rewrite decide_False, IH by set_solver. done. }
  rewrite Hcut. destruct (after_prefix (bytes p) (bytes k)) as [r|] eqn:E.
  - apply after_prefix_Some in E. rewrite bool_decide_eq_true. split.
    + destruct (after_prefix (reverse (bytes suf)) (reverse r)) as [m|] eqn:Em; [|done]. intros _.
      apply after_prefix_Some in Em. exists (str (reverse m)). apply bytes_inj.
      rewrite !bytes_app, bytes_str, E. f_equal. apply (inj reverse). by rewrite Em, reverse_app, reverse_involutive.
    + intros [m ->] Hn. rewrite !bytes_app in E. apply app_inv_head in E. subst r.
      rewrite reverse_app, after_prefix_app in Hn. done.
  - split; [done|]. intros [m ->]. rewrite !bytes_app, after_prefix_app in E. done.
Qed.
#[export] Instance mem_scan_laws : ScanLaws (gmap string Entry) reply id 2.
Proof.
  split.
  - intros p suf db Hp _. exists (Ok (list_to_set (filter (λ k, glob (p +:+ "*" +:+ suf) k = true) (elements (dom db))))), db.
    split; [eapply run_last; [reflexivity|apply parse_last]|]. split; [done|]. intros k.
    rewrite elem_of_list_to_set, list_elem_of_filter, glob_star, elem_of_elements, elem_of_dom by done. done.
  - intros ks db. cbn. unfold id. split.
    + intros k Hk. induction ks as [|k' ks IH]; [done|]. simpl. rewrite lookup_delete_ne by set_solver. apply IH. set_solver.
    + intros _ k Hk. induction ks as [|k' ks IH]; [by apply elem_of_nil in Hk|]. simpl.
      destruct (decide (k = k')) as [->|Hne]; [by rewrite lookup_delete_eq|].
      rewrite lookup_delete_ne by done. apply IH. set_solver.
Qed.

Definition redis_cfg : RedisConfig := {| Prefix := "p:"; Suffix := empty_str; DB := 0 |}.
Lemma hiredis_spec_witness :
  RedisSpec (RedisOps0 := hiredis (Reply:=reply) redis_cfg elements 2) (gmap string Entry)
    (db_str redis_cfg id) (db_set redis_cfg id).
Proof. exact (hiredis_spec redis_cfg elements id 2 (λ x, reflexivity (elements x))). Defined.

(** [Clear] on a server that holds keys of another client, too. *)
Definition mem_redis_del := redis_Del (RedisOps := hiredis (Reply:=reply) redis_cfg elements 2) "*".
Definition two_clients : gmap string Entry := <["q:z42:zones" := VString "kept"]> {["p:z42:zones" := VSet {["a.org."]}]}.
Example cleared : (mem_redis_del two_clients) = (Ok (), {["q:z42:zones" := VString "kept"]}).
Proof. vm_compute. reflexivity. Qed.

(** ** A subscription that is asked to quit before the server could be reached *)
Definition unconnected : Subscribe.state := {|
  Subscribe.psc := false; Subscribe.goroutine := false; Subscribe.done := [];
  Subscribe.ctl := Subscribe.Stopping |}.
Lemma quit_stops_or_hangs_witness :
  Subscribe.reachable unconnected
  ∧ ∀ s', rtc Subscribe.step unconnected s' → Subscribe.ctl s' = Subscribe.Stopping.
Proof.
  assert (Hr : Subscribe.reachable unconnected) by (exists false; apply rtc_once, Subscribe.take_quit).
  split; [exact Hr|]. exact (Subscribe.quit_stops_or_hangs unconnected Hr eq_refl).
Defined.
