(* ===== verification/ExamplesStore.v ===== *)
(** * The theorems on the data handler at work

    In-memory instances of what the data handler is built on: redis as two maps,
    caches, a clock, a JSON codec; and for each theorem an instance of it with its
    hypotheses evaluated. *)
From S2P Require Import Prelude GoStrings Radix DnsTypes Zone Geo IpSelect Dnssec Redis Store.
From S2P Require Import Request Handler HandlerFacts HandlerRun DataHandler DataHandlerFacts Examples.
Local Open Scope Z_scope.

(** ** Redis as two maps *)
Record MemRedis := { m_str : gmap string string; m_set : gmap string (gset string) }.
Definition set_of (s : MemRedis) (k : string) : gset string := default ∅ (m_set s !! k).
Definition put_set (k : string) (x : gset string) (s : MemRedis) : MemRedis :=
  {| m_str := m_str s; m_set := <[k := x]> (m_set s) |}.
#[export] Instance mem_redis : RedisOps MemRedis := {
  redis_Get k s := (match m_str s !! k with Some v => Ok v | None => Err ErrNil end, s);
  redis_Set k v s := (Ok (), {| m_str := <[k := v]> (m_str s); m_set := m_set s |});
  redis_SAdd k m s := (Ok (), put_set k ({[m]} ∪ set_of s k) s);
  redis_SRem k m s := (Ok (), put_set k (set_of s k ∖ {[m]}) s);
  redis_SMembers k s := (Ok (elements (set_of s k)), s);
  redis_GetKeys p s := (Ok (elements (dom (m_str s))), s);
  redis_Del p s := (Ok (), {| m_str := ∅; m_set := ∅ |});
  redis_Expire k d s := (Ok (), s);
}.
#[export] Instance mem_redis_spec : RedisSpec MemRedis (λ s k, m_str s !! k) set_of.
Proof.
  split.
  - intros k s. simpl. split; [done|]. by destruct (m_str s !! k).
  - intros k v s. simpl. split; [|by rewrite lookup_insert_eq].
    intros k' Hk. by rewrite lookup_insert_ne by done.
  - intros k m s. simpl. unfold set_of, put_set. simpl. split; [|by rewrite lookup_insert_eq].
    intros k' Hk. by rewrite lookup_insert_ne by done.
  - intros k m s. simpl. unfold set_of, put_set. simpl. split; [|by rewrite lookup_insert_eq].
    intros k' Hk. by rewrite lookup_insert_ne by done.
  - intros k s. simpl. split; [done|]. split; [apply NoDup_elements|]. intros x. apply elem_of_elements.
Qed.

Lemma mem_answers k (s : MemRedis) e : (redis_Get k s).1 = Err e → e = ErrNil.
Proof. simpl. by destruct (m_str s !! k); intros [= <-]. Qed.
Lemma mem_sets k v (s : MemRedis) : (redis_Set k v s).1 = Ok ().
Proof. done. Qed.
Lemma mem_lists k (s : MemRedis) : is_ok (redis_SMembers k s).1 = true.
Proof. done. Qed.
Lemma mem_clears (rs rs' : MemRedis) :
  redis_Del "*" rs = (Ok (), rs') → ∀ k, m_str rs' !! k = None ∧ set_of rs' k = ∅.
Proof. intros [= <-] k. split; [apply lookup_empty|]. unfold set_of. simpl. by rewrite lookup_empty. Qed.

(** ** Caches and the clock *)
#[export] Instance map_cache V : Cache (gmap string V) V := {
  cache_Get k c := (c !! k, c); cache_Set k v c := <[k := v]> c; cache_Del k c := delete k c }.
#[export] Instance map_cache_laws V : CacheLaws (gmap string V) V id.
Proof. by split. Qed.
#[export] Instance counter : Clock Z := { clock_Unix c := (c, c + 1) }.
#[export] Instance counter_laws : ClockLaws Z id.
Proof. split. intros c. simpl. unfold id. lia. Qed.

(** ** Documents: a CNAME set is written as its host, any other document is
    accepted as an empty set. *)
Definition blank {R} (r : R) : Json R := {| Marshal _ := Err "unsupported"; Unmarshal _ := Ok r |}.
#[export] Instance host_json : Json CNAME_RRSet := {
  Marshal r := Ok (CNAME_Host r);
  Unmarshal s := Ok {| CNAME_Generic := ttl300; CNAME_Host := s |} }.
Definition alias_set : CNAME_RRSet := {| CNAME_Generic := ttl300; CNAME_Host := "www.example.com." |}.
Definition alias_entry : locationEntry := {|
  le_A := None; le_AAAA := None; le_CNAME := Some alias_set; le_TXT := None; le_NS := None;
  le_MX := None; le_SRV := None; le_CAA := None; le_PTR := None; le_TLSA := None; le_DS := None;
  le_ANAME := None |}.
#[export] Instance docs : JsonDocs := {
  json_IP := blank zero; json_CNAME := host_json; json_TXT := blank zero; json_NS := blank zero;
  json_MX := blank zero; json_SRV := blank zero; json_CAA := blank zero; json_PTR := blank zero;
  json_TLSA := blank zero; json_DS := blank zero; json_ANAME := blank zero;
  json_config := blank (Zone.Config ex_zone); json_location := blank alias_entry }.

(** The names of the types in the keys. *)
Definition type_name (t : Z) : string :=
  match list_find (λ p : Z * string, p.1 = t)
    [(dns.TypeA, "A"); (dns.TypeAAAA, "AAAA"); (dns.TypeCNAME, "CNAME"); (dns.TypeTXT, "TXT");
     (dns.TypeNS, "NS"); (dns.TypeMX, "MX"); (dns.TypeSRV, "SRV"); (dns.TypeCAA, "CAA");
     (dns.TypePTR, "PTR"); (dns.TypeTLSA, "TLSA"); (dns.TypeDS, "DS")] with
  | Some (_, (_, s)) => s
  | None => empty_str
  end.
Lemma type_name_no_colon t : t ∈ record_types → no_colon (type_string type_name t).
Proof.
  revert t. apply Forall_forall. repeat apply Forall_cons_2; try apply Forall_nil_2;
    by apply (bool_decide_unpack _).
Qed.
Lemma type_name_inj t t' : t ∈ record_types → t' ∈ record_types →
  type_string type_name t = type_string type_name t' → t = t'.
Proof.
  intros Ht Ht'. assert (H : Forall (λ t, Forall (λ t', type_string type_name t = type_string type_name t' → t = t')
    record_types) record_types) by by apply (bool_decide_unpack _).
  rewrite Forall_forall in H. specialize (H t Ht). rewrite Forall_forall in H. by apply H.
Qed.

(** ** A data handler *)
Definition cfg : DataHandlerConfig := {|
  ZoneCacheTimeout := 60; ZoneReload := 60; RecordCacheTimeout := 60; MinTTL := 5; MaxTTL := 100 |}.
Definition www_key : string := zoneLocationRRSetKey type_name "example.com." "www" dns.TypeCNAME.
Definition content0 : MemRedis := {|
  m_str := {[ www_key := "host.example.com." ]};
  m_set := <[zonesKey := {["example.com."; "sub.example.com."]}]>
             {[ zoneLocationsKey "example.com." := {["@"; "www"]} ]} |}.
Abbreviation EDH := (DH AList.t MemRedis (gmap string AnyRRSet) (gmap string (Zone AList.t)) Z).
Definition dh0 : EDH := {|
  dh_redis := content0; dh_zones := New; dh_recordCache := ∅; dh_zoneCache := ∅; dh_clock := 1000 |}.
Definition no_rr (s : string) : res string (option RR) := Err "parse".
Definition no_pk (r : RR) (s : string) : res string string := Err "parse".
Definition keep_config (s : string) (c : ZoneConfig) : ZoneConfig := c.
Abbreviation ex_GetZone := (GetZone (RC:=gmap string AnyRRSet) cfg fqdn keep_config no_rr no_pk (λ _, 1) (λ _ _ _, None)).
Abbreviation ex_reachable := (reachable (records:=id) (zones:=id) cfg type_name fqdn keep_config no_rr no_pk
                                (λ _, 1) (λ _ _ _, None)).

Definition dh1 : EDH := (ex_GetZone "example.com." dh0).2.
Lemma dh1_reachable : ex_reachable dh1.
Proof. exists dh0. split; [done|]. apply rtc_once, step_GetZone. Qed.

Lemma splitDbKey_spec_witness :
  splitDbKey (zoneLocationRRSetKey type_name "example.com." "www" dns.TypeA)
  = ["example.com."; "labels"; "www"; "A"].
Proof.
  refine (proj1 (splitDbKey_spec type_name "example.com." "www" dns.TypeA "zsk" _ _ _ _));
    by apply (bool_decide_unpack _).
Defined.

Lemma readers_never_miscast_witness :
  (get_typed cfg type_name CNAME_RRSet dns.TypeCNAME "example.com." "www" dh1).1 ≠ Err ECast.
Proof.
  apply (readers_never_miscast (records:=id) (zones:=id) cfg type_name fqdn keep_config no_rr no_pk (λ _, 1) (λ _ _ _, None)
    type_name_no_colon type_name_inj); [apply _|apply dh1_reachable].
Defined.

Lemma GetZone_zone_ok_witness :
  ∃ z, (ex_GetZone "example.com." dh1).1 = Some (Some z) ∧ zone_ok "example.com." z.
Proof.
  eexists. split; [reflexivity|].
  apply (GetZone_zone_ok (records:=id) (zones:=id) cfg type_name fqdn keep_config no_rr no_pk (λ _, 1) (λ _ _ _, None)
    type_name_no_colon type_name_inj _ _ dh1); [apply dh1_reachable|reflexivity].
Defined.

(** A stale zone outlives a redis that answers nothing. *)
Definition dh2 : EDH := {|
  dh_redis := dh_redis dh1; dh_zones := dh_zones dh1; dh_recordCache := dh_recordCache dh1;
  dh_zoneCache := dh_zoneCache dh1; dh_clock := 1010 |}.
Definition cached : Zone AList.t := default ex_zone (dh_zoneCache dh2 !! "example.com.").
Lemma GetZone_cached_witness :
  (ex_GetZone "example.com." dh2).1 = Some (Some cached)
  ∧ dh_redis (ex_GetZone "example.com." dh2).2 = dh_redis dh2.
Proof.
  pose proof (GetZone_cached cfg fqdn keep_config no_rr no_pk (λ _, 1) (λ _ _ _, None)
    "example.com." cached dh2 eq_refl) as H.
  assert (E : ((clock_Unix (dh_clock dh2)).1 <=? CacheTimeout cached) = true) by (vm_compute; reflexivity).
  rewrite E in H. exact H.
Defined.

Lemma FindZone_longest_witness :
  let r := (FindZone "www.sub.example.com." (LoadZones dh0).2).1 in
  (r ∈ elements ({["example.com."; "sub.example.com."]} : gset string) ∧ encloses r "www.sub.example.com."
   ∧ ∀ z, z ∈ elements ({["example.com."; "sub.example.com."]} : gset string) →
       encloses z "www.sub.example.com." → (String.length z ≤ String.length r)%nat)
  ∨ (r = empty_str
     ∧ ∀ z, z ∈ elements ({["example.com."; "sub.example.com."]} : gset string) →
         ¬ encloses z "www.sub.example.com.").
Proof.
  apply (FindZone_longest (T:=AList.t) "www.sub.example.com."); [by apply (bool_decide_unpack _)| |reflexivity].
  apply Forall_forall. intros z Hz%elem_of_elements.
  apply elem_of_union in Hz as [->%elem_of_singleton| ->%elem_of_singleton]; by apply (bool_decide_unpack _).
Defined.

Lemma SetRRSet_roundtrip_witness :
  (SetRRSet type_name "example.com." "alias" dns.TypeCNAME alias_set dh0).1 = Ok ()
  ∧ let s1 := (SetRRSet type_name "example.com." "alias" dns.TypeCNAME alias_set dh0).2 in
    let r1 := (get_typed cfg type_name CNAME_RRSet dns.TypeCNAME "example.com." "alias" s1).1 in
    r1 = Ok alias_set ∨ ∃ e, r1 = Err (ERedis e).
Proof.
  split; [reflexivity|].
  apply (SetRRSet_roundtrip (time:=id) cfg type_name CNAME_RRSet "example.com." "alias" dns.TypeCNAME alias_set
           "www.example.com." dh0); [reflexivity|vm_compute; discriminate|reflexivity|reflexivity|].
  vm_compute. reflexivity.
Defined.

Lemma SetLocationFromJson_stores_witness :
  let r := SetLocationFromJson cfg type_name "example.com." "alias" "{}" dh0 in
  m_str (dh_redis r.2) !! zoneLocationRRSetKey type_name "example.com." "alias" dns.TypeCNAME
  = Some "www.example.com.".
Proof.
  refine (proj2 (proj2 (SetLocationFromJson_stores (rstr:=λ s k, m_str s !! k) (rset:=set_of) cfg type_name
    (λ _ _ _, eq_refl) type_name_inj "example.com." "alias" "{}" alias_entry dh0 eq_refl eq_refl))
    dns.TypeCNAME _).
  by apply (bool_decide_unpack _).
Defined.

Lemma server_answers_content_witness :
  let I := dh_store cfg type_name fqdn keep_config no_rr no_pk (λ _, 1) (λ _ _ _, None) in
  (resolve (S:=EDH * unit) lower_id fqdn geo ex_zone "example.com." false "www.example.com."
     (query "www.example.com." dns.TypeA false) (dh0, ())).1
  = (resolve (S:=Snapshot AList.t * unit) lower_id fqdn geo ex_zone "example.com." false "www.example.com."
       (query "www.example.com." dns.TypeA false)
       (content (rstr:=λ s k, m_str s !! k) type_name dh0, ())).1.
Proof.
  apply (server_answers_content (rstr:=λ s k, m_str s !! k) (rset:=set_of) (time:=id)).
  - intros k rs e. simpl. by destruct (m_str rs !! k) as [v|]; intros [= <-].
  - vm_compute. reflexivity.
Defined.
