(* ===== verification/ExamplesEndToEnd.v ===== *)
(** * A test case run end to end

    One zone with one document, written into the in-memory redis and answered. *)
From S2P Require Import Prelude GoStrings Radix DnsTypes Zone Geo IpSelect Dnssec Redis Store.
From S2P Require Import Request Handler HandlerFacts HandlerRun DataHandler DataHandlerFacts Config TestCase EndToEnd.
From S2P Require Import Examples ExamplesStore.
Local Open Scope Z_scope.

(** Documents: every one of addresses is that of [www_A], every location has it. *)
Definition www_entry : locationEntry := {|
  le_A := Some www_A; le_AAAA := None; le_CNAME := None; le_TXT := None; le_NS := None;
  le_MX := None; le_SRV := None; le_CAA := None; le_PTR := None; le_TLSA := None; le_DS := None;
  le_ANAME := None |}.
#[local] Instance www_docs : JsonDocs := {|
  json_IP := {| Marshal _ := Ok "{a}"; Unmarshal _ := Ok www_A |};
  json_CNAME := blank zero; json_TXT := blank zero; json_NS := blank zero;
  json_MX := blank zero; json_SRV := blank zero; json_CAA := blank zero; json_PTR := blank zero;
  json_TLSA := blank zero; json_DS := blank zero; json_ANAME := blank zero;
  json_config := blank (Zone.Config ex_zone); json_location := blank www_entry |}.
Definition www_case : TestCase := {|
  tc_Name := "addresses"; Description := "a zone with one name"; Enabled := true;
  RedisDataConfig := DefaultRedisDataTestConfig; HandlerConfig := DefaultHandlerTestConfig;
  Zones := ["example.com."]; ZoneConfigs := ["{}"]; Entries := [[["www"; "{location}"]]]; TestCases := [] |}.
Definition fresh : EDH := {|
  dh_redis := content0; dh_zones := New; dh_recordCache := ∅; dh_zoneCache := ∅; dh_clock := 1000 |}.
Abbreviation initialize := (DefaultInitialize type_name www_case).
Definition ready_state : EDH := (initialize fresh).2.
Abbreviation www_query := (query "www.example.com." dns.TypeA false).

Lemma www_labels zone l : label_of www_case zone l → l = "@" ∨ l = "www".
Proof.
  intros [->|(i & cmds & cmd & Hz & Hc & Hcmd & H0)]; [by left|right].
  destruct i as [|i]; [|done]. injection Hc as <-. apply list_elem_of_singleton in Hcmd. subst cmd. by injection H0 as <-.
Qed.
Lemma www_plain : plain www_case.
Proof.
  split.
  - intros zone ->%list_elem_of_singleton. split; by apply (bool_decide_unpack _).
  - intros zone l [->| ->]%www_labels; split; by apply (bool_decide_unpack _).
Qed.

