(* ===== verification/ExamplesPerf.v ===== *)
(** * The load test run end to end

    Two zones of two addresses are drawn, written into the in-memory redis, and asked
    for. The JSON documents are read by a reader of the generator's own format. *)
From S2P Require Import Prelude GoStrings GoText Radix DnsTypes Zone Geo IpSelect Dnssec Redis Store.
From S2P Require Import Request Handler HandlerFacts HandlerRun DataHandler DataHandlerFacts Config TestCase EndToEnd.
From S2P Require Import PerfGen PerfBulk PerfEndToEnd Examples ExamplesStore.
Local Open Scope Z_scope.

(** ** A random source that counts *)
#[local] Instance counting : Rand Z := {
  Int63 n := (n `mod` 26, n + 1); Intn m n := (n `mod` m, n + 1); rand_Int n := (n, n + 1);
}.
#[local] Instance counting_laws : RandLaws Z.
Proof. split. intros m g Hm. apply Z.mod_pos_bound. lia. Qed.

Example one_string : (RandomString 15 15 3).1 = Ok "aaaaeaaaaaaaaad".
Proof. vm_compute. reflexivity. Qed.
Lemma RandomString_letters_witness : RandomString 20 15 3 = (Ok "aaaaeaaaaaaaaad", 5).
Proof.
  rewrite (RandomString_letters 20 15 2 3); [reflexivity|lia|vm_compute; lia|lia|right; vm_compute; lia].
Defined.

(** ** A reader of the documents *)
Definition all_bytes : list byte := ascii_of_N ∘ N.of_nat <$> seq 0 256.
Definition read_byte (s : string) : option byte := snd <$> list_find (λ b, byte_text b = s) all_bytes.
Definition read_octets (s : string) : option (list byte) := mapM read_byte (Split s dot).
(** The text before and after the address of a document. *)
Definition opening : string :=
  "{" +:+ quoted "a" +:+ ":{" +:+ quoted "ttl" +:+ ":300, " +:+ quoted "records" +:+ ":[{" +:+ quoted "ip" +:+ ":"
  +:+ String dquote EmptyString.
Definition closing_text : string := String dquote "}]}}".
Definition read_document (doc : string) : option (list byte) :=
  read_octets (TrimSuffix (TrimPrefix doc opening) closing_text).

Lemma read_byte_text b : read_byte (byte_text b) = Some b.
Proof. by destruct b as [[] [] [] [] [] [] [] []]; vm_compute. Qed.
Lemma no_byte c b : c = dot ∨ c = dquote → c ∉ bytes (byte_text b).
Proof. intros [-> | ->]; destruct b as [[] [] [] [] [] [] [] []]; by apply (bool_decide_unpack _). Qed.
Lemma Split_dot x rest : dot ∉ bytes x → Split (x +:+ "." +:+ rest) dot = x :: Split rest dot.
Proof.
  intros Hc. unfold Split. rewrite !bytes_app. change (bytes "." ++ bytes rest) with (dot :: bytes rest).
  rewrite split_on_app by done. csimpl. by rewrite str_bytes.
Qed.
Lemma Split_end c x : c ∉ bytes x → Split x c = [x].
Proof. intros Hc. unfold Split. rewrite split_on_no by done. csimpl. by rewrite str_bytes. Qed.

Lemma read_octets_ok l : length l = 4%nat → read_octets (dotted l) = Some l.
Proof.
  intros Hl. destruct l as [|a [|b [|c [|d [|]]]]]; try done. unfold read_octets, dotted.
  assert (Hn : ∀ b, dot ∉ bytes (byte_text b)) by (intros x; apply no_byte; by left).
  rewrite !Split_dot, Split_end by apply Hn.
  apply mapM_Some. repeat constructor; apply read_byte_text.
Qed.
Lemma read_document_ok l : length l = 4%nat → read_document (json_a (dotted l)) = Some l.
Proof.
  intros Hl. unfold read_document.
  assert (json_a (dotted l) = opening +:+ dotted l +:+ closing_text) as ->.
  { unfold json_a, quoted. apply bytes_inj. by rewrite !bytes_app, <-!app_assoc. }
  by rewrite TrimPrefix_app, TrimSuffix_app, read_octets_ok.
Qed.

#[local] Instance perf_docs : JsonDocs := {|
  json_IP := {| Marshal r := match IP_Data r with x :: _ => Ok (json_a (IP_String (IP_Ip x))) | [] => Err empty_str end;
                Unmarshal doc := match read_document doc with Some l => Ok (a_set l) | None => Err empty_str end |};
  json_CNAME := blank zero; json_TXT := blank zero; json_NS := blank zero;
  json_MX := blank zero; json_SRV := blank zero; json_CAA := blank zero; json_PTR := blank zero;
  json_TLSA := blank zero; json_DS := blank zero; json_ANAME := blank zero;
  json_config := blank (Zone.Config ex_zone);
  json_location := {| Marshal _ := Err empty_str;
                      Unmarshal doc := match read_document doc with Some l => Ok (a_entry l) | None => Err empty_str end |} |}.
#[local] Instance perf_addresses : JsonAddresses.
Proof.
  split; intros l Hl.
  - cbn. by rewrite read_document_ok.
  - exists (json_a (dotted l)). cbn -[json_a read_document IP_String v4InV6Prefix].
    by rewrite IP_String_dotted, read_document_ok.
Qed.

(** ** The run *)
Definition perf_flags : GenFlags := {| fl_zones := 2; fl_entries := 2; fl_type := "a"; fl_addr := "localhost:6379" |}.
Definition blank_dh : EDH := {|
  dh_redis := content0; dh_zones := New; dh_recordCache := ∅; dh_zoneCache := ∅; dh_clock := 1000 |}.
Abbreviation perf_gen := (gen_main type_name (λ _, true) 20 perf_flags (0, blank_dh)).

Example query_file :
  match perf_gen.1 with
  | Ok gd => queryAddr <$> read_queries (query_txt gd)
  | Err _ => []
  end = ["aaaadaaaaaaaaac.aaaabaaaaaaaaaa.tst."; "aaaajaaaaaaaaai.aaaabaaaaaaaaaa.tst.";
         "aaaaraaaaaaaaaq.aaaapaaaaaaaaao.tst."; "aaaaxaaaaaaaaaw.aaaapaaaaaaaaao.tst."].
Proof. vm_compute. reflexivity. Qed.

Definition perf_out : Generated :=
  match perf_gen.1 with Ok gd => gd | Err _ => {| query_txt := empty_str; zone_files := [] |} end.
Definition perf_redis : MemRedis := dh_redis perf_gen.2.2.
