(* ===== verification/ExamplesTools.v ===== *)
(** * The query tool at work

    A dump of the in-memory redis, a pool of one worker, two servers that order their
    answers differently, and times in exact rational arithmetic. *)
From Stdlib Require Import QArith Qcanon Field OrdersEx.
From S2P Require Import Prelude GoStrings Radix DnsTypes Zone Geo Redis Store Request TestHelpers DataHandler DataHandlerFacts.
From S2P Require Import Config EndToEnd QuerySource QueryTool QueryRun Examples ExamplesStore.
From S2P Require WorkerPool.
Local Open Scope Z_scope.

(** ** A dump *)
Abbreviation ex_dump :=
  (NewRedisDumpQueryGenerator fqdn keep_config no_rr no_pk (λ _, 1) (λ _ _ _, None) "localhost:6379" (RC:=gmap string AnyRRSet)).
Definition dumped : RedisDumpQueryGenerator :=
  default {| dump_redisAddress := empty_str; dump_queries := []; dump_pos := 0 |} (ex_dump dh0).1.

(** ** The pool *)
Definition two_queries : RedisDumpQueryGenerator := {|
  dump_redisAddress := empty_str; dump_pos := 0;
  dump_queries := [{| query.QName := "example.com."; query.QType := "A" |};
                   {| query.QName := "example.com."; query.QType := "MX" |}] |}.
Lemma can_finish_witness :
  ∃ s, reached 1 two_queries s ∧ at_ s = Returned
    ∧ WorkerPool.submitted (pool s) ≡ₚ (WorkerPool.handled (pool s)).*1.
Proof.
  destruct (can_finish 1 two_queries (start 1 two_queries)) as (s & Hr & Ha & Hh).
  - lia.
  - vm_compute. discriminate.
  - by eexists _, _.
  - apply rtc_refl.
  - exists s. split; [exact Hr|]. split; [exact Ha|]. apply Hh; discriminate.
Defined.

Definition one_query : RedisDumpQueryGenerator := {|
  dump_redisAddress := empty_str; dump_pos := 0;
  dump_queries := [{| query.QName := "example.com."; query.QType := "A" |}] |}.
Lemma reported_after_all_begun_witness :
  ∃ s, reached 1 one_query s ∧ at_ s = Returned ∧ WorkerPool.handled (pool s) = []
    ∧ WorkerPool.sending (pool s) = []
    ∧ ∀ w j, WorkerPool.WorkerList (pool s) !! w = Some (WorkerPool.Running j) → w ∈ begun s.
Proof.
  edestruct (reported_before_answer one_query) as (s & Hr & Ha & _ & Hh); [vm_compute; reflexivity|reflexivity|].
  destruct (reported_after_all_begun 1 one_query s Hr (or_intror Ha)) as (_ & _ & _ & _ & _ & Hs & Hb & _).
  exists s. split; [exact Hr|]. split; [exact Ha|]. split; [exact Hh|]. split; [exact Hs|exact Hb].
Defined.

(** ** Two servers *)
Definition rr_text (r : RR) : string :=
  rr_name r +:+ Itoa (rr_type r) +:+ match Data r with RD_A a => GoText.IP_String a | _ => empty_str end.
Definition not_after (a b : RR) : Prop := String.ltb (rr_text b) (rr_text a) = false.
#[local] Instance not_after_dec a b : Decision (not_after a b).
Proof. unfold not_after. apply _. Defined.
Definition by_text : list RR → list RR := merge_sort not_after.

Lemma not_after_lt a b : not_after a b ↔ ¬ String_as_OT.lt (rr_text b) (rr_text a).
Proof.
  unfold not_after, String.ltb, String_as_OT.lt. change String.compare with String_as_OT.compare.
  by destruct (String_as_OT.compare _ _).
Qed.
#[local] Instance not_after_trans : Transitive not_after.
Proof.
  intros a b c. rewrite !not_after_lt. intros Hab Hbc Hca.
  destruct (String_as_OT.compare_spec (rr_text b) (rr_text c)) as [E|Hlt|Hgt].
  - unfold String_as_OT.eq in E. apply Hab. by rewrite E.
  - apply Hab. by transitivity (rr_text c).
  - by apply Hbc.
Qed.
#[local] Instance not_after_total : Total not_after.
Proof.
  intros a b. rewrite !not_after_lt.
  destruct (String_as_OT.compare_spec (rr_text a) (rr_text b)) as [E|Hlt|Hgt].
  - left. unfold String_as_OT.eq in E. rewrite E. apply (irreflexivity String_as_OT.lt).
  - left. intros Hgt. apply (irreflexivity String_as_OT.lt (rr_text a)). by transitivity (rr_text b).
  - right. intros Hlt. apply (irreflexivity String_as_OT.lt (rr_text a)). by transitivity (rr_text b).
Qed.
#[local] Instance by_text_sorts : Sorter rr_text by_text.
Proof.
  split; intros l; [apply merge_sort_Permutation|]. apply (StronglySorted_merge_sort not_after).
Qed.

Definition type_number (t : string) : option Z := if decide (t = "A") then Some dns.TypeA else None.
Definition address (ip : list byte) : RR := {| Header := inet "www.example.com." dns.TypeA 300; Data := RD_A (Some (str ip)) |}.
Definition answer_of (l : list RR) : Response := {|
  resp_Question := [("www.example.com.", dns.TypeA)];
  resp_Msg := {| Request.Rcode := dns.RcodeSuccess; Authoritative := true; RecursionAvailable := true; Compress := true;
                 MsgAnswer := l; MsgNs := []; MsgExtra := [] |} |}.
Definition one_ip : RR := address (GoText.v4InV6Prefix ++ ["001"; "001"; "001"; "001"]%char).
Definition other_ip : RR := address (GoText.v4InV6Prefix ++ ["002"; "002"; "002"; "002"]%char).
(** The second server answers in another order; the third does not answer. *)
Definition two_servers (m : Request.Query) (server : string) : M unit (res string (Response * Z)) := λ w,
  (if decide (server = "one") then Ok (answer_of [one_ip; other_ip], 100)
   else if decide (server = "two") then Ok (answer_of [other_ip; one_ip], 100)
   else Err "timeout", w).
Definition asked : query.Query := {| query.QName := "www.example.com."; query.QType := "A" |}.
Example third_differs :
  (CompareTool_Act type_number two_servers by_text (NewCompareTool "one" "three") asked ()).1
  = Some [ErrorsDiffer asked None (Some "timeout")].
Proof. vm_compute. reflexivity. Qed.
Lemma CompareTool_silent_witness :
  (CompareTool_Act type_number two_servers by_text (NewCompareTool "one" "two") asked ()).1 = Some []
  ∧ answers_agree by_text (resp_Msg (answer_of [one_ip; other_ip])) (resp_Msg (answer_of [other_ip; one_ip])).
Proof.
  assert (E : (CompareTool_Act type_number two_servers by_text (NewCompareTool "one" "two") asked ()).1 = Some [])
    by (vm_compute; reflexivity).
  split; [exact E|].
  apply (CompareTool_silent type_number two_servers by_text (rr_String:=rr_text)) in E.
  destruct E as [(e & H1 & _)|(r1 & t1 & r2 & t2 & H1 & H2 & _ & Ha)].
  - vm_compute in H1. discriminate H1.
  - injection H1 as <- _. injection H2 as <- _. exact Ha.
Defined.

(** ** Times in exact arithmetic *)
Definition rational (z : Z) : Qc := Q2Qc (inject_Z z).
#[local] Instance exact_floats : Float64 Qc := {
  f_of_Z := rational; f_pi := rational 3; f_add := Qcplus; f_sub := Qcminus; f_mul := Qcmult; f_div := Qcdiv;
  f_sin := id; f_cos := id; f_sqrt := id; f_atan2 := Qcplus;
  f_ltb a b := bool_decide (a < b)%Qc; f_eqb a b := bool_decide (a = b) }.
Lemma rational_add a b : rational (a + b) = (rational a + rational b)%Qc.
Proof.
  unfold rational, Qcplus. apply Qc_is_canon. cbn. rewrite !Qred_correct. unfold Qeq, inject_Z, Qplus. cbn. lia.
Qed.
Lemma rational_pos n : 0 < n → rational n ≠ rational 0.
Proof.
  unfold rational. intros Hn E%(f_equal this). cbn in E. 
  assert (Hq : (inject_Z n == inject_Z 0)%Q) by (rewrite <-(Qred_correct (inject_Z n)), E; apply Qred_correct).
  unfold Qeq, inject_Z in Hq. cbn in Hq. lia.
Qed.
Lemma exact_theory : field_theory (f_of_Z (F:=Qc) 0) (f_of_Z 1) f_add f_mul f_sub Qcopp f_div Qcinv (=).
Proof. exact Qcft. Qed.
(** Round trips of 1, 2 and 3 milliseconds: the mean is 2, the deviation, which would be
    0.82 or 1, is printed as 0.002. *)
Definition trips : list Z := [1000000; 2000000; 3000000].
