(* ===== verification/ExamplesNet.v ===== *)
(** * The theorems on the limiter, the upstream client and the health checks at work

    In-memory caches, a network with fixed answers and a small codec for items; for
    each theorem an instance of it with its hypotheses evaluated. *)
From S2P Require Import Prelude GoStrings Radix DnsTypes Zone Redis Store DataHandler DataHandlerFacts Health.
From S2P Require RateLimit Upstream WorkerPool.
From S2P Require Import Examples ExamplesStore.
Local Open Scope Z_scope.

(** ** The rate limiter: 600 requests a minute, bursts of two *)
Abbreviation limiter_cache := (gmap string (RateLimit.Limiter * Z)).
#[export] Instance limiters : RateLimit.TTLCache limiter_cache RateLimit.Limiter := {
  RateLimit.tc_Get k now c := match c !! k with
                              | Some (v, exp) => if now <=? exp then Some v else None
                              | None => None
                              end;
  RateLimit.tc_Set k v now d c := <[k := (v, now + d)]> c;
}.
Definition peek_limiter (c : limiter_cache) (k : string) : option (RateLimit.Limiter * Z) := c !! k.
#[export] Instance limiters_laws : RateLimit.TTLCacheLaws limiter_cache RateLimit.Limiter peek_limiter.
Proof.
  split; [done|]. intros k v now d c k'. unfold peek_limiter. simpl.
  case_decide; [subst; by rewrite lookup_insert_eq|by rewrite lookup_insert_ne].
Qed.
Definition rate_cfg : RateLimit.Config := {|
  RateLimit.Enable := true; RateLimit.Burst := 2; RateLimit.Rate := 600;
  RateLimit.cfg_WhiteList := []; RateLimit.cfg_BlackList := ["6.6.6.6"] |}.
Definition limiter : RateLimit.RateLimiter := {|
  RateLimit.MaxTime := 200 * RateLimit.Millisecond; RateLimit.TimeStep := 100 * RateLimit.Millisecond;
  RateLimit.rl_Config := rate_cfg; RateLimit.WhiteList := ∅; RateLimit.BlackList := {["6.6.6.6"]} |}.
Lemma limiter_new : RateLimit.NewRateLimiter rate_cfg = Some limiter.
Proof. reflexivity. Qed.
(** Readings of the clock at a millisecond. *)
Definition at_ms (ms : Z) : RateLimit.Times :=
  let t := ms * RateLimit.Millisecond in
  {| RateLimit.t_get := t; RateLimit.t_since := t; RateLimit.t_now := t; RateLimit.t_set := t |}.
Definition requests : list RateLimit.Times := at_ms <$> [1; 2; 3; 4; 5].

Lemma limiter_fits : RateLimit.fits limiter.
Proof. vm_compute. discriminate. Qed.
Lemma limiter_limited : RateLimit.limited limiter "1.2.3.4".
Proof. split_and!; [reflexivity|by apply (bool_decide_unpack _)..]. Qed.
Lemma requests_ordered : RateLimit.ordered 0 requests.
Proof. vm_compute. repeat (split; [first [discriminate|reflexivity]|]). exact I. Qed.

Lemma rate_bound_witness :
  RateLimit.accepted (RateLimit.serve limiter "1.2.3.4" requests (∅ : limiter_cache)).1 = 3
  ∧ 3 * RateLimit.TimeStep limiter
    ≤ RateLimit.MaxTime limiter + RateLimit.TimeStep limiter + (RateLimit.end_time 0 requests - 0).
Proof.
  assert (E : RateLimit.accepted (RateLimit.serve limiter "1.2.3.4" requests (∅ : limiter_cache)).1 = 3)
    by (vm_compute; reflexivity).
  split; [exact E|]. rewrite <-E.
  apply (RateLimit.rate_bound (peek:=peek_limiter) limiter ltac:(vm_compute; discriminate)
           ltac:(vm_compute; discriminate) "1.2.3.4" 0 requests ∅);
    [apply limiter_fits|apply limiter_limited|lia|reflexivity|apply requests_ordered].
Defined.

Lemma steady_client_accepted_witness :
  (RateLimit.CanHandle limiter "1.2.3.4" (at_ms 200)
     (RateLimit.serve limiter "1.2.3.4" requests (∅ : limiter_cache)).2).1 = true.
Proof.
  apply (RateLimit.steady_client_accepted (peek:=peek_limiter) limiter ltac:(vm_compute; discriminate)
           ltac:(vm_compute; discriminate) "1.2.3.4" 0 requests (at_ms 200) ∅);
    [apply limiter_fits|apply limiter_limited|lia|reflexivity|apply requests_ordered
    |vm_compute; discriminate|vm_compute; discriminate|vm_compute; reflexivity|].
  intros l exp E. vm_compute in E. injection E as <- <-. vm_compute. discriminate.
Defined.

(** ** The upstream client: the first of two servers is down *)
Record rr_cache := { rc_default : Z; rc_map : gmap string (list RR * Z) }.
#[export] Instance rr_caches : Upstream.RRCache rr_cache := {
  Upstream.uc_New d _ := {| rc_default := d; rc_map := ∅ |};
  Upstream.uc_Get k now c := match rc_map c !! k with
                             | Some (v, exp) => if now <=? exp then Some (v, exp) else None
                             | None => None
                             end;
  Upstream.uc_Set k v now d c := {|
    rc_default := rc_default c;
    rc_map := <[k := (v, now + if d =? 0 then rc_default c else d)]> (rc_map c) |};
  Upstream.uc_Update k v c := {|
    rc_default := rc_default c; rc_map := alter (λ p, (v, p.2)) k (rc_map c) |};
}.
#[export] Instance rr_caches_laws :
  Upstream.RRCacheLaws rr_cache (λ c k, rc_map c !! k) rc_default.
Proof.
  split; [done|done|]. intros k v now d c Hd. split; [done|]. intros k'. simpl.
  case_decide; [subst; by rewrite lookup_insert_eq|by rewrite lookup_insert_ne].
Qed.
Definition up_rr : RR := {| Header := inet "up.test." dns.TypeA 60; Data := RD_A (Some "9.9.9.9") |}.
Definition up_reply (c : Upstream.Connection) : res string Upstream.DnsReply :=
  if decide (Upstream.connectionStr c = "10.0.0.1:53") then Err "timeout"
  else Ok {| Upstream.Rcode := dns.RcodeSuccess; Upstream.Answer := [up_rr] |}.
#[export] Instance up_network : Upstream.Network Z := {
  Upstream.Exchange c q t n := (up_reply c, n + 1); Upstream.net_Now n := (n, n + 1) }.
#[export] Instance up_network_laws : Upstream.NetworkLaws Z id.
Proof. split; intros; unfold id; simpl; lia. Qed.
Definition up_config (ip : string) : Upstream.UpstreamConfig := {|
  Upstream.up_Ip := ip; Upstream.up_Port := 53; Upstream.up_Protocol := "udp"; Upstream.up_Timeout := 400 |}.
Definition up0 : Upstream.Upstream rr_cache Z :=
  Upstream.NewUpstream [up_config "10.0.0.1"; up_config "10.0.0.2"] 1000.
Lemma up_ttl c r x : up_reply c = Ok r → x ∈ Upstream.Answer r → 0 ≤ rr_ttl x.
Proof.
  unfold up_reply. case_decide; [done|]. intros [= <-] ->%list_elem_of_singleton. vm_compute. discriminate.
Qed.
Lemma up_replies c (n : Z) : (Upstream.Exchange c "up.test." dns.TypeA n).1 = up_reply c.
Proof. reflexivity. Qed.
Lemma up_misses : Upstream.misses (time:=id) "up.test." dns.TypeA up0.
Proof. intros now _. reflexivity. Qed.

Lemma Query_failover_witness :
  (Upstream.Query "up.test." dns.TypeA up0).1 = ([up_rr], dns.RcodeSuccess)
  ∧ Upstream.connections (Upstream.Query "up.test." dns.TypeA up0).2
    = [Upstream.new_connection (up_config "10.0.0.2"); Upstream.new_connection (up_config "10.0.0.2")].
Proof.
  destruct (Upstream.Query_failover (peek:=λ c k, rc_map c !! k) (dflt:=rc_default) (time:=id) "up.test." dns.TypeA
              up_reply up_replies up_ttl up0 up_misses) as (E1 & E2 & _).
  rewrite E1, E2. split; vm_compute; reflexivity.
Defined.

Lemma Query_cached_witness :
  ∃ now, 1000 ≤ now ∧
    let u1 := (Upstream.Query "up.test." dns.TypeA up0).2 in
    let n := Upstream.up_net u1 in
    let u2 := {| Upstream.connections := Upstream.connections u1; Upstream.up_cache := Upstream.up_cache u1;
                 Upstream.up_net := n |} in
    (Upstream.Query "up.test." dns.TypeA u2).1.2 = dns.RcodeSuccess.
Proof.
  destruct (Upstream.Query_cached (peek:=λ c k, rc_map c !! k) (dflt:=rc_default) (time:=id) "up.test." dns.TypeA
              up_reply up_replies up_ttl
              (Upstream.new_connection (up_config "10.0.0.2"))
              {| Upstream.Rcode := dns.RcodeSuccess; Upstream.Answer := [up_rr] |} up0
              (Upstream.up_net (Upstream.Query "up.test." dns.TypeA up0).2)
              up_misses) as (now & Hnow & H).
  - vm_compute. reflexivity.
  - reflexivity.
  - intros x ->%list_elem_of_singleton. reflexivity.
  - reflexivity.
  - exists now. change (1000 ≤ now ≤ 1004) in Hnow. split; [lia|]. cbv zeta. apply H.
    + lia.
    + change (1004 ≤ now + 60000000000). lia.
    + change (1006 < now + 60000000000 + 1000000000). lia.
Defined.

(** ** Health checks: an item of [www] whose document is its status in unary *)
Definition hc_item : HealthCheckItem := {|
  Protocol := "http"; Uri := "/"; Port := 80; Status := 0; LastCheck := 5; Timeout := 100;
  UpCount := 3; DownCount := -3; hc_Enable := true; hc_DomainId := empty_str;
  Host := "www.example.com."; Ip := "1.1.1.1"; Error := None |}.
Definition encode_item (i : HealthCheckItem) : res string string :=
  Ok (String (if Status i <? 0 then "-"%char else "+"%char) (str (replicate (Z.abs_nat (Status i)) "x"%char))).
Definition decode_item (s : string) : HealthCheckItem :=
  match s with
  | String b r => let n := Z.of_nat (length (bytes r)) in
                  with_status (if decide (b = "-"%char) then - n else n) hc_item
  | EmptyString => hc_item
  end.
Lemma item_json : json_keeps encode_item decode_item hc_item 5.
Proof.
  intros st err. eexists. split; [reflexivity|]. unfold decode_item. cbv zeta.
  rewrite bytes_str, length_replicate. unfold checked, with_check, with_status. simpl.
  destruct (Z.ltb_spec st 0); simpl; f_equal; lia.
Qed.
Definition net_up : Network := {|
  NewRequest_err _ := None; client_Do _ _ _ _ := Ok 200; ListenPacket_err := None;
  exchange _ _ _ := Err "timeout" |}.
Definition no_ip (s : string) : option (list Z) := None.
Abbreviation item0_key := (item_key (Host hc_item) (Ip hc_item)).
Definition sh0 : SH MemRedis (gmap string HealthCheckItem) := {|
  sh_redis := {| m_str := {[ statPrefix +:+ item0_key := "+" ]}; m_set := ∅ |}; sh_cache := ∅ |}.

Lemma checks_streak_witness :
  stored_status (rstr:=λ s k, m_str s !! k) decode_item item0_key
    (check_all encode_item decode_item no_ip 0 item0_key [(net_up, 5); (net_up, 5)] sh0).2 hc_item 2.
Proof.
  apply (checks_streak (rset:=set_of) encode_item decode_item no_ip 0 mem_answers (λ _ _ _, eq_refl)
           true hc_item) with (jobs := [(net_up, 5); (net_up, 5)]) (st := 0).
  - simpl. lia.
  - simpl. lia.
  - discriminate.
  - lia.
  - exists "+", 5. split; reflexivity.
  - repeat constructor; first [apply item_json|exists None; split; reflexivity].
Defined.

(** Nothing is known of the addresses: every status is 0. *)
Definition sh1 : SH MemRedis (gmap string HealthCheckItem) := {|
  sh_redis := {| m_str := ∅; m_set := ∅ |}; sh_cache := ∅ |}.
Definition ip_text (ip : IP) : string := default "<nil>" ip.
Definition whites : list Z := [IpMaskWhite; IpMaskGrey; IpMaskWhite].
Lemma FilterHealthcheck_spec_witness :
  (FilterHealthcheck decode_item ip_text true "www.example.com." www_A whites sh1).1
  = remains ip_text (λ _, 0) "www.example.com." 0 <$> zip whites (IP_Data www_A).
Proof.
  refine (proj1 (FilterHealthcheck_spec (rstr:=λ s k, m_str s !! k) (rset:=set_of) (contents:=id)
    decode_item ip_text mem_answers (λ _, 0) "www.example.com." www_A whites _ _ _ sh1 _)).
  - vm_compute. split; reflexivity.
  - vm_compute. split; [discriminate|reflexivity].
  - vm_compute. lia.
  - split; [|done]. intros k i E. change ((∅ : gmap string HealthCheckItem) !! k = Some i) in E. by rewrite lookup_empty in E.
Defined.

Definition no_zones : EDH := {|
  dh_redis := {| m_str := ∅; m_set := ∅ |}; dh_zones := New; dh_recordCache := ∅; dh_zoneCache := ∅;
  dh_clock := 1000 |}.
Lemma Transfer_spins_witness :
  (Transfer cfg type_name fqdn keep_config no_rr no_pk (λ _, 1) (λ _ _ _, None)
     encode_item decode_item ip_text 60 100 0 (no_zones, sh0)).1 = WalkOn 0.
Proof.
  apply (Transfer_spins (rstr:=λ s k, m_str s !! k) (rset:=set_of)). reflexivity.
Defined.

(** ** A pool of one worker, with a job in its queue *)
Definition one_job : WorkerPool.Dispatcher :=
  WorkerPool.Queue "job" (WorkerPool.Run (Nat.iter 1 WorkerPool.AddWorker WorkerPool.NewDispatcher)).
Lemma pool_handles_all_witness :
  WorkerPool.submitted one_job = ["job"]
  ∧ ∀ d', rtc (WorkerPool.step 10 1) one_job d' → nf (WorkerPool.step 10 1) d' →
      WorkerPool.submitted one_job ≡ₚ (WorkerPool.handled d').*1.
Proof.
  split; [reflexivity|].
  refine (proj2 (proj2 (proj2 (WorkerPool.pool_handles_all 10 1 1 one_job _ _ _)))).
  - lia.
  - apply WorkerPool.run_Queue, WorkerPool.run_start.
  - reflexivity.
Defined.

Definition one_stopped : WorkerPool.Dispatcher := default one_job (WorkerPool.Stop one_job).
Lemma pool_stop_returns_witness :
  sn (WorkerPool.step 10 1) one_stopped
  ∧ ∀ d', rtc (WorkerPool.step 10 1) one_stopped d' → nf (WorkerPool.step 10 1) d' →
      WorkerPool.ctl d' = WorkerPool.Ended ∧ WorkerPool.WorkerList d' = [WorkerPool.Gone].
Proof.
  refine (WorkerPool.pool_stop_returns 10 1 1 one_job one_stopped _ _ _).
  - lia.
  - apply WorkerPool.run_Queue, WorkerPool.run_start.
  - reflexivity.
Defined.
