(* ===== verification/ExamplesServer.v ===== *)
(** * The theorems on the processes at work: resolver, health checker, API server

    Requests to the API as data that already carry what gin and the JWT library
    would find in them; a limiter with pointers; services of one worker. *)
From S2P Require Import Prelude GoStrings Radix DnsTypes Zone Geo Redis Store Request Handler HandlerFacts.
From S2P Require Import DataHandler Config Health HealthService Resolver.
From S2P Require DataHandlerFacts RateLimit LimiterRuns WorkerPool Updater ZoneLoads HealthMain Lifecycle SingleFlight.
From S2P Require Import Examples ExamplesRedis ExamplesStore ExamplesNet.
Local Open Scope Z_scope.

(** ** A client that asks three times behind the limiter of [ExamplesNet] *)
Definition arrival (ip : string) (ms : Z) : Arrival (T:=AList.t) :=
  {| from_ip := ip; times := at_ms ms; context := query "www.example.com." dns.TypeA false |}.
Definition arrivals : list Arrival :=
  [arrival "1.2.3.4" 1; arrival "5.6.7.8" 2; arrival "1.2.3.4" 3; arrival "1.2.3.4" 4; arrival "1.2.3.4" 5].
Abbreviation answers_to :=
  (serve_requests (S:=unit) lower_id fqdn geo false (λ _, 1) sign map_to_list limiter arrivals (∅ : limiter_cache, ())).1.

(** ** The process: reloaded once, then interrupted *)
Definition same_config (file : string) (c : ResolverConfig) : ResolverConfig * option string := (c, None).

(** ** Calls of the limiter on a cache of pointers *)
Abbreviation pointer_cache := (gmap string (nat * Z)).
#[export] Instance pointers : RateLimit.TTLCache pointer_cache nat := {
  RateLimit.tc_Get k now c := match c !! k with
                              | Some (v, exp) => if now <=? exp then Some v else None
                              | None => None
                              end;
  RateLimit.tc_Set k v now d c := <[k := (v, now + d)]> c;
}.
Definition peek_pointer (c : pointer_cache) (k : string) : option (nat * Z) := c !! k.
#[export] Instance pointers_laws : RateLimit.TTLCacheLaws pointer_cache nat peek_pointer.
Proof.
  split; [done|]. intros k v now d c k'. unfold peek_pointer. simpl.
  case_decide; [subst; by rewrite lookup_insert_eq|by rewrite lookup_insert_ne].
Qed.
(** Two calls: the second arrives while the first has missed the cache, and finds
    the limiter of the first. *)
Definition shared (size : Z) : RateLimit.Limiter := {| RateLimit.Size := size; RateLimit.LastUpdate := 7 |}.
(** The states of the run: everything happens at time 7. *)
Definition known : pointer_cache := {["1.2.3.4" := (0%nat, 60000000007)]}.
Definition reading : RateLimit.Times * bool := (LimiterRuns.stamps 7 7 7, true).
Definition run_at (m : nat) (c : pointer_cache) (h : list Z) (lk : gset nat) (cs : list LimiterRuns.call)
    (log : list (RateLimit.Times * bool)) : LimiterRuns.Run pointer_cache := {|
  LimiterRuns.clock := 7; LimiterRuns.cache := c; LimiterRuns.heap := shared <$> h; LimiterRuns.locked := lk;
  LimiterRuns.calls := cs; LimiterRuns.log := log; LimiterRuns.misses := m |}.
Definition two_returned : LimiterRuns.Run pointer_cache :=
  run_at 1 known [200000000] ∅ [LimiterRuns.Returned true; LimiterRuns.Returned true] [reading; reading].
Abbreviation call_steps := (rtc (LimiterRuns.step limiter "1.2.3.4")).
Lemma next_state s s' t u : LimiterRuns.step limiter "1.2.3.4" s s' → s' = t → call_steps t u → call_steps s u.
Proof. intros Hs <-. by eapply rtc_l. Qed.
Lemma two_calls : call_steps (LimiterRuns.idle 7 ∅) two_returned.
Proof.
  eapply (next_state _ _ (run_at 0 ∅ [] ∅ [LimiterRuns.Begin] [])); [apply LimiterRuns.arrives|reflexivity|].
  eapply (next_state _ _ (run_at 1 ∅ [] ∅ [LimiterRuns.Missed] []));
    [apply (LimiterRuns.misses_it _ _ _ 0); reflexivity|reflexivity|].
  eapply (next_state _ _ (run_at 1 ∅ [] ∅ [LimiterRuns.Missed; LimiterRuns.Begin] []));
    [apply LimiterRuns.arrives|reflexivity|].
  eapply (next_state _ _ (run_at 1 ∅ [100000000] ∅ [LimiterRuns.Made 0 7; LimiterRuns.Begin] []));
    [apply (LimiterRuns.makes _ _ _ 0); reflexivity|reflexivity|].
  eapply (next_state _ _ (run_at 1 known [100000000] ∅ [LimiterRuns.Returned true; LimiterRuns.Begin] [reading]));
    [apply (LimiterRuns.publishes _ _ _ 0 0 7); reflexivity|reflexivity|].
  eapply (next_state _ _ (run_at 1 known [100000000] ∅ [LimiterRuns.Returned true; LimiterRuns.Found 0] [reading]));
    [apply (LimiterRuns.finds _ _ _ 1 0); reflexivity|reflexivity|].
  eapply (next_state _ _ (run_at 1 known [100000000] {[0%nat]} [LimiterRuns.Returned true; LimiterRuns.Locked 0] [reading]));
    [apply (LimiterRuns.locks _ _ _ 1 0); [reflexivity|by apply (bool_decide_unpack _)]|reflexivity|].
  eapply (next_state _ _ (run_at 1 known [100000000] {[0%nat]} [LimiterRuns.Returned true; LimiterRuns.Elapsed 0 7] [reading]));
    [apply (LimiterRuns.reads_since _ _ _ 1 0); reflexivity|reflexivity|].
  eapply (next_state _ _ (run_at 1 known [200000000] {[0%nat]}
                            [LimiterRuns.Returned true; LimiterRuns.Decided 0 7 7 true] [reading]));
    [apply (LimiterRuns.decides _ _ _ 1 0 7 (shared 100000000) true (shared 200000000)); reflexivity|reflexivity|].
  eapply (next_state _ _ (run_at 1 known [200000000] {[0%nat]}
                            [LimiterRuns.Returned true; LimiterRuns.Stored 0 true] [reading; reading]));
    [apply (LimiterRuns.stores _ _ _ 1 0 7 7 true); reflexivity|reflexivity|].
  eapply (next_state _ _ two_returned); [apply (LimiterRuns.unlocks _ _ _ 1 0 true); reflexivity|reflexivity|].
  apply rtc_refl.
Qed.
Lemma interleaved_is_serial_witness :
  ∃ s : LimiterRuns.Run pointer_cache,
    (LimiterRuns.log s).*2 = [true; true]
    ∧ (RateLimit.serve limiter "1.2.3.4" (LimiterRuns.log s).*1 (∅ : limiter_cache)).1 = [true; true].
Proof.
  exists two_returned. split; [reflexivity|].
  refine (eq_trans (proj1 (LimiterRuns.interleaved_is_serial (peek:=peek_pointer) (vpeek:=peek_limiter) limiter "1.2.3.4"
    _ _ limiter_fits limiter_limited 7 ∅ _ _ ∅ two_returned _ two_calls _ _)) _).
  - vm_compute. discriminate.
  - vm_compute. discriminate.
  - lia.
  - reflexivity.
  - reflexivity.
  - vm_compute. lia.
  - reflexivity.
  - reflexivity.
Defined.
Lemma simultaneous_first_requests_witness :
  (RateLimit.Burst rate_cfg = 2)
  ∧ ∃ s : LimiterRuns.Run pointer_cache,
      rtc (LimiterRuns.step limiter "1.2.3.4") (LimiterRuns.idle 7 ∅) s
      ∧ RateLimit.accepted (LimiterRuns.log s).*2 = 50.
Proof.
  split; [reflexivity|]. assert (E : peek_pointer ∅ "1.2.3.4" = None) by reflexivity.
  destruct (LimiterRuns.simultaneous_first_requests (peek:=peek_pointer) limiter "1.2.3.4" 7 50 ∅ E)
    as (s & Hr & _ & _ & Ha). by exists s.
Defined.

(** ** The zone updater: redis lists one zone, and then another *)
Definition lists_zones (zs : list string) : MemRedis :=
  {| m_str := ∅; m_set := {[zonesKey := list_to_set zs]} |}.
Abbreviation updater := (Updater.Updater (T:=AList.t) (RS:=MemRedis) (RC:=gmap string AnyRRSet)
                           (ZC:=gmap string (Zone AList.t)) (CK:=Z)).
Definition updater0 : updater := Updater.NewDataHandler (lists_zones ["example.com."]) ∅ ∅ 1000.
Abbreviation updater_steps calm := (rtc (Updater.step (rset:=set_of) calm)).
Lemma updater_run : ∃ u : updater, updater_steps true updater0 u ∧ Updater.settled u.
Proof.
  eexists. split.
  - eapply rtc_l; [by apply Updater.subscribes; [|intros _; left]|]. eapply rtc_l; [by apply Updater.reload_tick|].
    eapply rtc_l; [eapply Updater.reads_list; [reflexivity|vm_compute; reflexivity|intros _; reflexivity]|].
    eapply rtc_l; [eapply Updater.replaces; reflexivity|]. eapply rtc_l; [by apply Updater.clears|]. apply rtc_refl.
  - by split_and!.
Qed.
Lemma settled_is_current_witness :
  ∃ u : updater, updater_steps true updater0 u ∧ Updater.current (rset:=set_of) u.
Proof.
  destruct updater_run as (u & Hr & Hs). exists u. split; [exact Hr|].
  exact (Updater.settled_is_current (rset:=set_of) (rstr:=λ s k, m_str s !! k) _ _ _ _ u Hr Hs).
Defined.
Lemma update_lost_witness :
  ∃ u : updater, updater_steps false updater0 u ∧ Updater.settled u
    ∧ dh_redis (Updater.data u) = lists_zones ["example.com."; "example.org."].
Proof.
  assert (E : redis_SMembers zonesKey (dh_redis (Updater.data updater0))
              = (Ok ["example.com."], dh_redis (Updater.data updater0))) by (vm_compute; reflexivity).
  destruct (Updater.update_lost (rset:=set_of) (rstr:=λ s k, m_str s !! k) _ _ _ _ _ _
    (lists_zones ["example.com."; "example.org."]) E) as (u & Hr & Hs & Hd & _).
  - intros Heq. assert (Hin : "example.org." ∈ set_of (lists_zones ["example.com."; "example.org."]) zonesKey)
      by (by apply (bool_decide_unpack _)).
    assert (Hn : "example.org." ∉ set_of (dh_redis (Updater.data updater0)) zonesKey)
      by (by apply (bool_decide_unpack _)).
    rewrite Heq in Hin. by apply Hn.
  - exists u. split_and!; [exact Hr|exact Hs|exact Hd].
Defined.

(** ** Concurrent requests for a zone *)
Abbreviation load_steps :=
  (rtc (ZoneLoads.step (time:=id) cfg fqdn keep_config no_rr no_pk (λ _, 1) (λ _ _ _, None) "example.com.")).
Abbreviation load_run := (ZoneLoads.Run (T:=AList.t) (RS:=MemRedis) (RC:=gmap string AnyRRSet)
                            (ZC:=gmap string (Zone AList.t)) (CK:=Z)).

(** ** Concurrent requests for a record set *)
Abbreviation set_flight :=
  (SingleFlight.step (SingleFlight.look_rrset cfg type_name "example.com." "www" dns.TypeA)
     (SingleFlight.read_pieces type_name IP_RRSet "example.com." "www" dns.TypeA)
     (SingleFlight.goes_on (time:=id))).
Abbreviation set_idle := (SingleFlight.idle (B:=res StoreError AnyRRSet) (A:=res StoreError AnyRRSet) dh0).
Lemma rrset_answers_held_witness :
  ∃ r ans t w, rtc set_flight set_idle r
    ∧ from_option (SingleFlight.answer id) None (SingleFlight.callers r !! 0%nat) = Some ans
    ∧ (t, w) ∈ SingleFlight.log r ∧ typed (R:=IP_RRSet) ans
      = DataHandlerFacts.decode IP_RRSet (m_str (dh_redis w) !! zoneLocationRRSetKey type_name "example.com." "www" dns.TypeA).
Proof.
  destruct (SingleFlight.call_alone (SingleFlight.look_rrset cfg type_name "example.com." "www" dns.TypeA)
    (SingleFlight.read_pieces type_name IP_RRSet "example.com." "www" dns.TypeA) id (SingleFlight.goes_on (time:=id))
    0%nat set_idle eq_refl eq_refl) as (r & c & Hr & _ & _ & Hc & Ha).
  destruct (SingleFlight.rrset_answers_held (rstr:=λ s k, m_str s !! k) (rset:=set_of) (time:=id) cfg type_name
    IP_RRSet "example.com." "www" dns.TypeA dh0 r 0%nat c _ ltac:(vm_compute; reflexivity) Hr Hc Ha)
    as (b & j & t & w & _ & Hin & _ & _ & H).
  eexists r, _, t, w. split_and!; [exact Hr|rewrite Hc; exact Ha|exact Hin|].
  destruct H as [H|(e & He & Hne & _)]; [exact H|]. exfalso. revert He. simpl.
  destruct (m_str (dh_redis w) !! _); intros [= <-]. by apply Hne.
Defined.
(** Redis after the change: one location less, and a configuration. *)
Definition content1 : MemRedis := {|
  m_str := {[ zoneConfigKey "example.com." := "{}" ]};
  m_set := {[ zoneLocationsKey "example.com." := {["@"]} ]} |}.
Lemma torn_zone_stays_witness :
  ∃ (r : load_run) now z, load_steps (ZoneLoads.idle dh0) r
    ∧ ZoneLoads.callers r !! 1%nat = Some (ZoneLoads.Returned (ZoneLoads.Cached now z))
    ∧ "www" ∈ LocationsList z ∧ "www" ∉ set_of (dh_redis (ZoneLoads.dh r)) (zoneLocationsKey "example.com.").
Proof.
  destruct (ZoneLoads.torn_zone_stays (time:=id) (rstr:=λ s k, m_str s !! k) (rset:=set_of) cfg fqdn keep_config no_rr
    no_pk (λ _, 1) (λ _ _ _, None) "example.com." (λ z c, lookup_insert_eq _ _ _) dh0
    (elements (set_of content0 (zoneLocationsKey "example.com."))) content1 "{}")
    as (r1 & r & now & z & serial & (Hr1 & Hrs & _) & _ & Hr & _ & Hc & Hl & _).
  - reflexivity.
  - reflexivity.
  - reflexivity.
  - intros serial. reflexivity.
  - intros ck. cbn. lia.
  - exists r, now, z. split; [|split; [exact Hc|split]].
    + etrans; [exact Hr1|]. clear - Hr. induction Hr as [|a b c [Hab _] _ IH]; [done|]. by eapply rtc_l.
    + rewrite Hl. apply elem_of_elements. apply (bool_decide_unpack _). vm_compute. exact I.
    + destruct (ZoneLoads.calm_contents cfg fqdn keep_config no_rr no_pk (λ _, 1) (λ _ _ _, None) "example.com." r1 r
        (zoneLocationsKey "example.com.") Hr) as [_ ->].
      rewrite Hrs. apply (bool_decide_unpack _). vm_compute. exact I.
Defined.

(** ** The health checker with one worker *)
Definition one_worker : HealthConfig := {|
  hl_Enable := true; hl_MaxRequests := 1; hl_MaxPendingRequests := 10; hl_UpdateInterval := 60;
  hl_CheckInterval := 60 |}.
Abbreviation service_runs :=
  (runs cfg type_name fqdn keep_config no_rr no_pk (λ _, 1) (λ _ _ _, None) encode_item decode_item ip_text
     no_ip 0 one_worker).
Abbreviation service := (Service (T:=AList.t) (RS:=MemRedis) (SRS:=MemRedis) (SC:=gmap string HealthCheckItem)).
Lemma stopped (calls_start : bool) : ∃ s, service_runs calls_start no_zones sh0 s ∧ shut_at s = StoppingPool.
Proof.
  eexists. split.
  - eapply rtc_l; [apply call_ShutDown; [by destruct calls_start|by destruct calls_start]|]. apply rtc_refl.
  - by destruct calls_start.
Qed.

Lemma never_started_witness :
  ∃ s, service_runs false no_zones sh0 s ∧ shut_at s = StoppingPool ∧ WorkerPool.handled (dispatcher s) = [].
Proof.
  destruct (stopped false) as (s & Hr & Hs). exists s. split; [exact Hr|]. split; [exact Hs|].
  exact (proj1 (never_started cfg type_name fqdn keep_config no_rr no_pk (λ _, 1) (λ _ _ _, None) encode_item
    decode_item ip_text no_ip 0 one_worker no_zones sh0 s Hr)).
Defined.
Lemma service_stops_witness :
  ∃ s s', service_runs true no_zones sh0 s ∧ shut_at s = StoppingPool
          ∧ service_runs true no_zones sh0 s' ∧ start_at s' = StartReturned.
Proof.
  destruct (stopped true) as (s & Hr & Hs).
  destruct (proj2 (service_stops cfg type_name fqdn keep_config no_rr no_pk (λ _, 1) (λ _ _ _, None) encode_item
    decode_item ip_text no_ip 0 one_worker no_zones sh0 s Hr)) as (s' & Hr' & Hst & _).
  - rewrite Hs. discriminate.
  - rewrite Hs. discriminate.
  - exists s, s'. split_and!; [exact Hr|exact Hs|unfold runs in *; etrans; [exact Hr|exact Hr']|exact Hst].
Defined.

(** ** The process of the health checker, enabled by its file *)
Definition enable (file : string) (c : HealthcheckerConfig) : HealthcheckerConfig * option string :=
  ({| hk_RedisData := hk_RedisData c; hk_RedisStat := hk_RedisStat c; hk_Healthcheck := one_worker |}, None).
Abbreviation hk_steps :=
  (rtc (HealthMain.hk_step (T:=AList.t) (RS:=MemRedis) (RC:=gmap string AnyRRSet) (ZC:=gmap string (Zone AList.t)) (CK:=Z)
    (SRS:=MemRedis) (SC:=gmap string HealthCheckItem) type_name fqdn keep_config no_rr no_pk (λ _, 1) (λ _ _ _, None)
    encode_item decode_item ip_text no_ip 0 enable (λ _, None) (λ _, no_zones) (λ _, sh0))).
Definition hk0 : HealthMain.HkProcess :=
  HealthMain.hk_started (hk_Start enable (λ _, None) (λ _, no_zones) (λ _, sh0) (Ok "{}") healthcheckerDefaultConfig).

(** ** The status handler is shut down: at once, and while redis cannot be reached *)
Definition shut_at_once : Lifecycle.Life := Lifecycle.set_shut true Lifecycle.Waiting Lifecycle.started.
Lemma stuck_life :
  ∃ s, Lifecycle.reached 1 s ∧ Lifecycle.shut_at s = Lifecycle.Waiting ∧ Exists Lifecycle.stuck (Lifecycle.subs s).
Proof.
  eexists. split; [|split].
  - eapply rtc_l; [by eapply Lifecycle.adds|]. eapply rtc_l; [by eapply Lifecycle.spawns|].
    eapply rtc_l; [by eapply (Lifecycle.initial 1 _ 0 _ false)|]. eapply rtc_l; [by apply Lifecycle.ShutDown|].
    eapply rtc_l; [by apply Lifecycle.quits|]. eapply rtc_l; [by eapply Lifecycle.sends|]. apply rtc_once.
    eapply (Lifecycle.takes_quit 1 _ 0); [reflexivity|reflexivity|reflexivity|apply Redis.Subscribe.take_quit|reflexivity..].
  - reflexivity.
  - by constructor.
Qed.
Lemma shutdown_fate_witness :
  (∃ s, rtc (Lifecycle.step 1) shut_at_once s ∧ Lifecycle.shut_at s = Lifecycle.Returned ∧ length (Lifecycle.subs s) = 1%nat)
  ∧ ∃ s, Lifecycle.reached 1 s ∧ ∀ s', rtc (Lifecycle.step 1) s s' → Lifecycle.shut_at s' ≠ Lifecycle.Returned.
Proof.
  split.
  - destruct (proj1 (Lifecycle.shutdown_fate 1 ltac:(lia) shut_at_once
      (rtc_once _ _ (Lifecycle.ShutDown 1 Lifecycle.started eq_refl)) eq_refl)) as (s & Hr & Hs & Hl & _).
    + constructor.
    + exists s. split; [exact Hr|]. split; [exact Hs|exact Hl].
  - destruct stuck_life as (s & Hr & Hw & Hst). exists s. split; [exact Hr|].
    exact (proj2 (Lifecycle.shutdown_fate 1 ltac:(lia) s Hr Hw) Hst).
Defined.

(** ** A walk over an address with a positive [down_count] *)
Definition positive_set : IP_RRSet := {|
  IP_Generic := ttl300; IP_FilterConfig := IP_FilterConfig www_A;
  IP_HealthCheckConfig := {| HC_Protocol := "http"; HC_Uri := "/"; HC_Port := 80; HC_Timeout := 100;
    HC_UpCount := 3; HC_DownCount := 3; HC_Enable := true |};
  IP_Data := [ip_rr 1 "1.1.1.1" []] |}.
Definition positive_item : HealthCheckItem :=
  new_item ip_text empty_str "www.example.com." positive_set (ip_rr 1 "1.1.1.1" []).
Definition decode_positive (s : string) : HealthCheckItem :=
  match s with
  | String b r => let n := Z.of_nat (length (bytes r)) in
                  with_status (if decide (b = "-"%char) then - n else n) positive_item
  | EmptyString => positive_item
  end.
Lemma positive_json : json_keeps encode_item decode_positive positive_item 0.
Proof.
  intros st err. eexists. split; [reflexivity|]. unfold decode_positive. cbv zeta.
  rewrite bytes_str, length_replicate. unfold checked, with_check, with_status. simpl.
  destruct (Z.ltb_spec st 0); simpl; f_equal; lia.
Qed.
Abbreviation positive_key := (statPrefix +:+ item_key "www.example.com." "1.1.1.1").
(** Three successful checks. *)
Definition sh_up : SH MemRedis (gmap string HealthCheckItem) := {|
  sh_redis := {| m_str := {[ positive_key := "+xxx" ]}; m_set := ∅ |}; sh_cache := ∅ |}.
Lemma transfer_ip_spec_witness :
  ∃ j', m_str (sh_redis (transfer_ip encode_item decode_positive ip_text 60 empty_str "www.example.com."
                 positive_set (ip_rr 1 "1.1.1.1" []) sh_up).2) !! positive_key = Some j'
        ∧ decode_positive j' = positive_item ∧ Status (decode_positive "+xxx") = 3.
Proof.
  pose proof (transfer_ip_spec (rstr:=λ s k, m_str s !! k) (rset:=set_of) encode_item decode_positive ip_text
    mem_answers (λ _ _ _, eq_refl) (λ _ _ _ _ _, eq_refl) 60 empty_str "www.example.com." positive_set
    (ip_rr 1 "1.1.1.1" []) 3 0 "+xxx" sh_up) as H. cbv zeta in H.
  destruct H as (j' & Hj & Hd & _).
  - lia.
  - vm_compute. split; [discriminate|reflexivity].
  - exact positive_json.
  - reflexivity.
  - reflexivity.
  - exists j'. split_and!; [exact Hj|exact Hd|reflexivity].
Defined.
