(* ===== verification/ExamplesApi.v ===== *)
(** * The theorems on the API at work on a small database

    MySQL in memory: the tables themselves, with the meaning of the statements as
    the server; identifiers count up and hashes are marked passwords. *)
From S2P Require Import Prelude GoStrings Redis DnsTypes Store Sql Database DatabaseFacts DatabaseIndex Api ApiServer.
Local Open Scope Z_scope.

Definition engine : Engine := {|
  same x y := bool_decide (x = y); like _ _ := true; before _ _ := true; json_normal s := s |}.
Abbreviation MemDB := (DB * Z)%type.
Definition affected (st : exec) (db : DB) : Z := Z.of_nat (length (selected engine st db)).
#[export] Instance mem_mysql : MySQL MemDB := {
  sql_QueryRow q s := (match eval engine s.1 q with row :: _ => Ok row | [] => Err ErrNoRows end, s);
  sql_Query q s := (if valid q then Ok (eval engine s.1 q) else Err (MySQLError 1064), s);
  sql_Exec st s := if duplicate engine st s.1 then (Err (MySQLError 1062), s)
                   else (Ok (affected st s.1), (apply engine st s.1, s.2));
}.
#[export] Instance mem_mysql_laws : MySQLLaws MemDB engine fst.
Proof.
  split.
  - intros q s. simpl. split; [done|]. destruct (eval engine s.1 q); [done|]. left.
  - intros q s. simpl. split; [done|]. by destruct (valid q).
  - intros st s. simpl. destruct (duplicate engine st s.1) eqn:E; simpl; [done|].
    unfold affected. split_and!; [done|done|lia|lia|by destruct st].
  - simpl. split; [intros x|intros x y|intros x y z]; rewrite !bool_decide_eq_true; congruence.
Qed.
#[export] Instance mem_entropy : Entropy MemDB := {
  NewObjectId s := ("id" +:+ pretty s.2, (s.1, s.2 + 1));
  Int63 s := (s.2, (s.1, s.2 + 1));
  HashPassword p s := (Ok ("hash of " +:+ p), s);
  CheckPasswordHash p h := bool_decide (h = "hash of " +:+ p);
}.
#[export] Instance mem_entropy_laws : EntropyLaws MemDB fst.
Proof.
  split; [done..|]. intros p s. split; [done|]. simpl. intros h [= <-]. by apply bool_decide_eq_true.
Qed.

Definition db0 : MemDB := (λ _, [], 7).
Definition ann : User := {| u_Id := empty_str; u_Email := "ann@test"; u_Password := "secret";
                            u_Status := UserStatusPending |}.
Definition bob : User := {| u_Id := empty_str; u_Email := "bob@test"; u_Password := "hidden";
                            u_Status := UserStatusActive |}.
Definition code0 : string := str (replicate 40 "0"%char ++ replicate 10 "0"%char).

Definition s1 : MemDB := (AddUser ann db0).2.
Definition s2 : MemDB := (AddVerification 100 "ann@test" VerificationTypeSignup s1).2.
Definition s3 : MemDB := (Verify (match (AddVerification 100 "ann@test" VerificationTypeSignup s1).1 with
                                  | Some (Ok c) => c | _ => empty_str end) s2).2.

Lemma signup_verify_login_witness :
  is_ok (login "ann@test" "secret" s1).1 = false
  ∧ (login "ann@test" "secret" s3).1 = Ok {| id_Id := "id7"; id_Email := "ann@test" |}.
Proof.
  set (code := match (AddVerification 100 "ann@test" VerificationTypeSignup s1).1 with
               | Some (Ok c) => c | _ => empty_str end).
  assert (E1 : (AddUser ann db0).1 = Ok "id7") by (vm_compute; reflexivity).
  assert (E2 : (AddVerification 100 "ann@test" VerificationTypeSignup s1).1 = Some (Ok code))
    by (vm_compute; reflexivity).
  assert (E3 : (Verify code s2).1 = Ok ()) by (vm_compute; reflexivity).
  destruct (signup_verify_login (engine:=engine) (tables:=fst) 100 ann "id7" code db0 eq_refl E1 E2 E3)
    as (Hno & Hyes & _).
  split; [exact (proj1 (Hno "secret"))|apply Hyes; vm_compute; reflexivity].
Defined.

(** Ann owns a zone; Bob asks for it. *)
Definition ex_zone : Zone := {| z_Id := empty_str; z_Name := "example.com."; z_Enabled := true;
                                z_Dnssec := false; z_CNameFlattening := false |}.
Definition s4 : MemDB := (AddZone "ann@test" ex_zone (AddUser bob s3).2).2.
Definition bob_ctx : Context := {|
  Identity := Some {| id_Id := "id0"; id_Email := "bob@test" |};
  Param p := if bool_decide (p = "zone") then "example.com." else "www" |}.

Lemma AddZone_spec_witness :
  owns (engine:=engine) s4.1 "ann@test" "example.com."
  ∧ is_ok (AddZone "bob@test" ex_zone s4).1 = false.
Proof.
  assert (E : is_ok (AddZone "ann@test" ex_zone (AddUser bob s3).2).1 = true) by (vm_compute; reflexivity).
  destruct (AddZone_spec (engine:=engine) (tables:=fst) "ann@test" ex_zone (AddUser bob s3).2) as [Hok _].
  destruct (AddZone "ann@test" ex_zone (AddUser bob s3).2).1 as [id|e] eqn:Eid; [|discriminate E].
  destruct (Hok id eq_refl) as (_ & Ho & _). split; [exact Ho|].
  destruct Ho as (u & z & _ & Hz & _).
  apply (AddZone_spec (engine:=engine) (tables:=fst) "bob@test" ex_zone s4). by exists z.
Defined.

Lemma bob_owns_nothing : ¬ owns (engine:=engine) s4.1 "bob@test" "example.com.".
Proof.
  intros (u & z & [Hu Hue] & [Hz Hzn] & E).
  assert (Eu : forallb (λ u, negb (holds engine u (Equals "Email" (VStr "bob@test")))
      || forallb (λ z, negb (bool_decide (column "User_Id" z = column "Id" u))) (s4.1 TZone)) (s4.1 TUser) = true)
    by (vm_compute; reflexivity).
  rewrite forallb_forall in Eu. specialize (Eu u (proj1 (list_elem_of_In _ _) Hu)). rewrite Hue in Eu.
  cbn [negb orb] in Eu. rewrite forallb_forall in Eu.
  specialize (Eu z (proj1 (list_elem_of_In _ _) Hz)). by rewrite bool_decide_eq_true_2 in Eu.
Qed.
Lemma serve_zones_protects_witness :
  (serve_zones bob_ctx DELETE_zone s4).2.1 = s4.1
  ∧ ∃ resp, (serve_zones bob_ctx DELETE_zone s4).1 = Some resp ∧ http.StatusBadRequest ≤ Code resp.
Proof.
  apply (serve_zones_protects (engine:=engine) (tables:=fst) bob_ctx {| id_Id := "id0"; id_Email := "bob@test" |});
    [reflexivity|reflexivity|apply bob_owns_nothing].
Defined.

(** ** Requests to the server: each says which route it fits and what is bound *)
Record Req := {
  rq_Method : string; rq_Path : string; rq_Param : string → string; rq_Token : string;
  rq_User : res string NewUser; rq_Login : res string loginCredentials; rq_Zone : res string NewZoneRequest;
}.
#[export] Instance req_gin : Gin Req := {
  Method := rq_Method;
  find_route routes rq :=
    '(i, _) ← list_find (λ r, r = (rq_Method rq, rq_Path rq)) routes; Some (i, rq_Param rq);
  no_route _ := ErrorResponse http.StatusNotFound "404 page not found";
  bind_ListRequest _ := Ok {| Start := 0; Count := 10; Q := empty_str |};
  bind_NewZone := rq_Zone;
  bind_UpdateZone _ := Err "unbound"; bind_NewLocation _ := Err "unbound";
  bind_UpdateLocation _ := Err "unbound"; bind_NewRecordSet _ := Err "unbound";
  bind_UpdateRecordSet _ := Err "unbound";
  bind_NewUser := rq_User; bind_verification _ := Err "unbound"; bind_loginCredentials := rq_Login;
}.
#[export] Instance req_gin_laws : GinLaws Req.
Proof.
  split. intros routes rq i ps Hf. cbn in Hf. apply bind_Some in Hf as ([j x] & Hf & [= <- <-]).
  apply list_find_Some in Hf as (Hj & Hx & _). exists (rq_Path rq). by rewrite Hj, Hx.
Qed.
Definition claims_of (e i : string) : gmap string string := PayloadFunc (Some {| id_Id := i; id_Email := e |}).
(** Tokens for two users. *)
#[export] Instance req_jwt : Jwt Req := {
  check_token rq :=
    if decide (rq_Token rq = "ann's") then Ok (claims_of "ann@test" "id7")
    else if decide (rq_Token rq = "bob's") then Ok (claims_of "bob@test" "id0")
    else Err (http.StatusUnauthorized, "auth header is empty");
  new_token claims rq :=
    if decide (claims = claims_of "ann@test" "id7") then Ok ("ann's", "in an hour") else Err "no token";
  renew_token _ := Err "no token";
  auth_message _ := "incorrect Username or Password";
  brings rq t := rq_Token rq = t;
}.
#[export] Instance req_jwt_laws : JwtLaws Req.
Proof.
  split.
  - intros rq code msg. simpl. repeat case_decide; [done..|]. intros [= <- _]. vm_compute. discriminate.
  - intros claims rq token expire rq' Hn Hb. simpl in *. case_decide; [|done]. injection Hn as <- _. subst claims.
    rewrite decide_True by done. by eexists.
Qed.

Definition request (m p token : string) : Req := {|
  rq_Method := m; rq_Path := p; rq_Param q := if bool_decide (q = "zone") then "example.com." else empty_str;
  rq_Token := token; rq_User := Ok {| nu_Email := "ann@test"; nu_Password := "secret" |};
  rq_Login := Ok {| lc_Email := "ann@test"; lc_Password := "secret" |};
  rq_Zone := Ok {| nz_Name := "example.com."; nz_Enabled := true; nz_Dnssec := false; nz_CNameFlattening := false |} |}.
Definition db_text (e : DbError) : string := "database error".
Definition redis_text (e : RedisError) : string := "redis error".
Definition queued (q : string) (i : StreamItem) : M unit (res RedisError string) := λ s, (Ok "1-0", s).
Abbreviation server := (ServeHTTP (S:=MemDB) (R:=unit) db_text redis_text queued).

Definition bob_deletes : Req := request "DELETE" "/zones/:zone" "bob's".
Lemma api_guards_tables_witness :
  (server 100 bob_deletes (s4, ())).2.1.1 = s4.1
  ∧ ∃ resp, (server 100 bob_deletes (s4, ())).1 = Some resp ∧ http.StatusBadRequest ≤ Code resp.
Proof.
  assert (Er : route_of bob_deletes = Some (EZones (λ _, DELETE_zone), rq_Param bob_deletes)) by reflexivity.
  assert (Hn : ¬ may_use (engine:=engine) s4.1 bob_deletes (λ _, DELETE_zone) (rq_Param bob_deletes)).
  { intros (id & (claims & Hc & Hid) & Ho). vm_compute in Hc. injection Hc as <-. vm_compute in Hid.
    injection Hid as <-. exact (bob_owns_nothing (Ho eq_refl)). }
  destruct (proj2 (api_guards_tables (engine:=engine) (tables:=fst) db_text redis_text queued 100 bob_deletes (s4, ()))
    _ _ Er Hn) as (E & _ & Hr).
  split; [exact E|exact Hr].
Defined.

Definition ann_logs_in : Req := request "POST" "/auth/login" empty_str.
Definition ann_deletes : Req := request "DELETE" "/zones/:zone" "ann's".

(** From an empty database: Ann signs up and creates her zone. *)
Definition history : list Req := [request "POST" "/auth/signup" empty_str].
Definition after_history : MemDB := (serve_all db_text redis_text queued 100 history (db0, ())).2.1.
Definition ann_ctx : Context := {|
  Identity := Some {| id_Id := "id7"; id_Email := "ann@test" |}; Param _ := "example.com." |}.
Definition ann_zone : NewZoneRequest :=
  {| nz_Name := "example.com."; nz_Enabled := true; nz_Dnssec := false; nz_CNameFlattening := false |}.
Lemma posted_is_answered_witness :
  (addZone ann_ctx (Ok ann_zone) after_history).1 = Some (SuccessResponse http.StatusCreated "successful")
  ∧ answered (getZone ann_ctx (addZone ann_ctx (Ok ann_zone) after_history).2).1
      (BZone {| gz_Name := "example.com."; gz_Enabled := true; gz_Dnssec := false; gz_CNameFlattening := false |}).
Proof.
  assert (E : (addZone ann_ctx (Ok ann_zone) after_history).1
              = Some (SuccessResponse http.StatusCreated "successful")) by (vm_compute; reflexivity).
  split; [exact E|].
  apply (proj1 (posted_is_answered (engine:=engine) (tables:=fst) db_text redis_text queued 100 history (db0, ())
    ann_ctx ann_ctx (SuccessResponse http.StatusCreated "successful") (addZone ann_ctx (Ok ann_zone) after_history).2
    (λ _, eq_refl) eq_refl eq_refl) ann_zone E eq_refl); [discriminate|reflexivity].
Defined.
